(* ===== verification/_CoqProject ===== *)
-Q . S2P
Prelude.v
GoStrings.v
Substrings.v
Hashing.v
MountOptions.v
OptionStore.v
Regex.v
MountOverrides.v
VolumeIds.v
Strconv.v
IpAddresses.v
Monad.v
ApiRequests.v
ApiObjects.v
ClusterObjects.v
Compatibility.v
Credentials.v
Login.v
WaitForLeader.v
Objects.v
Effects.v
ApiOps.v
ProcMounts.v
Cluster.v
Frontends.v
Mounts.v
Leader.v
Volume.v
VolumeRuns.v
Demo.v
MountCounts.v
NfsMounts.v
Nfs.v
ApiStore.v
GarbageCollector.v
VolumeDelete.v
CapacityTracker.v
Snapshots.v
Constructors.v
Handles.v
Controller.v
Semaphores.v
ControllerRuns.v
VolumeCapacity.v
NodeServer.v
NodeRuns.v
Plugin.v
