(* ===== verification/Prelude.v ===== *)
(** * A verified model of the WEKA CSI driver (csi-wekafs)

    The driver serves the Container Storage Interface for WEKA filesystems: its
    controller service creates, deletes, expands and snapshots volumes through
    the REST API of a WEKA cluster, its node service mounts them into pods, and
    a garbage collector empties the trash that deleted directory volumes leave.
    A small gate in front of each sidecar of the controller waits for the pod
    to be the leader.  This library translates that code (src/pkg/wekafs with
    its package apiclient, and src/cmd) into executable definitions and proves what makes it correct.
    Definitions keep the names of the source; a prefix such as [fs_] or
    [nfs_] stands for the receiver or the struct where names would clash.

    ** How the code is modelled

    - A Go function that only computes is a Rocq function.  [int64] is [Z]
      with [wrap64] after each operation that may overflow, strings are
      [string], maps are [gmap].  Ranging over a map takes its order from the
      class [MapOrder]; theorems hold for every order.
    - A method that mutates its receiver, returns an [error] or panics is a
      computation of the monad [M] of Monad.v: from a state to a [result]
      ([Ok], [Err], [Panic]) and the state it leaves, also when it fails.
      [both] and [finally] are [defer].
    - What the code asks of its surroundings (REST calls, system calls, the
      kernel mounter, /proc, the clock, semaphores, goroutines it starts) is an
      [event] of Effects.v with the type of its answer.  A run threads an
      arbitrary environment ([Env]) that answers, and records the [trace] of
      calls, latest first.  Theorems about runs quantify over all
      environments and are statements about traces and results.
    - Logging, tracing and the gRPC transport leave no trace in the model.

    ** The files

    Libraries: Prelude (integers, errors, results, tactics, hint databases),
    GoStrings, Substrings, Strconv, Hashing, Regex (what is used of strings,
    path/filepath, strconv, crypto/sha1, encoding, hash/fnv, regexp),
    IpAddresses (net, net/netip, and [Network] of apiclient/utils.go), Monad,
    Demo (environments for the witnesses).

    - MountOptions, OptionStore: mountoptions.go as values, and over a store of
      shared Go maps where aliasing shows.
    - MountOverrides: mountoptoverrides.go and the overrides of nodeserver.go.
    - VolumeIds: utilities.go and ascii.go, identifiers and names.
    - ApiRequests: apiclient.go, apiendpoint.go, requests.go, errors.go:
      endpoints, rotation, back-off and the request loop over a network.
    - Login: login.go and what it reads through cluster.go and node.go: tokens,
      refresh, roles, and the lock that a log-in holds.
    - ApiObjects, ClusterObjects, Compatibility: the objects and requests of
      the API with comparison and validation by reflection (utils.go),
      compatibility.go.
    - Objects, Effects, ApiOps: volumes, snapshots, configuration; events;
      operations of filesystem.go, snapshot.go, quota.go, resolvepath.go.
    - Cluster, Frontends: cluster.go and interfacegroup.go: the container of
      the host, the interface file of the WEKA kernel driver, the address to
      mount NFS from.
    - Nfs: nfs.go: permissions, client groups, rules, registration of a node.
    - Credentials, ApiStore: credentials.go and the store of API clients of
      wekafs.go, with goroutines that ask it at the same time.
    - ProcMounts, Mounts, MountCounts, NfsMounts: /proc/mounts, the
      reference-counted mounters (wekafsmount.go, wekafsmounter.go,
      nfsmount.go, nfsmounter.go); the class [AnyMount] is what the counting
      needs of a transport, both transports are instances of it.
    - Volume, VolumeRuns, VolumeDelete, VolumeCapacity: volume.go.
    - Snapshots, Constructors, Handles: snapshot.go, snapshotconstructors.go,
      volumeconstructors.go.
    - CapacityTracker, Controller, ControllerRuns: controllerserver.go.
    - Semaphores: the limits on concurrent requests of controllerserver.go and
      nodeserver.go, as steps of goroutines, over any weighted semaphore (the
      class [Weighted] with its laws).
    - GarbageCollector: gc.go, as steps of a system of goroutines.
    - NodeServer, NodeRuns: nodeserver.go.
    - WaitForLeader: cmd/wait-for-leader as a state machine over what it
      observes.  Leader: leader election of wekafs.go, the leader file and the
      server of server.go, and the pod in which the driver and the gate of a
      sidecar run side by side.
    - Plugin: flags and start-up (cmd/wekafsplugin, driverconfig.go,
      [Run] and [initManager] of wekafs.go), node labels, identityserver.go.

    ** What the theorems show

    - Safety of runs, whatever the cluster and the system answer: a filesystem
      is deleted only after its snapshots were listed and none was left, unless
      only the second of two lookups of the run finds it; semaphore slots that a
      request takes are released on every path, and mounts too except those
      that the mounter fails to unmount, which stay held (Effects, [balanced]:
      only a successful unmount is a release); filesystems only grow;
      unpublishing removes only the target, and that unmounted; moving a volume
      to the trash touches only its directory.
    - Functional behaviour: a published volume is bound from its own
      directory; a changed capacity, where quotas are in use, is in a quota on
      the volume's own filesystem and inode; the node's address is admitted by
      a rule of the client group; merging of mount options in any map order.
    - Invariants and refinement over interleavings: provisioned capacity stays
      within the filesystem, under the conditions stated there; reference
      counts refine a multiset of users; the collector forgets no volume and
      its work is bounded, apart from volumes it was told to leave or that
      locar left ([overlooked]); API clients are shared exactly by the hash of
      their credentials; no more requests of an operation run than configured;
      the leader file is there only while the driver leads.
    - Leadership: a sidecar is started only for an elected driver that serves,
      one at a time, and is stopped exactly when the leader file was missing
      for the debounce period, within two ticks more; a leader that stepped
      down never serves again, and its listener is closed at the latest when
      [Serve] is called.
    - Log-in and start-up: a log-in that succeeds has checked the role, and
      blocks on its own lock only if the token of its own reply has run out by
      then; each mode gets to its loop with its services unless the manager
      refuses the runnable of the leader; a probe and the labels of the node
      agree.
    - Types: mount options stay well-formed under every operation.
    - Round trips: identifiers of volumes and snapshots and the objects rebuilt
      from them (for names without separators), clean mount options, quotas,
      frontend lines, node labels.
    - Bounds, termination, errors: requests settle within their attempts;
      scaling of SSD limits, statistics and reservations do not overflow in
      the stated ranges; outcomes of NFS mounts.
    - Equivalence: a rule of a client group contains exactly the addresses
      with its prefix; order of maps does not matter where stated.

    ** Bounds and fuel

    A loop that polls until a deadline takes its number of rounds from the
    class [Clock]; theorems hold for every number.  The retries of a request
    and of an NFS mount are the constants of the source.  Parsers recurse on
    the text, [parse_ipv6_loop] on the eight groups an address can have,
    [count_bits] on the 32 bits of a mask, [split_go] on the length of the
    text; none of them can run out.  The systems of processes (collector,
    store of clients, semaphores, capacity tracker, pod) are steps without a
    bound; a log-in may end [Blocked], in the state in which its goroutine waits
    for ever.

    ** What is assumed

    Besides the laws of the parameters (weighted semaphore, map order): the
    clock does not go back during a log-in ([Monotonic]).  The bound on
    provisioned capacity starts at the first successful refresh and assumes
    that requests do not shrink volumes, that a volume keeps its
    PersistentVolume while it exists, and that sums fit 64 bits; the code checks
    none of these, and a create request repeated for a half-made volume is not
    validated at all (CapacityTracker, [room] and the steps).

    ** Not modelled

    - otel.go, the metrics endpoint and the logging interceptor of server.go;
      the logs of the mounters and of the capacity tracker.
    - The texts of API errors, the masking of payloads in logs, encoding/json
      (a parameter of Login), the addresses of the host's interfaces and of
      routes (answers of the environment).
    - The runs of volumes and snapshots see the API through events; they are
      not composed with ApiRequests and Login, which model one request.
    - Time-outs of contexts; data races on maps read outside of their lock
      (unsynchronised reads are atomic steps, see the findings).

    Next: permissions of NFS as a contract of Nfs for NfsMounts, and the events
    of the API as requests of ApiRequests. *)
From stdpp Require Export base gmap strings list sorting.
From Stdlib Require Export Ascii ZArith Lia.

#[global] Open Scope Z_scope.

(** ** Go's fixed-width integers

    An [int64] (and [int] on the 64-bit platforms the driver is built for) is
    a [Z] in [[-2^63, 2^63)]; arithmetic that can leave the interval is
    followed by [wrap64]. *)

Definition wrap (w z : Z) : Z := (z + 2 ^ (w - 1)) mod 2 ^ w - 2 ^ (w - 1).
Definition uwrap (w z : Z) : Z := z mod 2 ^ w.

Definition wrap64 (z : Z) : Z := wrap 64 z.
Definition uwrap64 (z : Z) : Z := uwrap 64 z.

Definition in_int64 (z : Z) : Prop := - 2 ^ 63 <= z < 2 ^ 63.
Definition in_uint64 (z : Z) : Prop := 0 <= z < 2 ^ 64.

#[export] Instance in_int64_dec z : Decision (in_int64 z).
Proof. unfold in_int64. apply _. Defined.
#[export] Instance in_uint64_dec z : Decision (in_uint64 z).
Proof. unfold in_uint64. apply _. Defined.

Create HintDb wekafs.
Create Rewrite HintDb wekafs.

Lemma wrap64_id z : in_int64 z -> wrap64 z = z.
Proof.
  unfold in_int64, wrap64, wrap. intros H.
  replace (64 - 1) with 63 by lia.
  rewrite Z.mod_small; lia.
Qed.

Lemma wrap64_range z : in_int64 (wrap64 z).
Proof.
  unfold in_int64, wrap64, wrap. replace (64 - 1) with 63 by lia.
  pose proof (Z.mod_pos_bound (z + 2 ^ 63) (2 ^ 64) ltac:(lia)). lia.
Qed.

Lemma uwrap64_id z : in_uint64 z -> uwrap64 z = z.
Proof. unfold in_uint64, uwrap64, uwrap. intros. by apply Z.mod_small. Qed.

(** [int64(uint64(z))] is the identity on [int64]. *)
Lemma wrap64_uwrap64 z : wrap64 (uwrap64 z) = wrap64 z.
Proof.
  unfold wrap64, uwrap64, wrap, uwrap. f_equal.
  replace (64 - 1) with 63 by lia.
  rewrite Zplus_mod_idemp_l. reflexivity.
Qed.

(** Wrapping early or late makes no difference to a sum. *)
Lemma wrap64_add_l a b : wrap64 (wrap64 a + b) = wrap64 (a + b).
Proof.
  unfold wrap64, wrap. replace (64 - 1) with 63 by lia. f_equal.
  replace ((a + 2 ^ 63) mod 2 ^ 64 - 2 ^ 63 + b + 2 ^ 63) with ((a + 2 ^ 63) mod 2 ^ 64 + b) by lia.
  rewrite Zplus_mod_idemp_l. f_equal. lia.
Qed.
Lemma wrap64_add_r a b : wrap64 (a + wrap64 b) = wrap64 (a + b).
Proof. by rewrite Z.add_comm, wrap64_add_l, Z.add_comm. Qed.

#[export] Hint Resolve wrap64_range : wekafs.
#[export] Hint Rewrite wrap64_add_l wrap64_add_r : wekafs.

(** ** Error values

    The gRPC status codes the driver returns, and the error values its code
    distinguishes: statuses, plain [errors.New] values, the sentinels that are
    compared by identity and the typed errors of the API client.  A message is
    the literal (format) string of the source; interpolated values are left
    out, as no code of the driver looks at them. *)

Inductive code :=
| OK | Unknown | InvalidArgument | NotFound | AlreadyExists | PermissionDenied
| ResourceExhausted | FailedPrecondition | OutOfRange | Unimplemented
| Internal | Unavailable.

#[export] Instance code_eq_dec : EqDecision code.
Proof. solve_decision. Defined.

(** [ApiResponse] (apiclient/apiobject.go); [Data] is the raw JSON. *)
Record ApiResponse := MkResponse {
  Data : string;
  ErrorCodes : list string;
  Message : string;
  HttpStatusCode : Z
}.
#[export] Instance ApiResponse_eq_dec : EqDecision ApiResponse.
Proof. solve_decision. Defined.

Inductive error :=
| EStatus (c : code) (msg : string)
| EPlain (msg : string)
(* sentinels, compared by identity *)
| ErrFilesystemHasUnderlyingSnapshots
| ErrFilesystemNotFound
| ErrNoXattrOnVolume
| ErrBadXattrOnVolume
| ErrFilesystemBiggerThanRequested
| ObjectNotFoundError
| MultipleObjectsFoundError
| RequestMissingParams
| MountPermissionDenied
| AsyncOperationTimedOut
| ObjectMarkedForDeletion
| EIsNotExist
| EIsExist
(* typed errors of the API client (apiclient/errors.go) *)
| ApiError (text : string) (status : Z)
| ApiNoEndpointsError
| ApiNetworkError
| ApiAuthorizationError (r : ApiResponse)
| ApiForbiddenError (r : ApiResponse)
| ApiBadRequestError (r : ApiResponse)
| ApiConflictError (r : ApiResponse)
| ApiInternalError (text : string) (r : option ApiResponse)
| ApiNotAvailableError (r : ApiResponse)
| ApiNotFoundError (r : ApiResponse)
| transportError
| ApiRetriesExceeded (cause : error) (retries : Z).

#[export] Instance error_eq_dec : EqDecision error.
Proof. solve_decision. Defined.

(** ** Results: a value, a Go [error], or a run-time panic *)

Inductive result (A : Type) :=
| Ok (a : A)
| Err (e : error)
| Panic.
Arguments Ok {A} _.
Arguments Err {A} _.
Arguments Panic {A}.

#[export] Instance result_eq_dec `{EqDecision A} : EqDecision (result A).
Proof. solve_decision. Defined.

Definition is_ok {A} (r : result A) : bool :=
  match r with Ok _ => true | _ => false end.

Definition result_bind {A B} (r : result A) (f : A -> result B) : result B :=
  match r with Ok a => f a | Err e => Err e | Panic => Panic end.

Declare Scope result_scope.
Delimit Scope result_scope with result.
Notation "'let?' x ':=' r 'in' k" := (result_bind r (fun x => k))
  (at level 10, x pattern, r at level 100, k at level 200) : result_scope.

Lemma result_bind_ok {A B} (r : result A) (f : A -> result B) b :
  result_bind r f = Ok b <-> exists a, r = Ok a /\ f a = Ok b.
Proof. destruct r; simpl; split; try (intros (? & ? & ?)); naive_solver. Qed.

(** ** Tactics *)

(** Split on the conditional or match that the goal (or a hypothesis) is
    stuck on, keeping the equation. *)
Ltac case_goal :=
  match goal with
  | |- context [if ?b then _ else _] => destruct b eqn:?
  | |- context [match ?x with _ => _ end] => destruct x eqn:?
  end.
Ltac case_hyp H :=
  match type of H with
  | context [if ?b then _ else _] => destruct b eqn:?
  | context [match ?x with _ => _ end] => destruct x eqn:?
  end.
(** Turn boolean comparisons in the context into propositions. *)
Ltac bool_to_prop :=
  repeat match goal with
  | H : (_ && _)%bool = true |- _ => apply andb_true_iff in H; destruct H
  | H : (_ || _)%bool = false |- _ => apply orb_false_iff in H; destruct H
  | H : negb _ = true |- _ => apply negb_true_iff in H
  | H : negb _ = false |- _ => apply negb_false_iff in H
  | H : bool_decide _ = true |- _ => apply bool_decide_eq_true in H
  | H : bool_decide _ = false |- _ => apply bool_decide_eq_false in H
  | H : (_ =? _)%Z = true |- _ => apply Z.eqb_eq in H
  | H : (_ =? _)%Z = false |- _ => apply Z.eqb_neq in H
  | H : (_ <? _)%Z = true |- _ => apply Z.ltb_lt in H
  | H : (_ <? _)%Z = false |- _ => apply Z.ltb_ge in H
  | H : (_ <=? _)%Z = true |- _ => apply Z.leb_le in H
  | H : (_ <=? _)%Z = false |- _ => apply Z.leb_gt in H
  end.
Ltac bcase := repeat case_goal; bool_to_prop; simplify_eq/=; try done; try lia.

(** ** Finite sums *)

Definition sumZ (l : list Z) : Z := foldr Z.add 0 l.

Lemma sumZ_app l k : sumZ (l ++ k) = sumZ l + sumZ k.
Proof. induction l as [|x l IH]; cbn; [done|]. unfold sumZ in *. lia. Qed.
#[export] Instance sumZ_proper : Proper ((≡ₚ) ==> (=)) sumZ.
Proof. intros l k E. unfold sumZ. induction E; cbn; lia. Qed.

(** The sum of [g] over a set of strings. *)
Definition sum_over (D : gset string) (g : string -> Z) : Z := sumZ (g <$> elements D).

Lemma sumZ_fmap_ext {A} (l : list A) f g :
  (forall x, x ∈ l -> f x = g x) -> sumZ (f <$> l) = sumZ (g <$> l).
Proof.
  induction l as [|x l IH]; intros H; cbn; [done|]. rewrite (H x) by (constructor).
  unfold sumZ in IH. rewrite IH; [done|]. intros y Hy. apply H. by constructor.
Qed.
Lemma sumZ_fmap_le {A} (l : list A) f g :
  (forall x, x ∈ l -> f x <= g x) -> sumZ (f <$> l) <= sumZ (g <$> l).
Proof.
  induction l as [|x l IH]; intros H; cbn; [done|]. apply Z.add_le_mono.
  - apply H. constructor.
  - apply IH. intros y Hy. apply H. by constructor.
Qed.
Lemma sumZ_fmap_add {A} (l : list A) f g :
  sumZ ((fun x => f x + g x) <$> l) = sumZ (f <$> l) + sumZ (g <$> l).
Proof. induction l as [|x l IH]; cbn; [done|]. unfold sumZ in *. lia. Qed.

Lemma sum_over_ext D f g : (forall x, f x = g x) -> sum_over D f = sum_over D g.
Proof. intros H. by apply sumZ_fmap_ext. Qed.
Lemma sum_over_le D f g : (forall x, f x <= g x) -> sum_over D f <= sum_over D g.
Proof. intros H. by apply sumZ_fmap_le. Qed.
Lemma sum_over_add D f g : sum_over D (fun x => f x + g x) = sum_over D f + sum_over D g.
Proof. apply sumZ_fmap_add. Qed.
Lemma sum_over_subset D E g :
  D ⊆ E -> (forall x, x ∈ E -> x ∉ D -> g x = 0) -> sum_over E g = sum_over D g.
Proof.
  intros HDE Hz. unfold sum_over. rewrite (union_difference_L D E HDE).
  rewrite elements_disj_union by set_solver. rewrite fmap_app, sumZ_app.
  rewrite (sumZ_fmap_ext (elements (E ∖ D)) g (fun _ => 0)).
  - assert (H0 : forall l : list string, sumZ ((fun _ => 0) <$> l) = 0) by (induction l; done).
    rewrite H0. lia.
  - intros x Hx. apply elem_of_elements in Hx. apply Hz; set_solver.
Qed.
