(* ===== verification/GoStrings.v ===== *)
(** * Go's [strings], [sort] and [path/filepath] functions

    The functions of the Go standard library that the driver applies to
    identifiers, option lists and paths, on byte strings, with the lemmas on
    splitting, joining and trimming that the components share. *)
From S2P Require Import Prelude.

#[global] Open Scope stdpp_scope.
Implicit Types (s t : string) (c sep : ascii).

(** ** Basic queries *)

Definition len (s : string) : Z := Z.of_nat (String.length s).

Fixpoint contains_char (c : ascii) (s : string) : bool :=
  match s with
  | "" => false
  | String a s' => bool_decide (a = c) || contains_char c s'
  end.

(** [strip_prefix p s] is [Some t] when [s = p ++ t]. *)
Fixpoint strip_prefix (p s : string) : option string :=
  match p, s with
  | "", _ => Some s
  | String a p', String b s' => if bool_decide (a = b) then strip_prefix p' s' else None
  | String _ _, "" => None
  end.

Definition HasPrefix (s p : string) : bool := bool_decide (is_Some (strip_prefix p s)).
Definition TrimPrefix (s p : string) : string := default s (strip_prefix p s).
Definition TrimSuffix (s p : string) : string :=
  match strip_prefix (String.rev p) (String.rev s) with
  | Some t => String.rev t
  | None => s
  end.

(** [strings.Index(s, c)] for a one-byte pattern, as the pair of the text
    before and after the first occurrence. *)
Fixpoint cut (c : ascii) (s : string) : option (string * string) :=
  match s with
  | "" => None
  | String a s' =>
      if bool_decide (a = c) then Some ("", s')
      else match cut c s' with
           | Some (l, r) => Some (String a l, r)
           | None => None
           end
  end.

(** ** Split, Join, FieldsFunc *)

(** [strings.Split] with a one-byte separator (every use in the driver). *)
Fixpoint Split (sep : ascii) (s : string) : list string :=
  match s with
  | "" => [""]
  | String a s' =>
      if bool_decide (a = sep) then "" :: Split sep s'
      else match Split sep s' with
           | [] => [String a ""]
           | w :: ws => String a w :: ws
           end
  end.

Fixpoint Join (sep : string) (l : list string) : string :=
  match l with
  | [] => ""
  | [w] => w
  | w :: ws => w +:+ sep +:+ Join sep ws
  end.

(** [strings.FieldsFunc]: the maximal runs of bytes not satisfying [f]. *)
Fixpoint FieldsFunc_go (f : ascii -> bool) (cur s : string) : list string :=
  match s with
  | "" => if bool_decide (cur = "") then [] else [String.rev cur]
  | String a s' =>
      if f a then
        (if bool_decide (cur = "") then [] else [String.rev cur]) ++ FieldsFunc_go f "" s'
      else FieldsFunc_go f (String a cur) s'
  end.
Definition FieldsFunc (f : ascii -> bool) (s : string) : list string := FieldsFunc_go f "" s.

Definition is_ascii_space (a : ascii) : bool := Ascii.is_space a.

Definition Fields (s : string) : list string := FieldsFunc is_ascii_space s.

(** ** TrimSpace

    Go trims the runes of [unicode.IsSpace].  The multi-byte ones are
    recognised by their UTF-8 encodings. *)
Definition byte (a : ascii) : N := Ascii.N_of_ascii a.

(** U+0085, U+00A0 *)
Definition space2 (a b : ascii) : bool :=
  bool_decide (byte a = 194%N) && (bool_decide (byte b = 133%N) || bool_decide (byte b = 160%N)).
(** U+1680, U+2000..U+200A, U+2028, U+2029, U+202F, U+205F, U+3000 *)
Definition space3 (a b c : ascii) : bool :=
  let b0 := byte a in let b1 := byte b in let b2 := byte c in
  (bool_decide (b0 = 225%N) && bool_decide (b1 = 154%N) && bool_decide (b2 = 128%N))
  || (bool_decide (b0 = 226%N) && bool_decide (b1 = 128%N)
      && ((bool_decide (128 <= b2)%N && bool_decide (b2 <= 138)%N)
          || bool_decide (b2 = 168%N) || bool_decide (b2 = 169%N) || bool_decide (b2 = 175%N)))
  || (bool_decide (b0 = 226%N) && bool_decide (b1 = 129%N) && bool_decide (b2 = 159%N))
  || (bool_decide (b0 = 227%N) && bool_decide (b1 = 128%N) && bool_decide (b2 = 128%N)).

Fixpoint trim_left (s : string) : string :=
  match s with
  | "" => ""
  | String a s1 =>
      if is_ascii_space a then trim_left s1
      else match s1 with
           | "" => s
           | String b s2 =>
               if space2 a b then trim_left s2
               else match s2 with
                    | "" => s
                    | String c s3 => if space3 a b c then trim_left s3 else s
                    end
           end
  end.

(** The same on the reversed string, where the bytes of a rune come backwards. *)
Fixpoint trim_left_rev (s : string) : string :=
  match s with
  | "" => ""
  | String a s1 =>
      if is_ascii_space a then trim_left_rev s1
      else match s1 with
           | "" => s
           | String b s2 =>
               if space2 b a then trim_left_rev s2
               else match s2 with
                    | "" => s
                    | String c s3 => if space3 c b a then trim_left_rev s3 else s
                    end
           end
  end.

Definition TrimSpace (s : string) : string :=
  String.rev (trim_left_rev (String.rev (trim_left s))).

(** ** sort.Strings *)

Definition sort_strings (l : list string) : list string := merge_sort String.le l.

(** ** path/filepath on Unix *)

Module Path.

(** Elements of a cleaned path: drop empty and ["."] elements, and let [".."]
    cancel the element before it; at the root [".."] disappears. *)
Fixpoint clean_elems (rooted : bool) (acc : list string) (l : list string) : list string :=
  match l with
  | [] => reverse acc
  | e :: l' =>
      if bool_decide (e = "") || bool_decide (e = ".") then clean_elems rooted acc l'
      else if bool_decide (e = "..") then
        match acc with
        | a :: acc' =>
            if bool_decide (a = "..") then clean_elems rooted (".." :: acc) l'
            else clean_elems rooted acc' l'
        | [] => if rooted then clean_elems rooted [] l' else clean_elems rooted [".."] l'
        end
      else clean_elems rooted (e :: acc) l'
  end.

Definition Clean (p : string) : string :=
  let rooted := HasPrefix p "/" in
  let es := clean_elems rooted [] (Split "/" p) in
  if rooted then "/" +:+ Join "/" es
  else match es with [] => "." | _ => Join "/" es end.

Fixpoint Join_from (l : list string) : string :=
  match l with
  | [] => ""
  | e :: l' => if bool_decide (e = "") then Join_from l' else Clean (GoStrings.Join "/" (e :: l'))
  end.

(** [filepath.Join] *)
Definition Join (l : list string) : string := Join_from l.

(** [filepath.Base] *)
Definition Base (p : string) : string :=
  match filter (fun e => e <> "") (Split "/" p) with
  | [] => if bool_decide (p = "") then "." else "/"
  | es => default "" (last es)
  end.

End Path.

(** ** Lemmas *)

Lemma app_str_nil_l s : "" +:+ s = s.
Proof. done. Qed.
Lemma app_str_cons a s t : String a s +:+ t = String a (s +:+ t).
Proof. done. Qed.
Lemma app_str_nil_r s : s +:+ "" = s.
Proof. induction s as [|a s IH]; [done|]. by rewrite app_str_cons, IH. Qed.
Lemma app_str_assoc s1 s2 s3 : (s1 +:+ s2) +:+ s3 = s1 +:+ (s2 +:+ s3).
Proof. induction s1 as [|a s1 IH]; [done|]. by rewrite !app_str_cons, IH. Qed.
#[export] Hint Rewrite app_str_nil_l app_str_nil_r app_str_assoc app_str_cons : wekafs.

Lemma length_app_str s t : String.length (s +:+ t) = (String.length s + String.length t)%nat.
Proof. induction s as [|a s IH]; [done|]. rewrite app_str_cons. cbn. by rewrite IH. Qed.

Lemma app_str_inj_l s t1 t2 : s +:+ t1 = s +:+ t2 -> t1 = t2.
Proof. apply (inj (String.app s)). Qed.

Lemma strip_prefix_app p t : strip_prefix p (p +:+ t) = Some t.
Proof.
  induction p as [|a p IH]; [done|].
  rewrite app_str_cons. cbn. by rewrite bool_decide_true.
Qed.

Lemma strip_prefix_Some p s t : strip_prefix p s = Some t <-> s = p +:+ t.
Proof.
  split.
  - revert s; induction p as [|a p IH]; intros [|b s]; cbn; intros H; simplify_eq/=; try done.
    case_bool_decide; [|done]. subst. rewrite app_str_cons. f_equal. auto.
  - intros ->. apply strip_prefix_app.
Qed.

Lemma HasPrefix_true s p : HasPrefix s p = true <-> exists t, s = p +:+ t.
Proof.
  unfold HasPrefix. rewrite bool_decide_eq_true. unfold is_Some.
  setoid_rewrite strip_prefix_Some. done.
Qed.

Lemma TrimPrefix_app p t : TrimPrefix (p +:+ t) p = t.
Proof. unfold TrimPrefix. by rewrite strip_prefix_app. Qed.

Lemma contains_char_app c s t :
  contains_char c (s +:+ t) = contains_char c s || contains_char c t.
Proof.
  induction s as [|a s IH]; [done|]. rewrite app_str_cons. cbn. rewrite IH. by rewrite orb_assoc.
Qed.

Lemma Split_ne sep s : Split sep s <> [].
Proof. destruct s; cbn; [done|]. case_bool_decide; [done|]. by destruct (Split sep s). Qed.

(** Text without the separator in front of it stays in the first field. *)
Lemma Split_app_head sep s t w ws :
  contains_char sep s = false -> Split sep t = w :: ws -> Split sep (s +:+ t) = (s +:+ w) :: ws.
Proof.
  induction s as [|a s IH]; cbn; intros Hs Ht; [done|].
  apply orb_false_iff in Hs as [Ha Hs]. rewrite app_str_cons. cbn. rewrite Ha.
  by rewrite (IH Hs Ht).
Qed.

Lemma Split_no_sep sep s : contains_char sep s = false -> Split sep s = [s].
Proof.
  intros H. pose proof (Split_app_head sep s "" "" [] H eq_refl) as E.
  by rewrite app_str_nil_r in E.
Qed.

Lemma Split_cons_sep sep t : Split sep (String sep t) = "" :: Split sep t.
Proof. cbn. by rewrite bool_decide_true. Qed.

(** The field in front of a separator splits off. *)
Lemma Split_app_sep sep s t :
  contains_char sep s = false -> Split sep (s +:+ String sep t) = s :: Split sep t.
Proof.
  intros H. rewrite (Split_app_head sep s (String sep t) "" (Split sep t) H).
  - by rewrite app_str_nil_r.
  - apply Split_cons_sep.
Qed.

Lemma Join_cons2 (sep : string) w ws : ws <> [] -> Join sep (w :: ws) = w +:+ sep +:+ Join sep ws.
Proof. by destruct ws. Qed.

(** [Split] undoes [Join] on fields without the separator. *)
Lemma Split_Join sep (l : list string) :
  l <> [] -> Forall (fun w => contains_char sep w = false) l ->
  Split sep (Join (String sep "") l) = l.
Proof.
  intros Hne Hl. induction Hl as [|w ws Hw Hws IH]; [done|].
  destruct (decide (ws = [])) as [->|Hws']; [by apply Split_no_sep|].
  rewrite Join_cons2, app_str_cons, app_str_nil_l by done.
  rewrite Split_app_sep by done. f_equal. auto.
Qed.

(** [Join] undoes [Split]. *)
Lemma Join_Split sep s : Join (String sep "") (Split sep s) = s.
Proof.
  induction s as [|a s IH]; [done|]. cbn [Split]. case_bool_decide as Ha.
  - subst. rewrite Join_cons2 by apply Split_ne. by rewrite IH.
  - pose proof (Split_ne sep s). destruct (Split sep s) as [|w ws]; [done|].
    rewrite <- IH. by destruct ws.
Qed.

Lemma Split_fields_clean sep s w : w ∈ Split sep s -> contains_char sep w = false.
Proof.
  revert w. induction s as [|a s IH]; intros w; cbn.
  - by intros ->%list_elem_of_singleton.
  - case_bool_decide as Ha.
    + intros [->|?]%elem_of_cons; [done|auto].
    + pose proof (Split_ne sep s). destruct (Split sep s) as [|w0 ws]; [done|].
      intros [->|?]%elem_of_cons.
      * cbn. rewrite bool_decide_false by done. cbn. apply IH. set_solver.
      * apply IH. set_solver.
Qed.

Lemma rev_app_str_acc s t : String.rev_app s t = String.rev s +:+ t.
Proof.
  revert t. unfold String.rev. induction s as [|a s IH]; intros t; [done|]. cbn.
  rewrite IH, (IH (String a "")), app_str_assoc. done.
Qed.
Lemma rev_str_cons a s : String.rev (String a s) = String.rev s +:+ String a "".
Proof. unfold String.rev at 1. cbn. apply rev_app_str_acc. Qed.
Lemma rev_str_app s t : String.rev (s +:+ t) = String.rev t +:+ String.rev s.
Proof.
  induction s as [|a s IH].
  - by rewrite app_str_nil_l, app_str_nil_r.
  - rewrite app_str_cons, !rev_str_cons, IH, app_str_assoc. done.
Qed.
Lemma rev_str_involutive s : String.rev (String.rev s) = s.
Proof. induction s as [|a s IH]; [done|]. by rewrite rev_str_cons, rev_str_app, IH. Qed.

(** A word that begins and ends with printable ASCII is left alone by
    [TrimSpace]. *)
Definition plain (a : ascii) : bool :=
  bool_decide (33 <= byte a)%N && bool_decide (byte a <= 126)%N.

Lemma plain_not_space a : plain a = true -> is_ascii_space a = false.
Proof. destruct a as [[][][][][][][][]]; vm_compute; done. Qed.
Lemma plain_not_multibyte a b c :
  plain a = true ->
  space2 a b = false /\ space2 b a = false /\ space3 a b c = false /\ space3 c b a = false.
Proof.
  unfold plain, space2, space3. rewrite andb_true_iff, !bool_decide_eq_true. intros [H1 H2].
  repeat (rewrite bool_decide_false with (P := byte a = _) by lia).
  rewrite (bool_decide_false (128 <= byte a)%N) by lia.
  rewrite !andb_false_l, !andb_false_r. done.
Qed.

Lemma trim_left_plain a s : plain a = true -> trim_left (String a s) = String a s.
Proof.
  intros Ha. cbn. rewrite (plain_not_space _ Ha). destruct s as [|b s]; [done|].
  destruct (plain_not_multibyte a b a Ha) as (-> & _). destruct s as [|c s]; [done|].
  destruct (plain_not_multibyte a b c Ha) as (_ & _ & -> & _). done.
Qed.
Lemma trim_left_rev_plain a s : plain a = true -> trim_left_rev (String a s) = String a s.
Proof.
  intros Ha. cbn. rewrite (plain_not_space _ Ha). destruct s as [|b s]; [done|].
  destruct (plain_not_multibyte a b a Ha) as (_ & -> & _). destruct s as [|c s]; [done|].
  destruct (plain_not_multibyte a b c Ha) as (_ & _ & _ & ->). done.
Qed.

Lemma sort_strings_perm l : sort_strings l ≡ₚ l.
Proof. apply merge_sort_Permutation. Qed.
Lemma sort_strings_sorted l : Sorted String.le (sort_strings l).
Proof. apply Sorted_merge_sort. apply _. Qed.
(** Sorting forgets the order of its input. *)
Lemma sort_strings_proper l1 l2 : l1 ≡ₚ l2 -> sort_strings l1 = sort_strings l2.
Proof.
  intros Hp. eapply (Sorted_unique String.le); try apply Sorted_merge_sort; try apply _.
  by rewrite !sort_strings_perm.
Qed.
#[export] Instance sort_strings_Proper : Proper ((≡ₚ) ==> (=)) sort_strings.
Proof. intros l1 l2. apply sort_strings_proper. Qed.
