(* ===== verification/Substrings.v ===== *)
(** * Go's substring search: [strings.Contains] and [strings.Split] on a word

    Used where the driver reads lines of /proc.  [cut_at sep s] is the text
    before and after the first occurrence of [sep]. *)
From S2P Require Import Prelude.
From S2P Require Import GoStrings.

Fixpoint cut_at (sep s : string) : option (string * string) :=
  match strip_prefix sep s with
  | Some t => Some ("", t)
  | None =>
      match s with
      | "" => None
      | String c s' => match cut_at sep s' with Some (a, b) => Some (String c a, b) | None => None end
      end
  end.

Definition Contains (s sub : string) : bool := if cut_at sub s then true else false.

(** One round per occurrence; a word takes at least one character. *)
Fixpoint split_go (n : nat) (sep s : string) : list string :=
  match n with
  | O => [s]
  | S n' => match cut_at sep s with Some (a, b) => a :: split_go n' sep b | None => [s] end
  end.
Definition SplitOn (sep s : string) : list string := split_go (String.length s) sep s.

Lemma cut_at_Some sep s a b : cut_at sep s = Some (a, b) -> s = a +:+ sep +:+ b.
Proof.
  revert a b. induction s as [|c s IH]; intros a b; cbn [cut_at].
  - destruct (strip_prefix sep "") eqn:E; [|done]. intros [= <- <-]. by apply strip_prefix_Some in E.
  - destruct (strip_prefix sep (String c s)) eqn:E.
    + intros [= <- <-]. by apply strip_prefix_Some in E.
    + destruct (cut_at sep s) as [[a' b']|]; [|done]. intros [= <- <-].
      rewrite app_str_cons. f_equal. by apply IH.
Qed.
Lemma cut_at_None sep s a b : cut_at sep s = None -> s <> a +:+ sep +:+ b.
Proof.
  revert a. induction s as [|c s IH]; intros a; cbn [cut_at].
  - destruct (strip_prefix sep "") eqn:E; [done|]. intros _ Heq.
    destruct a; [|done]. rewrite app_str_nil_l in Heq.
    assert (strip_prefix sep "" = Some b) by by apply strip_prefix_Some. congruence.
  - destruct (strip_prefix sep (String c s)) eqn:E; [done|].
    destruct (cut_at sep s) as [[a' b']|] eqn:E2; [done|]. intros _ Heq. destruct a as [|c' a].
    + rewrite app_str_nil_l in Heq. assert (strip_prefix sep (String c s) = Some b) by by apply strip_prefix_Some.
      congruence.
    + rewrite app_str_cons in Heq. injection Heq as _ Heq. by apply (IH a).
Qed.

(** [Contains] is what it says. *)
Lemma Contains_spec s sub : Contains s sub = true <-> exists a b, s = a +:+ sub +:+ b.
Proof.
  unfold Contains. destruct (cut_at sub s) as [[a b]|] eqn:E; split; try done.
  - intros _. exists a, b. by apply cut_at_Some.
  - intros (a & b & Heq). by destruct (cut_at_None _ _ a b E).
Qed.

(** The first word of a separator character can only start where that
    character is. *)
Lemma cut_at_skip c sep a t : contains_char c a = false ->
  cut_at (String c sep) (a +:+ t) =
  match cut_at (String c sep) t with Some (x, y) => Some (a +:+ x, y) | None => None end.
Proof.
  induction a as [|d a IH]; intros Ha.
  - rewrite app_str_nil_l. by destruct (cut_at _ t) as [[x y]|].
  - cbn [contains_char] in Ha. apply orb_false_iff in Ha as [Hd Ha]. rewrite app_str_cons.
    assert (Hs : strip_prefix (String c sep) (String d (a +:+ t)) = None).
    { cbn [strip_prefix]. rewrite bool_decide_false; [done|]. intros ->. by rewrite bool_decide_true in Hd. }
    cbn [cut_at]. rewrite Hs. rewrite (IH Ha). by destruct (cut_at _ t) as [[x y]|].
Qed.

(** ** Words *)

Lemma Split_suffix c a t : exists w l, Split c (a +:+ String c t) = w :: l ++ Split c t.
Proof.
  induction a as [|d a (w & l & IH)].
  - exists "", []. by rewrite app_str_nil_l, Split_cons_sep.
  - rewrite app_str_cons. cbn [Split]. rewrite IH. case_bool_decide; [by exists "", (w :: l)|].
    by exists (String d w), l.
Qed.

(** A word between two separators is a field. *)
Lemma Split_word c a w t : contains_char c w = false -> w ∈ Split c (a +:+ String c (w +:+ String c t)).
Proof.
  intros Hw. destruct (Split_suffix c a (w +:+ String c t)) as (x & l & ->).
  rewrite (Split_app_sep _ _ _ Hw). set_solver.
Qed.

Lemma first_word_unique c a b x y :
  contains_char c a = false -> contains_char c b = false -> a +:+ String c x = b +:+ String c y -> a = b.
Proof.
  intros Ha Hb E. apply (f_equal (Split c)) in E. rewrite !Split_app_sep in E by done. by injection E.
Qed.

(** A word that ends a field: the first field with that ending is found. *)
Lemma cut_at_word_here c w t : cut_at (w +:+ String c "") (w +:+ String c t) = Some ("", t).
Proof.
  assert (E : strip_prefix (w +:+ String c "") (w +:+ String c t) = Some t)
    by (rewrite <- (strip_prefix_app (w +:+ String c "") t), app_str_assoc; done).
  destruct (w +:+ String c t); cbn [cut_at]; by rewrite E.
Qed.
Lemma cut_at_word_skip c w u t :
  w <> "" -> contains_char c w = false -> contains_char c u = false -> (forall u', u <> u' +:+ w) ->
  cut_at (w +:+ String c "") (u +:+ String c t) =
  match cut_at (w +:+ String c "") t with Some (x, y) => Some (u +:+ String c x, y) | None => None end.
Proof.
  intros Hne Hw. induction u as [|d u IH]; intros Hu Hsuf.
  - rewrite !app_str_nil_l. cbn [cut_at].
    assert (strip_prefix (w +:+ String c "") (String c t) = None) as ->.
    { destruct w as [|e w]; [done|]. rewrite app_str_cons. cbn [contains_char strip_prefix] in Hw |- *.
      apply orb_false_iff in Hw as [He _]. by rewrite He. }
    destruct (cut_at _ t) as [[x y]|]; [|done]. by rewrite app_str_nil_l.
  - cbn in Hu. pose proof Hu as Hu'. apply orb_false_iff in Hu as [Hd Hu]. rewrite app_str_cons. cbn [cut_at].
    assert (strip_prefix (w +:+ String c "") (String d (u +:+ String c t)) = None) as ->.
    { destruct (strip_prefix _ _) as [r|] eqn:E; [|done]. apply strip_prefix_Some in E.
      rewrite <- app_str_cons, app_str_assoc in E. change (String c "" +:+ r) with (String c r) in E.
      exfalso. apply (Hsuf ""). rewrite app_str_nil_l.
      by apply (first_word_unique c) in E. }
    rewrite IH; [|done|intros u' ->; by apply (Hsuf (String d u'))].
    destruct (cut_at _ t) as [[x y]|]; [|done]. by rewrite app_str_cons.
Qed.
