(* ===== verification/Hashing.v ===== *)
(** * Go's [crypto/sha1], [encoding/hex], [encoding/base32] and [hash/fnv]

    The driver derives the names of the objects it creates from the SHA-1 of
    the CSI name.  The functions are written out so that identifiers can be
    computed, together with the facts the identifier formats rely on: how long
    an encoded hash is and which characters it is made of. *)
From S2P Require Import Prelude.
From S2P Require Import GoStrings.

(** ** Bytes *)

Fixpoint chars (s : string) : list ascii :=
  match s with "" => [] | String a s' => a :: chars s' end.

Definition bytes_of_string (s : string) : list Z :=
  (fun a => Z.of_N (byte a)) <$> chars s.

Fixpoint string_of_chars (l : list ascii) : string :=
  match l with [] => "" | a :: l' => String a (string_of_chars l') end.

(** ** SHA-1 (FIPS 180-4) on 32-bit words *)

Module Sha1.

Definition add32 (x y : Z) : Z := uwrap 32 (x + y).
Definition rotl (n x : Z) : Z := Z.lor (uwrap 32 (Z.shiftl x n)) (Z.shiftr x (32 - n)).

Definition be_bytes (n : nat) (x : Z) : list Z :=
  (fun i => Z.land (Z.shiftr x (8 * Z.of_nat i)) 255) <$> reverse (seq 0 n).

Definition pad (m : list Z) : list Z :=
  let l := Z.of_nat (length m) in
  m ++ [128] ++ replicate (Z.to_nat ((55 - l) mod 64)) 0 ++ be_bytes 8 (uwrap 64 (8 * l)).

Fixpoint words (m : list Z) : list Z :=
  match m with
  | a :: b :: c :: d :: m' =>
      Z.lor (Z.lor (Z.shiftl a 24) (Z.shiftl b 16)) (Z.lor (Z.shiftl c 8) d) :: words m'
  | _ => []
  end.

(** The message schedule, newest word first. *)
Fixpoint schedule (n : nat) (w : list Z) : list Z :=
  match n with
  | O => w
  | S n' =>
      let x := rotl 1 (Z.lxor (Z.lxor (nth 2 w 0) (nth 7 w 0)) (Z.lxor (nth 13 w 0) (nth 15 w 0)))
      in schedule n' (x :: w)
  end.

Record state := St { h0 : Z; h1 : Z; h2 : Z; h3 : Z; h4 : Z }.

Definition round_f (t : nat) (b c d : Z) : Z * Z :=
  if bool_decide (t < 20)%nat then (Z.lor (Z.land b c) (Z.land (Z.lxor b (2 ^ 32 - 1)) d), 0x5A827999)
  else if bool_decide (t < 40)%nat then (Z.lxor (Z.lxor b c) d, 0x6ED9EBA1)
  else if bool_decide (t < 60)%nat then
    (Z.lor (Z.lor (Z.land b c) (Z.land b d)) (Z.land c d), 0x8F1BBCDC)
  else (Z.lxor (Z.lxor b c) d, 0xCA62C1D6).

Fixpoint rounds (t : nat) (w : list Z) (s : state) : state :=
  match w with
  | [] => s
  | x :: w' =>
      let '(f, k) := round_f t (h1 s) (h2 s) (h3 s) in
      let tmp := add32 (add32 (add32 (rotl 5 (h0 s)) f) (add32 (h4 s) k)) x in
      rounds (S t) w' (St tmp (h0 s) (rotl 30 (h1 s)) (h2 s) (h3 s))
  end.

Definition block (s : state) (ws : list Z) : state :=
  let s' := rounds 0 (reverse (schedule 64 (reverse ws))) s in
  St (add32 (h0 s) (h0 s')) (add32 (h1 s) (h1 s')) (add32 (h2 s) (h2 s'))
     (add32 (h3 s) (h3 s')) (add32 (h4 s) (h4 s')).

Fixpoint blocks (n : nat) (ws : list Z) (s : state) : state :=
  match n with
  | O => s
  | S n' => blocks n' (drop 16 ws) (block s (take 16 ws))
  end.

Definition init : state := St 0x67452301 0xEFCDAB89 0x98BADCFE 0x10325476 0xC3D2E1F0.

Definition sum (s : string) : list Z :=
  let ws := words (pad (bytes_of_string s)) in
  let r := blocks (length ws / 16)%nat ws init in
  be_bytes 4 (h0 r) ++ be_bytes 4 (h1 r) ++ be_bytes 4 (h2 r) ++ be_bytes 4 (h3 r)
    ++ be_bytes 4 (h4 r).

End Sha1.

(** ** Encodings *)

Definition hex_alphabet : list ascii := chars "0123456789abcdef".
Definition b32_alphabet : list ascii := chars "ABCDEFGHIJKLMNOPQRSTUVWXYZ234567".

Definition digit (alphabet : list ascii) (n : Z) : ascii :=
  default "A"%char (alphabet !! Z.to_nat n).

Definition hex_encode (l : list Z) : string :=
  string_of_chars
    (flat_map (fun b => [digit hex_alphabet (Z.shiftr b 4); digit hex_alphabet (Z.land b 15)]) l).

(** [base32.StdEncoding]: groups of five bytes become eight characters, the
    last group is padded with ['=']. *)
Definition b32_group (g : list Z) : list ascii :=
  let x := foldl (fun acc b => 256 * acc + b) 0 (g ++ replicate (5 - length g) 0) in
  let n := match length g with 1 => 2 | 2 => 4 | 3 => 5 | 4 => 7 | _ => 8 end%nat in
  ((fun i => digit b32_alphabet (Z.land (Z.shiftr x (35 - 5 * Z.of_nat i)) 31)) <$> seq 0 n)
    ++ replicate (8 - n) "="%char.

Fixpoint b32_groups (l : list Z) : list ascii :=
  match l with
  | a :: b :: c :: d :: e :: l' => b32_group [a; b; c; d; e] ++ b32_groups l'
  | [] => []
  | g => b32_group g
  end.
Definition b32_encode (l : list Z) : string := string_of_chars (b32_groups l).

(** [getStringSha1], utilities.go *)
Definition getStringSha1 (name : string) : string := hex_encode (Sha1.sum name).
(** [getStringSha1AsB32], utilities.go *)
Definition getStringSha1AsB32 (name : string) : string := b32_encode (Sha1.sum name).

(** ** FNV-1a, 32 bit *)
Definition fnv32a (l : list Z) : Z :=
  foldl (fun h b => uwrap 32 (Z.lxor h b * 16777619)) 2166136261 l.

(** ** Facts *)

(** A predicate on characters, on a whole string. *)
Definition all_chars (P : ascii -> bool) (s : string) : Prop :=
  Forall (fun a => P a = true) (chars s).

Lemma chars_string_of_chars l : chars (string_of_chars l) = l.
Proof. induction l as [|a l IH]; [done|]. cbn. by f_equal. Qed.

Lemma all_chars_not_contains (P : ascii -> bool) c s :
  all_chars P s -> P c = false -> contains_char c s = false.
Proof.
  unfold all_chars. intros H Hc. induction s as [|a s IH]; [done|].
  cbn in H. apply Forall_cons in H as [Ha H]. cbn.
  rewrite bool_decide_false; [by apply IH|]. congruence.
Qed.

Lemma digit_all (alphabet : list ascii) (P : ascii -> bool) n :
  forallb P alphabet = true -> P "A"%char = true -> P (digit alphabet n) = true.
Proof.
  intros Hall HA. unfold digit. destruct (alphabet !! Z.to_nat n) as [a|] eqn:E; [|done].
  cbn. rewrite forallb_forall in Hall. apply Hall, list_elem_of_In, list_elem_of_lookup. eauto.
Qed.

Lemma b32_group_all (P : ascii -> bool) g :
  forallb P b32_alphabet = true -> P "="%char = true -> Forall (fun a => P a = true) (b32_group g).
Proof.
  intros Hall Heq. unfold b32_group. apply Forall_app; split.
  - apply Forall_fmap, Forall_forall. intros i _. apply digit_all; [done|].
    rewrite forallb_forall in Hall. apply Hall. by left.
  - apply Forall_replicate. done.
Qed.

(** The base32 hash of a name has 32 characters, all of them letters, digits
    or ['='] : none is a separator of the identifier formats. *)
Definition b32_char (a : ascii) : bool :=
  existsb (fun x => bool_decide (x = a)) ("="%char :: b32_alphabet).

Lemma b32_encode_chars l : all_chars b32_char (b32_encode l).
Proof.
  unfold all_chars, b32_encode. rewrite chars_string_of_chars.
  assert (Hg : forall g, Forall (fun a => b32_char a = true) (b32_group g))
    by (intros; by apply b32_group_all).
  revert l. fix IH 1. intros [|a [|b [|c [|d [|e l]]]]]; try apply Hg; [constructor|].
  cbn [b32_groups]. apply Forall_app; split; [apply Hg|apply IH].
Qed.

Lemma length_string_of_chars l : String.length (string_of_chars l) = length l.
Proof. induction l as [|a l IH]; [done|]. cbn. by f_equal. Qed.

Lemma getStringSha1AsB32_length name : String.length (getStringSha1AsB32 name) = 32%nat.
Proof.
  unfold getStringSha1AsB32, b32_encode. rewrite length_string_of_chars.
  unfold Sha1.sum. set (r := Sha1.blocks _ _ _). reflexivity.
Qed.

Lemma hex_digit_plain n : plain (digit hex_alphabet n) = true.
Proof. by apply digit_all. Qed.
