(* ===== verification/MountOptions.v ===== *)
(** * Mount options (pkg/wekafs/mountoptions.go)

    Parsing, printing and merging of mount options.  A [map[string]mountOption]
    is a [gmap string mountOption]; ranging over such a map visits its entries
    in an unspecified order, which the class [MapOrder] leaves open. *)
From S2P Require Import Prelude.
From S2P Require Import GoStrings.
From S2P Require Import Hashing.

(** ** Constants *)
Definition selinuxContextWekaFs := "wekafs_csi_volume_t".
Definition selinuxContextNfs := "nfs_t".
Definition MountOptionSyncOnClose := "sync_on_close".
Definition MountOptionReadOnly := "ro".
Definition MountOptionWriteCache := "writecache".
Definition MountOptionCoherent := "coherent".
Definition MountOptionForceDirect := "forcedirect".
Definition MountOptionContainerName := "container_name".
Definition MountOptionAcl := "acl".
Definition MountOptionNfsAsync := "async".
Definition MountOptionNfsSync := "async".
Definition MountOptionNfsHard := "hard".
Definition MountOptionNfsNoac := "noac".
Definition MountOptionNfsAc := "ac".
Definition MountOptionNfsRdirPlus := "rdirplus".
Definition MountOptionReadCache := "readcache".
Definition MountProtocolWekafs := "wekafs".
Definition MountProtocolNfs := "nfs".
Definition DefaultNfsMountOptions :=
  MountOptionNfsHard +:+ "," +:+ MountOptionNfsAsync +:+ "," +:+ MountOptionNfsRdirPlus.

(** ** Data *)

Record mountOption := MkOption { opt_option : string; opt_value : string }.
#[export] Instance mountOption_eq_dec : EqDecision mountOption.
Proof. solve_decision. Defined.

Abbreviation mutuallyExclusiveMountOptionSet := (list string).
Abbreviation options_map := (gmap string mountOption).

(** [mountOption.String] *)
Definition option_String (o : mountOption) : string :=
  if bool_decide (opt_value o = "") then opt_option o
  else opt_option o +:+ "=" +:+ opt_value o.

Definition newMountOptionFromString (optstring : string) : mountOption :=
  let parts := Split "=" optstring in
  let value := match parts with [_; v] => v | _ => "" end in
  MkOption (default "" (head parts)) value.

Record MountOptions := MkOptions {
  customOptions : options_map;
  excludeOptions : list string;
}.
#[export] Instance MountOptions_eq_dec : EqDecision MountOptions.
Proof. solve_decision. Defined.

(** The order in which Go ranges over a map: any permutation of its entries. *)
Class MapOrder := {
  range : options_map -> list mountOption;
  range_perm m : range m ≡ₚ (map_to_list m).*2;
}.

(** One particular order, used to evaluate the model. *)
#[export] Instance trie_order : MapOrder | 100 :=
  { range m := (map_to_list m).*2; range_perm m := reflexivity _ }.

(** ** Merge *)

(** The body of the loop over [other.customOptions] in [Merge]: the option is
    written, and in every exclusive set that has it all alternatives go. *)
Definition drop_alternatives (o : string) (m : options_map) (set : list string) : options_map :=
  if bool_decide (o ∈ set)
  then foldl (fun m x => if bool_decide (x = o) then m else delete x m) m set
  else m.

Definition merge_option (exclusives : list mutuallyExclusiveMountOptionSet)
    (m : options_map) (o : mountOption) : options_map :=
  foldl (drop_alternatives (opt_option o)) (<[opt_option o := o]> m) exclusives.

Definition merge_options exclusives (m : options_map) (l : list mountOption) : options_map :=
  foldl (merge_option exclusives) m l.

Definition Merge `{MapOrder} (opts other : MountOptions) exclusives : MountOptions :=
  let m := merge_options exclusives (customOptions opts) (range (customOptions other)) in
  MkOptions (foldl (fun m x => delete x m) m (excludeOptions other)) (excludeOptions opts).

(** [opts.Merge(opts, ...)]: the map that is ranged over is the map that is
    changed, so an entry deleted before it is reached is not visited. *)
Fixpoint merge_self exclusives (m : options_map) (l : list mountOption) : options_map :=
  match l with
  | [] => m
  | o :: l' =>
      if bool_decide (is_Some (m !! opt_option o))
      then merge_self exclusives (merge_option exclusives m o) l'
      else merge_self exclusives m l'
  end.
Definition MergeSelf `{MapOrder} (opts : MountOptions) exclusives : MountOptions :=
  let m := merge_self exclusives (customOptions opts) (range (customOptions opts)) in
  MkOptions (foldl (fun m x => delete x m) m (excludeOptions opts)) (excludeOptions opts).

(** [MergedWith] works on a clone of the receiver's map. *)
Definition MergedWith `{MapOrder} (opts other : MountOptions) exclusives : MountOptions :=
  Merge (MkOptions (customOptions opts) (excludeOptions opts)) other exclusives.

(** ** Single options *)

Definition set_in (m : options_map) (optstring : string) : options_map :=
  let o := newMountOptionFromString optstring in <[opt_option o := o]> m.

Definition setOption (opts : MountOptions) (optstring : string) : MountOptions :=
  MkOptions (set_in (customOptions opts) optstring) (excludeOptions opts).

Definition AddOption (opts : MountOptions) (optstring : string) : MountOptions :=
  MkOptions (set_in (customOptions opts) optstring) (excludeOptions opts).

Definition RemoveOption (opts : MountOptions) (optstring : string) : MountOptions :=
  MkOptions (delete (opt_option (newMountOptionFromString optstring)) (customOptions opts))
            (excludeOptions opts).

Definition hasOption (opts : MountOptions) (optstring : string) : bool :=
  bool_decide (is_Some (customOptions opts !! opt_option (newMountOptionFromString optstring))).

Definition getOptionValue (opts : MountOptions) (optstring : string) : string :=
  match customOptions opts !! opt_option (newMountOptionFromString optstring) with
  | Some o => opt_value o
  | None => ""
  end.

(** ** Printing *)

Definition option_zero : mountOption := MkOption "" "".

Definition opts_of_map (m : options_map) : list mountOption :=
  (fun k => default option_zero (m !! k)) <$> sort_strings (elements (dom m)).
Definition getOpts (opts : MountOptions) : list mountOption := opts_of_map (customOptions opts).

Definition Strings (opts : MountOptions) : list string := option_String <$> getOpts opts.
Definition String_ (opts : MountOptions) : string := Join "," (Strings opts).

(** [fmt.Sprintln] of the slice of options, hashed with FNV-1a. *)
Definition newline : string := String "010" "".
Definition Hash (opts : MountOptions) : Z :=
  let show o := "{" +:+ opt_option o +:+ " " +:+ opt_value o +:+ "}" in
  fnv32a (bytes_of_string ("[" +:+ Join " " (show <$> getOpts opts) +:+ "]" +:+ newline)).

Definition AsMapKey (opts : MountOptions) : string :=
  String_ (foldl RemoveOption opts [MountOptionSyncOnClose]).

Definition AsVolumeContext (opts : MountOptions) : string :=
  String_ (foldl RemoveOption opts [MountOptionSyncOnClose; MountOptionContainerName]).

(** ** Construction *)

Definition NewMountOptions (optstrings : list string) : MountOptions :=
  MkOptions
    (foldl (fun m optstring =>
              let s := TrimSpace optstring in
              if bool_decide (s = "") then m else set_in m s) ∅ optstrings)
    [].

Definition NewMountOptionsFromString (optsString : string) : MountOptions :=
  if bool_decide (optsString = "") then NewMountOptions []
  else NewMountOptions (Split "," optsString).

Definition getDefaultMountOptions : MountOptions := MkOptions ∅ [""].

(** ** SELinux and NFS *)

Definition quote : string := String "034" "".

Definition setSelinux (opts : MountOptions) (selinuxSupport : bool) (mountProtocol : string)
  : MountOptions :=
  let m := customOptions opts in
  let m' :=
    if selinuxSupport then
      let o :=
        if bool_decide (mountProtocol = MountProtocolWekafs) then
          newMountOptionFromString
            ("fscontext=" +:+ quote +:+ "system_u:object_r:" +:+ selinuxContextWekaFs +:+ ":s0" +:+ quote)
        else if bool_decide (mountProtocol = MountProtocolNfs) then
          newMountOptionFromString
            ("context=" +:+ quote +:+ "system_u:object_r:" +:+ selinuxContextNfs +:+ ":s0" +:+ quote)
        else option_zero in
      let m := if bool_decide (opt_option o = "") then m else <[opt_option o := o]> m in
      set_in m MountOptionAcl
    else
      let m := if bool_decide (mountProtocol = MountProtocolWekafs) then delete "fscontext" m else m in
      if bool_decide (mountProtocol = MountProtocolNfs) then delete "context" m else m in
  MkOptions m' (excludeOptions opts).

(** The [switch] of [AsNfs] on one WEKA option. *)
Definition nfs_of_option (ret : MountOptions) (o : mountOption) : MountOptions :=
  let n := opt_option o in
  if bool_decide (n = MountOptionWriteCache) then setOption ret MountOptionNfsAsync
  else if bool_decide (n = MountOptionCoherent) then
    setOption (setOption ret MountOptionNfsSync) MountOptionNfsNoac
  else if bool_decide (n = MountOptionForceDirect) then
    setOption (setOption ret MountOptionNfsSync) MountOptionNfsNoac
  else if bool_decide (n = MountOptionReadCache) then setOption ret MountOptionNfsAc
  else if bool_decide (n = "dentry_max_age_positive") then
    setOption (setOption ret ("acdirmax=" +:+ opt_value o)) ("acregmax=" +:+ opt_value o)
  else ret.

Definition AsNfs (opts : MountOptions) : MountOptions :=
  foldl nfs_of_option (NewMountOptionsFromString DefaultNfsMountOptions) (getOpts opts).

(** ** Driver configuration of exclusive sets (driverconfig.go, NewDriverConfig) *)
Definition exclusive_sets (mutuallyExclusiveMountOptions : list string) : list (list string) :=
  match (Split "," <$> mutuallyExclusiveMountOptions) with
  | [] => [[MountOptionWriteCache; MountOptionCoherent; MountOptionReadCache]]
  | l => l
  end.

(** * Theorems *)

(** Every entry is stored under its own option name. *)
Definition wf (m : options_map) : Prop := map_Forall (fun k o => opt_option o = k) m.
#[export] Instance wf_dec m : Decision (wf m).
Proof. unfold wf. apply _. Defined.

(** [a] and [k] are alternatives of a common exclusive set. *)
Definition competes (E : list (list string)) (a k : string) : Prop :=
  Exists (fun set => a ∈ set /\ k ∈ set) E.
#[export] Instance competes_dec E a k : Decision (competes E a k).
Proof. unfold competes. apply _. Defined.

(** No two different options of [m] are alternatives of each other. *)
Definition exclusive_ok (E : list (list string)) (m : options_map) : Prop :=
  map_Forall (fun a _ => map_Forall (fun b _ => competes E a b -> a = b) m) m.
#[export] Instance exclusive_ok_dec E m : Decision (exclusive_ok E m).
Proof. unfold exclusive_ok. apply _. Defined.

(** ** Lookups after the loops of [Merge] *)

Lemma foldl_delete_lookup (l : list string) (m : options_map) k :
  foldl (fun m x => delete x m) m l !! k = if decide (k ∈ l) then None else m !! k.
Proof.
  induction l as [|x l IH] using rev_ind; [done|].
  rewrite foldl_app. cbn. rewrite lookup_delete, IH.
  repeat case_decide; set_solver.
Qed.

Lemma drop_alternatives_lookup o m set k :
  drop_alternatives o m set !! k =
  if decide (o ∈ set /\ k ∈ set /\ k <> o) then None else m !! k.
Proof.
  unfold drop_alternatives. case_bool_decide as Ho; [|case_decide; naive_solver].
  assert (E : foldl (fun m x => if bool_decide (x = o) then m else delete x m) m set !! k =
              if decide (k ∈ set /\ k <> o) then None else m !! k).
  { clear Ho. induction set as [|x l IH] using rev_ind; [case_decide; set_solver|].
    rewrite foldl_app. cbn. case_bool_decide.
    - rewrite IH. repeat case_decide; set_solver.
    - rewrite lookup_delete, IH. repeat case_decide; set_solver. }
  rewrite E. repeat case_decide; naive_solver.
Qed.

Lemma merge_option_lookup E m o k :
  merge_option E m o !! k =
  if decide (k = opt_option o) then Some o
  else if decide (competes E (opt_option o) k) then None else m !! k.
Proof.
  unfold merge_option, competes. induction E as [|s E IH] using rev_ind.
  - cbn. rewrite lookup_insert. destruct (decide (k = opt_option o)) as [->|].
    + by rewrite decide_True.
    + rewrite decide_False by done. by rewrite decide_False by inversion 1.
  - rewrite foldl_app. cbn [foldl]. rewrite drop_alternatives_lookup, IH.
    destruct (decide (k = opt_option o)) as [->|Hk].
    { rewrite decide_False; naive_solver. }
    repeat case_decide; try done; rewrite ?Exists_app, ?Exists_cons, ?Exists_nil in *; naive_solver.
Qed.

(** The options that a list has after the first one of a name. *)
Fixpoint after_name (k : string) (l : list mountOption) : list mountOption :=
  match l with
  | [] => []
  | o :: l' => if decide (opt_option o = k) then l' else after_name k l'
  end.
Lemma after_name_snoc k l o : k ∈ opt_option <$> l -> after_name k (l ++ [o]) = after_name k l ++ [o].
Proof. induction l as [|x l IH]; [set_solver|]. cbn. case_decide; [done|]. intros Hk. apply IH. set_solver. Qed.
Lemma after_name_snoc_new k l o : k ∉ opt_option <$> l -> after_name k (l ++ [o]) = after_name k [o].
Proof. induction l as [|x l IH]; [done|]. cbn. intros Hk. rewrite decide_False by set_solver. apply IH. set_solver. Qed.
Lemma after_name_sub k l o : o ∈ after_name k l -> o ∈ l.
Proof. induction l as [|x l IH]; cbn; [done|]. case_decide; set_solver. Qed.
Lemma after_name_other k l o :
  NoDup (opt_option <$> l) -> o ∈ after_name k l -> opt_option o <> k.
Proof.
  induction l as [|x l IH]; cbn; [set_solver|]. intros [Hx Hl]%NoDup_cons Ho. case_decide as Hk; [|auto].
  intros <-. apply Hx. rewrite Hk. by apply list_elem_of_fmap_2.
Qed.

Section merge_list.
Context (E : list (list string)) (m : options_map).
Implicit Types l : list mountOption.

Lemma merge_options_snoc l o :
  merge_options E m (l ++ [o]) = merge_option E (merge_options E m l) o.
Proof. unfold merge_options. by rewrite foldl_app. Qed.

(** A merged option survives when no alternative is merged after it. *)
Lemma merge_options_lookup_in l o :
  NoDup (opt_option <$> l) -> o ∈ l ->
  merge_options E m l !! opt_option o =
  if decide (Exists (fun o' => competes E (opt_option o') (opt_option o)) (after_name (opt_option o) l))
  then None else Some o.
Proof.
  induction l as [|o' l IH] using rev_ind; [set_solver|].
  rewrite merge_options_snoc, merge_option_lookup, fmap_app, NoDup_app. intros (Hnd & Hdisj & _) Hin.
  destruct (decide (o = o')) as [->|Hne].
  - rewrite decide_True, after_name_snoc_new by (try done; intros ?; apply (Hdisj (opt_option o')); set_solver).
    symmetry. apply decide_False. cbn. destruct (decide (opt_option o' = opt_option o')); intros Hex; inversion Hex.
  - assert (o ∈ l) as Hol by set_solver.
    assert (opt_option o ∈ opt_option <$> l) as Hname by by apply list_elem_of_fmap_2.
    rewrite decide_False by (intros Heq; apply (Hdisj (opt_option o)); [done|set_solver]).
    rewrite after_name_snoc, IH by done.
    repeat case_decide; try done; rewrite ?Exists_app, ?Exists_cons, ?Exists_nil in *; naive_solver.
Qed.

(** An option that is not merged is dropped by a merged alternative, and is
    kept otherwise. *)
Lemma merge_options_lookup_out l k :
  k ∉ opt_option <$> l ->
  merge_options E m l !! k =
  if decide (Exists (fun o => competes E (opt_option o) k) l) then None else m !! k.
Proof.
  induction l as [|o' l IH] using rev_ind; intros Hk.
  { rewrite decide_False; [done|]. inversion 1. }
  rewrite fmap_app in Hk.
  rewrite merge_options_snoc, merge_option_lookup, IH by set_solver.
  rewrite decide_False by set_solver.
  repeat case_decide; try done; rewrite ?Exists_app, ?Exists_cons, ?Exists_nil in *; naive_solver.
Qed.

Lemma merge_options_exclusive l : exclusive_ok E m -> exclusive_ok E (merge_options E m l).
Proof.
  intros Hm. induction l as [|o l IH] using rev_ind; [done|].
  rewrite merge_options_snoc. intros a oa Ha b ob Hb Hab.
  rewrite merge_option_lookup in Ha, Hb.
  assert (competes E b a) as Hba.
  { unfold competes in *. eapply Exists_impl; [apply Hab|]. naive_solver. }
  repeat case_decide; simplify_eq; try done. by eapply (IH a oa Ha b ob).
Qed.
End merge_list.

Lemma range_elem `{MapOrder} m o : wf m -> o ∈ range m <-> m !! opt_option o = Some o.
Proof.
  intros Hwf. rewrite range_perm, list_elem_of_fmap. split.
  - intros ([k o'] & -> & Hk%elem_of_map_to_list). cbn. by rewrite (Hwf _ _ Hk).
  - intros Ho. exists (opt_option o, o). split; [done|]. by apply elem_of_map_to_list.
Qed.

Lemma range_NoDup `{MapOrder} m : wf m -> NoDup (opt_option <$> range m).
Proof.
  intros Hwf. rewrite range_perm, <- list_fmap_compose.
  assert (E : (opt_option ∘ snd) <$> map_to_list m = (map_to_list m).*1).
  { apply list_fmap_ext. intros i [k o] Hi. cbn. apply Hwf, elem_of_map_to_list.
    apply list_elem_of_lookup; eauto. }
  rewrite E. apply NoDup_fst_map_to_list.
Qed.

Lemma range_name `{MapOrder} m k : wf m -> k ∈ opt_option <$> range m <-> is_Some (m !! k).
Proof.
  intros Hwf. rewrite list_elem_of_fmap. split.
  - intros (o & -> & Ho%range_elem); eauto.
  - intros [o Ho]. exists o. rewrite (Hwf _ _ Ho). split; [done|].
    apply range_elem; [done|]. by rewrite (Hwf _ _ Ho).
Qed.

Section merge_spec.
Context (opts other : MountOptions) (E : list (list string)).
Hypothesis other_wf : wf (customOptions other).

(** An option that is merged is lost again to an alternative that Go reaches
    later in the map of [other]. *)
Definition overridden `{MapOrder} (k : string) : Prop :=
  Exists (fun o => competes E (opt_option o) k) (after_name k (range (customOptions other))).
#[local] Instance overridden_dec `{MapOrder} k : Decision (overridden k).
Proof. unfold overridden. apply _. Defined.
(** This takes two alternatives in [other]. *)
Lemma exclusive_not_overridden `{MapOrder} k :
  exclusive_ok E (customOptions other) -> is_Some (customOptions other !! k) -> ~ overridden k.
Proof.
  intros Hok [o Ho] (o' & Hin & Hc)%Exists_exists.
  pose proof (after_name_other _ _ _ (range_NoDup _ other_wf) Hin) as Hne.
  apply after_name_sub, range_elem in Hin; [|done]. apply Hne. by eapply Hok.
Qed.

Lemma merge_range_overridden `{MapOrder} (m : options_map) k :
  merge_options E m (range (customOptions other)) !! k =
  match customOptions other !! k with
  | Some o => if decide (overridden k) then None else Some o
  | None =>
      if decide (map_Exists (fun j _ => competes E j k) (customOptions other))
      then None else m !! k
  end.
Proof.
  destruct (customOptions other !! k) as [o|] eqn:Ho.
  - pose proof (other_wf _ _ Ho) as <-.
    rewrite merge_options_lookup_in; [|by apply range_NoDup|by apply range_elem].
    by apply decide_ext.
  - rewrite merge_options_lookup_out.
    2: { rewrite range_name by done. rewrite Ho. apply is_Some_None. }
    apply decide_ext. rewrite Exists_exists. unfold map_Exists. split.
    + intros (o & Hin%range_elem & Hc); [|done]. eauto.
    + intros (j & o & Hj & Hc). pose proof (other_wf _ _ Hj) as <-.
      exists o. split; [by apply range_elem|done].
Qed.
Lemma merge_range_lookup `{MapOrder} (m : options_map) k :
  exclusive_ok E (customOptions other) ->
  merge_options E m (range (customOptions other)) !! k =
  match customOptions other !! k with
  | Some o => Some o
  | None =>
      if decide (map_Exists (fun j _ => competes E j k) (customOptions other))
      then None else m !! k
  end.
Proof.
  intros Hok. rewrite merge_range_overridden. destruct (customOptions other !! k) eqn:Ho; [|done].
  rewrite decide_False; [done|]. apply exclusive_not_overridden; eauto.
Qed.

(** (C36) What [Merge] computes, in whatever order the map of [other] is ranged
    over: excluded options are gone; an option of [other] takes precedence over
    the receiver's and is kept, unless [other] also names an alternative that
    is reached after it, so that of two alternatives in [other] the order of
    the map decides (with no two alternatives in it, the order plays no role);
    options of the receiver with an alternative in [other] are dropped, and all
    others are kept.  The map of [other] has each option under its name, as
    every map of options has. *)
Theorem Merge_lookup `{MapOrder} :
  (forall k, customOptions (Merge opts other E) !! k =
     if decide (k ∈ excludeOptions other) then None
     else match customOptions other !! k with
          | Some o => if decide (overridden k) then None else Some o
          | None =>
              if decide (map_Exists (fun j _ => competes E j k) (customOptions other))
              then None else customOptions opts !! k
          end) /\
  (exclusive_ok E (customOptions other) -> forall k, is_Some (customOptions other !! k) -> ~ overridden k).
Proof.
  split; [|intros Hok k; by apply exclusive_not_overridden]. intros k.
  unfold Merge. cbn. rewrite foldl_delete_lookup. case_decide; [done|]. apply merge_range_overridden.
Qed.
End merge_spec.

Lemma Merge_lookup_witness :
  customOptions (Merge (NewMountOptionsFromString "acl,writecache") (NewMountOptionsFromString "readcache,coherent")
     (exclusive_sets [])) !! "writecache" = None.
Proof.
  rewrite (proj1 (Merge_lookup _ (NewMountOptionsFromString "readcache,coherent") (exclusive_sets [])
    ltac:(apply (bool_decide_unpack _); vm_compute; exact I))).
  vm_compute. reflexivity.
Defined.

(** The result of [Merge] does not depend on the order in which Go ranges
    over the map of [other], as long as [other] names no two alternatives. *)
Theorem Merge_order_irrelevant (O1 O2 : MapOrder) opts other E :
  wf (customOptions other) -> exclusive_ok E (customOptions other) ->
  @Merge O1 opts other E = @Merge O2 opts other E.
Proof.
  intros Hwf Hok. unfold Merge. f_equal. apply map_eq. intros k.
  rewrite !foldl_delete_lookup. case_decide; [done|].
  by rewrite !(merge_range_lookup other E Hwf) by done.
Qed.

(** The reverse of the reference order, as a second order. *)
Definition reverse_order : MapOrder.
Proof. refine {| range m := reverse (map_to_list m).*2 |}. intros m. by rewrite reverse_Permutation. Defined.

Lemma Merge_order_irrelevant_witness :
  @Merge trie_order (NewMountOptionsFromString "writecache") (NewMountOptionsFromString "acl,readcache") (exclusive_sets [])
  = @Merge reverse_order (NewMountOptionsFromString "writecache") (NewMountOptionsFromString "acl,readcache") (exclusive_sets []).
Proof.
  apply (Merge_order_irrelevant trie_order reverse_order);
    apply (bool_decide_unpack _); vm_compute; exact I.
Defined.

(** With two alternatives in [other], the outcome is the choice of the runtime:
    "readcache,coherent" over an empty receiver keeps one or the other. *)
Lemma Merge_order_relevant :
  String_ (@Merge trie_order getDefaultMountOptions (NewMountOptionsFromString "readcache,coherent") (exclusive_sets []))
  <> String_ (@Merge reverse_order getDefaultMountOptions (NewMountOptionsFromString "readcache,coherent") (exclusive_sets [])).
Proof. vm_compute. discriminate. Qed.

Lemma exclusive_ok_delete E m k : exclusive_ok E m -> exclusive_ok E (delete k m).
Proof.
  intros Hm a oa Ha b ob Hb Hab. apply lookup_delete_Some in Ha as [_ Ha], Hb as [_ Hb].
  by eapply Hm.
Qed.

Lemma exclusive_ok_deletes E l m :
  exclusive_ok E m -> exclusive_ok E (foldl (fun m x => delete x m) m l).
Proof. revert m. induction l; cbn; auto using exclusive_ok_delete. Qed.

(** Safety of [Merge]: a receiver that names no two mutually exclusive
    options still names none afterwards, whatever is merged into it (even two
    alternatives) and in whatever order. *)
Theorem Merge_exclusive `{MapOrder} opts other E :
  exclusive_ok E (customOptions opts) -> exclusive_ok E (customOptions (Merge opts other E)).
Proof. intros Hm. apply exclusive_ok_deletes, merge_options_exclusive, Hm. Qed.

Lemma Merge_exclusive_witness :
  exclusive_ok (exclusive_sets [])
    (customOptions (Merge (NewMountOptionsFromString "acl,writecache")
                          (NewMountOptionsFromString "readcache,coherent") (exclusive_sets []))).
Proof. apply Merge_exclusive. apply (bool_decide_unpack _). vm_compute. exact I. Defined.

(** ** Well-formedness is an invariant of every operation *)

Lemma wf_insert m o : wf m -> wf (<[opt_option o := o]> m).
Proof. intros Hm. by apply map_Forall_insert_2. Qed.
Lemma wf_delete m k : wf m -> wf (delete k m).
Proof. intros Hm. by apply map_Forall_delete. Qed.
Lemma wf_set_in m s : wf m -> wf (set_in m s).
Proof. apply wf_insert. Qed.
Lemma wf_deletes l m : wf m -> wf (foldl (fun m x => delete x m) m l).
Proof. revert m. induction l; cbn; auto using wf_delete. Qed.
#[export] Hint Resolve wf_insert wf_delete wf_set_in wf_deletes : wekafs.

Lemma wf_merge_option E m o : wf m -> wf (merge_option E m o).
Proof.
  intros Hm k o' Hk. rewrite merge_option_lookup in Hk.
  repeat case_decide; simplify_eq; [done|by apply Hm].
Qed.
Lemma wf_Merge `{MapOrder} opts other E :
  wf (customOptions opts) -> wf (customOptions (Merge opts other E)).
Proof.
  intros Hm. apply wf_deletes. unfold merge_options.
  generalize (range (customOptions other)). intros l. revert Hm.
  generalize (customOptions opts). induction l; cbn; auto using wf_merge_option.
Qed.
Lemma wf_NewMountOptions l : wf (customOptions (NewMountOptions l)).
Proof.
  unfold NewMountOptions. cbn.
  assert (Hm : wf ∅) by apply map_Forall_empty. revert Hm. generalize (∅ : options_map).
  induction l as [|s l IH]; cbn; intros m Hm; [done|].
  apply IH. case_bool_decide; auto with wekafs.
Qed.
Lemma wf_NewMountOptionsFromString s : wf (customOptions (NewMountOptionsFromString s)).
Proof. unfold NewMountOptionsFromString. case_bool_decide; apply wf_NewMountOptions. Qed.
#[export] Hint Resolve wf_Merge wf_NewMountOptionsFromString : wekafs.

(** ** Printing and parsing *)

(** An option whose name and value are free of the separators and of
    surrounding white space. *)
Record clean_option (o : mountOption) : Prop := {
  clean_name : opt_option o <> "";
  clean_name_eq : contains_char "=" (opt_option o) = false;
  clean_name_comma : contains_char "," (opt_option o) = false;
  clean_value_eq : contains_char "=" (opt_value o) = false;
  clean_value_comma : contains_char "," (opt_value o) = false;
  clean_space : TrimSpace (option_String o) = option_String o;
}.
#[export] Instance clean_option_dec o : Decision (clean_option o).
Proof.
  refine (cast_if (decide (opt_option o <> "" /\ contains_char "=" (opt_option o) = false
    /\ contains_char "," (opt_option o) = false /\ contains_char "=" (opt_value o) = false
    /\ contains_char "," (opt_value o) = false /\ TrimSpace (option_String o) = option_String o)));
    [abstract (constructor; naive_solver)|abstract (intros []; naive_solver)].
Defined.

Lemma newMountOption_String o : clean_option o -> newMountOptionFromString (option_String o) = o.
Proof.
  intros [Hn He _ Hv _ _]. destruct o as [n v]. cbn in *.
  unfold newMountOptionFromString, option_String. cbn. case_bool_decide.
  - subst. by rewrite Split_no_sep.
  - rewrite app_str_cons, app_str_nil_l. by rewrite Split_app_sep, Split_no_sep.
Qed.

Lemma option_String_ne o : clean_option o -> option_String o <> "".
Proof.
  intros [Hn _ _ _ _ _]. unfold option_String. case_bool_decide; [done|].
  destruct (opt_option o); done.
Qed.

Lemma option_String_comma o : clean_option o -> contains_char "," (option_String o) = false.
Proof.
  intros [_ _ Hn _ Hv _]. unfold option_String. case_bool_decide; [done|].
  rewrite !contains_char_app, Hn, Hv. done.
Qed.

(** The options of a well-formed map, printed in the order of their names. *)
Lemma opts_of_map_elem m o : wf m -> o ∈ opts_of_map m <-> m !! opt_option o = Some o.
Proof.
  intros Hwf. unfold opts_of_map. rewrite list_elem_of_fmap.
  setoid_rewrite sort_strings_perm. setoid_rewrite elem_of_elements. setoid_rewrite elem_of_dom.
  split.
  - intros (k & -> & [o' Ho']). rewrite Ho'. cbn. by rewrite (Hwf _ _ Ho').
  - intros Ho. exists (opt_option o). rewrite Ho. eauto.
Qed.

(** Re-inserting options of [m] over part of [m] rebuilds [m]. *)
Lemma foldl_insert_lookup (m acc : options_map) (l : list mountOption) k :
  Forall (fun o => m !! opt_option o = Some o) l ->
  foldl (fun acc o => <[opt_option o := o]> acc) acc l !! k =
  if decide (k ∈ opt_option <$> l) then m !! k else acc !! k.
Proof.
  induction l as [|o l IH] using rev_ind; intros Hl; [done|].
  apply Forall_app in Hl as [Hl Ho]. apply Forall_cons in Ho as [Ho _].
  rewrite foldl_app, fmap_app. cbn. rewrite lookup_insert, IH by done.
  destruct (decide (opt_option o = k)) as [Hok|Hok].
  - cbn. rewrite decide_True by set_solver. by rewrite <- Hok.
  - cbn. apply decide_ext. set_solver.
Qed.

Lemma foldl_insert_opts m :
  wf m -> foldl (fun acc o => <[opt_option o := o]> acc) ∅ (opts_of_map m) = m.
Proof.
  intros Hwf. apply map_eq. intros k. rewrite (foldl_insert_lookup m).
  2: { apply Forall_forall. intros o. by rewrite opts_of_map_elem. }
  case_decide as Hk; [done|]. rewrite lookup_empty. symmetry. apply eq_None_not_Some.
  intros [o Ho]. apply Hk. apply list_elem_of_fmap. exists o. rewrite (Hwf _ _ Ho).
  split; [done|]. apply opts_of_map_elem; [done|]. by rewrite (Hwf _ _ Ho).
Qed.

Lemma NewMountOptions_Strings l :
  Forall clean_option l ->
  customOptions (NewMountOptions (option_String <$> l))
  = foldl (fun acc o => <[opt_option o := o]> acc) ∅ l.
Proof.
  unfold NewMountOptions. cbn. generalize (∅ : options_map). intros m Hl.
  revert m. induction Hl as [|o l Ho Hl IH]; intros m; [done|]. cbn.
  rewrite (clean_space _ Ho). rewrite bool_decide_false by by apply option_String_ne.
  rewrite IH. f_equal. unfold set_in. by rewrite newMountOption_String.
Qed.

Lemma Join_nil_inv sep (l : list string) : Forall (fun w => w <> "") l -> Join sep l = "" -> l = [].
Proof.
  intros Hl HJ. destruct Hl as [|w ws Hw Hws]; [done|]. exfalso. apply Hw.
  destruct ws as [|w' ws]; [done|]. cbn in HJ. by destruct w.
Qed.

Definition clean (opts : MountOptions) : Prop :=
  wf (customOptions opts) /\ map_Forall (fun _ o => clean_option o) (customOptions opts).
#[export] Instance clean_dec opts : Decision (clean opts).
Proof. unfold clean. apply _. Defined.

Lemma print_parse opts :
  clean opts -> customOptions (NewMountOptionsFromString (String_ opts)) = customOptions opts.
Proof.
  intros [Hwf Hcl]. set (m := customOptions opts) in *.
  assert (Hl : Forall clean_option (opts_of_map m)).
  { apply Forall_forall. intros o Ho%opts_of_map_elem; [|done]. by eapply Hcl. }
  rewrite <- (foldl_insert_opts m Hwf) at 1. rewrite <- NewMountOptions_Strings by done.
  unfold NewMountOptionsFromString, String_, Strings, getOpts. fold m.
  case_bool_decide as E.
  - apply Join_nil_inv in E as ->; [done|]. apply Forall_fmap.
    eapply Forall_impl; [done|]. apply option_String_ne.
  - rewrite Split_Join; [done| |].
    + intros HN. apply E. by rewrite HN.
    + apply Forall_fmap. eapply Forall_impl; [done|]. apply option_String_comma.
Qed.

(** (C37) Round trip: printing a set of clean options with [String] and parsing
    the text with [NewMountOptionsFromString] gives the same set back.  Clean:
    each option is stored under its name, which is not empty; names and values
    have no comma and no equals sign; and an option as printed has no white
    space around it.  (Otherwise the set may differ, as for "acl =", see
    [blank_name_not_recovered].) *)
Theorem parse_String opts :
  clean opts -> customOptions (NewMountOptionsFromString (String_ opts)) = customOptions opts.
Proof. apply print_parse. Qed.

Lemma parse_String_witness :
  customOptions (NewMountOptionsFromString (String_ (NewMountOptionsFromString "writecache,a=1")))
  = customOptions (NewMountOptionsFromString "writecache,a=1").
Proof. apply parse_String. apply (bool_decide_unpack _); vm_compute; exact I. Defined.

(** Blanks before the equals sign are kept in the name, but not by a second
    parse: "acl =" is stored under "acl " and comes back as "acl". *)
Lemma blank_name_not_recovered :
  let opts := NewMountOptionsFromString "acl =" in
  map_to_list (customOptions opts) = [("acl ", MkOption "acl " "")] /\
  map_to_list (customOptions (NewMountOptionsFromString (String_ opts))) = [("acl", MkOption "acl" "")].
Proof. vm_compute. split; reflexivity. Qed.

(** The printed form identifies the options: it can serve as a key. *)
Lemma String_inj opts1 opts2 :
  clean opts1 -> clean opts2 ->
  String_ opts1 = String_ opts2 -> customOptions opts1 = customOptions opts2.
Proof. intros H1 H2 E. by rewrite <- (print_parse opts1), <- (print_parse opts2), E. Qed.
