(* ===== verification/OptionStore.v ===== *)
(** * Mount options as shared Go maps (pkg/wekafs/mountoptions.go)

    [MountOptions] is a struct with a map inside, so copying it copies a
    reference.  This file runs the operations on a store of maps: the deriving
    ones ([AddOption], [RemoveOption], [MergedWith]) clone, the others
    ([setOption], [Merge], [setSelinux]) write through the reference. *)
From S2P Require Import Prelude.
From S2P Require Import GoStrings.
From S2P Require Import Hashing.
From S2P Require Import MountOptions.

Module Store.

Abbreviation store := (gmap nat options_map).
(** A [MountOptions] value: the reference to its map, and its exclusions. *)
Record handle := Handle { customRef : nat; exclude : list string }.
Implicit Types (h : store) (x y : handle).

Definition content h x : options_map := default ∅ (h !! customRef x).
Definition view h x : MountOptions := MkOptions (content h x) (exclude x).
Definition write h x (m : options_map) : store := <[customRef x := m]> h.

Definition new (h : store) (m : options_map) (ex : list string) : handle * store :=
  let l := fresh (dom h) in (Handle l ex, <[l := m]> h).

(** [cloneCustomOptions], into a new value with the receiver's exclusions. *)
Definition clone h x : handle * store := new h (content h x) (exclude x).

(** ** Operations that write through the receiver *)
Definition setOption h x (s : string) : store := write h x (set_in (content h x) s).
Definition setSelinux h x (on : bool) (proto : string) : store :=
  write h x (customOptions (MountOptions.setSelinux (view h x) on proto)).
Definition Merge `{MapOrder} h x y E : store :=
  write h x (customOptions
    (if bool_decide (customRef x = customRef y)
     then let m := merge_self E (content h x) (range (content h x)) in
          MkOptions (foldl (fun m k => delete k m) m (exclude y)) (exclude x)
     else MountOptions.Merge (view h x) (view h y) E)).

(** ** Operations that derive a new value *)
Definition AddOption h x (s : string) : handle * store :=
  let '(r, h) := clone h x in
  let o := newMountOptionFromString s in
  (r, write h r (<[opt_option o := o]> (content h r))).
Definition RemoveOption h x (s : string) : handle * store :=
  let '(r, h) := clone h x in
  (r, write h r (delete (opt_option (newMountOptionFromString s)) (content h r))).
Definition MergedWith `{MapOrder} h x y E : handle * store :=
  let '(r, h) := clone h x in (r, Merge h r y E).

(** The deriving operations as data, and what each means on values. *)
Inductive derivation := DAdd (s : string) | DRemove (s : string) | DMerged (y : handle) (E : list (list string)).

Definition derive `{MapOrder} (d : derivation) h x : handle * store :=
  match d with
  | DAdd s => AddOption h x s
  | DRemove s => RemoveOption h x s
  | DMerged y E => MergedWith h x y E
  end.
Definition meaning `{MapOrder} (d : derivation) h x : MountOptions :=
  match d with
  | DAdd s => MountOptions.AddOption (view h x) s
  | DRemove s => MountOptions.RemoveOption (view h x) s
  | DMerged y E => MountOptions.MergedWith (view h x) (view h y) E
  end.
(** The references a derivation reads are allocated. *)
Definition allocated (d : derivation) h x : Prop :=
  is_Some (h !! customRef x) /\
  match d with DMerged y _ => is_Some (h !! customRef y) | _ => True end.

(** [AsMapKey] and [AsVolumeContext] derive through [RemoveOption]. *)
Definition without (l : list string) h x : handle * store :=
  foldl (fun '(r, h) o => RemoveOption h r o) (x, h) l.
Definition AsMapKey h x : string * store :=
  let '(r, h) := without [MountOptionSyncOnClose] h x in (String_ (view h r), h).
Definition AsVolumeContext h x : string * store :=
  let '(r, h) := without [MountOptionSyncOnClose; MountOptionContainerName] h x in
  (String_ (view h r), h).

(** ** Lemmas *)

Lemma content_write_eq h x m : content (write h x m) x = m.
Proof. unfold content, write. by rewrite lookup_insert_eq. Qed.

Lemma write_other h x m l : l <> customRef x -> write h x m !! l = h !! l.
Proof. intros. unfold write. by apply lookup_insert_ne. Qed.

(** A clone is a new reference to the same content; nothing else changes. *)
Lemma clone_spec h x :
  h !! customRef (clone h x).1 = None /\ exclude (clone h x).1 = exclude x
  /\ content (clone h x).2 (clone h x).1 = content h x
  /\ (forall l, is_Some (h !! l) -> (clone h x).2 !! l = h !! l).
Proof.
  pose proof (is_fresh (dom h)) as Hf. apply not_elem_of_dom in Hf.
  unfold clone, new. cbn. unfold content. cbn. rewrite lookup_insert_eq.
  repeat split; try done. intros l [m Hm]. apply lookup_insert_ne. congruence.
Qed.

Lemma content_frame h h' y : (forall l, is_Some (h !! l) -> h' !! l = h !! l) ->
  is_Some (h !! customRef y) -> content h' y = content h y.
Proof. intros Hf Hy. unfold content. by rewrite Hf. Qed.

(** (C38) Deriving never aliases: [AddOption], [RemoveOption] and [MergedWith]
    leave every map that existed before untouched, and return a new reference
    whose content is the derived option set. *)
Theorem derive_frame `{MapOrder} d h x :
  allocated d h x ->
  (forall l, is_Some (h !! l) -> (derive d h x).2 !! l = h !! l)
  /\ h !! customRef (derive d h x).1 = None
  /\ view (derive d h x).2 (derive d h x).1 = meaning d h x.
Proof.
  intros [Hx Hd]. destruct (clone_spec h x) as (Hn & He & Hc & Hf).
  assert (Hw : forall m l, is_Some (h !! l) ->
            write (clone h x).2 (clone h x).1 m !! l = h !! l).
  { intros m l [m' Hm']. rewrite write_other by congruence. by apply Hf. }
  destruct d as [s|s|y E]; unfold derive, meaning, AddOption, RemoveOption, MergedWith, Merge;
    destruct (clone h x) as [r h1]; cbn in *; (split; [apply Hw|split; [done|]]);
    unfold view; rewrite content_write_eq, He; [by rewrite Hc..|].
  unfold MountOptions.MergedWith, MountOptions.Merge. cbn.
  rewrite bool_decide_false by (destruct Hd; congruence). cbn.
  by rewrite Hc, (content_frame h h1 y).
Qed.

Lemma derive_frame_witness :
  let h := {[0%nat := customOptions (NewMountOptionsFromString "acl")]} : store in
  let x := Handle 0 [] in
  (forall l, is_Some (h !! l) -> (derive (DAdd "a=1") h x).2 !! l = h !! l)
  /\ h !! customRef (derive (DAdd "a=1") h x).1 = None
  /\ view (derive (DAdd "a=1") h x).2 (derive (DAdd "a=1") h x).1 = meaning (DAdd "a=1") h x.
Proof. apply derive_frame. split; [|exact I]. apply (bool_decide_unpack _). vm_compute. exact I. Defined.

(** The in-place operations change the receiver's map only. *)
Lemma in_place_frame `{MapOrder} h x y E s on proto l :
  l <> customRef x ->
  setOption h x s !! l = h !! l /\ setSelinux h x on proto !! l = h !! l /\ Merge h x y E !! l = h !! l.
Proof. intros Hl. repeat split; by apply write_other. Qed.

(** The sharing is real: after [Merge] on a copy of the struct, the original
    shows the merged option too. *)
Example Merge_shares :
  let h := {[0%nat := ∅; 1%nat := customOptions (NewMountOptionsFromString "acl")]} : store in
  hasOption (view (Merge h (Handle 0 [""]) (Handle 1 []) []) (Handle 0 [])) "acl" = true.
Proof. vm_compute. reflexivity. Qed.

End Store.
