(* ===== verification/Regex.v ===== *)
(** * A matcher for the regular expressions of the identifier checks

    The patterns of [validateVolumeId] and [validateSnapshotId] use literals,
    character classes, grouping, [+] and [*]; that of [isValidHostname] is
    anchored and counts repetitions.  [MatchString] is Go's unanchored
    match, computed with derivatives and proved equal to the usual semantics. *)
From S2P Require Import Prelude.
From S2P Require Import GoStrings.

Inductive re :=
| Eps
| Void
| Chr (p : ascii -> bool)
| Seq (r1 r2 : re)
| Alt (r1 r2 : re)
| Star (r : re).

Definition Plus (r : re) : re := Seq r (Star r).
Fixpoint Lit (s : string) : re :=
  match s with "" => Eps | String a s' => Seq (Chr (fun c => bool_decide (c = a))) (Lit s') end.
(** [[^...]], and [.] (everything but a newline) *)
Definition NotIn (s : string) : re := Chr (fun c => negb (contains_char c s)).
Definition AnyChar : re := Chr (fun c => negb (bool_decide (c = "010"%char))).
Definition In_ (s : string) : re := Chr (fun c => contains_char c s).

Inductive matches : re -> string -> Prop :=
| m_eps : matches Eps ""
| m_chr p a : p a = true -> matches (Chr p) (String a "")
| m_seq r1 r2 s1 s2 : matches r1 s1 -> matches r2 s2 -> matches (Seq r1 r2) (s1 +:+ s2)
| m_alt1 r1 r2 s : matches r1 s -> matches (Alt r1 r2) s
| m_alt2 r1 r2 s : matches r2 s -> matches (Alt r1 r2) s
| m_star0 r : matches (Star r) ""
| m_star r s1 s2 : matches r s1 -> matches (Star r) s2 -> matches (Star r) (s1 +:+ s2).
#[export] Hint Constructors matches : wekafs.

(** ** Derivatives *)

Fixpoint nullable (r : re) : bool :=
  match r with
  | Eps | Star _ => true
  | Void | Chr _ => false
  | Seq r1 r2 => nullable r1 && nullable r2
  | Alt r1 r2 => nullable r1 || nullable r2
  end.

Fixpoint deriv (a : ascii) (r : re) : re :=
  match r with
  | Eps | Void => Void
  | Chr p => if p a then Eps else Void
  | Seq r1 r2 =>
      if nullable r1 then Alt (Seq (deriv a r1) r2) (deriv a r2) else Seq (deriv a r1) r2
  | Alt r1 r2 => Alt (deriv a r1) (deriv a r2)
  | Star r => Seq (deriv a r) (Star r)
  end.

(** Does a prefix of the string match? *)
Fixpoint match_prefix (r : re) (s : string) : bool :=
  nullable r || match s with "" => false | String a s' => match_prefix (deriv a r) s' end.

(** [Regexp.MatchString] *)
Fixpoint MatchString (r : re) (s : string) : bool :=
  match_prefix r s || match s with "" => false | String _ s' => MatchString r s' end.

(** A pattern between [^] and [$]: the whole string has to match. *)
Fixpoint MatchFull (r : re) (s : string) : bool :=
  match s with "" => nullable r | String a s' => MatchFull (deriv a r) s' end.

(** [r?] and [r{0,n}] *)
Definition Opt (r : re) : re := Alt Eps r.
Fixpoint UpTo (n : nat) (r : re) : re :=
  match n with O => Eps | S n' => Opt (Seq r (UpTo n' r)) end.

(** ** Correctness *)

Lemma app_str_nil_inv s t : s +:+ t = "" -> s = "" /\ t = "".
Proof. by destruct s. Qed.

Lemma nullable_spec r : nullable r = true <-> matches r "".
Proof.
  induction r as [| |p|r1 IH1 r2 IH2|r1 IH1 r2 IH2|r IH]; cbn.
  - split; auto with wekafs.
  - split; [done|inversion 1].
  - split; [done|inversion 1].
  - rewrite andb_true_iff, IH1, IH2. split.
    + intros [H1 H2]. apply (m_seq _ _ _ _ H1 H2).
    + intros H. inversion H as [| |? ? s1 s2 ? ? Ha Hb| | | |]; subst.
      apply app_str_nil_inv in Hb as [-> ->]. done.
  - rewrite orb_true_iff, IH1, IH2. split; [intros []; auto with wekafs|inversion 1; auto].
  - split; auto with wekafs.
Qed.

(** A non-empty word of a star starts with a non-empty word of its body. *)
Lemma star_cons r a s :
  matches (Star r) (String a s) ->
  exists s1 s2, s = s1 +:+ s2 /\ matches r (String a s1) /\ matches (Star r) s2.
Proof.
  intros H. remember (Star r) as r' eqn:Hr. remember (String a s) as w eqn:Hw.
  induction H as [| | | | | |r0 w1 w2 H1 _ H2 IH2]; simplify_eq.
  destruct w1 as [|b w1]; [by apply IH2|].
  rewrite app_str_cons in Hw. simplify_eq. eauto.
Qed.

Lemma deriv_spec r a s : matches (deriv a r) s <-> matches r (String a s).
Proof.
  revert s. induction r as [| |p|r1 IH1 r2 IH2|r1 IH1 r2 IH2|r IH]; intros s; cbn.
  - split; inversion 1.
  - split; inversion 1.
  - destruct (p a) eqn:Hp; split; inversion 1; subst; auto with wekafs. congruence.
  - assert (HS : matches (Seq (deriv a r1) r2) s ->
                 matches (Seq r1 r2) (String a s)).
    { inversion 1; subst. rewrite <- app_str_cons. constructor; [by apply IH1|done]. }
    assert (HC : matches (Seq r1 r2) (String a s) ->
                 matches (Seq (deriv a r1) r2) s \/ (matches r1 "" /\ matches (deriv a r2) s)).
    { intros H. inversion H as [| |? ? s1 s2 Ha Hb E Hs| | | |]; subst.
      destruct s1 as [|b s1]; [rewrite app_str_nil_l in Hs; subst; right; by rewrite IH2|].
      rewrite app_str_cons in Hs. simplify_eq. left. constructor; [by apply IH1|done]. }
    destruct (nullable r1) eqn:Hn.
    + apply nullable_spec in Hn. split.
      * inversion 1; subst; [auto|]. rewrite <- (app_str_nil_l (String a s)).
        constructor; [done|by apply IH2].
      * intros [|[]]%HC; auto with wekafs.
    + split; [done|]. intros [|[Hr _]]%HC; [done|]. apply nullable_spec in Hr. congruence.
  - split; inversion 1; subst; (constructor; by apply IH1) || (apply m_alt2; by apply IH2).
  - split.
    + inversion 1; subst. rewrite <- app_str_cons. constructor; [by apply IH|done].
    + intros (s1 & s2 & -> & H1 & H2)%star_cons. constructor; [by apply IH|done].
Qed.

Lemma match_prefix_spec r s :
  match_prefix r s = true <-> exists s1 s2, s = s1 +:+ s2 /\ matches r s1.
Proof.
  revert r. induction s as [|a s IH]; intros r; cbn; rewrite orb_true_iff, nullable_spec.
  - split.
    + intros [H|]; [|done]. by exists "", "".
    + intros (s1 & s2 & H & Hm). symmetry in H. apply app_str_nil_inv in H as [-> ->]. auto.
  - rewrite IH. split.
    + intros [H|(s1 & s2 & -> & H)]; [by exists "", (String a s)|].
      exists (String a s1), s2. split; [done|by apply deriv_spec].
    + intros ([|b s1] & s2 & H & Hm); [auto|].
      rewrite app_str_cons in H. simplify_eq. right. exists s1, s2. by rewrite deriv_spec.
Qed.

(** [MatchString] finds a match iff some substring is a word of the pattern. *)
Lemma MatchString_spec r s :
  MatchString r s = true <-> exists s0 s1 s2, s = s0 +:+ s1 +:+ s2 /\ matches r s1.
Proof.
  induction s as [|a s IH]; cbn [MatchString]; rewrite orb_true_iff, match_prefix_spec.
  - split; [|intros (s0 & s1 & s2 & H & Hm)].
    + intros [(s1 & s2 & H & Hm)|]; [|done]. by exists "", s1, s2.
    + symmetry in H. apply app_str_nil_inv in H as [-> H]. left. by exists s1, s2.
  - rewrite IH. split.
    + intros [(s1 & s2 & -> & Hm)|(s0 & s1 & s2 & -> & Hm)]; [by exists "", s1, s2|].
      by exists (String a s0), s1, s2.
    + intros ([|b s0] & s1 & s2 & H & Hm); [left; by exists s1, s2|].
      rewrite app_str_cons in H. simplify_eq. right. by exists s0, s1, s2.
Qed.

(** ** Words of the derived forms *)

Lemma matches_Lit s : matches (Lit s) s.
Proof.
  induction s as [|a s IH]; cbn; [constructor|].
  change (String a s) with (String a "" +:+ s). constructor; [|done]. constructor.
  by apply bool_decide_eq_true.
Qed.

Lemma matches_Star_Chr p s :
  (forall a, contains_char a s = true -> p a = true) -> matches (Star (Chr p)) s.
Proof.
  induction s as [|a s IH]; intros Hp; [constructor|].
  change (String a s) with (String a "" +:+ s). constructor.
  - constructor. apply Hp. cbn. by rewrite bool_decide_true.
  - apply IH. intros b Hb. apply Hp. cbn. by rewrite Hb, orb_true_r.
Qed.

Lemma matches_Plus_Chr p s :
  s <> "" -> (forall a, contains_char a s = true -> p a = true) -> matches (Plus (Chr p)) s.
Proof.
  destruct s as [|a s]; [done|]. intros _ Hp.
  change (String a s) with (String a "" +:+ s). constructor.
  - constructor. apply Hp. cbn. by rewrite bool_decide_true.
  - apply matches_Star_Chr. intros b Hb. apply Hp. cbn. by rewrite Hb, orb_true_r.
Qed.

Lemma MatchFull_spec r s : MatchFull r s = true <-> matches r s.
Proof.
  revert r. induction s as [|a s IH]; intros r; cbn [MatchFull];
    [apply nullable_spec|by rewrite IH, deriv_spec].
Qed.
