(* ===== verification/MountOverrides.v ===== *)
(** * Mount option overrides (pkg/wekafs/mountoptoverrides.go)

    Modifier lists such as ["+readcache,-forcedirect"], taken from annotations
    of the claim and of the pod, applied to the options of a volume by
    [applyMountOptionsOverridesToVolume] (nodeserver.go).  Go's regular
    expressions and the Kubernetes client are parameters. *)
From S2P Require Import Prelude.
From S2P Require Import GoStrings.
From S2P Require Import Hashing.
From S2P Require Import MountOptions.

Definition VolumeContextPodNameKey := "csi.storage.k8s.io/pod.name".
Definition VolumeContextPodNamespaceKey := "csi.storage.k8s.io/pod.namespace".
Definition VolumeContextPvcNameKey := "csi.storage.k8s.io/pvc/name".
Definition VolumeContextPvcNamespaceKey := "csi.storage.k8s.io/pvc/namespace".
Definition PodMountOptionOverrideAnnotation := "weka.io/mount-options-overrides".
Definition PvcMountOptionOverrideAnnotation := "weka.io/mount-options-override".

Abbreviation MountOptionOverride := string.

(** ** Applying modifiers *)

(** One comma-separated modifier of [ApplyToOptions]. *)
Definition apply_part `{MapOrder} (E : list (list string)) (opts : MountOptions) (part : string)
  : MountOptions :=
  let part := TrimSpace part in
  if bool_decide (part = "") then opts
  else if HasPrefix part "+" then
    Merge opts (NewMountOptionsFromString (TrimPrefix part "+")) E
  else if HasPrefix part "-" then RemoveOption opts (TrimPrefix part "-")
  else Merge opts (NewMountOptionsFromString part) E.

Definition ApplyToOptions `{MapOrder} (mo : MountOptionOverride) (opts : MountOptions)
    (exclusives : list (list string)) : MountOptions :=
  foldl (apply_part exclusives) opts (Split "," mo).

(** ** Annotations *)

Section Annotations.
(** [regexp.Compile] and [Regexp.MatchString] *)
Context {Regexp : Type} (Compile : string -> option Regexp) (MatchString : Regexp -> string -> bool).

Record podMountEntry := Entry { pattern : Regexp; override : MountOptionOverride }.

(** The body of the loop over the lines of the annotation. *)
Definition parse_line (line : string) : option podMountEntry :=
  let line := TrimSpace line in
  if bool_decide (line = "") || HasPrefix line "#" then None
  else match cut ":" line with
       | None => None
       | Some (before, after) =>
           let pattern := TrimSpace before in
           let rawOpts := TrimSpace after in
           if bool_decide (pattern = "") then None
           else match Compile ("^(?:" +:+ pattern +:+ ")$") with
                | None => None
                | Some re => Some (Entry re rawOpts)
                end
       end.

Definition is_line_sep (a : ascii) : bool :=
  bool_decide (a = ";"%char) || bool_decide (a = "010"%char).

Definition parsePodMountAnnotation (annotation : string) : list podMountEntry :=
  omap parse_line (FieldsFunc is_line_sep annotation).

Fixpoint first_match (entries : list podMountEntry) (pvcName : string) : MountOptionOverride :=
  match entries with
  | [] => ""
  | e :: es => if MatchString (pattern e) pvcName then override e else first_match es pvcName
  end.

(** The API server: the annotations of a pod or claim, [None] when the
    request fails. *)
Record reader := Reader {
  get_pod : string -> string -> option (gmap string string);
  get_pvc : string -> string -> option (gmap string string);
}.

Definition getPodMountOptionsOverride (crclient : reader) (podNamespace podName pvcName : string)
  : MountOptionOverride :=
  match get_pod crclient podNamespace podName with
  | None => ""
  | Some annotations =>
      match annotations !! PodMountOptionOverrideAnnotation with
      | None => ""
      | Some annotation =>
          if bool_decide (annotation = "") then ""
          else first_match (parsePodMountAnnotation annotation) pvcName
      end
  end.

Definition getPvcMountOptionsOverride (crclient : reader) (pvcNamespace pvcName : string)
  : MountOptionOverride :=
  match get_pvc crclient pvcNamespace pvcName with
  | None => ""
  | Some annotations => default "" (annotations !! PvcMountOptionOverrideAnnotation)
  end.

(** nodeserver.go: the claim's modifiers first, then the pod's.  A missing
    claim name reads as the empty string. *)
Definition applyMountOptionsOverridesToVolume `{MapOrder} (params : option (gmap string string))
    (apireader : reader) (E : list (list string)) (opts : MountOptions) : MountOptions :=
  match params with
  | None => opts
  | Some params =>
      let opts :=
        match params !! VolumeContextPvcNameKey, params !! VolumeContextPvcNamespaceKey with
        | Some pvcName, Some pvcNamespace =>
            let o := getPvcMountOptionsOverride apireader pvcNamespace pvcName in
            if bool_decide (o = "") then opts else ApplyToOptions o opts E
        | _, _ => opts
        end in
      match params !! VolumeContextPodNameKey, params !! VolumeContextPodNamespaceKey with
      | Some podName, Some podNamespace =>
          let o := getPodMountOptionsOverride apireader podNamespace podName
                     (default "" (params !! VolumeContextPvcNameKey)) in
          if bool_decide (o = "") then opts else ApplyToOptions o opts E
      | _, _ => opts
      end
  end.
End Annotations.

(** * Theorems *)

(** Trimming removes characters only. *)
Lemma trim_left_contains c s : contains_char c (trim_left s) = true -> contains_char c s = true.
Proof.
  remember (String.length s) as n eqn:Hn. assert (String.length s <= n)%nat as Hle by lia. clear Hn.
  revert s Hle. induction n as [|n IH]; intros [|a s] Hle; cbn in *; try done; try lia.
  destruct (is_ascii_space a).
  { intros H. rewrite (IH s) by (done || lia). apply orb_true_r. }
  destruct s as [|b s]; [done|]. cbn in *. destruct (space2 a b).
  { intros H. rewrite (IH s) by (done || lia). by rewrite !orb_true_r. }
  destruct s as [|d s]; [done|]. cbn in *. destruct (space3 a b d); [|done].
  intros H. rewrite (IH s) by (done || lia). by rewrite !orb_true_r.
Qed.
Lemma trim_left_rev_contains c s :
  contains_char c (trim_left_rev s) = true -> contains_char c s = true.
Proof.
  remember (String.length s) as n eqn:Hn. assert (String.length s <= n)%nat as Hle by lia. clear Hn.
  revert s Hle. induction n as [|n IH]; intros [|a s] Hle; cbn in *; try done; try lia.
  destruct (is_ascii_space a).
  { intros H. rewrite (IH s) by (done || lia). apply orb_true_r. }
  destruct s as [|b s]; [done|]. cbn in *. destruct (space2 b a).
  { intros H. rewrite (IH s) by (done || lia). by rewrite !orb_true_r. }
  destruct s as [|d s]; [done|]. cbn in *. destruct (space3 d b a); [|done].
  intros H. rewrite (IH s) by (done || lia). by rewrite !orb_true_r.
Qed.
Lemma contains_char_rev c s : contains_char c (String.rev s) = contains_char c s.
Proof.
  induction s as [|a s IH]; [done|]. rewrite rev_str_cons, contains_char_app, IH. cbn.
  rewrite orb_false_r. apply orb_comm.
Qed.
Lemma TrimSpace_no_char c s : contains_char c s = false -> contains_char c (TrimSpace s) = false.
Proof.
  rewrite <- !not_true_iff_false. intros Hs H. apply Hs. apply trim_left_contains.
  rewrite <- contains_char_rev. apply trim_left_rev_contains. by rewrite <- contains_char_rev.
Qed.
Lemma TrimPrefix_no_char c s p : contains_char c s = false -> contains_char c (TrimPrefix s p) = false.
Proof.
  unfold TrimPrefix. destruct (strip_prefix p s) as [t|] eqn:E; [|done]. cbn.
  apply strip_prefix_Some in E as ->. rewrite contains_char_app. by intros [_ ->]%orb_false_iff.
Qed.

(** A comma-free text names at most one option. *)
Lemma NewMountOptionsFromString_single s :
  contains_char "," s = false ->
  customOptions (NewMountOptionsFromString s) =
  if bool_decide (TrimSpace s = "") then ∅ else set_in ∅ (TrimSpace s).
Proof.
  intros Hs. unfold NewMountOptionsFromString. case_bool_decide; [by subst|].
  by rewrite Split_no_sep.
Qed.
Lemma single_exclusive E s :
  contains_char "," s = false -> exclusive_ok E (customOptions (NewMountOptionsFromString s)).
Proof.
  intros Hs. rewrite NewMountOptionsFromString_single by done.
  case_bool_decide; [apply map_Forall_empty|].
  intros a oa Ha b ob Hb _. unfold set_in in *. rewrite insert_empty in *.
  apply lookup_singleton_Some in Ha as [<- _]. by apply lookup_singleton_Some in Hb as [<- _].
Qed.

Lemma apply_part_exclusive `{MapOrder} E opts part :
  exclusive_ok E (customOptions opts) -> exclusive_ok E (customOptions (apply_part E opts part)).
Proof.
  intros Hm. unfold apply_part. repeat case_match; try done;
    try apply exclusive_ok_delete; try done; apply exclusive_ok_deletes, merge_options_exclusive, Hm.
Qed.

Lemma merge_single_order (O1 O2 : MapOrder) opts s E :
  contains_char "," s = false ->
  @Merge O1 opts (NewMountOptionsFromString s) E = @Merge O2 opts (NewMountOptionsFromString s) E.
Proof.
  intros Hs. unfold Merge. f_equal. apply map_eq. intros k. rewrite !foldl_delete_lookup.
  case_decide; [done|]. rewrite !merge_range_lookup; auto using single_exclusive with wekafs.
Qed.

Lemma foldl_ext_in {A B} (f g : A -> B -> A) l a :
  (forall b a, b ∈ l -> f a b = g a b) -> foldl f a l = foldl g a l.
Proof.
  revert a. induction l as [|b l IH]; intros a Hfg; [done|]. cbn.
  rewrite (Hfg b a) by set_solver. apply IH. intros. apply Hfg. set_solver.
Qed.

(** Applying a modifier list is deterministic: although each modifier is
    merged by ranging over a map, the result is the same for every order. *)
Theorem ApplyToOptions_deterministic (O1 O2 : MapOrder) mo opts E :
  @ApplyToOptions O1 mo opts E = @ApplyToOptions O2 mo opts E.
Proof.
  unfold ApplyToOptions. apply foldl_ext_in. intros part o Hin%Split_fields_clean.
  pose proof (TrimSpace_no_char _ _ Hin) as Ht.
  unfold apply_part. repeat (case_match; [by auto using merge_single_order, TrimPrefix_no_char|]).
  by apply merge_single_order.
Qed.

(** (C39) Overrides cannot break exclusivity: whatever the annotations of claim
    and pod say, a volume without two mutually exclusive options ends up
    without two mutually exclusive options. *)
Theorem overrides_exclusive {Regexp} (Compile : string -> option Regexp) MatchString `{MapOrder}
    params apireader E opts :
  exclusive_ok E (customOptions opts) ->
  exclusive_ok E (customOptions
    (applyMountOptionsOverridesToVolume Compile MatchString params apireader E opts)).
Proof.
  intros Hm.
  assert (HA : forall mo o, exclusive_ok E (customOptions o) ->
                 exclusive_ok E (customOptions (ApplyToOptions mo o E))).
  { intros mo. unfold ApplyToOptions. generalize (Split "," mo).
    induction l as [|p l IH]; cbn; auto using apply_part_exclusive. }
  unfold applyMountOptionsOverridesToVolume. repeat case_match; auto.
Qed.

(** A matcher for literal patterns, to evaluate the definitions with. *)
Definition literal_compile (p : string) : option string :=
  match strip_prefix "^(?:" p with
  | Some r => Some (TrimSuffix r ")$")
  | None => None
  end.
Definition literal_match (re s : string) : bool := bool_decide (re = s).

Definition example_reader : reader :=
  Reader (fun _ _ => Some {[ PodMountOptionOverrideAnnotation := "vol-1: +coherent; vol-2: acl" ]})
         (fun _ _ => Some {[ PvcMountOptionOverrideAnnotation := "+readcache,-acl" ]}).
Definition example_params : gmap string string :=
  {[ VolumeContextPvcNameKey := "vol-1"; VolumeContextPvcNamespaceKey := "ns";
     VolumeContextPodNameKey := "p"; VolumeContextPodNamespaceKey := "ns" ]}.

Example overrides_example :
  String_ (applyMountOptionsOverridesToVolume literal_compile literal_match (Some example_params)
             example_reader (exclusive_sets []) (NewMountOptionsFromString "acl,writecache,x=1"))
  = "coherent,x=1".
Proof. vm_compute. reflexivity. Qed.

Lemma overrides_exclusive_witness :
  exclusive_ok (exclusive_sets []) (customOptions
    (applyMountOptionsOverridesToVolume literal_compile literal_match (Some example_params)
       example_reader (exclusive_sets []) (NewMountOptionsFromString "acl,writecache,x=1"))).
Proof. apply overrides_exclusive. apply (bool_decide_unpack _). vm_compute. exact I. Defined.

(** ** The last modifier wins *)

Lemma ApplyToOptions_snoc `{MapOrder} mo p opts E :
  contains_char "," p = false ->
  ApplyToOptions (mo +:+ "," +:+ p) opts E = apply_part E (ApplyToOptions mo opts E) p.
Proof.
  intros Hp. unfold ApplyToOptions.
  assert (HS : Split "," (mo +:+ "," +:+ p) = Split "," mo ++ Split "," p).
  { clear Hp. induction mo as [|a mo IH]; [done|]. rewrite app_str_cons. cbn [Split]. rewrite IH.
    case_bool_decide; [done|]. pose proof (Split_ne "," mo). by destruct (Split "," mo). }
  by rewrite HS, foldl_app, (Split_no_sep "," p).
Qed.

(** A modifier [+k] or [-k] with a plain option name [k]. *)
Record plain_option (k : string) : Prop := {
  plain_ne : k <> "";
  plain_comma : contains_char "," k = false;
  plain_eq : contains_char "=" k = false;
  plain_trim : TrimSpace k = k;
}.

(** The last modifier of a list decides: after [..., -k] the option [k] is
    gone; after [..., +k] it is set, without a value, and every alternative of
    it is gone; all options that are neither [k] nor an alternative are as the
    modifiers before left them. *)
Theorem last_modifier_wins `{MapOrder} mo k opts E j :
  plain_option k -> TrimSpace ("+" +:+ k) = "+" +:+ k -> TrimSpace ("-" +:+ k) = "-" +:+ k ->
  customOptions (ApplyToOptions (mo +:+ "," +:+ "-" +:+ k) opts E) !! j =
    (if decide (j = k) then None else customOptions (ApplyToOptions mo opts E) !! j)
  /\ customOptions (ApplyToOptions (mo +:+ "," +:+ "+" +:+ k) opts E) !! j =
    (if decide (j = k) then Some (MkOption k "")
     else if decide (competes E k j) then None
     else customOptions (ApplyToOptions mo opts E) !! j).
Proof.
  intros [Hne Hc He Ht] Hplus Hminus.
  assert (Hnew : newMountOptionFromString k = MkOption k "").
  { unfold newMountOptionFromString. by rewrite Split_no_sep. }
  rewrite !ApplyToOptions_snoc by done. generalize (ApplyToOptions mo opts E) as o. intros o.
  unfold apply_part. rewrite Hplus, Hminus.
  assert (Hp : HasPrefix ("+" +:+ k) "+" = true) by (apply HasPrefix_true; eauto).
  assert (Hm : HasPrefix ("-" +:+ k) "-" = true) by (apply HasPrefix_true; eauto).
  assert (Hn : HasPrefix ("-" +:+ k) "+" = false).
  { apply not_true_iff_false. rewrite HasPrefix_true. by intros [t ?]. }
  rewrite Hp, Hn, Hm, !TrimPrefix_app, !bool_decide_false by done. cbn [customOptions]. split.
  - unfold RemoveOption. cbn [customOptions]. rewrite Hnew, lookup_delete. cbn [opt_option]. apply decide_ext. naive_solver.
  - unfold Merge. cbn [customOptions]. rewrite foldl_delete_lookup, decide_False.
    2: { unfold NewMountOptionsFromString. case_bool_decide; cbn; set_solver. }
    rewrite merge_range_lookup by auto using single_exclusive with wekafs.
    rewrite NewMountOptionsFromString_single, Ht, bool_decide_false by done.
    unfold set_in. rewrite Hnew, insert_empty. cbn [opt_option]. rewrite lookup_singleton.
    destruct (decide (k = j)) as [->|Hkj]; [by rewrite decide_True|].
    rewrite (decide_False (P := j = k)) by done. apply decide_ext. unfold map_Exists. split.
    + intros (i & v & [<- _]%lookup_singleton_Some & Hi). done.
    + intros. exists k, (MkOption k ""). by rewrite lookup_singleton_eq.
Qed.

Lemma last_modifier_wins_witness :
  customOptions (ApplyToOptions "+acl,+coherent" getDefaultMountOptions (exclusive_sets [])) !! "coherent"
  = Some (MkOption "coherent" "").
Proof.
  apply (last_modifier_wins "+acl" "coherent" getDefaultMountOptions (exclusive_sets []) "coherent");
    [constructor; try reflexivity; discriminate|reflexivity..].
Defined.

(** ** Well-formed options *)

(** Options as the driver can come by them: made from strings, merged, changed,
    translated for NFS, overridden. *)
Inductive made `{MapOrder} (E : list (list string)) : MountOptions -> Prop :=
| made_new l : made E (NewMountOptions l)
| made_string s : made E (NewMountOptionsFromString s)
| made_default : made E getDefaultMountOptions
| made_merge a b : made E a -> made E b -> made E (Merge a b E)
| made_self a : made E a -> made E (MergeSelf a E)
| made_merged a b : made E a -> made E b -> made E (MergedWith a b E)
| made_set a s : made E a -> made E (setOption a s)
| made_add a s : made E a -> made E (AddOption a s)
| made_remove a s : made E a -> made E (RemoveOption a s)
| made_selinux a b p : made E a -> made E (setSelinux a b p)
| made_nfs a : made E a -> made E (AsNfs a)
| made_override a mo : made E a -> made E (ApplyToOptions mo a E).

Lemma wf_merge_self E l m : wf m -> wf (merge_self E m l).
Proof. revert m. induction l as [|o l IH]; intros m Hm; cbn [merge_self]; [done|]. case_match; auto using wf_merge_option. Qed.
Lemma wf_setSelinux a b p : wf (customOptions a) -> wf (customOptions (setSelinux a b p)).
Proof. intros Hm. unfold setSelinux. cbn [customOptions]. repeat case_match; auto using wf_set_in, wf_insert, wf_delete. Qed.
Lemma wf_AsNfs a : wf (customOptions (AsNfs a)).
Proof.
  unfold AsNfs. generalize (getOpts a). intros l. generalize (wf_NewMountOptionsFromString DefaultNfsMountOptions).
  generalize (NewMountOptionsFromString DefaultNfsMountOptions). induction l as [|o l IH]; intros m Hm; cbn [foldl]; [done|].
  apply IH. unfold nfs_of_option, setOption. repeat case_match; cbn [customOptions]; auto using wf_set_in.
Qed.
Lemma wf_ApplyToOptions `{MapOrder} mo a E : wf (customOptions a) -> wf (customOptions (ApplyToOptions mo a E)).
Proof.
  unfold ApplyToOptions. generalize (Split "," mo). intros l. revert a. induction l as [|x l IH]; intros a Ha; cbn [foldl]; [done|].
  apply IH. unfold apply_part, RemoveOption. repeat case_match; cbn [customOptions]; auto using wf_Merge, wf_delete.
Qed.

(** (C35) Mount options are always well-formed: whatever sequence of the operations
    of the driver made them, in any map order, each entry is stored under the
    name of its own option, so that no option occurs twice. *)
Theorem options_well_formed `{MapOrder} E opts : made E opts -> wf (customOptions opts).
Proof.
  induction 1.
  - apply wf_NewMountOptions.
  - apply wf_NewMountOptionsFromString.
  - apply map_Forall_empty.
  - by apply wf_Merge.
  - by apply wf_deletes, wf_merge_self.
  - by apply wf_Merge.
  - by apply wf_set_in.
  - by apply wf_set_in.
  - by apply wf_delete.
  - by apply wf_setSelinux.
  - apply wf_AsNfs.
  - by apply wf_ApplyToOptions.
Qed.
Lemma options_well_formed_witness : wf (customOptions (ApplyToOptions "-acl,+readcache"
  (Merge (NewMountOptionsFromString "acl,writecache") getDefaultMountOptions (exclusive_sets [])) (exclusive_sets []))).
Proof. apply (options_well_formed (exclusive_sets [])). apply made_override, made_merge; [apply made_string|apply made_default].
Defined.
