(* ===== verification/VolumeIds.v ===== *)
(** * Volume and snapshot identifiers (pkg/wekafs/utilities.go, ascii.go)

    How object names and CSI identifiers are generated from CSI names, how the
    components are sliced out of an identifier again, and which identifiers
    [validateVolumeId] and [validateSnapshotId] accept. *)
From S2P Require Import Prelude.
From S2P Require Import GoStrings.
From S2P Require Import Hashing.
From S2P Require Import Regex.

(** ** ascii.go *)

Record charRange := CharRange { fromInclusive : Z; toInclusive : Z }.
Definition allowedCharacters : list charRange :=
  [CharRange 45 46; CharRange 48 58; CharRange 65 90; CharRange 95 95; CharRange 97 122].

Definition allowed (a : ascii) : bool :=
  let c := Z.of_N (byte a) in
  existsb (fun r => (fromInclusive r <=? c) && (c <=? toInclusive r)) allowedCharacters.

Arguments allowed _ : simpl never.

(** The loop of [getAsciiPart], [i] characters written so far.  The source
    ranges over runes; a byte of a multi-byte rune is never allowed, so
    ranging over bytes writes the same characters. *)
Fixpoint getAsciiPart_loop (s : string) (i maxLength : Z) : string :=
  match s with
  | "" => ""
  | String c s' =>
      if allowed c then
        String c (if (maxLength <=? i + 1) then "" else getAsciiPart_loop s' (i + 1) maxLength)
      else getAsciiPart_loop s' i maxLength
  end.
Definition getAsciiPart (s : string) (maxLength : Z) : string := getAsciiPart_loop s 0 maxLength.

(** ** Constants (wekafs.go, volume.go, controllerserver.go, utilities.go) *)
Definition VolumeTypeDirV1 := "dir/v1".
Definition VolumeTypeUnified := "weka/v2".
Definition VolumeTypeUNKNOWN := "AMBIGUOUS_VOLUME_TYPE".
Definition VolumeTypeEmpty := "".
Definition KnownVolTypes : list string := [VolumeTypeDirV1; VolumeTypeUnified].
Definition SnapshotTypeUnifiedSnap := "wekasnap/v2".
Definition MaxHashLengthForObjectNames : nat := 12.
Definition maxVolumeIdLength : Z := 1920.
Definition SnapshotsSubDirectory := ".snapshots".

(** A slice [s[:n]] panics when [s] is shorter; hashes have 32 characters. *)
Fixpoint take_str (n : nat) (s : string) : string :=
  match n, s with
  | O, _ => ""
  | S _, "" => ""
  | S n', String a s' => String a (take_str n' s')
  end.

(** ** Generating names and identifiers *)

Definition generateInnerPathForDirBasedVol (dynamicVolPath csiVolName : string) : string :=
  let requestedNameHash := getStringSha1 csiVolName in
  let asciiPart := getAsciiPart csiVolName 64 in
  let folderName := asciiPart +:+ "-" +:+ requestedNameHash in
  if bool_decide (dynamicVolPath = "") then "/" +:+ folderName
  else Path.Join [dynamicVolPath; folderName].

Definition generateWekaObjectNameBase (csiObjName : string) : string :=
  getAsciiPart csiObjName (Z.of_nat MaxHashLengthForObjectNames) +:+ "-"
    +:+ take_str MaxHashLengthForObjectNames (getStringSha1AsB32 csiObjName).

Definition generateWekaFsNameForFsBasedVol (prefix csiVolName : string) : string :=
  prefix +:+ generateWekaObjectNameBase csiVolName.
Definition generateWekaSnapNameForSnapBasedVol (prefix csiVolName : string) : string :=
  prefix +:+ generateWekaObjectNameBase csiVolName.
Definition generateWekaSnapAccessPointForSnapBasedVol (csiVolName : string) : string :=
  generateWekaObjectNameBase csiVolName.

Definition generateVolumeIdFromComponents
    (volumeType filesystemName snapshotAccessPoint innerPath : string) : string :=
  volumeType +:+ "/" +:+ filesystemName
    +:+ (if bool_decide (snapshotAccessPoint = "") then "" else ":" +:+ snapshotAccessPoint)
    +:+ (if bool_decide (innerPath = "") then "" else "/" +:+ innerPath).

Definition generateWekaSnapNameForSnapshot (prefix csiSnapName : string) : string :=
  prefix +:+ generateWekaObjectNameBase csiSnapName.
Definition generateSnapshotNameHash (csiSnapName : string) : string :=
  generateWekaObjectNameBase csiSnapName.
Definition generateSnapshotIntegrityID (name sourceVolumeId : string) : string :=
  take_str MaxHashLengthForObjectNames (getStringSha1AsB32 (name +:+ ":" +:+ sourceVolumeId)).

Definition generateSnapshotIdFromComponents
    (snapshotType filesystemName snapshotNameHash snapshotIntegrityId innerPath : string) : string :=
  snapshotType +:+ "/" +:+ filesystemName +:+ ":" +:+ snapshotNameHash +:+ ":" +:+ snapshotIntegrityId
    +:+ (if bool_decide (innerPath = "") then ""
         else if HasPrefix innerPath "/" then innerPath else "/" +:+ innerPath).

Definition generateWekaSeedAccessPoint (fsName : string) : string :=
  take_str MaxHashLengthForObjectNames (getStringSha1AsB32 fsName).
Definition generateWekaSeedSnapshotName (prefix fsName : string) : string :=
  prefix +:+ generateWekaSeedAccessPoint fsName.

(** [GetFSNameFromRequest], on the parameters of the request *)
Definition GetFSNameFromRequest (params : gmap string string) : string :=
  match params !! "filesystemName" with Some val => val | None => "" end.

(** ** Slicing identifiers *)

Definition sliceVolumeTypeFromVolumeId (volumeId : string) : string :=
  let slices := Split "/" volumeId in
  let known :=
    match slices with
    | a :: b :: _ => existsb (fun vt => bool_decide (Join "/" [a; b] = vt)) KnownVolTypes
    | _ => false
    end in
  if known then Join "/" (take 2 slices)
  else match slices with
       | a :: b :: _ =>
           if negb (HasPrefix b "v") then VolumeTypeUNKNOWN
           else if bool_decide (a = "") then VolumeTypeUNKNOWN
           else VolumeTypeUnified
       | _ => VolumeTypeUNKNOWN
       end.

(** The third slash-separated field, split at the colons. *)
Definition third_field (id : string) : option (list string) :=
  match Split "/" id with _ :: _ :: x :: _ => Some (Split ":" x) | _ => None end.

Definition sliceFilesystemNameFromVolumeId (volumeId : string) : string :=
  match third_field volumeId with Some (f :: _) => f | _ => "" end.
Definition sliceSnapshotAccessPointFromVolumeId (volumeId : string) : string :=
  match third_field volumeId with Some (_ :: a :: _) => a | _ => "" end.
Definition sliceInnerPathFromVolumeId (volumeId : string) : string :=
  let slices := Split "/" volumeId in
  if bool_decide (length slices <= 3)%nat then "" else "/" +:+ Join "/" (drop 3 slices).
(** volumeconstructors.go *)
Definition sliceSnapshotNameFromVolumeId (prefix volumeId : string) : string :=
  let base := sliceSnapshotAccessPointFromVolumeId volumeId in
  if bool_decide (base = "") then "" else prefix +:+ base.

Definition sliceFilesystemNameFromSnapshotId (snapshotId : string) : string :=
  match third_field snapshotId with Some (f :: _) => f | _ => "" end.
Definition sliceSnapshotNameHashFromSnapshotId (snapshotId : string) : string :=
  match third_field snapshotId with Some (_ :: h :: _ :: _) => h | _ => "" end.
Definition sliceSnapshotIntegrityIdFromSnapshotId (snapshotId : string) : string :=
  match third_field snapshotId with Some (_ :: _ :: i :: _) => i | _ => "" end.
Definition sliceInnerPathFromSnapshotId (snapshotId : string) : string :=
  let slices := Split "/" snapshotId in
  if bool_decide (length slices <= 3)%nat then "" else "/" +:+ Join "/" (drop 3 slices).

(** ** Validation *)

(** dir/v1/[^/]*/.+ *)
Definition re_dir : re :=
  Seq (Lit (VolumeTypeDirV1 +:+ "/")) (Seq (Star (NotIn "/")) (Seq (Lit "/") (Plus AnyChar))).
(** [^:/]+(:[^/]+)*(/[^:]+)*(:[.+])* *)
Definition re_unified : re :=
  Seq (Plus (NotIn ":/")) (Seq (Star (Seq (Lit ":") (Plus (NotIn "/"))))
    (Seq (Star (Seq (Lit "/") (Plus (NotIn ":")))) (Star (Seq (Lit ":") (In_ ".+"))))).
(** [^:]+:[^:]+:[^/]+(/.+)* *)
Definition re_snapshot : re :=
  Seq (Plus (NotIn ":")) (Seq (Lit ":") (Seq (Plus (NotIn ":")) (Seq (Lit ":")
    (Seq (Plus (NotIn "/")) (Star (Seq (Lit "/") (Plus AnyChar))))))).

(** [None] is the [nil] error. *)
Definition validateVolumeId (volumeId : string) : option error :=
  if bool_decide (len volumeId = 0) then Some (EStatus InvalidArgument "volume ID may not be empty")
  else if maxVolumeIdLength <? len volumeId then
    Some (EStatus InvalidArgument "volume ID exceeds max length")
  else
    let volumeType := sliceVolumeTypeFromVolumeId volumeId in
    let unsupported := Some (EStatus InvalidArgument "unsupported volumeId %s for type %s") in
    if bool_decide (volumeType = VolumeTypeDirV1) then
      if MatchString re_dir volumeId then None else unsupported
    else if bool_decide (volumeType = VolumeTypeUnified) then
      let r := if HasPrefix volumeId VolumeTypeUnified
               then Seq (Lit (VolumeTypeUnified +:+ "/")) re_unified else re_unified in
      if MatchString r volumeId then None
      else Some (EPlain "Volume ID does not match regex:")
    else unsupported.

Definition validateSnapshotId (snapshotId : string) : option error :=
  if bool_decide (len snapshotId = 0) then Some (EStatus InvalidArgument "snapshot ID may not be empty")
  else if maxVolumeIdLength <? len snapshotId then
    Some (EStatus InvalidArgument "snapshot ID exceeds max length")
  else
    let r := if HasPrefix snapshotId SnapshotTypeUnifiedSnap
             then Seq (Lit SnapshotTypeUnifiedSnap) re_snapshot else re_snapshot in
    if MatchString r snapshotId then None
    else Some (EPlain "Snapshot ID does not match regex:").

(** * Theorems *)

(** A text without the separators of the identifier formats. *)
Definition component (s : string) : bool := negb (contains_char "/" s) && negb (contains_char ":" s).

Lemma component_inv s : component s = true -> contains_char "/" s = false /\ contains_char ":" s = false.
Proof. unfold component. rewrite andb_true_iff, !negb_true_iff. done. Qed.

Lemma component_app s t : component s = true -> component t = true -> component (s +:+ t) = true.
Proof.
  intros [H1 H2]%component_inv [H3 H4]%component_inv. unfold component.
  by rewrite !contains_char_app, H1, H2, H3, H4.
Qed.

(** The fields of an identifier whose type has the form [a/b]. *)
Lemma Split_id a b third rest :
  contains_char "/" a = false -> contains_char "/" b = false -> contains_char "/" third = false ->
  Split "/" (a +:+ "/" +:+ b +:+ "/" +:+ third +:+ (if bool_decide (rest = "") then "" else "/" +:+ rest))
  = a :: b :: third :: (if bool_decide (rest = "") then [] else Split "/" rest).
Proof.
  intros Ha Hb Ht. rewrite !(app_str_cons "/"), !app_str_nil_l.
  rewrite (Split_app_sep "/" a), (Split_app_sep "/" b) by done. do 2 f_equal.
  case_bool_decide; [by rewrite app_str_nil_r, Split_no_sep|].
  by rewrite Split_app_sep.
Qed.

Lemma inner_of_split a b third rest :
  (let slices := a :: b :: third :: (if bool_decide (rest = "") then [] else Split "/" rest) in
   if bool_decide (length slices <= 3)%nat then "" else "/" +:+ Join "/" (drop 3 slices))
  = if bool_decide (rest = "") then "" else "/" +:+ rest.
Proof.
  cbn zeta. destruct (bool_decide (rest = "")); [by rewrite bool_decide_true by (cbn; lia)|].
  cbn [drop]. rewrite drop_0, bool_decide_false; [by rewrite Join_Split|]. cbn.
  pose proof (Split_ne "/" rest). destruct (Split "/" rest); [done|cbn; lia].
Qed.

(** The volume identifier in the shape of [Split_id]. *)
Lemma volumeId_shape a b fs ap inner :
  generateVolumeIdFromComponents (a +:+ "/" +:+ b) fs ap inner
  = a +:+ "/" +:+ b +:+ "/" +:+ (fs +:+ (if bool_decide (ap = "") then "" else ":" +:+ ap))
      +:+ (if bool_decide (inner = "") then "" else "/" +:+ inner).
Proof. unfold generateVolumeIdFromComponents. by rewrite !app_str_assoc. Qed.

Section volume_id_slices.
Context (a b fs ap inner : string).
Hypotheses (Ha : contains_char "/" a = false) (Hb : contains_char "/" b = false).
Hypotheses (Hfs : component fs = true) (Hap : component ap = true).
Let id := generateVolumeIdFromComponents (a +:+ "/" +:+ b) fs ap inner.

Lemma volumeId_split :
  Split "/" id = a :: b :: (fs +:+ (if bool_decide (ap = "") then "" else ":" +:+ ap))
                 :: (if bool_decide (inner = "") then [] else Split "/" inner).
Proof.
  destruct (component_inv _ Hfs), (component_inv _ Hap).
  unfold id. rewrite volumeId_shape. apply Split_id; [done..|].
  rewrite contains_char_app. case_bool_decide; [by rewrite orb_false_r|].
  rewrite contains_char_app. by apply orb_false_iff.
Qed.

Lemma volumeId_third :
  third_field id = Some (if bool_decide (ap = "") then [fs] else [fs; ap]).
Proof.
  destruct (component_inv _ Hfs), (component_inv _ Hap).
  unfold third_field. rewrite volumeId_split. f_equal. case_bool_decide.
  - by rewrite app_str_nil_r, Split_no_sep.
  - by rewrite (app_str_cons ":"), app_str_nil_l, Split_app_sep, (Split_no_sep _ ap).
Qed.

Lemma volumeId_slices :
  sliceFilesystemNameFromVolumeId id = fs /\ sliceSnapshotAccessPointFromVolumeId id = ap
  /\ sliceInnerPathFromVolumeId id = (if bool_decide (inner = "") then "" else "/" +:+ inner).
Proof.
  unfold sliceFilesystemNameFromVolumeId, sliceSnapshotAccessPointFromVolumeId.
  rewrite volumeId_third. split_and!; [by case_bool_decide| |].
  - by case_bool_decide; subst.
  - unfold sliceInnerPathFromVolumeId. rewrite volumeId_split. apply inner_of_split.
Qed.
End volume_id_slices.

Lemma known_type_parts vt :
  vt ∈ KnownVolTypes ->
  exists a b, vt = a +:+ "/" +:+ b /\ contains_char "/" a = false /\ contains_char "/" b = false.
Proof.
  unfold KnownVolTypes. intros [->|[->|[]%not_elem_of_nil]%elem_of_cons]%elem_of_cons.
  - by exists "dir", "v1".
  - by exists "weka", "v2".
Qed.

(** (C31) Round trip of volume identifiers: for a known volume type, and a
    filesystem name and an access point without colon or slash, the type, the
    name and the access point that go into [generateVolumeIdFromComponents]
    come out of the slicing functions unchanged; a non-empty inner path comes
    back with one more slash in front. *)
Theorem volumeId_roundtrip vt fs ap inner :
  vt ∈ KnownVolTypes -> component fs = true -> component ap = true ->
  let id := generateVolumeIdFromComponents vt fs ap inner in
  sliceVolumeTypeFromVolumeId id = vt /\ sliceFilesystemNameFromVolumeId id = fs
  /\ sliceSnapshotAccessPointFromVolumeId id = ap
  /\ sliceInnerPathFromVolumeId id = (if bool_decide (inner = "") then "" else "/" +:+ inner).
Proof.
  intros Hvt Hfs Hap id. destruct (known_type_parts _ Hvt) as (a & b & -> & Ha & Hb).
  split; [|by apply volumeId_slices].
  unfold sliceVolumeTypeFromVolumeId, id. rewrite volumeId_split by done.
  assert (Hk : existsb (fun vt => bool_decide (Join "/" [a; b] = vt)) KnownVolTypes = true).
  { apply existsb_exists. exists (a +:+ "/" +:+ b). split; [by apply list_elem_of_In|].
    by apply bool_decide_eq_true. }
  by rewrite Hk.
Qed.

Lemma volumeId_roundtrip_witness :
  let id := generateVolumeIdFromComponents VolumeTypeUnified "fs1" "snap-ABC" "/csi/vol" in
  sliceVolumeTypeFromVolumeId id = VolumeTypeUnified /\ sliceFilesystemNameFromVolumeId id = "fs1"
  /\ sliceSnapshotAccessPointFromVolumeId id = "snap-ABC"
  /\ sliceInnerPathFromVolumeId id = (if bool_decide ("/csi/vol" = "") then "" else "/" +:+ "/csi/vol").
Proof. apply volumeId_roundtrip; [apply (bool_decide_unpack _); exact I|reflexivity..]. Defined.

(** ** Snapshot identifiers *)

Lemma snapshotId_shape fs hash integrity inner :
  generateSnapshotIdFromComponents SnapshotTypeUnifiedSnap fs hash integrity inner
  = "wekasnap" +:+ "/" +:+ "v2" +:+ "/" +:+ (fs +:+ ":" +:+ hash +:+ ":" +:+ integrity)
      +:+ (if bool_decide (inner = "") then "" else "/" +:+ TrimPrefix inner "/").
Proof.
  assert (E : (if bool_decide (inner = "") then ""
               else if HasPrefix inner "/" then inner else "/" +:+ inner)
              = if bool_decide (inner = "") then "" else "/" +:+ TrimPrefix inner "/").
  { case_bool_decide; [done|]. unfold HasPrefix, TrimPrefix.
    destruct (strip_prefix "/" inner) as [t|] eqn:E; cbn; [by apply strip_prefix_Some in E|done]. }
  unfold generateSnapshotIdFromComponents, SnapshotTypeUnifiedSnap. rewrite E.
  by rewrite !app_str_assoc.
Qed.

Lemma snapshotId_slices fs hash integrity inner :
  component fs = true -> component hash = true -> component integrity = true -> inner <> "/" ->
  let id := generateSnapshotIdFromComponents SnapshotTypeUnifiedSnap fs hash integrity inner in
  sliceFilesystemNameFromSnapshotId id = fs
  /\ sliceSnapshotNameHashFromSnapshotId id = hash
  /\ sliceSnapshotIntegrityIdFromSnapshotId id = integrity
  /\ sliceInnerPathFromSnapshotId id = (if bool_decide (inner = "") then "" else "/" +:+ TrimPrefix inner "/").
Proof.
  intros [Hf1 Hf2]%component_inv [Hh1 Hh2]%component_inv [Hi1 Hi2]%component_inv Hne id.
  set (rest := if bool_decide (inner = "") then "" else TrimPrefix inner "/").
  assert (Hrest : (if bool_decide (inner = "") then "" else "/" +:+ TrimPrefix inner "/")
                  = if bool_decide (rest = "") then "" else "/" +:+ rest).
  { unfold rest. destruct (bool_decide (inner = "")) eqn:E; [done|].
    rewrite bool_decide_false; [done|]. apply bool_decide_eq_false in E. unfold TrimPrefix.
    destruct (strip_prefix "/" inner) as [t|] eqn:E'; cbn; [|done].
    apply strip_prefix_Some in E' as ->. by intros ->. }
  assert (Hsp : Split "/" id = "wekasnap" :: "v2" :: (fs +:+ ":" +:+ hash +:+ ":" +:+ integrity)
                               :: (if bool_decide (rest = "") then [] else Split "/" rest)).
  { unfold id. rewrite snapshotId_shape, Hrest. apply Split_id; [done..|].
    by rewrite !contains_char_app, Hf1, Hh1, Hi1. }
  assert (H3 : third_field id = Some [fs; hash; integrity]).
  { unfold third_field. rewrite Hsp, !(app_str_cons ":"), !app_str_nil_l.
    by rewrite (Split_app_sep ":" fs), (Split_app_sep ":" hash), (Split_no_sep ":" integrity). }
  unfold sliceFilesystemNameFromSnapshotId, sliceSnapshotNameHashFromSnapshotId,
    sliceSnapshotIntegrityIdFromSnapshotId. rewrite H3. split_and!; [done..|].
  unfold sliceInnerPathFromSnapshotId. rewrite Hsp, Hrest. apply inner_of_split.
Qed.

(** Round trip of snapshot identifiers: file system, name hash, integrity
    id and inner path are recovered; a missing leading slash of the inner path
    is supplied. *)
Theorem snapshotId_roundtrip fs hash integrity inner :
  component fs = true -> component hash = true -> component integrity = true -> inner <> "/" ->
  let id := generateSnapshotIdFromComponents SnapshotTypeUnifiedSnap fs hash integrity inner in
  sliceFilesystemNameFromSnapshotId id = fs
  /\ sliceSnapshotNameHashFromSnapshotId id = hash
  /\ sliceSnapshotIntegrityIdFromSnapshotId id = integrity
  /\ sliceInnerPathFromSnapshotId id = (if bool_decide (inner = "") then "" else "/" +:+ TrimPrefix inner "/").
Proof. apply snapshotId_slices. Qed.

Lemma snapshotId_roundtrip_witness :
  let id := generateSnapshotIdFromComponents SnapshotTypeUnifiedSnap "fs1" "sn-GQ4T" "BWMQ3GMYTGGM" "/csi/vol" in
  sliceFilesystemNameFromSnapshotId id = "fs1"
  /\ sliceSnapshotNameHashFromSnapshotId id = "sn-GQ4T"
  /\ sliceSnapshotIntegrityIdFromSnapshotId id = "BWMQ3GMYTGGM"
  /\ sliceInnerPathFromSnapshotId id = (if bool_decide ("/csi/vol" = "") then "" else "/" +:+ TrimPrefix "/csi/vol" "/").
Proof. apply snapshotId_roundtrip; [reflexivity..|discriminate]. Defined.

(** ** Generated names *)

Lemma take_str_all P n s : all_chars P s -> all_chars P (take_str n s).
Proof.
  revert s. induction n as [|n IH]; intros [|a s] H; cbn; try constructor.
  - by apply Forall_cons in H as [].
  - apply IH. by apply Forall_cons in H as [].
Qed.

Lemma length_take_str n s : (String.length (take_str n s) <= n)%nat.
Proof. revert s. induction n as [|n IH]; intros [|a s]; cbn; [lia..|]. specialize (IH s). lia. Qed.

Lemma hash_component n name : component (take_str n (getStringSha1AsB32 name)) = true.
Proof.
  pose proof (take_str_all _ n _ (b32_encode_chars (Sha1.sum name))) as H.
  unfold component. fold (getStringSha1AsB32 name) in H.
  by rewrite !(all_chars_not_contains _ _ _ H).
Qed.

Lemma getAsciiPart_loop_contains c s i n :
  contains_char c (getAsciiPart_loop s i n) = true -> contains_char c s = true /\ allowed c = true.
Proof.
  revert i. induction s as [|a s IH]; intros i; cbn; [done|]. destruct (allowed a) eqn:Ha.
  - cbn. intros [H%bool_decide_eq_true|H]%orb_true_iff.
    + subst. by rewrite bool_decide_true.
    + destruct (n <=? i + 1); [done|]. apply IH in H as [-> ->]. by rewrite orb_true_r.
  - intros H. apply IH in H as [-> ->]. by rewrite orb_true_r.
Qed.

(** At most [maxLength] characters are kept. *)
Lemma getAsciiPart_length s n :
  0 < n -> (Z.of_nat (String.length (getAsciiPart s n)) <= n).
Proof.
  intros Hn. unfold getAsciiPart.
  assert (H : forall i, 0 <= i < n -> i + Z.of_nat (String.length (getAsciiPart_loop s i n)) <= n).
  { induction s as [|a s IH]; intros i Hi; cbn [getAsciiPart_loop]; [cbn; lia|].
    destruct (allowed a); [|by apply IH]. cbn [String.length].
    destruct (Z.leb_spec n (i + 1)); [cbn; lia|]. specialize (IH (i + 1) ltac:(lia)). lia. }
  specialize (H 0 ltac:(lia)). lia.
Qed.

Lemma nameBase_component name :
  contains_char ":" name = false -> component (generateWekaObjectNameBase name) = true.
Proof.
  intros Hn. unfold generateWekaObjectNameBase. apply component_app.
  - unfold component, getAsciiPart. apply andb_true_iff. rewrite !negb_true_iff, <- !not_true_iff_false.
    split; intros [H1 H2]%getAsciiPart_loop_contains; [by vm_compute in H2|congruence].
  - apply (component_app "-"); [done|apply hash_component].
Qed.

(** Names the driver generates fit the identifier format: for a CSI volume
    name without a colon, the identifier of the snapshot-backed volume created
    on file system [fs] leads back to [fs], to the access point and to the WEKA
    snapshot name that were used to create it, and the object name is at most
    25 characters longer than the prefix. *)
Theorem generated_volume_recovered prefix fs name :
  component fs = true -> contains_char ":" name = false ->
  let ap := generateWekaSnapAccessPointForSnapBasedVol name in
  let id := generateVolumeIdFromComponents VolumeTypeUnified fs ap "" in
  sliceFilesystemNameFromVolumeId id = fs /\ sliceSnapshotAccessPointFromVolumeId id = ap
  /\ sliceSnapshotNameFromVolumeId prefix id = generateWekaSnapNameForSnapBasedVol prefix name
  /\ sliceInnerPathFromVolumeId id = ""
  /\ (String.length (generateWekaSnapNameForSnapBasedVol prefix name) <= String.length prefix + 25)%nat.
Proof.
  intros Hfs Hn ap id. pose proof (nameBase_component name Hn) as Hap.
  destruct (volumeId_slices "weka" "v2" fs ap "" eq_refl eq_refl Hfs Hap) as (H1 & H2 & H3).
  split_and!; [exact H1|exact H2| |exact H3|].
  - unfold sliceSnapshotNameFromVolumeId.
    change (sliceSnapshotAccessPointFromVolumeId id = ap) in H2. rewrite H2.
    rewrite bool_decide_false; [done|].
    unfold ap, generateWekaSnapAccessPointForSnapBasedVol, generateWekaObjectNameBase.
    intros [_ H]%app_str_nil_inv. done.
  - unfold generateWekaSnapNameForSnapBasedVol, generateWekaObjectNameBase.
    rewrite !length_app_str. unfold MaxHashLengthForObjectNames.
    pose proof (getAsciiPart_length name (Z.of_nat 12) ltac:(lia)).
    pose proof (length_take_str 12 (getStringSha1AsB32 name)).
    change (String.length "-") with 1%nat. lia.
Qed.

Lemma generated_volume_recovered_witness :
  let ap := generateWekaSnapAccessPointForSnapBasedVol "pvc-1" in
  let id := generateVolumeIdFromComponents VolumeTypeUnified "default" ap "" in
  sliceFilesystemNameFromVolumeId id = "default" /\ sliceSnapshotAccessPointFromVolumeId id = ap
  /\ sliceSnapshotNameFromVolumeId "csivol-" id = generateWekaSnapNameForSnapBasedVol "csivol-" "pvc-1"
  /\ sliceInnerPathFromVolumeId id = ""
  /\ (String.length (generateWekaSnapNameForSnapBasedVol "csivol-" "pvc-1") <= String.length "csivol-" + 25)%nat.
Proof. apply generated_volume_recovered; reflexivity. Defined.

(** The character filter keeps colons (48..58 includes [':']), which the
    identifier format uses as a separator: a volume named ["a:b"] is not
    recovered from its own identifier. *)
Lemma colon_name_not_recovered :
  let ap := generateWekaSnapAccessPointForSnapBasedVol "a:b" in
  let id := generateVolumeIdFromComponents VolumeTypeUnified "default" ap "" in
  sliceSnapshotAccessPointFromVolumeId id <> ap
  /\ sliceSnapshotNameFromVolumeId "csivol-" id = "csivol-a".
Proof. vm_compute. split; [discriminate|reflexivity]. Qed.

(** ** Validation *)

Lemma contains_not_elem c s x : contains_char x s = true -> contains_char c s = false -> x <> c.
Proof. intros H1 H2 ->. congruence. Qed.

Lemma component_notin fs a : component fs = true -> contains_char a fs = true ->
  negb (contains_char a ":/") = true.
Proof.
  intros [H1 H2]%component_inv Ha. apply negb_true_iff. cbn.
  rewrite !bool_decide_false; [done| |]; intros <-; congruence.
Qed.

Lemma len_volumeId_ne vt fs ap inner : len (generateVolumeIdFromComponents vt fs ap inner) <> 0.
Proof.
  unfold len, generateVolumeIdFromComponents. rewrite !length_app_str.
  change (String.length "/") with 1%nat. lia.
Qed.

Lemma generated_id_valid fs ap inner :
  component fs = true -> component ap = true -> fs <> "" ->
  (len (generateVolumeIdFromComponents VolumeTypeUnified fs ap inner) <= maxVolumeIdLength ->
     validateVolumeId (generateVolumeIdFromComponents VolumeTypeUnified fs ap inner) = None)
  /\ (forall c inner', inner = String c inner' -> c <> "010"%char ->
     len (generateVolumeIdFromComponents VolumeTypeDirV1 fs "" inner) <= maxVolumeIdLength ->
     validateVolumeId (generateVolumeIdFromComponents VolumeTypeDirV1 fs "" inner) = None).
Proof.
  intros Hfs Hap Hne. unfold validateVolumeId. split.
  - intros Hlen. rewrite bool_decide_false by apply len_volumeId_ne.
    rewrite (proj2 (Z.ltb_ge _ _)) by done.
    assert (Ht : sliceVolumeTypeFromVolumeId
                   (generateVolumeIdFromComponents VolumeTypeUnified fs ap inner) = VolumeTypeUnified).
    { unfold sliceVolumeTypeFromVolumeId, VolumeTypeUnified.
      by rewrite (volumeId_split "weka" "v2"). }
    rewrite Ht. rewrite bool_decide_false, bool_decide_true by done.
    assert (Hp : HasPrefix (generateVolumeIdFromComponents VolumeTypeUnified fs ap inner) VolumeTypeUnified = true)
      by (apply HasPrefix_true; eexists; reflexivity).
    rewrite Hp, (proj2 (MatchString_spec _ _)); [done|].
    unfold generateVolumeIdFromComponents.
    set (rest := _ +:+ (if bool_decide (inner = "") then _ else _)).
    exists "", ((VolumeTypeUnified +:+ "/") +:+ fs +:+ "" +:+ "" +:+ ""), rest.
    split; [rewrite app_str_nil_l, !app_str_assoc, !app_str_nil_l; reflexivity|].
    constructor; [apply matches_Lit|]. constructor.
    { apply matches_Plus_Chr; [done|]. intros a Ha. by apply (component_notin fs). }
    constructor; [constructor|]. constructor; constructor.
  - intros c inner' -> Hc Hlen. rewrite bool_decide_false by apply len_volumeId_ne.
    rewrite (proj2 (Z.ltb_ge _ _)) by done.
    assert (Ht : sliceVolumeTypeFromVolumeId
                   (generateVolumeIdFromComponents VolumeTypeDirV1 fs "" (String c inner')) = VolumeTypeDirV1).
    { unfold sliceVolumeTypeFromVolumeId, VolumeTypeDirV1. by rewrite (volumeId_split "dir" "v1"). }
    rewrite Ht, bool_decide_true, (proj2 (MatchString_spec _ _)); [done| |done].
    exists "", ((VolumeTypeDirV1 +:+ "/") +:+ fs +:+ "/" +:+ String c "" +:+ ""), inner'.
    split; [unfold generateVolumeIdFromComponents; cbn; by rewrite !app_str_assoc|].
    constructor; [apply matches_Lit|]. constructor.
    { apply matches_Star_Chr. intros a Ha. apply component_inv in Hfs as [H1 _].
      apply negb_true_iff. cbn. rewrite bool_decide_false; [done|]. intros <-. congruence. }
    constructor; [apply (matches_Lit "/")|]. constructor; [|constructor].
    constructor. by rewrite bool_decide_false.
Qed.

(** [validateVolumeId] accepts every identifier the driver generates (up to
    the length limit): a unified one for any non-empty file system name, a
    directory one for any inner path that does not start with a newline. *)
Theorem validateVolumeId_generated fs ap inner :
  component fs = true -> component ap = true -> fs <> "" ->
  (len (generateVolumeIdFromComponents VolumeTypeUnified fs ap inner) <= maxVolumeIdLength ->
     validateVolumeId (generateVolumeIdFromComponents VolumeTypeUnified fs ap inner) = None)
  /\ (forall c inner', inner = String c inner' -> c <> "010"%char ->
     len (generateVolumeIdFromComponents VolumeTypeDirV1 fs "" inner) <= maxVolumeIdLength ->
     validateVolumeId (generateVolumeIdFromComponents VolumeTypeDirV1 fs "" inner) = None).
Proof. apply generated_id_valid. Qed.

Lemma validateVolumeId_generated_witness :
  validateVolumeId (generateVolumeIdFromComponents VolumeTypeUnified "fs1" "ap" "") = None
  /\ validateVolumeId (generateVolumeIdFromComponents VolumeTypeDirV1 "fs1" "" "/csi") = None.
Proof.
  split.
  - apply (proj1 (validateVolumeId_generated "fs1" "ap" "" eq_refl eq_refl ltac:(discriminate))).
    vm_compute. discriminate.
  - apply (proj2 (validateVolumeId_generated "fs1" "ap" "/csi" eq_refl eq_refl ltac:(discriminate)) "/"%char "csi");
      [reflexivity|discriminate|vm_compute; discriminate].
Defined.

(** The same for snapshot identifiers. *)
Lemma len_pos s : s <> "" -> len s <> 0.
Proof. destruct s; [done|]. unfold len. cbn. lia. Qed.
Lemma generated_snapshot_id_valid fs hash integrity inner :
  component fs = true -> component hash = true -> component integrity = true ->
  hash <> "" -> integrity <> "" ->
  len (generateSnapshotIdFromComponents SnapshotTypeUnifiedSnap fs hash integrity inner) <= maxVolumeIdLength ->
  validateSnapshotId (generateSnapshotIdFromComponents SnapshotTypeUnifiedSnap fs hash integrity inner) = None.
Proof.
  intros Hfs Hh Hi Hh0 Hi0 Hlen. unfold validateSnapshotId. rewrite bool_decide_false.
  2:{ apply len_pos. unfold generateSnapshotIdFromComponents. by intros [? _]%app_str_nil_inv. }
  rewrite (proj2 (Z.ltb_ge _ _)) by done.
  assert (Hp : HasPrefix (generateSnapshotIdFromComponents SnapshotTypeUnifiedSnap fs hash integrity inner)
                 SnapshotTypeUnifiedSnap = true) by (apply HasPrefix_true; eexists; reflexivity).
  rewrite Hp, (proj2 (MatchString_spec _ _)); [done|].
  unfold generateSnapshotIdFromComponents. set (rest := if bool_decide (inner = "") then _ else _).
  exists "", (SnapshotTypeUnifiedSnap +:+ ("/" +:+ fs) +:+ ":" +:+ hash +:+ ":" +:+ integrity +:+ ""), rest.
  split; [rewrite app_str_nil_l, app_str_nil_r, !app_str_assoc; reflexivity|].
  constructor; [apply matches_Lit|]. unfold re_snapshot.
  repeat (constructor; [first [apply (matches_Lit ":")
    |apply matches_Plus_Chr; [try done|intros x Hx; apply negb_true_iff; cbn; rewrite bool_decide_false; [done|]]]|]).
  4: constructor.
  - rewrite app_str_cons, app_str_nil_l in Hx. cbn in Hx. intros <-.
    apply component_inv in Hfs as [_ Hfs]. by rewrite Hfs in Hx.
  - intros <-. apply component_inv in Hh as [_ Hh]. congruence.
  - intros <-. apply component_inv in Hi as [Hi _]. congruence.
Qed.

(** What is sliced out of an identifier has no separators. *)
Lemma slice_filesystem_component id : component (sliceFilesystemNameFromVolumeId id) = true.
Proof.
  unfold sliceFilesystemNameFromVolumeId, third_field.
  destruct (Split "/" id) as [|a [|b [|x l]]] eqn:E; try done.
  destruct (Split ":" x) as [|f fs] eqn:E'; [done|].
  assert (Hx : contains_char "/" x = false).
  { apply (Split_fields_clean "/" id). rewrite E. do 2 apply elem_of_cons, or_intror. constructor. }
  assert (Hf : contains_char ":" f = false).
  { apply (Split_fields_clean ":" x). rewrite E'. constructor. }
  assert (Hf' : contains_char "/" f = false).
  { rewrite <- (Join_Split ":" x), E' in Hx. destruct fs as [|g fs]; [done|].
    rewrite Join_cons2, contains_char_app in Hx by done. by apply orb_false_iff in Hx as []. }
  unfold component. by rewrite Hf, Hf'.
Qed.

(** The pattern for unified identifiers is not anchored, so an identifier that
    names no file system at all passes. *)
Lemma validateVolumeId_accepts_bare_type :
  validateVolumeId "fs/v1" = None /\ validateVolumeId "fssnap/v1" = None
  /\ sliceFilesystemNameFromVolumeId "fs/v1" = "".
Proof. vm_compute. done. Qed.
