(* ===== verification/Strconv.v ===== *)
(** * Numbers as text: what the driver uses of Go's [strconv]

    [ParseUint], [ParseInt], [Atoi], [ParseBool] and decimal formatting, with
    the base prefixes and underscores that base 0 allows, and the round trip
    of formatting and parsing. *)
From stdpp Require Import pretty.
From S2P Require Import Prelude.
From S2P Require Import GoStrings.

Definition ErrSyntax : error := EPlain "invalid syntax".
Definition ErrRange : error := EPlain "value out of range".

Definition code_of (a : ascii) : Z := Z.of_N (byte a).

(** [lower(c) = c | ('x' - 'X')] *)
Definition lower (a : ascii) : Z := Z.lor (code_of a) 32.

Definition digit_val (a : ascii) : option Z :=
  let c := code_of a in
  if (48 <=? c) && (c <=? 57) then Some (c - 48)
  else if (97 <=? lower a) && (lower a <=? 122) then Some (lower a - 97 + 10)
  else None.

(** The digit loop of [ParseUint]. *)
Fixpoint parse_digits (base maxVal : Z) (base0 : bool) (n : Z) (s : string) : result Z :=
  match s with
  | "" => Ok n
  | String c s' =>
      if (code_of c =? 95) && base0 then parse_digits base maxVal base0 n s'
      else match digit_val c with
           | None => Err ErrSyntax
           | Some d =>
               if base <=? d then Err ErrSyntax
               else if maxVal <? n * base + d then Err ErrRange
               else parse_digits base maxVal base0 (n * base + d) s'
           end
  end.

(** [underscoreOK] after sign and prefix; [i] is the class of the last
    character seen: ["^"] start, ["0"] digit or prefix, ["_"], ["!"] other. *)
Fixpoint underscore_loop (hex : bool) (i : ascii) (s : string) : bool :=
  match s with
  | "" => negb (bool_decide (i = "_"%char))
  | String c s' =>
      if ((48 <=? code_of c) && (code_of c <=? 57)) || (hex && (97 <=? lower c) && (lower c <=? 102))
      then underscore_loop hex "0" s'
      else if code_of c =? 95 then bool_decide (i = "0"%char) && underscore_loop hex "_" s'
      else negb (bool_decide (i = "_"%char)) && underscore_loop hex "!" s'
  end.
Definition has_underscore (s : string) : bool := contains_char "_" s.

(** The base prefix of base 0: the base, the rest, and whether a letter prefix was there. *)
Definition base_prefix (s : string) : Z * string * bool :=
  match s with
  | String "0" (String c (String d rest)) =>
      if lower c =? 98 then (2, String d rest, true)
      else if lower c =? 111 then (8, String d rest, true)
      else if lower c =? 120 then (16, String d rest, true)
      else (8, String c (String d rest), false)
  | String "0" rest => (8, rest, false)
  | _ => (10, s, false)
  end.

Definition underscoreOK (s : string) : bool :=
  match s with
  | String "0" (String c rest) =>
      if (lower c =? 98) || (lower c =? 111) || (lower c =? 120)
      then underscore_loop (lower c =? 120) "0" rest
      else underscore_loop false "^" s
  | _ => underscore_loop false "^" s
  end.

Definition ParseUint (s : string) (base bitSize : Z) : result Z :=
  let maxVal := 2 ^ bitSize - 1 in
  if bool_decide (s = "") then Err ErrSyntax
  else if base =? 0 then
    let '(b, rest, _) := base_prefix s in
    match parse_digits b maxVal true 0 rest with
    | Ok n => if has_underscore s && negb (underscoreOK s) then Err ErrSyntax else Ok n
    | r => r
    end
  else parse_digits base maxVal false 0 s.

Definition strip_sign (s : string) : bool * string :=
  match s with
  | String "+" s' => (false, s')
  | String "-" s' => (true, s')
  | _ => (false, s)
  end.

Definition ParseInt (s : string) (base bitSize : Z) : result Z :=
  if bool_decide (s = "") then Err ErrSyntax
  else
    let '(neg, s') := strip_sign s in
    match ParseUint s' base bitSize with
    | Ok un =>
        let cutoff := 2 ^ (bitSize - 1) in
        if negb neg && (cutoff <=? un) then Err ErrRange
        else if neg && (cutoff <? un) then Err ErrRange
        else Ok (if neg then - un else un)
    | r => r
    end.

Definition Atoi (s : string) : result Z := ParseInt s 10 64.

Definition ParseBool (s : string) : result bool :=
  if bool_decide (s ∈ ["1"; "t"; "T"; "true"; "TRUE"; "True"]) then Ok true
  else if bool_decide (s ∈ ["0"; "f"; "F"; "false"; "FALSE"; "False"]) then Ok false
  else Err ErrSyntax.

(** [FormatUint(n, 10)], [FormatInt(z, 10)] and [%d]. *)
Definition FormatUint (n : Z) : string := pretty (Z.to_N n).
Definition FormatInt (z : Z) : string := pretty z.

Example ParseInt_examples :
  ParseInt "0750" 0 32 = Ok 488 /\ ParseInt "0o750" 0 32 = Ok 488 /\
  ParseInt "0x1F" 0 32 = Ok 31 /\ ParseInt "-12" 0 32 = Ok (-12) /\
  ParseInt "1_000" 0 32 = Ok 1000 /\ ParseInt "1__0" 0 32 = Err ErrSyntax /\
  ParseInt "4294967295" 0 32 = Err ErrRange /\ ParseInt "089" 0 32 = Err ErrSyntax /\
  ParseInt "0" 0 32 = Ok 0 /\ Atoi "1_0" = Err ErrSyntax /\ Atoi "+7" = Ok 7.
Proof. vm_compute. repeat split. Qed.

(** ** Formatting, then parsing *)

Lemma small_digit (P : N -> Prop) x :
  (x < 10)%N -> Forall P [0; 1; 2; 3; 4; 5; 6; 7; 8; 9]%N -> P x.
Proof.
  intros Hx HP. rewrite Forall_forall in HP. apply HP. rewrite !elem_of_cons. lia.
Qed.

Lemma digit_val_pretty x : (x < 10)%N -> digit_val (pretty_N_char x) = Some (Z.of_N x).
Proof.
  intros H. pattern x. apply small_digit; [done|]. repeat constructor.
Qed.

Lemma code_of_pretty_char x :
  (x < 10)%N -> 48 <= code_of (pretty_N_char x) <= 57.
Proof.
  intros H. pattern x. apply small_digit; [done|]. repeat constructor; cbv; discriminate.
Qed.

(** Parsing [pretty_N_go x s] is parsing [s] after the digits of [x]. *)
Lemma parse_pretty_go max s x :
  Z.of_N x <= max ->
  parse_digits 10 max false 0 (pretty_N_go x s) = parse_digits 10 max false (Z.of_N x) s.
Proof.
  revert s. induction (N.lt_wf_0 x) as [x _ IH]; intros s Hx.
  destruct (decide (x = 0)%N) as [->|Hx0]; [done|].
  rewrite pretty_N_go_step by lia.
  pose proof (N.div_mod x 10 ltac:(lia)) as Hdm. pose proof (N.mod_lt x 10 ltac:(lia)) as Hm.
  assert (x `div` 10 < x)%N by (apply N.div_lt; lia).
  rewrite IH by lia. simpl. rewrite andb_false_r, digit_val_pretty by lia.
  assert (Z.of_N (x `div` 10)%N * 10 + Z.of_N (x `mod` 10)%N = Z.of_N x) as He by lia.
  destruct (10 <=? Z.of_N (x `mod` 10)%N) eqn:E1; [apply Z.leb_le in E1; lia|].
  rewrite He. destruct (max <? Z.of_N x) eqn:E2; [apply Z.ltb_lt in E2; lia|done].
Qed.

Lemma pretty_N_go_head x s :
  (0 < x)%N -> exists d s', pretty_N_go x s = String (pretty_N_char d) s' /\ (d < 10)%N.
Proof.
  revert s. induction (N.lt_wf_0 x) as [x _ IH]; intros s Hx.
  rewrite pretty_N_go_step by lia.
  pose proof (N.mod_lt x 10 ltac:(lia)) as Hm.
  destruct (decide (x `div` 10 = 0)%N) as [E|E].
  - rewrite E. eauto.
  - apply IH; [apply N.div_lt; lia|by apply N.neq_0_lt_0].
Qed.

Lemma pretty_N_head (x : N) :
  exists d s', pretty x = String (pretty_N_char d) s' /\ (d < 10)%N.
Proof.
  unfold pretty, pretty_N. case_decide as E; [by exists 0%N, ""|].
  apply pretty_N_go_head. lia.
Qed.

(** Reading a formatted natural number back, in any width that holds it. *)
Lemma ParseUint_FormatUint n w :
  0 <= n < 2 ^ w -> ParseUint (FormatUint n) 10 w = Ok n.
Proof.
  intros H. unfold ParseUint, FormatUint.
  rewrite bool_decide_false.
  2:{ destruct (pretty_N_head (Z.to_N n)) as (d & s' & -> & _). done. }
  simpl. unfold pretty, pretty_N. case_decide as E.
  - assert (n = 0) as -> by lia. simpl.
    change (code_of "0" - 48) with 0. case_goal; [bool_to_prop; lia|done].
  - rewrite parse_pretty_go by lia. simpl. f_equal. lia.
Qed.

Lemma strip_sign_digit d s : (d < 10)%N ->
  strip_sign (String (pretty_N_char d) s) = (false, String (pretty_N_char d) s).
Proof. intros H. pattern d. apply small_digit; [done|]. repeat constructor. Qed.

(** Formatting an [int64] in decimal and parsing it back gives it again. *)
Lemma Atoi_FormatInt z : in_int64 z -> Atoi (FormatInt z) = Ok z.
Proof.
  intros H. unfold in_int64 in H. unfold Atoi, ParseInt, FormatInt.
  assert (Hu : forall p : positive, Z.pos p <= 2 ^ 63 ->
    ParseUint (pretty (N.pos p)) 10 64 = Ok (Z.pos p)).
  { intros p Hp. rewrite <- (ParseUint_FormatUint (Z.pos p) 64) at 1 by lia. done. }
  destruct z as [|p|p]; [done|..].
  - change (pretty (Z.pos p)) with (pretty (N.pos p)).
    destruct (pretty_N_head (N.pos p)) as (d & s' & Hs & Hd).
    rewrite bool_decide_false by (rewrite Hs; done).
    rewrite Hs, strip_sign_digit, <- Hs, Hu by (done || lia). cbn [negb andb].
    destruct (2 ^ (64 - 1) <=? Z.pos p) eqn:E; [apply Z.leb_le in E; lia|done].
  - change (pretty (Z.neg p)) with ("-" +:+ pretty (N.pos p)).
    rewrite app_str_cons, app_str_nil_l, bool_decide_false by done. cbn [strip_sign].
    rewrite Hu by lia. cbn [negb andb].
    destruct (2 ^ (64 - 1) <? Z.pos p) eqn:E; [apply Z.ltb_lt in E; lia|done].
Qed.
