(* ===== verification/IpAddresses.v ===== *)
(** * IP addresses and networks (package net, apiclient/utils.go)

    What the driver uses of the packages net and net/netip: parsing and
    printing of addresses of both families, masks and membership in a network;
    and on top of them the [Network] of the NFS client group rules.  A [net.IP]
    is its list of bytes: 16 from [ParseIP], 4 for a mask of an IPv4 network,
    none for nil. *)
From S2P Require Import Prelude.
From S2P Require Import GoStrings.
From S2P Require Import Substrings.
From S2P Require Import Strconv.
Local Open Scope Z_scope.

Abbreviation IP := (list Z).

(** ** netip.ParseAddr *)

Definition decimal (c : ascii) : option Z :=
  let d := code_of c - code_of "0" in if (0 <=? d) && (d <=? 9) then Some d else None.

(** [parseIPv4Fields]: [fresh] at the start and after a dot. *)
Fixpoint parse_ipv4_fields (fresh : bool) (val digLen : Z) (fields : list Z) (s : string) : option (list Z) :=
  match s with
  | "" => if (length fields <? 3)%nat then None else Some (fields ++ [val])
  | String c s' =>
      match decimal c with
      | Some d =>
          if (digLen =? 1) && (val =? 0) then None
          else if 255 <? val * 10 + d then None
          else parse_ipv4_fields false (val * 10 + d) (digLen + 1) fields s'
      | None =>
          if bool_decide (c = "."%char) then
            if fresh || bool_decide (s' = "") then None
            else if (length fields =? 3)%nat then None
            else parse_ipv4_fields true 0 0 (fields ++ [val]) s'
          else None
      end
  end.
Definition parse_ipv4 (s : string) : option (list Z) := parse_ipv4_fields true 0 0 [] s.

(** One hexadecimal group: its value, the number of digits and the rest. *)
Definition hex_digit (c : ascii) : option Z :=
  match decimal c with
  | Some d => Some d
  | None =>
      let d := code_of c - code_of "a" in
      if (0 <=? d) && (d <=? 5) then Some (d + 10)
      else let d := code_of c - code_of "A" in
           if (0 <=? d) && (d <=? 5) then Some (d + 10) else None
  end.
Fixpoint hex_group (acc : Z) (off : nat) (s : string) : option (Z * nat * string) :=
  match s with
  | "" => Some (acc, off, s)
  | String c s' =>
      match hex_digit c with
      | None => Some (acc, off, s)
      | Some d => if (3 <? off)%nat then None else hex_group (acc * 16 + d) (S off) s'
      end
  end.

(** The loop of [parseIPv6]; [ip] are the bytes read so far, the number of
    passes is bounded by the eight groups. *)
Fixpoint parse_ipv6_loop (n : nat) (ip : list Z) (ellipsis : option nat) (s : string) :
    option (list Z * option nat * string) :=
  match n with
  | O => Some (ip, ellipsis, s)
  | S n =>
      match hex_group 0 0 s with
      | None | Some (_, O, _) => None
      | Some (acc, _, rest) =>
          if HasPrefix rest "." then
            if (match ellipsis with None => true | _ => false end) && negb (length ip =? 12)%nat then None
            else if (12 <? length ip)%nat then None
            else match parse_ipv4 s with Some b => Some (ip ++ b, ellipsis, "") | None => None end
          else
            let ip := ip ++ [acc `div` 256; acc `mod` 256] in
            match rest with
            | "" => Some (ip, ellipsis, "")
            | String c rest =>
                if negb (bool_decide (c = ":"%char)) || bool_decide (rest = "") then None
                else match strip_prefix ":" rest with
                     | None => parse_ipv6_loop n ip ellipsis rest
                     | Some rest' =>
                         match ellipsis with
                         | Some _ => None
                         | None =>
                             if bool_decide (rest' = "") then Some (ip, Some (length ip), "")
                             else parse_ipv6_loop n ip (Some (length ip)) rest'
                         end
                     end
            end
      end
  end.
Definition zeros (n : nat) : list Z := repeat 0 n.
Definition expand (r : option (list Z * option nat * string)) : option (list Z) :=
  match r with
  | Some (ip, ellipsis, "") =>
      if (length ip <? 16)%nat then
        match ellipsis with
        | None => None
        | Some e => Some (take e ip ++ zeros (16 - length ip) ++ drop e ip)
        end
      else match ellipsis with Some _ => None | None => Some ip end
  | _ => None
  end.
(** The bytes and the zone. *)
Definition parse_ipv6 (s : string) : option (list Z * string) :=
  let '(s, zone) := match cut "%" s with Some (a, z) => (a, Some z) | None => (s, None) end in
  if bool_decide (zone = Some "") then None
  else
    let with_zone (r : option (list Z)) := match r with Some ip => Some (ip, default "" zone) | None => None end in
    match strip_prefix "::" s with
    | Some "" => with_zone (Some (zeros 16))
    | Some s' => with_zone (expand (parse_ipv6_loop 8 [] (Some O) s'))
    | None => with_zone (expand (parse_ipv6_loop 8 [] None s))
    end.

(** An address, by its family. *)
Inductive Addr := Addr4 (b : list Z) | Addr6 (b : list Z) (zone : string).
Fixpoint parse_addr_from (whole s : string) : option Addr :=
  match s with
  | "" => None
  | String c s' =>
      if bool_decide (c = "."%char) then
        match parse_ipv4 whole with Some b => Some (Addr4 b) | None => None end
      else if bool_decide (c = ":"%char) then
        match parse_ipv6 whole with Some (b, z) => Some (Addr6 b z) | None => None end
      else if bool_decide (c = "%"%char) then None
      else parse_addr_from whole s'
  end.
Definition ParseAddr (s : string) : option Addr := parse_addr_from s s.
Definition zone_free (a : Addr) : bool := match a with Addr6 _ z => bool_decide (z = "") | _ => true end.
Definition BitLen (a : Addr) : Z := match a with Addr4 _ => 32 | Addr6 _ _ => 128 end.
Definition v4InV6Prefix : list Z := [0; 0; 0; 0; 0; 0; 0; 0; 0; 0; 255; 255].
Definition As16 (a : Addr) : IP := match a with Addr4 b => v4InV6Prefix ++ b | Addr6 b _ => b end.

(** ** net.IP *)

Definition ParseIP (s : string) : option IP :=
  match ParseAddr s with
  | Some a => if zone_free a then Some (As16 a) else None
  | None => None
  end.
Definition To4 (ip : IP) : option (list Z) :=
  if (length ip =? 4)%nat then Some ip
  else if (length ip =? 16)%nat && bool_decide (take 12 ip = v4InV6Prefix) then Some (drop 12 ip)
  else None.

Definition hex_char (d : Z) : string :=
  default "" (["0"; "1"; "2"; "3"; "4"; "5"; "6"; "7"; "8"; "9"; "a"; "b"; "c"; "d"; "e"; "f"] !! Z.to_nat d).
(** [appendHex], without leading zeros. *)
Definition append_hex (x : Z) : string :=
  (if 4096 <=? x then hex_char (x `div` 4096) else "") +:+
  (if 256 <=? x then hex_char (x `div` 256 `mod` 16) else "") +:+
  (if 16 <=? x then hex_char (x `div` 16 `mod` 16) else "") +:+ hex_char (x `mod` 16).
Fixpoint groups (ip : list Z) : list Z :=
  match ip with a :: b :: ip => a * 256 + b :: groups ip | _ => [] end.
Fixpoint zero_run (l : list Z) : nat := match l with 0 :: l => S (zero_run l) | _ => O end.
(** The longest run of at least two zero groups, the first of those. *)
Fixpoint best_run (i : nat) (best : option (nat * nat)) (l : list Z) : option (nat * nat) :=
  match l with
  | [] => best
  | _ :: l' =>
      let n := zero_run l in
      let best := if (1 <? n)%nat && (match best with Some (_, m) => m | None => 0 end <? n)%nat then Some (i, n) else best in
      best_run (S i) best l'
  end.
Definition string6 (ip : list Z) : string :=
  let g := groups ip in
  match best_run 0 None g with
  | None => Join ":" (append_hex <$> g)
  | Some (i, n) => Join ":" (append_hex <$> take i g) +:+ "::" +:+ Join ":" (append_hex <$> drop (i + n) g)
  end.
Definition hexString (ip : list Z) : string := Join "" ((fun b => hex_char (b `div` 16) +:+ hex_char (b `mod` 16)) <$> ip).
Definition IP_String (ip : IP) : string :=
  match ip with
  | [] => "<nil>"
  | _ =>
      if negb ((length ip =? 4)%nat || (length ip =? 16)%nat) then "?" +:+ hexString ip
      else match To4 ip with
           | Some p4 => Join "." (FormatInt <$> p4)
           | None => string6 ip
           end
  end.

(** ** Networks *)

Record IPNet := MkIPNet { net_IP : IP; net_Mask : list Z }.
(** [CIDRMask]: [ones] bits set, the rest not; in bytes. *)
Fixpoint mask_bytes (n : nat) (ones : Z) : list Z :=
  match n with
  | O => []
  | S n =>
      (if 8 <=? ones then 255 else 255 - (255 `div` 2 ^ ones)) :: mask_bytes n (if 8 <=? ones then ones - 8 else 0)
  end.
Definition CIDRMask (ones bits : Z) : list Z := mask_bytes (Z.to_nat (bits `div` 8)) ones.
Definition zip_and (a b : list Z) : list Z := zip_with Z.land a b.
Definition Mask (ip : IP) (mask : list Z) : IP :=
  let mask := if (length mask =? 16)%nat && (length ip =? 4)%nat && forallb (fun b => b =? 255) (take 12 mask)
              then drop 12 mask else mask in
  let ip := if (length mask =? 4)%nat && (length ip =? 16)%nat && bool_decide (take 12 ip = v4InV6Prefix)
            then drop 12 ip else ip in
  if (length ip =? length mask)%nat then zip_and ip mask else [].

(** [dtoi]: the whole string is a decimal number below 0xFFFFFF. *)
Fixpoint dtoi_go (n : Z) (s : string) : option Z :=
  match s with
  | "" => Some n
  | String c s' =>
      match decimal c with
      | Some d => if 16777215 <=? n * 10 + d then None else dtoi_go (n * 10 + d) s'
      | None => None
      end
  end.
Definition dtoi (s : string) : option Z := if bool_decide (s = "") then None else dtoi_go 0 s.
Definition ParseCIDR (s : string) : option IPNet :=
  match cut "/" s with
  | None => None
  | Some (addr, mask) =>
      match ParseAddr addr with
      | None => None
      | Some a =>
          if negb (zone_free a) then None
          else match dtoi mask with
               | None => None
               | Some n =>
                   if BitLen a <? n then None
                   else let m := CIDRMask n (BitLen a) in Some (MkIPNet (Mask (As16 a) m) m)
               end
      end
  end.
Definition networkNumberAndMask (n : IPNet) : IP * list Z :=
  let ip := default (net_IP n) (To4 (net_IP n)) in
  if (match To4 (net_IP n) with None => true | _ => false end) && negb (length ip =? 16)%nat then ([], [])
  else
    let m := net_Mask n in
    if (length m =? 4)%nat then if negb (length ip =? 4)%nat then ([], []) else (ip, m)
    else if (length m =? 16)%nat then if (length ip =? 4)%nat then (ip, drop 12 m) else (ip, m)
    else ([], []).
Definition IPNet_Contains (n : IPNet) (ip : IP) : bool :=
  let '(nn, m) := networkNumberAndMask n in
  let ip := default ip (To4 ip) in
  (length ip =? length nn)%nat && bool_decide (zip_and nn m = zip_and ip m).

(** ** apiclient/utils.go *)

(** [IP] and [Subnet]; nil is the empty list. *)
Record Network := MkNetwork { nw_IP : IP; nw_Subnet : IP }.
Definition AsNfsRule (n : Network) : string := IP_String (nw_IP n) +:+ "/" +:+ IP_String (nw_Subnet n).
Fixpoint count_bits (fuel : nat) (mask : Z) : Z :=
  match fuel with
  | O => 0
  | S fuel => if mask =? 0 then 0 else Z.land mask 1 + count_bits fuel (Z.shiftr mask 1)
  end.
Definition be_Uint32 (b : list Z) : Z := fold_left (fun acc x => acc * 256 + x) b 0.
Definition GetMaskBits (n : Network) : Z :=
  match To4 (nw_Subnet n) with
  | None => 0
  | Some ip => count_bits 32 (be_Uint32 ip)
  end.
Definition parseNetworkString (s : string) : option Network :=
  if Contains s "/" then
    match Split "/" s with
    | [a; b] =>
        let ip := default [] (ParseIP a) in
        match ParseIP b with
        | Some subnet => Some (MkNetwork ip subnet)
        | None =>
            match ParseCIDR s with
            | None => None
            | Some ipNet => Some (MkNetwork ip (net_Mask ipNet))
            end
        end
    | _ => None
    end
  else Some (MkNetwork (default [] (ParseIP s)) (default [] (ParseIP "255.255.255.255"))).
Definition ContainsIPAddress (n : Network) (ipStr : string) : bool :=
  match ParseIP ipStr with
  | None => false
  | Some ip =>
      match ParseCIDR (IP_String (nw_IP n) +:+ "/" +:+ IP_String (nw_Subnet n)) with
      | Some ipNet => IPNet_Contains ipNet ip
      | None =>
          match ParseCIDR (IP_String (nw_IP n) +:+ "/" +:+ FormatInt (GetMaskBits n)) with
          | Some ipNet => IPNet_Contains ipNet ip
          | None => false
          end
      end
  end.
Definition isValidIPv6Address (ipStr : string) : bool :=
  match ParseIP ipStr with
  | Some ip => match To4 ip with None => (length ip =? 16)%nat | Some _ => false end
  | None => false
  end.
Definition isValidIPv4Address (ipStr : string) : bool :=
  match ParseIP ipStr with Some ip => match To4 ip with Some _ => true | None => false end | None => false end.


(** ** Addresses and networks of IPv4 *)

Definition bytes4 (l : list Z) : Prop := length l = 4%nat /\ Forall (fun b => 0 <= b < 256) l.
Definition dotted_quad (l : list Z) : string := Join "." (FormatInt <$> l).

Lemma bytes4_inv l : bytes4 l -> exists a b c d,
  l = [a; b; c; d] /\ 0 <= a < 256 /\ 0 <= b < 256 /\ 0 <= c < 256 /\ 0 <= d < 256.
Proof.
  intros [Hl Hb]. destruct l as [|a [|b [|c [|d [|]]]]]; try done. rewrite !Forall_cons in Hb. naive_solver.
Qed.
(** Facts about a number in a small range, by cases. *)
Lemma by_cases (P : Z -> Prop) n : Forall P (seqZ 0 n) -> forall b, 0 <= b < n -> P b.
Proof. intros HP b Hb. rewrite Forall_forall in HP. apply HP. rewrite elem_of_seqZ. lia. Qed.
Ltac by_cases_in n :=
  match goal with |- forall b, 0 <= b < ?m -> @?P b => apply (by_cases P m) end;
  change (seqZ 0 n) with ltac:(let l := eval vm_compute in (seqZ 0 n) in exact l); repeat constructor.

Lemma parse_octet : forall b, 0 <= b < 256 ->
  exists k, forall fields rest,
    parse_ipv4_fields true 0 0 fields (FormatInt b +:+ rest) = parse_ipv4_fields false b k fields rest.
Proof. by_cases_in 256; eexists; reflexivity. Qed.
Lemma octet_chars : forall b, 0 <= b < 256 ->
  (forall w rest, parse_addr_from w (FormatInt b +:+ String "." rest) =
    match parse_ipv4 w with Some x => Some (Addr4 x) | None => None end) /\
  contains_char "/" (FormatInt b) = false.
Proof. by_cases_in 256. Qed.

Lemma parse_ipv4_dotted l : bytes4 l -> parse_ipv4 (dotted_quad l) = Some l.
Proof.
  intros (a & b & c & d & -> & Ha & Hb & Hc & Hd)%bytes4_inv. unfold dotted_quad, parse_ipv4. cbn [fmap list_fmap Join].
  destruct (parse_octet a Ha) as [ka Ea], (parse_octet b Hb) as [kb Eb], (parse_octet c Hc) as [kc Ec],
    (parse_octet d Hd) as [kd Ed].
  assert (Hdot : forall v k fields rest, rest <> "" -> (length fields < 3)%nat ->
    parse_ipv4_fields false v k fields ("." +:+ rest) = parse_ipv4_fields true 0 0 (fields ++ [v]) rest).
  { intros v k fields rest Hr Hf. rewrite app_str_cons, app_str_nil_l. cbn [parse_ipv4_fields].
    change (decimal ".") with (@None Z). cbn. rewrite (bool_decide_false _ Hr). cbn.
    by replace (length fields =? 3)%nat with false by (symmetry; apply Nat.eqb_neq; lia). }
  assert (Hne : forall x y, x +:+ "." +:+ y <> "").
  { intros x y E0%(f_equal String.length). rewrite !length_app_str in E0. cbn in E0. lia. }
  assert (Hd0 : FormatInt d <> "").
  { intros E0. rewrite E0 in Ed. by specialize (Ed [0; 0] ".1"). }
  rewrite Ea, Hdot, Eb, Hdot, Ec, Hdot by (done || cbn; lia || apply Hne || apply Hd0).
  rewrite <- (app_str_nil_r (FormatInt d)), Ed. done.
Qed.

Lemma ParseAddr_dotted l : bytes4 l -> ParseAddr (dotted_quad l) = Some (Addr4 l).
Proof.
  intros Hl. pose proof (parse_ipv4_dotted l Hl) as Hp. destruct (bytes4_inv l Hl) as (a & b & c & d & -> & Ha & _).
  destruct (octet_chars a Ha) as [Hc _]. unfold ParseAddr.
  change (dotted_quad [a; b; c; d]) with (FormatInt a +:+ String "." (dotted_quad [b; c; d])) at 2. by rewrite Hc, Hp.
Qed.
Lemma ParseIP_dotted l : bytes4 l -> ParseIP (dotted_quad l) = Some (v4InV6Prefix ++ l).
Proof. intros Hl. unfold ParseIP. by rewrite ParseAddr_dotted. Qed.
Lemma To4_mapped l : length l = 4%nat -> To4 (v4InV6Prefix ++ l) = Some l.
Proof. intros Hl. destruct l as [|a [|b [|c [|d [|]]]]]; done. Qed.
Lemma IP_String_mapped l : length l = 4%nat -> IP_String (v4InV6Prefix ++ l) = dotted_quad l.
Proof. intros Hl. destruct l as [|a [|b [|c [|d [|]]]]]; done. Qed.
Lemma IP_String_4 l : length l = 4%nat -> IP_String l = dotted_quad l.
Proof. intros Hl. destruct l as [|a [|b [|c [|d [|]]]]]; done. Qed.

Lemma no_slash_dotted l : bytes4 l -> contains_char "/" (dotted_quad l) = false.
Proof.
  intros (a & b & c & d & -> & Ha & Hb & Hc & Hd)%bytes4_inv. unfold dotted_quad. cbn [fmap list_fmap Join].
  rewrite !contains_char_app. by rewrite (proj2 (octet_chars a Ha)), (proj2 (octet_chars b Hb)),
    (proj2 (octet_chars c Hc)), (proj2 (octet_chars d Hd)).
Qed.
Lemma cut_app c a t : contains_char c a = false -> cut c (a +:+ String c t) = Some (a, t).
Proof.
  induction a as [|x a IH]; intros Ha; [rewrite app_str_nil_l; cbn [cut]; by rewrite bool_decide_true|].
  cbn [contains_char] in Ha. apply orb_false_iff in Ha as [Hx Ha]. rewrite app_str_cons. cbn [cut].
  rewrite IH by done. bool_to_prop. by rewrite bool_decide_false by done.
Qed.

(** A prefix length in [s], or the mask of [n] bits written out. *)
Lemma prefix_length : forall n, 0 <= n < 33 ->
  dtoi (FormatInt n) = Some n /\ ParseIP (FormatInt n) = None /\ contains_char "/" (FormatInt n) = false /\
  dtoi (dotted_quad (CIDRMask n 32)) = None /\ length (CIDRMask n 32) = 4%nat /\
  forallb (fun b => (0 <=? b) && (b <? 256)) (CIDRMask n 32) = true /\
  count_bits 32 (be_Uint32 (CIDRMask n 32)) = n.
Proof. by_cases_in 33. Qed.
Lemma CIDRMask_bytes n : 0 <= n <= 32 -> bytes4 (CIDRMask n 32).
Proof.
  intros Hn. destruct (prefix_length n) as (_ & _ & _ & _ & Hl & Hb & _); [lia|]. split; [done|].
  apply Forall_forall. intros b Hin%list_elem_of_In. eapply forallb_forall in Hb; [|done]. lia.
Qed.

Lemma Mask_mapped l m : length l = 4%nat -> length m = 4%nat -> Mask (v4InV6Prefix ++ l) m = zip_and l m.
Proof.
  intros Hl Hm. destruct l as [|a [|b [|c [|d [|]]]]]; try done. destruct m as [|x [|y [|z [|w [|]]]]]; done.
Qed.
Lemma ParseCIDR_length l n : bytes4 l -> 0 <= n <= 32 ->
  ParseCIDR (dotted_quad l +:+ "/" +:+ FormatInt n) = Some (MkIPNet (zip_and l (CIDRMask n 32)) (CIDRMask n 32)).
Proof.
  intros Hl Hn. destruct (prefix_length n) as (Hd & _ & _ & _ & Hm & _); [lia|]. unfold ParseCIDR.
  change ("/" +:+ FormatInt n) with (String "/" (FormatInt n)).
  rewrite cut_app, ParseAddr_dotted, Hd by auto using no_slash_dotted. cbn [zone_free negb BitLen As16].
  replace (32 <? n) with false by lia. rewrite Mask_mapped; [done|apply Hl|done].
Qed.
Lemma ParseCIDR_mask l n : bytes4 l -> 0 <= n <= 32 ->
  ParseCIDR (dotted_quad l +:+ "/" +:+ dotted_quad (CIDRMask n 32)) = None.
Proof.
  intros Hl Hn. destruct (prefix_length n) as (_ & _ & _ & Hd & _); [lia|]. unfold ParseCIDR.
  change ("/" +:+ dotted_quad (CIDRMask n 32)) with (String "/" (dotted_quad (CIDRMask n 32))).
  by rewrite cut_app, ParseAddr_dotted, Hd by auto using no_slash_dotted.
Qed.

(** The network of an address and a prefix length, with the mask in either form. *)
Definition is_network (l : list Z) (n : Z) (nw : Network) : Prop :=
  nw_IP nw = v4InV6Prefix ++ l /\
  (nw_Subnet nw = CIDRMask n 32 \/ nw_Subnet nw = v4InV6Prefix ++ CIDRMask n 32).
Definition slash_form (l : list Z) (n : Z) : string := dotted_quad l +:+ "/" +:+ FormatInt n.
Definition mask_form (l : list Z) (n : Z) : string := dotted_quad l +:+ "/" +:+ dotted_quad (CIDRMask n 32).

Lemma Split_slash a b : contains_char "/" a = false -> contains_char "/" b = false ->
  Contains (a +:+ "/" +:+ b) "/" = true /\ Split "/" (a +:+ "/" +:+ b) = [a; b].
Proof.
  intros Ha Hb. split; [apply Contains_spec; eauto|].
  change ("/" +:+ b) with (String "/" b). by rewrite Split_app_sep, Split_no_sep by done.
Qed.
Lemma parse_slash_form l n : bytes4 l -> 0 <= n <= 32 ->
  exists nw, parseNetworkString (slash_form l n) = Some nw /\ is_network l n nw.
Proof.
  intros Hl Hn. destruct (prefix_length n) as (_ & Hp & Hc & _); [lia|]. unfold parseNetworkString, slash_form.
  destruct (Split_slash (dotted_quad l) (FormatInt n)) as [-> ->]; [by apply no_slash_dotted|done|].
  rewrite Hp, ParseCIDR_length, ParseIP_dotted by done. eexists. split; [done|]. split; [done|by left].
Qed.
Lemma parse_mask_form l n : bytes4 l -> 0 <= n <= 32 ->
  exists nw, parseNetworkString (mask_form l n) = Some nw /\ is_network l n nw.
Proof.
  intros Hl Hn. pose proof (CIDRMask_bytes n Hn) as Hm. unfold parseNetworkString, mask_form.
  destruct (Split_slash (dotted_quad l) (dotted_quad (CIDRMask n 32))) as [-> ->]; [by apply no_slash_dotted..|].
  rewrite !ParseIP_dotted by done. eexists. split; [done|]. split; [done|by right].
Qed.
Lemma parse_address l : bytes4 l -> exists nw, parseNetworkString (dotted_quad l) = Some nw /\ is_network l 32 nw.
Proof.
  intros Hl. unfold parseNetworkString. assert (Contains (dotted_quad l) "/" = false) as ->.
  { apply not_true_is_false. intros (a & b & E)%Contains_spec. pose proof (no_slash_dotted l Hl) as Hs.
    rewrite E, !contains_char_app in Hs. cbn in Hs. by rewrite orb_true_r in Hs. }
  rewrite ParseIP_dotted by done. eexists. split; [done|]. split; [done|by right].
Qed.
Lemma AsNfsRule_network l n nw : bytes4 l -> 0 <= n <= 32 -> is_network l n nw -> AsNfsRule nw = mask_form l n.
Proof.
  intros Hl Hn [Hi Hs]. pose proof (CIDRMask_bytes n Hn) as [Hm _]. unfold AsNfsRule, mask_form.
  rewrite Hi, IP_String_mapped by apply Hl. by destruct Hs as [-> | ->]; rewrite ?IP_String_mapped, ?IP_String_4 by done.
Qed.

(** The bits of a byte under a partial mask. *)
Lemma land_partial : forall r, 0 <= r < 9 -> forall b, 0 <= b < 256 ->
  Z.land b (255 - 255 `div` 2 ^ r) = b `div` 2 ^ (8 - r) * 2 ^ (8 - r).
Proof. by_cases_in 9; by_cases_in 256. Qed.
Definition is_bytes (l : list Z) : Prop := Forall (fun b => 0 <= b < 256) l.
Lemma be_acc l acc : fold_left (fun acc x => acc * 256 + x) l acc = acc * 2 ^ (8 * Z.of_nat (length l)) + be_Uint32 l.
Proof.
  unfold be_Uint32. revert acc. induction l as [|x l IH]; intros acc; cbn [fold_left]; [cbn; lia|].
  rewrite IH, (IH (0 * 256 + x)). cbn [length].
  replace (8 * Z.of_nat (S (length l))) with (8 + 8 * Z.of_nat (length l)) by lia. rewrite Z.pow_add_r by lia. lia.
Qed.
Lemma be_cons b l : be_Uint32 (b :: l) = b * 2 ^ (8 * Z.of_nat (length l)) + be_Uint32 l.
Proof. unfold be_Uint32 at 1. cbn [fold_left]. rewrite be_acc. lia. Qed.
Lemma be_range l : is_bytes l -> 0 <= be_Uint32 l < 2 ^ (8 * Z.of_nat (length l)).
Proof.
  induction l as [|b l IH]; intros Hb; [cbn; lia|]. apply Forall_cons in Hb as [Hb Hl]. specialize (IH Hl).
  rewrite be_cons. cbn [length]. replace (8 * Z.of_nat (S (length l))) with (8 + 8 * Z.of_nat (length l)) by lia.
  rewrite Z.pow_add_r by lia. nia.
Qed.

(** Two addresses agree under a mask if they have the same leading bits. *)
Lemma mask_agree n l x : is_bytes l -> is_bytes x -> length l = length x -> 0 <= n <= 8 * Z.of_nat (length l) ->
  zip_and l (mask_bytes (length l) n) = zip_and x (mask_bytes (length l) n) <->
  be_Uint32 l `div` 2 ^ (8 * Z.of_nat (length l) - n) = be_Uint32 x `div` 2 ^ (8 * Z.of_nat (length l) - n).
Proof.
  revert n x. induction l as [|b l IH]; intros n x Hl Hx Hlen Hn; destruct x as [|e x]; try done.
  apply Forall_cons in Hl as [Hb Hl], Hx as [He Hx]. injection Hlen as Hlen.
  pose proof (be_range l Hl) as Rl. pose proof (be_range x Hx) as Rx. rewrite <- Hlen in Rx.
  rewrite !be_cons, <- Hlen. cbn [length mask_bytes zip_and zip_with] in *. set (k := 8 * Z.of_nat (length l)) in *.
  replace (8 * Z.of_nat (S (length l))) with (8 + k) in * by lia. destruct (Z.leb_spec 8 n).
  - change 255 with (Z.ones 8). rewrite !Z.land_ones, !Z.mod_small by lia.
    specialize (IH (n - 8) x Hl Hx Hlen ltac:(lia)). replace (8 + k - n) with (k - (n - 8)) by lia.
    assert (Hdiv : forall y L, (y * 2 ^ k + L) `div` 2 ^ (k - (n - 8)) = y * 2 ^ (n - 8) + L `div` 2 ^ (k - (n - 8))).
    { intros y L. rewrite <- Z.div_add_l by lia. f_equal. rewrite <- Z.mul_assoc, <- Z.pow_add_r by lia. do 3 f_equal. lia. }
    rewrite !Hdiv. assert (Hsmall : forall L, 0 <= L < 2 ^ k -> 0 <= L `div` 2 ^ (k - (n - 8)) < 2 ^ (n - 8)).
    { intros L HL. split; [apply Z.div_pos; lia|]. apply Z.div_lt_upper_bound; [lia|].
      rewrite <- Z.pow_add_r by lia. replace (k - (n - 8) + (n - 8)) with k by lia. apply HL. }
    pose proof (Hsmall _ Rl). pose proof (Hsmall _ Rx). split.
    + intros [= -> E]. f_equal. by apply IH.
    + intros E. assert (b = e) as -> by nia. f_equal. apply IH. lia.
  - rewrite !land_partial by lia.
    assert (Hdiv : forall y L, 0 <= L < 2 ^ k -> (y * 2 ^ k + L) `div` 2 ^ (8 + k - n) = y `div` 2 ^ (8 - n)).
    { intros y L HL. replace (8 + k - n) with (k + (8 - n)) by lia. rewrite Z.pow_add_r, <- Z.div_div by lia.
      by rewrite Z.div_add_l, (Z.div_small L), Z.add_0_r by lia. }
    rewrite !Hdiv by done. assert (Hz : forall L, length L = length l ->
      zip_with Z.land L (mask_bytes (length l) 0) = repeat 0 (length l)).
    { clear. intros L. revert l. induction L as [|y L IHL]; intros [|z l]; try done. cbn. intros [= E].
      rewrite IHL by done. by rewrite Z.land_0_r. }
    rewrite !Hz by done. split; [intros [= E]|intros ->; done]. nia.
Qed.

Definition prefix_of (n : Z) (l : list Z) : Z := be_Uint32 l `div` 2 ^ (32 - n).
Lemma zip_and_idem l m : zip_and (zip_and l m) m = zip_and l m.
Proof.
  revert m. induction l as [|a l IH]; intros [|b m]; try done.
  unfold zip_and in *. cbn [zip_with]. by rewrite IH, <- Z.land_assoc, Z.land_diag.
Qed.
Lemma IPNet_Contains_4 l m x : length l = 4%nat -> length m = 4%nat -> length x = 4%nat ->
  IPNet_Contains (MkIPNet l m) (v4InV6Prefix ++ x) = bool_decide (zip_and l m = zip_and x m).
Proof.
  intros Hl Hm Hx. unfold IPNet_Contains, networkNumberAndMask. cbn [net_IP net_Mask]. rewrite To4_mapped by done.
  unfold To4. by rewrite !Hl; cbn -[zip_and]; rewrite !Hl; cbn -[zip_and]; rewrite Hm; cbn -[zip_and]; rewrite Hl, Hx.
Qed.
Lemma ContainsIPAddress_network l n nw x : bytes4 l -> bytes4 x -> 0 <= n <= 32 -> is_network l n nw ->
  ContainsIPAddress nw (dotted_quad x) = bool_decide (prefix_of n l = prefix_of n x).
Proof.
  intros Hl Hx Hn Hnw. destruct (prefix_length n) as (_ & _ & _ & _ & _ & _ & Hbits); [lia|].
  pose proof (CIDRMask_bytes n Hn) as [Hm _]. unfold ContainsIPAddress. rewrite ParseIP_dotted by done.
  change (IP_String (nw_IP nw) +:+ "/" +:+ IP_String (nw_Subnet nw)) with (AsNfsRule nw).
  rewrite (AsNfsRule_network l n) by done. unfold mask_form. rewrite ParseCIDR_mask by done.
  destruct Hnw as [Hi Hs]. rewrite Hi, IP_String_mapped by apply Hl.
  assert (GetMaskBits nw = n) as ->.
  { unfold GetMaskBits. destruct Hs as [-> | ->]; [|rewrite To4_mapped by done; by rewrite Hbits].
    unfold To4. rewrite Hm. exact Hbits. }
  assert (Hlen : length (zip_and l (CIDRMask n 32)) = 4%nat) by (unfold zip_and; rewrite length_zip_with, (proj1 Hl); lia).
  rewrite ParseCIDR_length, IPNet_Contains_4 by (done || apply Hx).
  apply bool_decide_ext. rewrite zip_and_idem. destruct Hl as [Hl4 Hl], Hx as [Hx4 Hx].
  pose proof (mask_agree n l x Hl Hx) as Hagree. rewrite Hl4, Hx4 in Hagree. apply Hagree; [done|lia].
Qed.

(** (C30) A rule of an NFS client group covers exactly its network: whether it is
    written with a prefix length or, as the driver writes it, with a mask, an
    IPv4 network contains an address if and only if the leading bits agree;
    and the rule the driver writes for a network means the same network. *)
Theorem rule_covers_prefix l n s : bytes4 l -> 0 <= n <= 32 ->
  s = slash_form l n \/ s = mask_form l n \/ (n = 32 /\ s = dotted_quad l) ->
  exists nw, parseNetworkString s = Some nw /\ AsNfsRule nw = mask_form l n /\
    forall x, bytes4 x -> ContainsIPAddress nw (dotted_quad x) = true <-> prefix_of n l = prefix_of n x.
Proof.
  intros Hl Hn Hs. assert (exists nw, parseNetworkString s = Some nw /\ is_network l n nw) as (nw & Hp & Hnw).
  { destruct Hs as [-> | [-> | [-> ->]]]; [by apply parse_slash_form|by apply parse_mask_form|by apply parse_address]. }
  exists nw. split; [done|]. split; [by apply AsNfsRule_network|]. intros x Hx.
  rewrite (ContainsIPAddress_network l n) by done. apply bool_decide_eq_true.
Qed.
Lemma rule_covers_prefix_witness : exists nw,
  parseNetworkString "10.16.0.0/12" = Some nw /\ AsNfsRule nw = "10.16.0.0/255.240.0.0" /\
  forall x, bytes4 x -> ContainsIPAddress nw (dotted_quad x) = true <-> prefix_of 12 [10; 16; 0; 0] = prefix_of 12 x.
Proof.
  apply (rule_covers_prefix [10; 16; 0; 0] 12 "10.16.0.0/12").
  - split; [reflexivity|]. repeat constructor; lia.
  - lia.
  - left. vm_compute. reflexivity.
Defined.

(** Only the number of bits of a mask counts, and an IPv6 network is cut down
    to the bits its mask has as an IPv4 mask. *)
Lemma scattered_mask :
  (fun n => ContainsIPAddress n "10.0.99.1") <$> parseNetworkString "10.0.7.1/255.0.255.255" = Some false /\
  (fun n => ContainsIPAddress n "10.0.7.99") <$> parseNetworkString "10.0.7.1/255.0.255.255" = Some true.
Proof. split; vm_compute; reflexivity. Qed.
Lemma ipv6_network_covers_all :
  (fun n => ContainsIPAddress n "2001:db8::1") <$> parseNetworkString "fd00::/8" = Some true.
Proof. vm_compute. reflexivity. Qed.
Lemma ipv6_address_covers_32 :
  (fun n => ContainsIPAddress n "fd00:1:ffff::9") <$> parseNetworkString "fd00:1::1" = Some true.
Proof. vm_compute. reflexivity. Qed.
