(* ===== verification/Monad.v ===== *)
(** * The state-and-error monad of the driver's methods

    A Go method that mutates its receiver and may return an [error] or panic
    is a function from a state to a [result] and the state it leaves, also
    when it fails.  [attempt] reads an error as a value ([x, err := f()]),
    [both] is [defer]. *)
From S2P Require Import Prelude.

Definition M (S A : Type) : Type := S -> result A * S.

Section Monad.
Context {S : Type}.
Implicit Types (A B C : Type).

Definition ret {A} (a : A) : M S A := fun s => (Ok a, s).
Definition throw {A} (e : error) : M S A := fun s => (Err e, s).
Definition panic {A} : M S A := fun s => (Panic, s).
Definition bind {A B} (m : M S A) (f : A -> M S B) : M S B := fun s =>
  match m s with
  | (Ok a, s') => f a s'
  | (Err e, s') => (Err e, s')
  | (Panic, s') => (Panic, s')
  end.
Definition get : M S S := fun s => (Ok s, s).
Definition gets {A} (f : S -> A) : M S A := fun s => (Ok (f s), s).
Definition modify (f : S -> S) : M S unit := fun s => (Ok tt, f s).

(** [x, err := m]: the error becomes a value, a panic does not. *)
Definition attempt {A} (m : M S A) : M S (error + A) := fun s =>
  match m s with
  | (Ok a, s') => (Ok (inr a), s')
  | (Err e, s') => (Ok (inl e), s')
  | (Panic, s') => (Panic, s')
  end.
(** An error value returned as the method's own. *)
Definition lift {A} (r : result A) : M S A := fun s => (r, s).
Definition of_sum {A} (r : error + A) : M S A :=
  match r with inl e => throw e | inr a => ret a end.
Definition of_err (r : option error) : M S unit :=
  match r with Some e => throw e | None => ret tt end.

(** [defer] of a clean-up that may fail: it runs however [m] ended; the value
    or error of [m] and the error of the clean-up are both returned. *)
Definition both {A} (m : M S A) (cleanup : M S (option error)) : M S ((error + A) * option error) :=
  fun s =>
  match m s with
  | (r, s') =>
      match cleanup s' with
      | (Ok e, s'') =>
          (match r with Ok a => Ok (inr a, e) | Err e' => Ok (inl e', e) | Panic => Panic end, s'')
      | (Err e, s'') => (Err e, s'')
      | (Panic, s'') => (Panic, s'')
      end
  end.

(** [defer] of a clean-up that cannot fail. *)
Definition finally {A} (m : M S A) (cleanup : M S unit) : M S A :=
  bind (both m (bind cleanup (fun _ => ret None))) (fun '(r, _) => of_sum r).

Lemma bind_ret {A B} (a : A) (f : A -> M S B) : bind (ret a) f = f a.
Proof. done. Qed.
Lemma bind_Ok {A B} (m : M S A) (f : A -> M S B) s a s' :
  m s = (Ok a, s') -> bind m f s = f a s'.
Proof. unfold bind. by intros ->. Qed.
Lemma bind_Err {A B} (m : M S A) (f : A -> M S B) s e s' :
  m s = (Err e, s') -> bind m f s = (Err e, s').
Proof. unfold bind. by intros ->. Qed.
Lemma bind_inv {A B} (m : M S A) (f : A -> M S B) s b s' :
  bind m f s = (Ok b, s') -> exists a s1, m s = (Ok a, s1) /\ f a s1 = (Ok b, s').
Proof. unfold bind. destruct (m s) as [[a|e|] s1]; naive_solver. Qed.
Lemma bind_assoc {A B C} (m : M S A) (f : A -> M S B) (g : B -> M S C) s :
  bind (bind m f) g s = bind m (fun a => bind (f a) g) s.
Proof. unfold bind. by destruct (m s) as [[a|e|] s1]. Qed.
Lemma finally_inv {A} (m : M S A) c s a s' : finally m c s = (Ok a, s') ->
  exists s1, m s = (Ok a, s1) /\ c s1 = (Ok tt, s').
Proof.
  unfold finally, both, bind. destruct (m s) as [r s1]. destruct (c s1) as [[[]|e|] s2] eqn:Ec; [|done|done].
  destruct r; cbn; intros Hr; [|done|done]. injection Hr as <- <-. eauto.
Qed.
Lemma attempt_Ok {A} (m : M S A) s a s' :
  m s = (Ok a, s') -> attempt m s = (Ok (inr a), s').
Proof. unfold attempt. by intros ->. Qed.
End Monad.

Declare Scope go_scope.
Delimit Scope go_scope with go.
Notation "'let!' x ':=' m 'in' k" := (bind m (fun x => k))
  (at level 10, x pattern, m at level 100, k at level 200) : go_scope.
Notation "m ';;' k" := (bind m (fun _ => k)) (at level 100, k at level 200, right associativity) : go_scope.

(** Run on a part of the state. *)
Definition zoom {S T A} (view : S -> T) (upd : T -> S -> S) (m : M T A) : M S A := fun s =>
  let '(r, t) := m (view s) in (r, upd t s).

(** Split a run of the monad into its steps. *)
Ltac step_run H :=
  match type of H with
  | bind ?m ?f ?s = (Ok _, _) => apply bind_inv in H as (? & ? & ? & H)
  end.
