(* ===== verification/ApiRequests.v ===== *)
(** * HTTP requests of the API client (pkg/wekafs/apiclient)

    [do], [request] and [retryBackoff] (requests.go, apiclient.go) with the
    endpoint bookkeeping of apiendpoint.go.  The HTTP transport, the clock and
    the random source are an interface, [Net]; the JSON envelope of a reply is
    part of what the transport delivers. *)
From S2P Require Import Prelude.
From S2P Require Import GoStrings.
From S2P Require Import Strconv.
From S2P Require Import Regex.
From S2P Require Import Monad.

Definition ApiRetryMaxCount : nat := 5.
Definition ApiRetryIntervalSeconds : Z := 1.
Definition RetryBackoffExponentialFactor : Z := 1.
Definition Second : Z := 1000000000.

(** ** State *)

Inductive counter :=
| failCount | timeoutCount | http400ErrCount | http401ErrCount | http403ErrCount
| http404ErrCount | http409ErrCount | http500ErrCount | http503ErrCount
| generalErrCount | transportErrCount | noRespCount | parseErrCount | requestCount.
#[export] Instance counter_eq_dec : EqDecision counter.
Proof. solve_decision. Defined.

Record ApiEndPoint := MkEndPoint {
  IpAddress : string;
  MgmtPort : Z;
  lastActive : Z;
  counts : counter -> Z;
  requestDurationTotal : Z
}.
Definition endpoint_String (e : ApiEndPoint) : string :=
  IpAddress e +:+ ":" +:+ FormatInt (MgmtPort e).
Definition new_endpoint (ip : string) (port t : Z) : ApiEndPoint :=
  MkEndPoint ip port t (fun _ => 0) 0.
Definition bump (c : counter) (e : ApiEndPoint) : ApiEndPoint :=
  MkEndPoint (IpAddress e) (MgmtPort e) (lastActive e)
    (fun c' => if decide (c' = c) then wrap64 (counts e c' + 1) else counts e c')
    (requestDurationTotal e).
Definition add_duration (d : Z) (e : ApiEndPoint) : ApiEndPoint :=
  MkEndPoint (IpAddress e) (MgmtPort e) (lastActive e) (counts e)
    (wrap64 (requestDurationTotal e + d)).

(** What the requests use of [ApiClient]. *)
Record Client := MkClient {
  HttpScheme : string;
  Endpoints : list string;               (* Credentials.Endpoints *)
  actualApiEndpoints : gmap string ApiEndPoint;
  currentEndpoint : string;
  apiToken : string;
  refreshTokenExpiryDate : Z;
  refreshTokenExpiryInterval : Z;
  UrlQueryParams : bool                  (* CompatibilityMap.UrlQueryParams *)
}.
Definition set_endpoints (m : gmap string ApiEndPoint) (c : Client) : Client :=
  MkClient (HttpScheme c) (Endpoints c) m (currentEndpoint c) (apiToken c)
    (refreshTokenExpiryDate c) (refreshTokenExpiryInterval c) (UrlQueryParams c).
Definition set_current (k : string) (c : Client) : Client :=
  MkClient (HttpScheme c) (Endpoints c) (actualApiEndpoints c) k (apiToken c)
    (refreshTokenExpiryDate c) (refreshTokenExpiryInterval c) (UrlQueryParams c).

(** [strings.ToUpper], on ASCII letters. *)
Fixpoint ToUpper (s : string) : string :=
  match s with
  | "" => ""
  | String a s' =>
      let c := code_of a in
      String (if (97 <=? c) && (c <=? 122) then Ascii.ascii_of_N (Z.to_N (c - 32)) else a) (ToUpper s')
  end.

(** [isValidHostname]: alphanumeric labels with inner hyphens; the last one
    has at least two characters. *)
Definition alnum : re := Chr (fun a =>
  let c := code_of a in
  ((97 <=? c) && (c <=? 122)) || ((65 <=? c) && (c <=? 90)) || ((48 <=? c) && (c <=? 57))).
Definition alnum_hyphen : re := Chr (fun a =>
  let c := code_of a in (c =? 45) ||
  ((97 <=? c) && (c <=? 122)) || ((65 <=? c) && (c <=? 90)) || ((48 <=? c) && (c <=? 57))).
Definition hostnameRegex : re :=
  Seq (Star (Seq alnum (Seq (Opt (Seq (UpTo 61 alnum_hyphen) alnum)) (Lit "."))))
    (Seq alnum (Seq (UpTo 61 alnum_hyphen) alnum)).
Definition isValidHostname (hostname : string) : bool :=
  (len hostname <=? 253) && MatchFull hostnameRegex hostname.

(** ** The outside world *)

Record http_request := MkHttpRequest {
  Method : string;
  URL : string;
  Body : string;
  RawQuery : list (string * string);
  Bearer : option string
}.
(** What reading and decoding a reply's body gives. *)
Inductive http_body :=
| Unreadable
| NotJson
| Envelope (data : string) (codes : list string) (message : string).
Inductive http_outcome :=
| DoError
| NoResponse
| Reply (status : Z) (body : http_body).

Class Net (W : Type) := {
  http_Do : http_request -> W -> http_outcome * W;
  time_Now : W -> Z * W;
  rand_Int63n : Z -> W -> Z * W;
  ParseIP : string -> bool;              (* net.ParseIP(s) != nil *)
  validURL : string -> bool              (* http.NewRequest accepts the URL *)
}.

(** What the client did to the world, latest first. *)
Inductive net_event :=
| DidHttp (r : http_request) (o : http_outcome)
| DidSleep (d : Z).

Record ClientState (W : Type) := MkState { client : Client; world : W; log : list net_event }.
Arguments MkState {W}.
Arguments client {W}.
Arguments world {W}.
Arguments log {W}.

Section Client.
Context {W : Type} `{Net W}.
Abbreviation st := (ClientState W).
Local Open Scope go_scope.

Definition on_client (f : Client -> Client) : M st unit :=
  modify (fun s => MkState (f (client s)) (world s) (log s)).
Definition effect {A} (f : W -> A * W) (ev : A -> list net_event) : M st A := fun s =>
  let '(a, w) := f (world s) in (Ok a, MkState (client s) w (ev a ++ log s)).
Definition now : M st Z := effect time_Now (fun _ => []).
Definition Int63n (n : Z) : M st Z := effect (rand_Int63n n) (fun _ => []).
Definition Do (r : http_request) : M st http_outcome :=
  effect (http_Do r) (fun o => [DidHttp r o]).
Definition Sleep (d : Z) : M st unit := effect (fun w => (tt, w)) (fun _ => [DidSleep d]).

(** *** apiendpoint.go *)

Definition default_port : Z := 14000.
Definition parse_endpoint (e : string) : string * string :=
  match rev (Split ":" e) with
  | port :: ((_ :: _) as ips) => (Join ":" (rev ips), port)
  | _ => (e, "14000")
  end.
Definition add_default_endpoint (t : Z) (m : gmap string ApiEndPoint) (e : string) :
    gmap string ApiEndPoint :=
  let '(ip, port) := parse_endpoint e in
  if negb (ParseIP ip) && negb (isValidHostname ip) then m
  else
    let portNum := match Atoi port with Ok n => n | _ => default_port end in
    <[e := new_endpoint ip portNum t]> m.
Definition resetDefaultEndpoints : M st unit :=
  let! t := now in
  on_client (fun c => set_endpoints (foldl (add_default_endpoint t) ∅ (Endpoints c)) c).

Definition rotateEndpoint : M st unit :=
  let! c := gets client in
  (if decide (actualApiEndpoints c = ∅) then resetDefaultEndpoints else ret tt) ;;
  let! c := gets client in
  if decide (actualApiEndpoints c = ∅) then on_client (set_current "")
  else
    let keys := (map_to_list (actualApiEndpoints c)).*1 in
    let! i := Int63n (Z.of_nat (length keys)) in
    match keys !! Z.to_nat i with
    | Some key => on_client (set_current key)
    | None => panic
    end.

(** [getEndpoint]: the key and the endpoint; [None] is the nil pointer. *)
Definition getEndpoint : M st (option ApiEndPoint) :=
  let! c := gets client in
  (if decide (currentEndpoint c = "") then rotateEndpoint else ret tt) ;;
  let! c := gets client in
  ret (actualApiEndpoints c !! currentEndpoint c).
(** Writing through the endpoint's pointer. *)
Definition on_endpoint (f : ApiEndPoint -> ApiEndPoint) : M st unit :=
  on_client (fun c => set_endpoints (alter f (currentEndpoint c) (actualApiEndpoints c)) c).

(** [WekaNode] (node.go): the fields the driver reads. *)
Record WekaNode := MkNode { node_Ips : list string; node_MgmtPort : Z; node_Mode : string; node_Roles : list string }.
Definition NodeModeBackend : string := "backend".
Definition touch (t : Z) (e : ApiEndPoint) : ApiEndPoint :=
  MkEndPoint (IpAddress e) (MgmtPort e) t (counts e) (requestDurationTotal e).
(** One address of the loop over [nodes]: the copies of the existing
    endpoints, and the new map. *)
Definition add_node_ip (t : Z) (port : Z)
    (s : gmap string ApiEndPoint * gmap string ApiEndPoint) (ip : string) :
    gmap string ApiEndPoint * gmap string ApiEndPoint :=
  let '(existing, new) := s in
  let key := ip +:+ ":" +:+ FormatInt port in
  match existing !! key with
  | Some e => (<[key := touch t e]> existing, <[key := touch t e]> new)
  | None => (existing, <[key := new_endpoint ip port t]> new)
  end.
Definition add_node (t : Z) (s : gmap string ApiEndPoint * gmap string ApiEndPoint) (n : WekaNode) :=
  if bool_decide (node_Mode n = NodeModeBackend) then foldl (add_node_ip t (node_MgmtPort n)) s (node_Ips n) else s.
Definition prune (t : Z) (existing new : gmap string ApiEndPoint) : gmap string ApiEndPoint :=
  foldl (fun m e => if lastActive e <? t then delete (endpoint_String e) m else m)
    new (map_to_list existing).*2.
Definition updated_endpoints (t : Z) (nodes : list WekaNode) (old : gmap string ApiEndPoint) :
    gmap string ApiEndPoint :=
  let '(existing, new) := foldl (add_node t) (old, ∅) nodes in prune t existing new.
(** [UpdateApiEndpoints]; [nodes] is what [GetNodesByRole] returned. *)
Definition UpdateApiEndpoints (nodes : result (list WekaNode)) : M st unit :=
  let! nodes := lift nodes in
  if decide (nodes = []) then throw (EPlain "no management nodes found, could not update api endpoints")
  else
    let! t := now in
    on_client (fun c => set_endpoints (updated_endpoints t nodes (actualApiEndpoints c)) c) ;;
    rotateEndpoint.

(** *** requests.go and apiclient.go *)

Definition getBaseUrl : M st string :=
  let! c := gets client in
  let scheme := if decide (ToUpper (HttpScheme c) = "HTTPS") then "https" else "http" in
  let! e := getEndpoint in
  match e with
  | None => panic
  | Some e => ret (scheme +:+ "://" +:+ endpoint_String e)
  end.
Definition getUrl (path : string) : M st string :=
  let! base := getBaseUrl in ret (base +:+ Path.Join ["/api/v2"; path]).

Definition isLoggedIn : M st bool :=
  let! c := gets client in
  if decide (apiToken c = "") then ret false
  else
    let! t := now in
    ret (negb ((refreshTokenExpiryDate c <? t) && (0 <? refreshTokenExpiryInterval c))).

(** The switch on the status code at the end of [do]: the counter that is
    incremented and the error that goes with the response. *)
Definition classify (r : ApiResponse) : option (counter * error) :=
  let s := HttpStatusCode r in
  if decide (s ∈ [200; 201; 202; 204]) then None
  else if s =? 400 then Some (http400ErrCount, ApiBadRequestError r)
  else if s =? 401 then Some (http401ErrCount, ApiAuthorizationError r)
  else if s =? 403 then Some (http403ErrCount, ApiForbiddenError r)
  else if s =? 404 then Some (http404ErrCount, ApiNotFoundError r)
  else if s =? 409 then Some (http409ErrCount, ApiConflictError r)
  else if s =? 500 then Some (http500ErrCount, ApiInternalError (Message r) (Some r))
  else if s =? 503 then Some (http503ErrCount, ApiNotAvailableError r)
  else Some (generalErrCount, ApiError "General failure during API command" s).

Definition empty_response : ApiResponse := MkResponse "" [] "" 0.

(** [do]: the response pointer ([None] is nil) and the error. *)
Definition do_ (method path : string) (payload : option string) (query : list (string * string)) :
    M st (option ApiResponse * option error) :=
  let! c := gets client in
  if decide (Endpoints c = []) then ret (Some empty_response, Some ApiNoEndpointsError)
  else
    let! u := getUrl path in
    if negb (validURL u) then ret (None, Some (ApiError "Failed to construct API request" 0))
    else
      let! logged := isLoggedIn in
      let! c := gets client in
      let req := MkHttpRequest method u (default "" payload)
        (if UrlQueryParams c then query else [])
        (if logged then Some (apiToken c) else None) in
      let! _ := getEndpoint in
      on_endpoint (bump requestCount) ;;
      let! start := now in
      let! o := Do req in
      match o with
      | DoError => on_endpoint (bump transportErrCount) ;; ret (None, Some transportError)
      | NoResponse => on_endpoint (bump noRespCount) ;; ret (None, Some transportError)
      | Reply status body =>
          let! stop := now in
          on_endpoint (add_duration (stop - start)) ;;
          (if status =? 200 then ret tt else on_endpoint (bump failCount)) ;;
          match body with
          | Unreadable =>
              on_endpoint (bump parseErrCount) ;;
              ret (None, Some (ApiInternalError "Failed to parse response" None))
          | NotJson =>
              on_endpoint (bump parseErrCount) ;;
              ret (None, Some (ApiError "Failed to parse HTTP response body" status))
          | Envelope data codes message =>
              on_endpoint (bump parseErrCount) ;;
              let r := MkResponse data codes message status in
              match classify r with
              | None => ret (Some r, None)
              | Some (k, e) => on_endpoint (bump k) ;; ret (Some r, Some e)
              end
          end
      end.

(** [handleTransientErrors] on the errors [do] returns. *)
Definition handleTransientErrors (e : option error) : option error :=
  match e with
  | Some transportError | Some (ApiNotAvailableError _) => Some ApiNetworkError
  | _ => None
  end.

(** What the function that [request] retries returns: nil, an
    [ApiNonTransientError] around an error that may be nil, or another error. *)
Inductive attempt_result :=
| Nil (data : option string)
| NonTransient (e : option error) (data : option string)
| Other (e : option error).

Definition request_once (Init : M st unit) (method path : string) (payload : option string)
    (query : list (string * string)) : M st attempt_result :=
  let! (raw, reqErr) := do_ method path payload query in
  match handleTransientErrors reqErr with
  | Some _ => rotateEndpoint ;; ret (Other reqErr)
  | None =>
      match reqErr with
      | Some e => ret (NonTransient (Some e) None)
      | None =>
          match raw with
          | None => panic
          | Some r =>
              if decide (ErrorCodes r <> []) then ret (NonTransient None None)
              else
                let d := Some (Data r) in
                let s := HttpStatusCode r in
                if s =? 200 then ret (Nil d)
                else if s =? 401 then let! _ := attempt Init in ret (Other None)
                else ret (NonTransient None d)
          end
      end
  end.

Fixpoint retryBackoff (attempts : nat) (sleep : Z) (f : M st attempt_result) :
    M st (option string) :=
  let! r := f in
  match r with
  | Nil d => ret d
  | NonTransient None d => ret d
  | NonTransient (Some e) _ => throw e
  | Other None => ret None
  | Other (Some e) =>
      match attempts with
      | S ((S _) as attempts') =>
          let! jitter := Int63n sleep in
          let sleep := wrap64 (sleep + jitter `quot` 2) in
          Sleep sleep ;;
          retryBackoff attempts' (wrap64 (RetryBackoffExponentialFactor * sleep)) f
      | _ => throw (ApiRetriesExceeded e (Z.of_nat attempts))
      end
  end.

(** The value is the JSON that was unmarshalled into the caller's object, if any. *)
Definition request (Init : M st unit) (method path : string) (payload : option string)
    (query : list (string * string)) : M st (option string) :=
  retryBackoff ApiRetryMaxCount (Second * ApiRetryIntervalSeconds)
    (request_once Init method path payload query).

Definition Request (Init : M st unit) (method path : string) (payload : option string)
    (query : list (string * string)) : M st (option string) :=
  Init ;; request Init method path payload query.
Definition Get Init path query := Request Init "GET" path None query.
Definition Post Init path payload query := Request Init "POST" path (Some payload) query.
Definition Put Init path payload query := Request Init "PUT" path (Some payload) query.
Definition Delete Init path payload query := Request Init "DELETE" path payload query.
End Client.

(** * Theorems *)

(** ** What a request comes to, from the outcomes of its HTTP exchanges *)

Definition do_result (o : http_outcome) : option ApiResponse * option error :=
  match o with
  | DoError | NoResponse => (None, Some transportError)
  | Reply _ Unreadable => (None, Some (ApiInternalError "Failed to parse response" None))
  | Reply status NotJson => (None, Some (ApiError "Failed to parse HTTP response body" status))
  | Reply status (Envelope data codes message) =>
      let r := MkResponse data codes message status in (Some r, snd <$> classify r)
  end.

(** One exchange: it settles the request, or asks for another one. *)
Definition verdict (o : http_outcome) : error + result (option string) :=
  match do_result o with
  | (_, Some transportError) => inl transportError
  | (_, Some (ApiNotAvailableError r)) => inl (ApiNotAvailableError r)
  | (_, Some e) => inr (Err e)
  | (None, None) => inr Panic
  | (Some r, None) => inr (Ok (if decide (ErrorCodes r = []) then Some (Data r) else None))
  end.

(** [settles n os r]: with at most [n] exchanges left, the outcomes [os] in
    this order lead to the result [r]. *)
Inductive settles : nat -> list http_outcome -> result (option string) -> Prop :=
| settles_now n o r : verdict o = inr r -> settles n [o] r
| settles_retry n o os e r :
    verdict o = inl e -> settles (S n) os r -> settles (S (S n)) (o :: os) r
| settles_exceeded o e :
    verdict o = inl e -> settles 1 [o] (Err (ApiRetriesExceeded e 1)).

Definition http_outcomes (l : list net_event) : list http_outcome :=
  omap (fun e => match e with DidHttp _ o => Some o | _ => None end) (rev l).
Definition slept (l : list net_event) : Z :=
  foldr (fun e n => match e with DidSleep d => d + n | _ => n end) 0 l.
Lemma settles_length n os r : settles n os r -> (0 < length os <= Nat.max 1 n)%nat.
Proof. induction 1; cbn [length] in *; lia. Qed.

Lemma http_outcomes_app l1 l2 : http_outcomes (l1 ++ l2) = http_outcomes l2 ++ http_outcomes l1.
Proof. unfold http_outcomes. by rewrite rev_app_distr, omap_app. Qed.
Lemma slept_app l1 l2 : slept (l1 ++ l2) = slept l1 + slept l2.
Proof.
  unfold slept. induction l1 as [|[] l1 IH]; cbn [app foldr] in *; [lia|done|]. rewrite IH. lia.
Qed.

(** ** Clients that can make requests *)

Class NetLaws (W : Type) `{Net W} :=
  rand_range n w : 0 < n -> 0 <= fst (rand_Int63n n w) < n.

Definition base_url (c : Client) (e : ApiEndPoint) : string :=
  (if decide (ToUpper (HttpScheme c) = "HTTPS") then "https" else "http") +:+ "://" +:+ endpoint_String e.

(** There are endpoints, the current one (if chosen) is one of them, and the
    URL of [path] is well-formed on each. *)
Record usable {W} `{Net W} (path : string) (c : Client) : Prop := {
  usable_configured : Endpoints c <> [];
  usable_some : actualApiEndpoints c <> ∅;
  usable_current : currentEndpoint c = "" \/ is_Some (actualApiEndpoints c !! currentEndpoint c);
  usable_url k e : actualApiEndpoints c !! k = Some e ->
    validURL (base_url c e +:+ Path.Join ["/api/v2"; path]) = true
}.

Section Theorems.
Context {W : Type} `{NetLaws W} (path : string).
Abbreviation st := (ClientState W).
Abbreviation ok s := (usable path (client s)).
Local Open Scope go_scope.

(** [s'] is usable as well, with the same log and scheme. *)
Definition stays (s s' : st) : Prop :=
  ok s' /\ log s' = log s /\ HttpScheme (client s') = HttpScheme (client s).
Lemma stays_refl s : ok s -> stays s s.
Proof. unfold stays. auto. Qed.
Lemma stays_trans s1 s2 s3 : stays s1 s2 -> stays s2 s3 -> stays s1 s3.
Proof. intros (?&?&?) (?&?&?). unfold stays. split_and!; congruence. Qed.

(** [m] returns a value that satisfies [Q] and only leaves states like the
    one it starts in. *)
Definition quiet {A} (m : M st A) (Q : A -> st -> Prop) : Prop := forall s, ok s ->
  exists a s', m s = (Ok a, s') /\ stays s s' /\ Q a s'.

(** Run a quiet step of a longer computation. *)
Lemma run_quiet {A B} (m : M st A) (f : A -> M st B) Q s0 s (P : result B * st -> Prop) :
  quiet m Q -> stays s0 s ->
  (forall a s', stays s0 s' -> Q a s' -> P (f a s')) -> P (bind m f s).
Proof.
  intros Hm Hs Hf. destruct (Hm s (proj1 Hs)) as (a & s1 & E & Hs1 & HQ).
  rewrite (bind_Ok _ _ _ _ _ E). eauto using stays_trans.
Qed.

Lemma quiet_effect {A} (f : W -> A * W) : quiet (effect f (fun _ => [])) (fun _ _ => True).
Proof.
  intros [c w l] Hs. unfold effect. cbn. destruct (f w) as [a w'].
  eexists _, _. unfold stays. by split_and!.
Qed.

Lemma quiet_rotate : quiet rotateEndpoint
  (fun _ s => is_Some (actualApiEndpoints (client s) !! currentEndpoint (client s))).
Proof.
  intros [c w l] Hs. unfold rotateEndpoint. cbn in Hs.
  pose proof (usable_some _ _ Hs) as Hne.
  set (keys := (map_to_list (actualApiEndpoints c)).*1).
  assert (0 < length keys)%nat as Hlen.
  { destruct keys eqn:E; [|cbn; lia]. apply fmap_nil_inv, map_to_list_empty_iff in E. done. }
  pose proof (rand_range (Z.of_nat (length keys)) w ltac:(lia)) as Hr.
  unfold bind, gets, Int63n, effect, on_client, modify; cbn.
  rewrite decide_False by done. cbn. rewrite decide_False by done. fold keys.
  destruct (rand_Int63n (Z.of_nat (length keys)) w) as [i w'] eqn:Ei. cbn in *.
  destruct (keys !! Z.to_nat i) as [k|] eqn:Ek.
  2:{ apply lookup_ge_None in Ek. lia. }
  assert (is_Some (actualApiEndpoints c !! k)) as Hk.
  { apply list_elem_of_lookup_2, list_elem_of_fmap in Ek as ([k' e] & -> & Hke).
    apply elem_of_map_to_list in Hke. eauto. }
  rewrite Ei. cbn. rewrite Ek. eexists _, _. split; [done|].
  destruct Hs. unfold stays. split_and!; auto. constructor; auto.
Qed.

Lemma quiet_getEndpoint : quiet getEndpoint
  (fun e s => e = actualApiEndpoints (client s) !! currentEndpoint (client s) /\ is_Some e).
Proof.
  intros s Hs. unfold getEndpoint, bind at 1, gets at 1; cbn.
  case_decide as Hc.
  - destruct (quiet_rotate s Hs) as (a & s' & E & Hs' & HQ).
    rewrite (bind_Ok _ _ _ _ _ E). cbn. eexists _, _. eauto.
  - cbn. eexists _, _. split_and!; eauto using stays_refl.
    destruct (usable_current _ _ Hs); [done|auto].
Qed.

(** Counters do not change where the requests go. *)
Lemma quiet_on_endpoint f :
  (forall e, endpoint_String (f e) = endpoint_String e) ->
  quiet (on_endpoint f) (fun _ _ => True).
Proof.
  intros Hf [c w l] [H1 H2 H3 H4]. eexists _, _. split; [done|]. cbn in *.
  unfold stays. split_and!; auto. constructor; cbn; auto.
  - intros E. apply H2. apply map_empty. intros k.
    apply (f_equal (lookup k)) in E. rewrite lookup_alter, lookup_empty in E.
    case_decide; [subst; by apply fmap_None in E|done].
  - destruct H3 as [H3|H3]; [by left|right]. rewrite lookup_alter, decide_True by done.
    by apply fmap_is_Some.
  - intros k e E. rewrite lookup_alter in E. case_decide; [subst k|by apply (H4 k)].
    apply fmap_Some in E as (e' & E & ->). apply H4 in E.
    unfold base_url in *. cbn. by rewrite Hf.
Qed.

Lemma quiet_isLoggedIn : quiet isLoggedIn (fun _ _ => True).
Proof.
  intros s Hs. unfold isLoggedIn, bind at 1, gets. case_decide.
  - eexists _, _. eauto using stays_refl.
  - eapply run_quiet; [apply quiet_effect|by apply stays_refl|]. intros a s' Hs' _. eexists _, _. eauto.
Qed.

Lemma quiet_getUrl : quiet (getUrl path) (fun u _ => validURL u = true).
Proof.
  intros s Hs. unfold getUrl, getBaseUrl.
  destruct (quiet_getEndpoint s Hs) as (o & s1 & E & Hs1 & -> & [e He]).
  unfold bind, gets at 1. rewrite E, He. cbn. eexists _, _. split; [done|].
  split; [done|]. destruct Hs1 as (Hs1 & _ & Hsch).
  pose proof (usable_url _ _ Hs1 _ _ He) as Hu. unfold base_url in Hu. by rewrite Hsch in Hu.
Qed.

(** The log may grow by one exchange with outcome [o]. *)
Definition exchanged (s s' : st) (o : http_outcome) : Prop :=
  ok s' /\ exists req, log s' = DidHttp req o :: log s.

(** Run the next step, which is quiet; [Hst] relates the states so far. *)
Ltac quietly Hst HQ :=
  eapply run_quiet;
  [first [apply quiet_getUrl | apply quiet_isLoggedIn | apply quiet_getEndpoint
         | apply quiet_effect | apply quiet_on_endpoint; done]
  | eassumption
  | clear Hst; let a := fresh "a" in let s := fresh "s" in intros a s Hst HQ].

Lemma do_spec method payload query s : ok s ->
  exists o s', do_ method path payload query s = (Ok (do_result o), s') /\ exchanged s s' o.
Proof.
  intros Hs. unfold do_, bind at 1, gets at 1.
  rewrite decide_False by apply Hs.
  pose proof (stays_refl s Hs) as Hst.
  quietly Hst HQ. rewrite HQ. cbn [negb].
  quietly Hst HQ'. unfold bind at 1, gets at 1.
  quietly Hst HQ1. quietly Hst HQ2. quietly Hst HQ3.
  unfold bind at 1, Do, effect. set (req := MkHttpRequest _ _ _ _ _).
  destruct (http_Do req _) as [o w]. set (s5 := MkState _ _ _).
  assert (Hend : forall s6, stays s5 s6 -> exchanged s s6 o).
  { destruct Hst as (? & L0 & _). intros s6 (? & L & _). split; [done|].
    exists req. by rewrite L, <- L0. }
  assert (Hs5 : stays s5 s5) by (apply stays_refl, Hst).
  clearbody s5. clear Hst. exists o. destruct o as [| |status body].
  1,2: quietly Hs5 HQ4; eexists; split; [done|auto].
  quietly Hs5 HQ4. quietly Hs5 HQ5.
  eapply (run_quiet _ _ (fun _ _ => True)); [|eassumption|clear Hs5; intros ? ? Hs5 _].
  { case_goal; [|by apply quiet_on_endpoint]. intros s6' ?. eexists _, _. eauto using stays_refl. }
  destruct body as [| |data codes message].
  1,2: quietly Hs5 HQ6; eexists; split; [done|auto].
  quietly Hs5 HQ6. cbn [do_result]. destruct (classify _) as [[k e]|]; [quietly Hs5 HQ7|];
    (eexists; split; [done|auto]).
Qed.

(** What one attempt returns, in terms of the verdict on its exchange. *)
Definition agrees (o : http_outcome) (r : attempt_result) : Prop :=
  match r with
  | Nil d | NonTransient None d => verdict o = inr (Ok d)
  | NonTransient (Some e) _ => verdict o = inr (Err e)
  | Other (Some e) => verdict o = inl e
  | Other None => False
  end.

Lemma classify_ok r : classify r = None -> HttpStatusCode r <> 401.
Proof. unfold classify. intros H1 E. rewrite E in H1. by vm_compute in H1. Qed.

(** One attempt makes one exchange; the branch that would log in again is
    never taken, so the attempt does not depend on [Init]. *)
Lemma request_once_spec Init method payload query s : ok s ->
  exists o r s', request_once Init method path payload query s = (Ok r, s') /\
    exchanged s s' o /\ agrees o r.
Proof.
  intros Hs. destruct (do_spec method payload query s Hs) as (o & s1 & E & Hx).
  exists o. unfold request_once. rewrite (bind_Ok _ _ _ _ _ E).
  assert (Hrot : forall e, exists s', (rotateEndpoint ;; ret (Other (Some e))) s1 = (Ok (Other (Some e)), s')
    /\ exchanged s s' o).
  { intros e. destruct Hx as [Hok [req L]].
    eapply run_quiet; [apply quiet_rotate|by apply stays_refl|].
    intros _ s2 (Hok2 & L2 & _) _. exists s2. split; [done|]. split; [done|].
    exists req. by rewrite L2. }
  destruct o as [| |status [| |data codes message]]; cbn [do_result handleTransientErrors].
  1,2: destruct (Hrot transportError) as (s' & -> & ?); eexists _, s'; by split_and!.
  1,2: eexists _, _; by split_and!.
  set (r := MkResponse data codes message status).
  destruct (classify r) as [[k e]|] eqn:Ec; cbn.
  - assert (Hv : verdict (Reply status (Envelope data codes message)) =
      match e with transportError => inl transportError
                 | ApiNotAvailableError r => inl (ApiNotAvailableError r)
                 | e => inr (Err e) end).
    { unfold verdict. cbn. fold r. rewrite Ec. by destruct e. }
    destruct e; try (eexists _, _; split; [done|]; split; [done|]; exact Hv).
    all: edestruct Hrot as (s' & -> & ?); eexists _, s'; split; [done|]; split; [done|exact Hv].
  - assert (Hv : verdict (Reply status (Envelope data codes message)) =
      inr (Ok (if decide (codes = []) then Some data else None))).
    { unfold verdict. cbn. fold r. by rewrite Ec. }
    apply classify_ok in Ec. cbn in Ec. destruct (decide (codes = [])) as [->|Hc].
    + rewrite decide_False by auto. destruct (status =? 200).
      * eexists _, _. split; [done|]. by split.
      * replace (status =? 401) with false by (symmetry; by apply Z.eqb_neq).
        eexists _, _. split; [done|]. by split.
    + rewrite decide_True by done. eexists _, _. split; [done|]. by split.
Qed.

Local Ltac Zify.zify_post_hook ::= Z.to_euclidean_division_equations.

(** The most that [n] attempts sleep in total, starting from an interval [b]. *)
Fixpoint max_slept (n : nat) (b : Z) : Z :=
  match n with
  | S ((S _) as n') => let b' := (3 * b) `div` 2 in b' + max_slept n' b'
  | _ => 0
  end.

Lemma max_slept_nonneg n b : 0 <= b -> 0 <= max_slept n b.
Proof.
  revert b. induction n as [|n IH]; intros b Hb; cbn [max_slept]; [lia|].
  destruct n as [|n]; [lia|]. specialize (IH ((3 * b) `div` 2)). lia.
Qed.
Lemma max_slept_mono n b b' : 0 <= b <= b' -> max_slept n b <= max_slept n b'.
Proof.
  revert b b'. induction n as [|n IH]; intros b b' Hb; cbn [max_slept]; [lia|].
  destruct n as [|n]; [lia|].
  assert ((3 * b) `div` 2 <= (3 * b') `div` 2) by (apply Z.div_le_mono; lia).
  specialize (IH ((3 * b) `div` 2) ((3 * b') `div` 2)). lia.
Qed.

Lemma next_sleep b j : 0 < b < 2 ^ 61 -> 0 <= j < b ->
  let b' := wrap64 (b + j `quot` 2) in
  wrap64 (RetryBackoffExponentialFactor * b') = b' /\ b <= b' <= (3 * b) `div` 2.
Proof.
  intros Hb Hj. unfold RetryBackoffExponentialFactor. cbv zeta.
  assert (0 <= j `quot` 2 <= j /\ 2 * (j `quot` 2) <= j) as Hq by lia.
  rewrite (wrap64_id (b + _)) by (unfold in_int64; lia).
  rewrite Z.mul_1_l, wrap64_id by (unfold in_int64; lia).
  split; [done|]. split; [lia|]. apply Z.div_le_lower_bound; lia.
Qed.

Lemma retryBackoff_spec (f : M st attempt_result) n b s :
  (forall s, ok s -> exists o r s', f s = (Ok r, s') /\ exchanged s s' o /\ agrees o r) ->
  ok s -> (0 < n)%nat -> 0 < b -> b * 2 ^ Z.of_nat n < 2 ^ 61 ->
  exists r s' new, retryBackoff n b f s = (r, s') /\ ok s' /\ log s' = new ++ log s /\
    settles n (http_outcomes new) r /\ 0 <= slept new <= max_slept n b.
Proof.
  intros Hf. revert b s. induction n as [|n IH]; intros b s Hs Hn Hb Hmax; [lia|].
  pose proof (max_slept_nonneg (S n) b ltac:(lia)) as Hnn.
  destruct (Hf s Hs) as (o & r & s1 & E & (Hs1 & req & L1) & Ha).
  cbn [retryBackoff]. rewrite (bind_Ok _ _ _ _ _ E).
  assert (Hnow : forall res, verdict o = inr res ->
    exists r s' new, (res, s1) = (r, s') /\ ok s' /\ log s' = new ++ log s /\
      settles (S n) (http_outcomes new) r /\ 0 <= slept new <= max_slept (S n) b).
  { intros res Hv. exists res, s1, [DidHttp req o].
    split_and!; auto; [by apply settles_now|cbn [slept foldr]; lia..]. }
  destruct r as [d|[e|] d|[e|]]; cbn in Ha; [by apply Hnow| by apply Hnow| by apply Hnow| |done].
  destruct n as [|n].
  { exists (Err (ApiRetriesExceeded e 1)), s1, [DidHttp req o].
    split_and!; auto; [by apply settles_exceeded|cbn [slept foldr]; lia..]. }
  clear Hnow.
  assert (Hb61 : b < 2 ^ 61).
  { rewrite !Nat2Z.inj_succ, !Z.pow_succ_r in Hmax by lia.
    pose proof (Z.pow_pos_nonneg 2 (Z.of_nat n)). nia. }
  destruct s1 as [c1 w1 l1]. unfold bind at 1, Int63n, effect. cbn [world].
  pose proof (rand_range b w1 Hb) as Hj.
  destruct (rand_Int63n b w1) as [j w2]. cbn in Hj.
  destruct (next_sleep b j) as (Hw & Hb1 & Hb2); [lia..|]. rewrite Hw.
  set (b' := wrap64 (b + j `quot` 2)) in *.
  set (s2 := MkState c1 w2 (DidSleep b' :: l1)).
  change ((Sleep b' ;; retryBackoff (S n) b' f) _) with (retryBackoff (S n) b' f s2).
  destruct (IH b' s2) as (r & s3 & new & -> & Hs3 & L3 & Hset & Hsl1 & Hsl2); [done|lia..| |].
  { rewrite !Nat2Z.inj_succ, !Z.pow_succ_r in * by lia.
    pose proof (Z.pow_pos_nonneg 2 (Z.of_nat n)). nia. }
  exists r, s3, (new ++ [DidSleep b'; DidHttp req o]). cbn in L1. subst l1.
  assert (slept [DidSleep b'; DidHttp req o] = b') as Hsl by (cbn; lia).
  split_and!; auto.
  - by rewrite L3, <- app_assoc.
  - rewrite http_outcomes_app. by apply (settles_retry _ _ _ e).
  - rewrite slept_app. lia.
  - rewrite slept_app, Hsl.
    pose proof (max_slept_mono (S n) b' ((3 * b) `div` 2) ltac:(lia)) as Hm.
    change (max_slept (S (S n)) b) with ((3 * b) `div` 2 + max_slept (S n) ((3 * b) `div` 2)). lia.
Qed.

End Theorems.

(** A network whose first three exchanges fail in transport or with 503, and
    whose fourth is answered; the state counts the exchanges. *)
#[export] Instance flaky_net : Net nat := {
  http_Do _ n := ((match n with
                   | 0%nat => DoError
                   | 1%nat => Reply 503 (Envelope "" [] "busy")
                   | 2%nat => NoResponse
                   | _ => Reply 200 (Envelope "{}" [] "")
                   end)%Z, S n);
  time_Now n := (0, n);
  rand_Int63n n w := (n / 2, w);
  ParseIP _ := true;
  validURL _ := true
}.
#[export] Instance flaky_laws : NetLaws nat.
Proof. intros n w Hn. cbn. split; [apply Z.div_pos; lia|apply Z.div_lt; lia]. Qed.

Definition flaky_client : Client :=
  MkClient "https" ["10.0.0.1"] {["10.0.0.1" := new_endpoint "10.0.0.1" 14000 0]} "" "" 0 0 true.
Lemma flaky_usable path : usable path flaky_client.
Proof. split; [done..|by left|done]. Qed.


(** ** Authorization failures *)

Section Unauthorized.
Context {W : Type} `{Net W}.
Abbreviation st := (ClientState W).

Ltac open_run H :=
  repeat first
    [ progress (unfold ret, gets, throw, panic in H); simplify_eq
    | match type of H with
      | bind _ _ _ = _ => apply bind_inv in H as (? & ? & ? & H)
      | (if ?b then _ else _) _ = _ => destruct b eqn:?
      | (let _ := ?b in _) _ = _ => cbv zeta in H
      | (match ?o with _ => _ end) _ = _ => destruct o eqn:?
      end; simplify_eq ].

(** [do] returns no error only for the statuses that [classify] accepts. *)
Lemma do_no_error method path payload query (s : st) r s' :
  do_ method path payload query s = (Ok (Some r, None), s') -> HttpStatusCode r <> 401.
Proof. unfold do_. intros E. open_run E. by apply classify_ok. Qed.

(** [request] does not depend on the log-in procedure: the branch for
    status 401 that logs in again cannot be reached, since [do] has already
    turned that status into an error that ends the request. *)
Theorem request_ignores_Init Init1 Init2 method path payload query (s : st) :
  request Init1 method path payload query s = request Init2 method path payload query s.
Proof.
  assert (Honce : forall s : st, request_once Init1 method path payload query s =
                            request_once Init2 method path payload query s).
  { clear s. intros s. unfold request_once, bind at 1 4.
    destruct (do_ method path payload query s) as [[[[r|] [e|]]| |] s1] eqn:E; try done.
    cbn. case_decide; [done|]. apply do_no_error in E.
    by replace (HttpStatusCode r =? 401) with false by (symmetry; by apply Z.eqb_neq). }
  unfold request. generalize ApiRetryMaxCount (Second * ApiRetryIntervalSeconds).
  intros n. revert s. induction n as [|n IH]; intros s b; cbn [retryBackoff]; unfold bind;
    rewrite Honce; destruct (request_once Init2 method path payload query s) as [[[| |[e|]]| |] s1]; try done.
  destruct n as [|n]; [done|]. destruct (Int63n b s1) as [[j| |] s2]; try done.
  apply IH.
Qed.
End Unauthorized.

(** ** Endpoints *)

(** A client whose configured endpoints are all malformed panics on its first
    request: no endpoint is ever chosen and the nil one is dereferenced. *)
Lemma no_valid_endpoint_panics {W} `{Net W} c w l method path payload query :
  Endpoints c <> [] -> actualApiEndpoints c = ∅ -> currentEndpoint c = "" ->
  foldl (add_default_endpoint (fst (time_Now w))) ∅ (Endpoints c) = ∅ ->
  fst (do_ method path payload query (MkState c w l)) = Panic.
Proof.
  destruct c as [sch eps m cur tok d i q]. cbn [Endpoints actualApiEndpoints currentEndpoint].
  intros H1 -> -> H4. destruct (time_Now w) as [t w'] eqn:Et. cbn [fst] in H4.
  unfold do_, bind at 1, gets at 1. cbn [client Endpoints]. rewrite decide_False by done.
  unfold getUrl, getBaseUrl, getEndpoint, rotateEndpoint, resetDefaultEndpoints.
  unfold bind, gets, on_client, modify, now, effect. cbn.
  rewrite decide_True by done. cbn. rewrite decide_True by done. cbn. rewrite Et. cbn. rewrite H4. cbn.
  rewrite decide_True by done. cbn.
  by rewrite lookup_empty.
Qed.

(** An endpoint configured without a port is dropped by the first update that
    reports the same address and the default port: the new entry is filed
    under "ip:port" and then deleted as the inactive one. *)
Lemma update_drops_portless_endpoint :
  updated_endpoints 2 [MkNode ["10.0.0.1"] 14000 NodeModeBackend []]
    {["10.0.0.1" := new_endpoint "10.0.0.1" 14000 1]} = ∅ /\
  is_Some (updated_endpoints 2 [MkNode ["10.0.0.1"] 14000 NodeModeBackend []]
    {["10.0.0.1:14000" := new_endpoint "10.0.0.1" 14000 1]} !! "10.0.0.1:14000").
Proof. split; [vm_compute; reflexivity|eexists; vm_compute; reflexivity]. Qed.
