(* ===== verification/ApiObjects.v ===== *)
(** * Objects and requests of the cluster's REST API (pkg/wekafs/apiclient)

    The records of filesystem.go, snapshot.go, quota.go and kms.go with the
    fields the driver reads, the comparison and validation that utils.go does
    by reflection, the URLs of objects and requests, quota limits, and the
    feature switches of compatibility.go. *)
From S2P Require Import Prelude.
From S2P Require Import GoStrings.
From S2P Require Import Strconv.
From S2P Require Import Hashing.

(** ** UUIDs: 128-bit numbers; [uuid.Nil] is zero *)
Abbreviation uuid := Z (only parsing).
Definition uuid_Nil : uuid := 0.
Definition nibbles (u : uuid) (from n : nat) : string :=
  foldr (fun i s => String (digit hex_alphabet (Z.land (Z.shiftr u (4 * (31 - Z.of_nat i))) 15)) s) ""
    (seq from n).
Definition uuid_String (u : uuid) : string :=
  Join "-" [nibbles u 0 8; nibbles u 8 4; nibbles u 12 4; nibbles u 16 4; nibbles u 20 12].

Example uuid_String_ex :
  uuid_String 0x6ba7b8109dad11d180b400c04fd430c8 = "6ba7b810-9dad-11d1-80b4-00c04fd430c8".
Proof. reflexivity. Qed.

(** ** Reflection (utils.go)

    [FieldByName o f] is [reflect.Indirect(o).FieldByName(f)]: [None] is the
    zero [Value] of a field that does not exist. *)
Inductive value := VString (s : string) | VInt (z : Z) | VBool (b : bool) | VUuid (u : uuid)
| VStrings (l : option (list string)).
#[export] Instance value_eq_dec : EqDecision value.
Proof. solve_decision. Defined.
Definition IsZero (v : value) : bool :=
  match v with
  | VString s => bool_decide (s = "")
  | VInt z => z =? 0
  | VBool b => negb b
  | VUuid u => u =? 0
  | VStrings l => if l then false else true
  end.

Class ApiObject (A : Type) := {
  FieldByName : A -> string -> option value;
  getImmutableFields : list string
}.
Class ApiObjectRequest (A : Type) := {
  request_field : A -> string -> option value;
  getRequiredFields : list string
}.

(** [IsZero] of the zero [Value] panics. *)
Fixpoint fields_match {A} `{ApiObject A} (q o : A) (fields : list string) : result bool :=
  match fields with
  | [] => Ok true
  | f :: fs =>
      match FieldByName q f with
      | None => Panic
      | Some v =>
          if IsZero v then fields_match q o fs
          else match FieldByName o f with
               | None => Panic
               | Some v' => if bool_decide (v = v') then fields_match q o fs else Ok false
               end
      end
  end.
Definition ObjectsAreEqual {A} `{ApiObject A} (q o : A) : result bool :=
  fields_match q o (getImmutableFields (A:=A)).

Fixpoint missing_fields {A} `{ApiObjectRequest A} (r : A) (fields : list string) : result (list string) :=
  match fields with
  | [] => Ok []
  | f :: fs =>
      match request_field r f with
      | None => Panic
      | Some v => result_bind (missing_fields r fs) (fun l => Ok (if IsZero v then f :: l else l))
      end
  end.
Definition ObjectRequestHasRequiredFields {A} `{ApiObjectRequest A} (r : A) : result bool :=
  result_bind (missing_fields r (getRequiredFields (A:=A))) (fun l => Ok (bool_decide (l = []))).

(** ** filesystem.go *)

Record FileSystem := MkFS {
  fs_Id : string; fs_Name : string; fs_Uid : uuid; fs_IsRemoving : bool; fs_IsCreating : bool;
  fs_FreeTotal : Z; fs_IsEncrypted : bool; fs_IsReady : bool; fs_GroupName : string;
  fs_TotalCapacity : Z; fs_AvailableSsd : Z;
  fs_IsThinlyProvisioned : bool; fs_ThinProvisioningMinSsd : Z; fs_ThinProvisioningMaxSsd : Z;
  fs_KmsKeyIdentifier : string; fs_KmsNamespace : string; fs_KmsRole : string
}.
Definition fs_zero : FileSystem :=
  MkFS "" "" 0 false false 0 false false "" 0 0 false 0 0 "" "" "".
(** A query: [&FileSystem{Name: name}] *)
Definition fs_query (name : string) : FileSystem :=
  MkFS "" name 0 false false 0 false false "" 0 0 false 0 0 "" "" "".

#[export] Instance FileSystem_object : ApiObject FileSystem := {
  FieldByName o f :=
    if bool_decide (f = "Name") then Some (VString (fs_Name o))
    else if bool_decide (f = "TotalCapacity") then Some (VInt (fs_TotalCapacity o))
    else if bool_decide (f = "GroupName") then Some (VString (fs_GroupName o))
    else if bool_decide (f = "Id") then Some (VString (fs_Id o))
    else if bool_decide (f = "Uid") then Some (VUuid (fs_Uid o))
    else None;
  getImmutableFields := ["Name"; "TotalCapacity"; "GroupName"; "Id"]
}.

Definition fs_BasePath : string := "fileSystems".
Definition fs_ApiUrl (u : uuid) : string := Path.Join [fs_BasePath; uuid_String u].

Record EncryptionParams := MkEncryption {
  Encrypted : bool; AllowNoKms : bool;
  KmsVaultKeyIdentifier : string; KmsVaultNamespace : string;
  KmsVaultRoleId : string; KmsVaultSecretId : string
}.
Definition no_encryption : EncryptionParams := MkEncryption false false "" "" "" "".

Record FileSystemCreateRequest := MkFSCreate {
  fsc_Name : string; fsc_GroupName : string; fsc_TotalCapacity : Z;
  fsc_Encryption : EncryptionParams; fsc_HasPermissions : bool
}.
Definition NewFilesystemCreateRequest (name groupName : string) (totalCapacity : Z)
    (encryptionParams : EncryptionParams) (setSelfOwnership : bool) : FileSystemCreateRequest :=
  MkFSCreate name groupName totalCapacity encryptionParams setSelfOwnership.
#[export] Instance FileSystemCreateRequest_request : ApiObjectRequest FileSystemCreateRequest := {
  request_field r f :=
    if bool_decide (f = "Name") then Some (VString (fsc_Name r))
    else if bool_decide (f = "GroupName") then Some (VString (fsc_GroupName r))
    else if bool_decide (f = "TotalCapacity") then Some (VInt (fsc_TotalCapacity r))
    else None;
  getRequiredFields := ["Name"; "GroupName"; "TotalCapacity"]
}.

Record FileSystemResizeRequest := MkFSResize {
  fsu_Uid : uuid; fsu_TotalCapacity : option Z;
  fsu_ThinProvisionMinSsd : option Z; fsu_ThinProvisionMaxSsd : option Z
}.
Definition NewFileSystemResizeRequest (fsUid : uuid) (totalCapacity : option Z) : FileSystemResizeRequest :=
  MkFSResize fsUid totalCapacity None None.
#[export] Instance FileSystemResizeRequest_request : ApiObjectRequest FileSystemResizeRequest := {
  request_field r f := if bool_decide (f = "Uid") then Some (VUuid (fsu_Uid r)) else None;
  getRequiredFields := ["Uid"]
}.
(** The requests that only carry a [Uid]: deletion of filesystems, snapshots
    and NFS permissions, mount tokens. *)
Record UidRequest := MkUidRequest { req_Uid : uuid }.
#[export] Instance UidRequest_request : ApiObjectRequest UidRequest := {
  request_field r f := if bool_decide (f = "Uid") then Some (VUuid (req_Uid r)) else None;
  getRequiredFields := ["Uid"]
}.

Record FileSystemMountToken := MkToken { Token : string; token_FilesystemName : string }.

(** ** snapshot.go *)

Record WekaSnapshot := MkSnap {
  sn_IsWritable : bool; sn_FilesystemId : string; sn_Filesystem : string; sn_IsRemoving : bool;
  sn_Name : string; sn_Uid : uuid; sn_AccessPoint : string; sn_CreationTime : Z
}.
Definition sn_zero : WekaSnapshot := MkSnap false "" "" false "" 0 "" 0.
Definition sn_query (name : string) : WekaSnapshot := MkSnap false "" "" false name 0 "" 0.
#[export] Instance Snapshot_object : ApiObject WekaSnapshot := {
  FieldByName o f :=
    if bool_decide (f = "Name") then Some (VString (sn_Name o))
    else if bool_decide (f = "FilesystemId") then Some (VString (sn_FilesystemId o))
    else if bool_decide (f = "Filesystem") then Some (VString (sn_Filesystem o))
    else None;
  getImmutableFields := ["Name"; "FilesystemId"; "Filesystem"]
}.
Definition sn_BasePath : string := "snapshots".
Definition sn_ApiUrl (u : uuid) : string := Path.Join [sn_BasePath; uuid_String u].

Record SnapshotCreateRequest := MkSnapCreate {
  snapc_FsUid : uuid; snapc_Name : string; snapc_AccessPoint : string;
  snapc_SourceSnapUid : option uuid; snapc_IsWritable : bool
}.
Definition NewSnapshotCreateRequest (name accessPoint : string) (fsUid : uuid)
    (sourceSnapUid : option uuid) (isWritable : bool) : SnapshotCreateRequest :=
  MkSnapCreate fsUid name accessPoint sourceSnapUid isWritable.
#[export] Instance SnapshotCreateRequest_request : ApiObjectRequest SnapshotCreateRequest := {
  request_field r f :=
    if bool_decide (f = "Name") then Some (VString (snapc_Name r))
    else if bool_decide (f = "FsUid") then Some (VUuid (snapc_FsUid r))
    else None;
  getRequiredFields := ["Name"; "FsUid"]
}.

Record SnapshotUpdateRequest := MkSnapUpdate {
  snapu_Uid : uuid; snapu_NewName : string; snapu_AccessPoint : string; snapu_IsWritable : bool
}.
#[export] Instance SnapshotUpdateRequest_request : ApiObjectRequest SnapshotUpdateRequest := {
  request_field r f := if bool_decide (f = "Uid") then Some (VUuid (snapu_Uid r)) else None;
  getRequiredFields := ["Uid"]
}.
(** No operation sends it. *)
Record SnapshotRestoreRequest := MkSnapRestore { snapr_Uid : uuid; snapr_FsUid : uuid }.
Definition snapr_ApiUrl (r : SnapshotRestoreRequest) : string :=
  Path.Join [sn_BasePath; uuid_String (snapr_FsUid r); uuid_String (snapr_Uid r); "restore"].

(** ** quota.go *)

Inductive QuotaType := QuotaTypeHard | QuotaTypeSoft.
#[export] Instance QuotaType_eq_dec : EqDecision QuotaType.
Proof. solve_decision. Defined.
Definition QuotaTypeDefault : QuotaType := QuotaTypeHard.
Definition QuotaType_string (t : QuotaType) : string :=
  match t with QuotaTypeHard => "HARD" | QuotaTypeSoft => "SOFT" end.
Definition QuotaStatusActive : string := "ACTIVE".
Definition MaxQuotaSize : Z := 9223372036854775807.

Record Quota := MkQuota {
  q_FilesystemUid : uuid; q_InodeId : Z; q_TotalBytes : Z;
  q_HardLimitBytes : Z; q_SoftLimitBytes : Z; q_Status : string
}.
Definition quota_zero : Quota := MkQuota 0 0 0 0 0 "".
(** The names [getImmutableFields] lists are not those of the struct's fields. *)
#[export] Instance Quota_object : ApiObject Quota := {
  FieldByName o f :=
    if bool_decide (f = "FilesystemUid") then Some (VUuid (q_FilesystemUid o))
    else if bool_decide (f = "InodeId") then Some (VInt (q_InodeId o))
    else if bool_decide (f = "TotalBytes") then Some (VInt (q_TotalBytes o))
    else if bool_decide (f = "HardLimitBytes") then Some (VInt (q_HardLimitBytes o))
    else if bool_decide (f = "SoftLimitBytes") then Some (VInt (q_SoftLimitBytes o))
    else if bool_decide (f = "Status") then Some (VString (q_Status o))
    else None;
  getImmutableFields := ["filesystemUid"; "inodeId"]
}.
Definition quota_BasePath (fs : uuid) : string := Path.Join [fs_ApiUrl fs; "quota"].
Definition quota_ApiUrl (fs : uuid) (inode : Z) : string :=
  Path.Join [quota_BasePath fs; FormatUint inode].

Definition GetQuotaType (q : Quota) : QuotaType :=
  if q_HardLimitBytes q <=? q_SoftLimitBytes q then QuotaTypeHard else QuotaTypeSoft.
Definition GetCapacityLimit (q : Quota) : Z :=
  if decide (GetQuotaType q = QuotaTypeHard) then q_HardLimitBytes q else q_SoftLimitBytes q.

Record QuotaCreateRequest := MkQuotaCreate {
  qc_filesystemUid : uuid; qc_inodeId : Z; qc_HardLimitBytes : Z; qc_SoftLimitBytes : Z;
  qc_quotaType : QuotaType; qc_capacityLimit : Z; qc_GraceSeconds : Z
}.
Definition NewQuotaCreateRequest (fs : FileSystem) (inodeId : Z) (quotaType : QuotaType)
    (capacityLimit : Z) : QuotaCreateRequest :=
  let '(hard, soft) := match quotaType with
    | QuotaTypeHard => (capacityLimit, capacityLimit)
    | QuotaTypeSoft => (MaxQuotaSize, capacityLimit)
    end in
  MkQuotaCreate (fs_Uid fs) inodeId hard soft quotaType capacityLimit 0.
#[export] Instance QuotaCreateRequest_request : ApiObjectRequest QuotaCreateRequest := {
  request_field r f :=
    if bool_decide (f = "inodeId") then Some (VInt (qc_inodeId r))
    else if bool_decide (f = "filesystemUid") then Some (VUuid (qc_filesystemUid r))
    else if bool_decide (f = "quotaType") then Some (VString (QuotaType_string (qc_quotaType r)))
    else if bool_decide (f = "capacityLimit") then Some (VInt (qc_capacityLimit r))
    else None;
  getRequiredFields := ["inodeId"; "filesystemUid"; "quotaType"; "capacityLimit"]
}.
Record QuotaUpdateRequest := MkQuotaUpdate {
  qu_filesystemUid : uuid; qu_inodeId : Z; qu_HardLimitBytes : Z; qu_SoftLimitBytes : Z;
  qu_quotaType : QuotaType; qu_capacityLimit : Z; qu_GraceSeconds : Z
}.
Definition NewQuotaUpdateRequest (fs : FileSystem) (inodeId : Z) (quotaType : QuotaType)
    (capacityLimit : Z) : QuotaUpdateRequest :=
  let '(hard, soft) := match quotaType with
    | QuotaTypeHard => (capacityLimit, capacityLimit)
    | QuotaTypeSoft => (MaxQuotaSize, capacityLimit)
    end in
  MkQuotaUpdate (fs_Uid fs) inodeId hard soft quotaType capacityLimit 0.
(** The required field "inodeId" is called [InodeId] in the struct. *)
Record QuotaDeleteRequest := MkQuotaDelete { qd_filesystemUid : uuid; qd_InodeId : Z }.
Definition NewQuotaDeleteRequest (fs : FileSystem) (inodeId : Z) : QuotaDeleteRequest :=
  MkQuotaDelete (fs_Uid fs) inodeId.
#[export] Instance QuotaDeleteRequest_request : ApiObjectRequest QuotaDeleteRequest := {
  request_field r f :=
    if bool_decide (f = "filesystemUid") then Some (VUuid (qd_filesystemUid r))
    else if bool_decide (f = "InodeId") then Some (VInt (qd_InodeId r))
    else None;
  getRequiredFields := ["filesystemUid"; "inodeId"]
}.

(** ** kms.go *)
Inductive KmsType := KmsTypeLocal | KmsTypeHashicorpVault | KmsTypeKMIP | KmsTypeOther (s : string).
Inductive KmsAuthMethod := KmsAuthMethodToken | KmsAuthMethodAppRole | KmsAuthMethodOther (s : string).
Record Kms := MkKms { kms_Type : KmsType; kms_AuthMethod : KmsAuthMethod }.
Definition IsHashicorpVault (k : Kms) : bool :=
  match kms_Type k with KmsTypeHashicorpVault => true | _ => false end.
Definition IsKMIP (k : Kms) : bool := match kms_Type k with KmsTypeKMIP => true | _ => false end.
Definition IsSupportedForEncryptionKeyPerFilesystem (k : Kms) : bool :=
  IsHashicorpVault k && match kms_AuthMethod k with KmsAuthMethodAppRole => true | _ => false end.
Definition IsSupportedForCommonEncryptionKey (k : Kms) : bool := IsHashicorpVault k || IsKMIP k.

(** * Theorems *)

(** The quota the cluster keeps for a request: the limits that were sent. *)
Definition quota_of_request (r : QuotaCreateRequest) (status : string) : Quota :=
  MkQuota (qc_filesystemUid r) (qc_inodeId r) 0 (qc_HardLimitBytes r) (qc_SoftLimitBytes r) status.

(** Reading back the quota that was requested gives the requested
    capacity, and the requested type whenever the two types differ on the
    wire (a soft quota of [MaxQuotaSize] is sent as a hard one). *)
Theorem quota_limit_roundtrip fs inode t capacity status :
  0 <= capacity <= MaxQuotaSize ->
  let q := quota_of_request (NewQuotaCreateRequest fs inode t capacity) status in
  GetCapacityLimit q = capacity /\
  (t = QuotaTypeHard \/ capacity < MaxQuotaSize -> GetQuotaType q = t).
Proof.
  intros Hc. unfold quota_of_request, NewQuotaCreateRequest, GetCapacityLimit, GetQuotaType.
  destruct t; cbn; bcase; intuition (try congruence; try lia).
Qed.

Lemma quota_limit_roundtrip_witness :
  let q := quota_of_request (NewQuotaCreateRequest fs_zero 7 QuotaTypeSoft 1000000) "ACTIVE" in
  GetCapacityLimit q = 1000000 /\ GetQuotaType q = QuotaTypeSoft.
Proof.
  destruct (quota_limit_roundtrip fs_zero 7 QuotaTypeSoft 1000000 "ACTIVE") as [H1 H2].
  - unfold MaxQuotaSize. lia.
  - split; [exact H1|apply H2; right; unfold MaxQuotaSize; lia].
Defined.

(** Two objects agree on the fields that the query sets. *)
Definition agrees_on {A} `{ApiObject A} (q o : A) (fields : list string) : Prop :=
  Forall (fun f => forall v, FieldByName q f = Some v -> IsZero v = false -> FieldByName o f = Some v) fields.

Lemma fields_match_spec {A} `{ApiObject A} (q o : A) fields :
  Forall (fun f => is_Some (FieldByName q f) /\ is_Some (FieldByName o f)) fields ->
  exists b, fields_match q o fields = Ok b /\ (b = true <-> agrees_on q o fields).
Proof.
  unfold agrees_on.
  induction 1 as [|f fs [[v Hv] [v' Hv']] _ (b & IH & Hb)]; cbn [fields_match]; [by exists true|].
  rewrite Hv, Hv'. destruct (IsZero v) eqn:Hz; [|case_bool_decide as E];
    [exists b|exists b|exists false]; rewrite Forall_cons; split; auto;
    (split; [intros; try (split; [|by apply Hb])|]); naive_solver congruence.
Qed.

Lemma field_set {A} `{ApiObject A} (q o : A) f (vq vo : value) :
  FieldByName q f = Some vq -> FieldByName o f = Some vo ->
  (forall v, FieldByName q f = Some v -> IsZero v = false -> FieldByName o f = Some v) <->
  IsZero vq = true \/ vo = vq.
Proof.
  intros Hq Ho. rewrite Hq, Ho. split.
  - intros Hv. destruct (IsZero vq) eqn:Hz; [by left|]. right. specialize (Hv _ eq_refl Hz). congruence.
  - intros [Hz| ->] v [= <-]; [congruence|done].
Qed.
Lemma string_set (a b : string) : IsZero (VString a) = true \/ VString b = VString a <-> a = "" \/ b = a.
Proof. cbn. rewrite bool_decide_eq_true. naive_solver. Qed.
Lemma int_set (a b : Z) : IsZero (VInt a) = true \/ VInt b = VInt a <-> a = 0 \/ b = a.
Proof. cbn. rewrite Z.eqb_eq. naive_solver. Qed.

(** Filtering filesystems by a query never panics, and keeps exactly
    the ones that have the query's name, capacity, group and id where the
    query sets them. *)
Theorem filesystem_EQ_spec (q o : FileSystem) :
  exists b, ObjectsAreEqual q o = Ok b /\
    (b = true <->
      (fs_Name q = "" \/ fs_Name o = fs_Name q) /\
      (fs_TotalCapacity q = 0 \/ fs_TotalCapacity o = fs_TotalCapacity q) /\
      (fs_GroupName q = "" \/ fs_GroupName o = fs_GroupName q) /\
      (fs_Id q = "" \/ fs_Id o = fs_Id q)).
Proof.
  destruct (fields_match_spec q o (getImmutableFields (A:=FileSystem))) as (b & E & Hb).
  { cbn. rewrite !Forall_cons. split_and!; first [apply Forall_nil_2 | vm_compute; eauto]. }
  exists b. split; [exact E|]. rewrite Hb. unfold agrees_on. cbn [getImmutableFields FileSystem_object].
  rewrite !Forall_cons, Forall_nil.
  pose proof (field_set q o "Name" (VString (fs_Name q)) (VString (fs_Name o)) eq_refl eq_refl) as H1.
  pose proof (field_set q o "TotalCapacity" (VInt (fs_TotalCapacity q)) (VInt (fs_TotalCapacity o))
    eq_refl eq_refl) as H2.
  pose proof (field_set q o "GroupName" (VString (fs_GroupName q)) (VString (fs_GroupName o))
    eq_refl eq_refl) as H3.
  pose proof (field_set q o "Id" (VString (fs_Id q)) (VString (fs_Id o)) eq_refl eq_refl) as H4.
  rewrite string_set in H1, H3, H4. rewrite int_set in H2.
  rewrite H1, H2, H3, H4. naive_solver.
Qed.

(** The names are in the query only; the other fields are zero. *)
Lemma fs_query_EQ name o :
  name <> "" -> ObjectsAreEqual (fs_query name) o = Ok (bool_decide (fs_Name o = name)).
Proof.
  intros Hn.
  change (ObjectsAreEqual (fs_query name) o) with
    (if bool_decide (name = "") then Ok true
     else if bool_decide (VString name = VString (fs_Name o)) then Ok true else Ok false).
  repeat case_bool_decide; naive_solver.
Qed.
Lemma sn_query_EQ name o :
  name <> "" -> ObjectsAreEqual (sn_query name) o = Ok (bool_decide (sn_Name o = name)).
Proof.
  intros Hn.
  change (ObjectsAreEqual (sn_query name) o) with
    (if bool_decide (name = "") then Ok true
     else if bool_decide (VString name = VString (sn_Name o)) then Ok true else Ok false).
  repeat case_bool_decide; naive_solver.
Qed.

(** Comparing quotas, and deleting one, panics: the listed field names are not
    those of the structs. *)
Lemma quota_EQ_panics (q o : Quota) : ObjectsAreEqual q o = Panic.
Proof. done. Qed.
Lemma quota_delete_panics (r : QuotaDeleteRequest) : ObjectRequestHasRequiredFields r = Panic.
Proof. done. Qed.

Lemma uid_request_ok u : u <> 0 -> ObjectRequestHasRequiredFields (MkUidRequest u) = Ok true.
Proof.
  intros H. apply Z.eqb_neq in H.
  change (ObjectRequestHasRequiredFields (MkUidRequest u)) with
    (Ok (bool_decide ((if u =? 0 then ["Uid"] else []) = []))).
  by rewrite H.
Qed.
