(* ===== verification/ClusterObjects.v ===== *)
(** * Objects of the cluster the mounters need (cluster.go, interfacegroup.go, nfs.go)

    Containers, interface groups, NFS permissions, client groups and their
    rules, with the fields the driver reads or sends, and what the comparison
    and validation by reflection see of them.  A Go slice is an [option]
    (nil or not) where the difference from an empty one is observable. *)
From S2P Require Import Prelude.
From S2P Require Import GoStrings.
From S2P Require Import ApiObjects.

(** ** cluster.go *)

(** [Container]: the fields [filterFrontendContainers] and its callers read. *)
Record Container := MkContainer {
  c_Id : string; c_Mode : string; c_ContainerName : string; c_Hostname : string;
  c_State : string; c_Status : string; c_FrontendDedicatedCores : Z; c_ContainerIp : string
}.

Record ProcFsContainer := MkProcFsContainer {
  pc_ContainerName : string; pc_Pid : Z; pc_ContainerId : Z; pc_Connected : bool
}.

(** ** interfacegroup.go *)

Inductive InterfaceGroupType := InterfaceGroupTypeNFS | InterfaceGroupTypeSMB | InterfaceGroupTypeOther.
#[export] Instance InterfaceGroupType_eq_dec : EqDecision InterfaceGroupType.
Proof. solve_decision. Defined.
Record InterfaceGroup := MkInterfaceGroup {
  ig_SubnetMask : string; ig_Name : string; ig_Uid : Z; ig_Ips : list string;
  ig_Type : InterfaceGroupType; ig_Gateway : string; ig_Status : string
}.

(** ** nfs.go *)

Definition NfsPermissionTypeReadWrite : string := "RW".
Definition NfsPermissionSquashModeNone : string := "none".
Definition NfsClientGroupRuleTypeDNS : string := "DNS".
Definition NfsClientGroupRuleTypeIP : string := "IP".
Definition NfsVersionV3 : string := "V3".
Definition NfsVersionV4 : string := "V4".
Definition NfsClientGroupName_default : string := "WekaCSIPluginClients".

Record NfsPermission := MkNfsPermission {
  np_SupportedVersions : option (list string); np_AnonUid : string; np_AnonGid : string;
  np_Filesystem : string; np_Uid : Z; np_Group : string; np_PermissionType : string;
  np_Path : string; np_SquashMode : string; np_RootSquashing : bool
}.
#[export] Instance NfsPermission_object : ApiObject NfsPermission := {
  FieldByName o f :=
    if bool_decide (f = "Group") then Some (VString (np_Group o))
    else if bool_decide (f = "Filesystem") then Some (VString (np_Filesystem o))
    else if bool_decide (f = "SupportedVersions") then Some (VStrings (np_SupportedVersions o))
    else if bool_decide (f = "PermissionType") then Some (VString (np_PermissionType o))
    else if bool_decide (f = "Path") then Some (VString (np_Path o))
    else if bool_decide (f = "SquashMode") then Some (VString (np_SquashMode o))
    else None;
  getImmutableFields := ["Group"; "Filesystem"; "SupportedVersions"; "PermissionType"; "Path"; "SquashMode"]
}.

Record NfsPermissionCreateRequest := MkNfsPermissionCreate {
  npc_Filesystem : string; npc_Group : string; npc_Path : string; npc_PermissionType : string;
  npc_SquashMode : string; npc_AnonUid : Z; npc_AnonGid : Z; npc_SupportedVersions : option (list string)
}.
#[export] Instance NfsPermissionCreateRequest_request : ApiObjectRequest NfsPermissionCreateRequest := {
  request_field r f :=
    if bool_decide (f = "Filesystem") then Some (VString (npc_Filesystem r))
    else if bool_decide (f = "Group") then Some (VString (npc_Group r))
    else if bool_decide (f = "Path") then Some (VString (npc_Path r))
    else if bool_decide (f = "PermissionType") then Some (VString (npc_PermissionType r))
    else if bool_decide (f = "SquashMode") then Some (VString (npc_SquashMode r))
    else if bool_decide (f = "SupportedVersions") then Some (VStrings (npc_SupportedVersions r))
    else None;
  getRequiredFields := ["Filesystem"; "Group"; "Path"; "PermissionType"; "SquashMode"; "SupportedVersions"]
}.

Record NfsClientGroupRule := MkNfsRule {
  nr_NfsClientGroupUid : Z; nr_Type : string; nr_Uid : Z; nr_Rule : string; nr_Id : string
}.
#[export] Instance NfsClientGroupRule_object : ApiObject NfsClientGroupRule := {
  FieldByName o f := if bool_decide (f = "Rule") then Some (VString (nr_Rule o)) else None;
  getImmutableFields := ["Rule"]
}.

Record NfsClientGroup := MkNfsClientGroup {
  ng_Uid : Z; ng_Rules : list NfsClientGroupRule; ng_Id : string; ng_Name : string
}.
Definition ng_zero : NfsClientGroup := MkNfsClientGroup 0 [] "" "".
#[export] Instance NfsClientGroup_object : ApiObject NfsClientGroup := {
  FieldByName o f := if bool_decide (f = "Name") then Some (VString (ng_Name o)) else None;
  getImmutableFields := ["Name"]
}.

Record NfsClientGroupCreateRequest := MkNfsClientGroupCreate { ngc_Name : string }.
Definition NewNfsClientGroupCreateRequest (name : string) : NfsClientGroupCreateRequest :=
  MkNfsClientGroupCreate name.
#[export] Instance NfsClientGroupCreateRequest_request : ApiObjectRequest NfsClientGroupCreateRequest := {
  request_field r f := if bool_decide (f = "Name") then Some (VString (ngc_Name r)) else None;
  getRequiredFields := ["Name"]
}.

Record NfsClientGroupRuleCreateRequest := MkNfsRuleCreate {
  nrc_NfsClientGroupUid : Z; nrc_Type : string; nrc_Hostname : string; nrc_Ip : string
}.
#[export] Instance NfsClientGroupRuleCreateRequest_request : ApiObjectRequest NfsClientGroupRuleCreateRequest := {
  request_field r f := if bool_decide (f = "Type") then Some (VString (nrc_Type r)) else None;
  getRequiredFields := ["Type"]
}.
