(* ===== verification/Compatibility.v ===== *)
(** * Feature switches by cluster version (apiclient/compatibility.go)

    Versions are parsed and compared by hashicorp/go-version, which is a
    parameter, [GoVersion]. *)
From S2P Require Import Prelude.
From S2P Require Import GoStrings.
From S2P Require Import Strconv.

(** ** The version library *)
Class GoVersion := {
  version : Type;
  NewVersion : string -> option version;
  GreaterThanOrEqual : version -> version -> bool
}.

Record WekaCompatibilityMap := MkCompat {
  FilesystemAsCSIVolume : bool; DirectoryAsCSIVolume : bool; QuotaOnDirectoryVolume : bool;
  QuotaOnSnapshot : bool; MountFilesystemsUsingAuthToken : bool;
  CreateNewFilesystemFromSnapshot : bool; CloneFilesystem : bool; compat_UrlQueryParams : bool;
  SyncOnCloseMountOption : bool; SingleClientMultipleClusters : bool; NewNodeApiObjectPath : bool;
  EncryptionWithNoKms : bool; EncryptionWithClusterKey : bool; EncryptionWithCustomSettings : bool;
  ResolvePathToInode_ : bool; ResolvePathToInodeCsiRole : bool; SetSelfAsFilesystemOwnerOnCreate : bool
}.
Definition compat_zero : WekaCompatibilityMap :=
  MkCompat false false false false false false false false false false false false false false false false false.

(** The features and the version each one needs ([MinimumSupportedWekaVersions]). *)
Definition requirements : list ((WekaCompatibilityMap -> bool) * string) :=
  [ (DirectoryAsCSIVolume, "v3.0"); (FilesystemAsCSIVolume, "v3.13");
    (QuotaOnDirectoryVolume, "v3.13"); (QuotaOnSnapshot, "v4.2");
    (MountFilesystemsUsingAuthToken, "v3.14"); (CreateNewFilesystemFromSnapshot, "v9.99");
    (CloneFilesystem, "v9.99"); (compat_UrlQueryParams, "v4.0"); (SyncOnCloseMountOption, "v4.2");
    (SingleClientMultipleClusters, "v4.2"); (NewNodeApiObjectPath, "v4.2");
    (EncryptionWithNoKms, "v4.0"); (EncryptionWithClusterKey, "v4.0");
    (EncryptionWithCustomSettings, "v4.4.1"); (ResolvePathToInode_, "v4.3");
    (ResolvePathToInodeCsiRole, "v4.4.7"); (SetSelfAsFilesystemOwnerOnCreate, "v5.1") ].

Section Compat.
Context `{GoVersion}.

(** [v.GreaterThanOrEqual] of the parsed constant; comparing with the nil
    version of a failed parse would panic, which [None] stands for. *)
Definition at_least (v : version) (min : string) : result bool :=
  match NewVersion min with Some m => Ok (GreaterThanOrEqual v m) | None => Panic end.

Local Open Scope result_scope.
Definition fillIn (versionStr : string) : result WekaCompatibilityMap :=
  match NewVersion versionStr with
  | None =>
      Ok (MkCompat false true false false false false false false false false false false false
            false false false false)
  | Some v =>
      let? d := at_least v "v3.0" in
      let? f := at_least v "v3.13" in
      let? q := at_least v "v3.13" in
      let? a := at_least v "v3.14" in
      let? s := at_least v "v9.99" in
      let? c := at_least v "v9.99" in
      let? qs := at_least v "v4.2" in
      let? u := at_least v "v4.0" in
      let? sc := at_least v "v4.2" in
      let? mc := at_least v "v4.2" in
      let? nn := at_least v "v4.2" in
      let? en := at_least v "v4.0" in
      let? ec := at_least v "v4.0" in
      let? ecc := at_least v "v4.4.1" in
      let? rp := at_least v "v4.3" in
      let? rpc := at_least v "v4.4.7" in
      let? sfo := at_least v "v5.1" in
      Ok (MkCompat f d q qs a s c u sc mc nn en ec ecc rp rpc sfo)
  end.
End Compat.

(** ** The client's view of the switches *)
Inductive ApiUserRole :=
| RoleNone | ApiUserRoleClusterAdmin | ApiUserRoleOrgAdmin | ApiUserRoleReadOnly | ApiUserRoleCSI
| ApiUserRoleS3 | ApiUserRoleRegular.
#[export] Instance ApiUserRole_eq_dec : EqDecision ApiUserRole.
Proof. solve_decision. Defined.

Record KmsVaultCredentials := MkKmsCreds {
  KeyIdentifier : string; Namespace : string; RoleId : string; SecretId : string
}.
(** What volumes use of [ApiClient]. *)
Record ApiClient := MkApi {
  CompatibilityMap : WekaCompatibilityMap;
  ApiUserRole_ : ApiUserRole;
  ApiOrgId : Z;
  Organization : string;                 (* Credentials.Organization *)
  KmsPreexistingCredentials : KmsVaultCredentials
}.

Definition SupportsQuotaDirectoryAsVolume (a : ApiClient) := QuotaOnDirectoryVolume (CompatibilityMap a).
Definition SupportsQuotaOnSnapshots (a : ApiClient) := QuotaOnSnapshot (CompatibilityMap a).
Definition SupportsFilesystemAsVolume (a : ApiClient) := FilesystemAsCSIVolume (CompatibilityMap a).
Definition SupportsAuthenticatedMounts (a : ApiClient) := MountFilesystemsUsingAuthToken (CompatibilityMap a).
Definition SupportsSyncOnCloseMountOption (a : ApiClient) := SyncOnCloseMountOption (CompatibilityMap a).
Definition SupportsEncryptionWithCommonKey (a : ApiClient) := EncryptionWithClusterKey (CompatibilityMap a).
Definition SupportsCustomEncryptionSettings (a : ApiClient) := EncryptionWithCustomSettings (CompatibilityMap a).
Definition SupportsSettingSelfAsFilesystemOwner (a : ApiClient) := SetSelfAsFilesystemOwnerOnCreate (CompatibilityMap a).
Definition SupportsResolvePathToInode (a : ApiClient) : bool :=
  if negb (ResolvePathToInode_ (CompatibilityMap a)) then false
  else match ApiUserRole_ a with
       | RoleNone => false
       | ApiUserRoleCSI => ResolvePathToInodeCsiRole (CompatibilityMap a)
       | _ => true
       end.
Definition HasCSIPermissions (a : ApiClient) : bool :=
  match ApiUserRole_ a with
  | ApiUserRoleCSI | ApiUserRoleClusterAdmin | ApiUserRoleOrgAdmin => true
  | _ => false
  end.

(** * Theorems *)

Section Laws.
Context `{GoVersion}.
(** The constants of the driver are well-formed versions. *)
Hypothesis constants_parse : Forall (fun r => is_Some (NewVersion (snd r))) requirements.

Lemma at_least_parsed v min : In min (requirements.*2) ->
  exists m, NewVersion min = Some m /\ at_least v min = Ok (GreaterThanOrEqual v m).
Proof.
  intros Hin. rewrite Forall_forall in constants_parse.
  apply list_elem_of_In, list_elem_of_fmap in Hin as (r & -> & Hr).
  destruct (constants_parse r Hr) as [m Hm]. exists m. unfold at_least. by rewrite Hm.
Qed.

(** Each feature is switched on exactly when the cluster's version is
    at least the one the feature requires. *)
Theorem fillIn_requirements versionStr v :
  NewVersion versionStr = Some v ->
  exists cm, fillIn versionStr = Ok cm /\
    Forall (fun '(feature, min) => at_least v min = Ok (feature cm)) requirements.
Proof.
  intros Hv. unfold fillIn. rewrite Hv.
  assert (Hp : forall min, In min (requirements.*2) -> exists b, at_least v min = Ok b).
  { intros min Hin. destruct (at_least_parsed v min Hin) as (m & _ & ->). eauto. }
  repeat match goal with
  | |- context [result_bind (at_least v ?min) _] =>
      let b := fresh "b" in let E := fresh "E" in
      destruct (Hp min) as [b E]; [cbn; tauto|]; rewrite E; cbn [result_bind]
  end.
  eexists. split; [done|]. unfold requirements. repeat constructor; cbn; congruence.
Qed.
End Laws.

(** Dotted numeric versions, compared segment by segment: one library that
    satisfies the hypothesis. *)
Fixpoint segments (l : list string) : option (list Z) :=
  match l with
  | [] => Some []
  | w :: ws => match ParseUint w 10 63, segments ws with Ok n, Some ns => Some (n :: ns) | _, _ => None end
  end.
Fixpoint ge_segments (l1 l2 : list Z) : bool :=
  match l1, l2 with
  | _, [] => true
  | [], m :: ms => (m =? 0) && ge_segments [] ms
  | n :: ns, m :: ms => if n =? m then ge_segments ns ms else m <? n
  end.
Definition dotted : GoVersion := {|
  version := list Z;
  NewVersion s := segments (Split "." (TrimPrefix s "v"));
  GreaterThanOrEqual := ge_segments
|}.

Lemma fillIn_requirements_witness :
  exists cm, @fillIn dotted "v4.4.2" = Ok cm /\
    QuotaOnSnapshot cm = true /\ EncryptionWithCustomSettings cm = true /\
    ResolvePathToInodeCsiRole cm = false.
Proof.
  destruct (@fillIn_requirements dotted) with (versionStr := "v4.4.2") (v := [4; 4; 2])
    as (cm & E & H).
  - repeat constructor; eexists; vm_compute; reflexivity.
  - vm_compute. reflexivity.
  - exists cm. split; [exact E|]. unfold requirements in H. rewrite !Forall_cons in H.
    destruct H as (_ & _ & _ & H4 & _ & _ & _ & _ & _ & _ & _ & _ & _ & H14 & _ & H16 & _).
    injection H4 as H4. injection H14 as H14. injection H16 as H16.
    rewrite <- H4, <- H14, <- H16. vm_compute. repeat split.
Defined.

(** A version that cannot be parsed leaves only plain directories. *)
Lemma fillIn_unparsed `{GoVersion} versionStr cm :
  NewVersion versionStr = None -> fillIn versionStr = Ok cm ->
  Forall (fun '(feature, min) => feature cm = bool_decide (min = "v3.0")) requirements.
Proof. intros Hv. unfold fillIn. rewrite Hv. intros [= <-]. repeat constructor. Qed.
