(* ===== verification/Credentials.v ===== *)
(** * Credentials of an API client (wekafs.go, apiclient/credentials.go, apiclient.go)

    How the secret of a request becomes the credentials of a client, and the
    hash by which the store of clients knows them. *)
From S2P Require Import Prelude.
From S2P Require Import GoStrings.
From S2P Require Import Hashing.
From S2P Require Import Compatibility.

Definition newline : ascii := "010".
Definition nl : string := String newline "".

(** Only the credentials used as they are can come from a secret; those for the
    management of keys and the URL of either are never set. *)
Record Credentials := MkCredentials {
  cr_Username : string;
  cr_Password : string;
  cr_Organization : string;
  cr_HttpScheme : string;
  cr_Endpoints : list string;
  cr_LocalContainerName : string;
  cr_AutoUpdateEndpoints : bool;
  cr_CaCertificate : string;
  cr_NfsTargetIPs : list string;
  cr_Kms : KmsVaultCredentials
}.
#[export] Instance KmsVaultCredentials_eq_dec : EqDecision KmsVaultCredentials.
Proof. solve_decision. Defined.
#[export] Instance Credentials_eq_dec : EqDecision Credentials.
Proof. solve_decision. Defined.

(** ** From a secret *)

Definition trim_value (s : string) : string := TrimSpace (TrimSuffix s nl).
Fixpoint commas_for_newlines (s : string) : string :=
  match s with
  | "" => ""
  | String c s' => String (if bool_decide (c = newline) then "," else c) (commas_for_newlines s')
  end.
(** A list that is separated by commas or newlines, before it is split. *)
Definition raw_list (s : string) : string := TrimSpace (commas_for_newlines (TrimSuffix s nl)).
Definition list_items (raw : string) : list string := trim_value <$> Split "," raw.

(** The credentials [fromSecrets] makes of a secret. *)
Definition credentials_of (secrets : gmap string string) : error + Credentials :=
  let secret k := default "" (secrets !! k) in
  let endpointsRaw := raw_list (secret "endpoints") in
  if bool_decide (endpointsRaw = "")
  then inl (EPlain "no valid endpoints defined in secret, cannot create API client")
  else
    let nfsTargetIpsRaw := raw_list (secret "nfsTargetIps") in
    inr {|
      cr_Username := trim_value (secret "username");
      cr_Password := TrimSuffix (secret "password") nl;
      cr_Organization := trim_value (secret "organization");
      cr_HttpScheme := trim_value (secret "scheme");
      cr_Endpoints := list_items endpointsRaw;
      cr_LocalContainerName := trim_value (secret "localContainerName");
      cr_AutoUpdateEndpoints := bool_decide (trim_value (secret "autoUpdateEndpoints") = "true");
      cr_CaCertificate := secret "caCertificate";
      cr_NfsTargetIPs := if bool_decide (nfsTargetIpsRaw = "") then [] else list_items nfsTargetIpsRaw;
      cr_Kms := {|
        KeyIdentifier := trim_value (secret "kmsVaultKeyIdentifierForFilesystemEncryption");
        Namespace := trim_value (secret "kmsVaultNamespaceForFilesystemEncryption");
        RoleId := trim_value (secret "kmsVaultRoleIdForFilesystemEncryption");
        SecretId := trim_value (secret "kmsVaultSecretIdForFilesystemEncryption") |} |}.

(** ** The hash *)

Definition InsecureString (k : KmsVaultCredentials) : string :=
  "KmsVaultCredentials(KeyIdentifier: " +:+ KeyIdentifier k +:+ ", Namespace: " +:+ Namespace k +:+
  ", RoleId: " +:+ RoleId k +:+ ", SecretId: " +:+ SecretId k +:+ ", Url: )".
Definition sprint_list (l : list string) : string := "[" +:+ Join " " l +:+ "]".
Definition hash_input (c : Credentials) : string :=
  Join " " [cr_Username c; cr_Password c; cr_Organization c; sprint_list (cr_Endpoints c);
            sprint_list (cr_NfsTargetIPs c); cr_LocalContainerName c; cr_CaCertificate c;
            InsecureString (cr_Kms c); InsecureString (MkKmsCreds "" "" "" "")] +:+ nl.
Definition generateHash (c : Credentials) : Z := fnv32a (bytes_of_string (hash_input c)).

(** The hash does not see the scheme, and cannot tell a space within a value
    from the space between two: other credentials, the same hash. *)
Definition plain_credentials (user password org scheme : string) : Credentials :=
  MkCredentials user password org scheme ["10.0.0.1:14000"] "" false "" [] (MkKmsCreds "" "" "" "").
Lemma scheme_not_hashed :
  generateHash (plain_credentials "u" "p" "Root" "http") = generateHash (plain_credentials "u" "p" "Root" "https").
Proof. reflexivity. Qed.
Lemma credentials_confused :
  generateHash (plain_credentials "csi" "a b" "Root" "https") = generateHash (plain_credentials "csi a" "b" "Root" "https").
Proof. reflexivity. Qed.
