(* ===== verification/Login.v ===== *)
(** * Logging in (apiclient/login.go, cluster.go, node.go)

    The tokens of an API client as a state machine over the clock: log-in,
    refresh, and what a log-in reads of the cluster.  [Login] holds the lock of
    the client while it makes requests that begin with [Init] again; a nested
    log-in would wait for that lock for ever.  Computations here may therefore
    end blocked, in the state in which they wait. *)
From S2P Require Import Prelude.
From S2P Require Import GoStrings.
From S2P Require Import Monad.
From S2P Require Import ApiRequests.
From S2P Require Import Compatibility.
From S2P Require Import Credentials.

(** ** Computations that may block for ever *)

Inductive outcome (S A : Type) : Type := Finished (r : result A) (s : S) | Blocked (s : S).
Arguments Finished {S A}.
Arguments Blocked {S A}.
Definition L (S A : Type) : Type := S -> outcome S A.
Section Blocking.
Context {S : Type}.
Definition runs {A} (m : M S A) : L S A := fun s => let '(r, s') := m s in Finished r s'.
Definition blocks {A} : L S A := fun s => Blocked s.
Definition andthen {A B} (m : L S A) (f : A -> L S B) : L S B := fun s =>
  match m s with
  | Blocked s' => Blocked s'
  | Finished (Ok a) s' => f a s'
  | Finished (Err e) s' => Finished (Err e) s'
  | Finished Panic s' => Finished Panic s'
  end.
(** [x, err := m] *)
Definition caught {A} (m : L S A) : L S (error + A) := fun s =>
  match m s with
  | Blocked s' => Blocked s'
  | Finished (Ok a) s' => Finished (Ok (inr a)) s'
  | Finished (Err e) s' => Finished (Ok (inl e)) s'
  | Finished Panic s' => Finished Panic s'
  end.
(** Where a computation ends. *)
Definition end_state {A} (o : outcome S A) : S := match o with Finished _ s | Blocked s => s end.
End Blocking.
Declare Scope blocking_scope.
Delimit Scope blocking_scope with blocking.
Notation "'let^' x ':=' m 'in' k" := (andthen m (fun x => k))
  (at level 10, x pattern, m at level 100, k at level 200) : blocking_scope.

(** ** Data *)

Record LoginResponse := MkLoginResponse { AccessToken : string; ExpiresIn : Z; RefreshToken : string }.
Record RefreshResponse := MkRefreshResponse { rr_AccessToken : string; rr_RefreshToken : string }.
Record TokenExpiryResponse := MkTokenExpiry { AccessTokenExpiry : Z; RefreshTokenExpiry : Z }.
Record ClusterInfoResponse := MkClusterInfo { ci_Name : string; ci_Guid : Z; ci_Release : string }.
Record WhoamiResponse := MkWhoami { wi_OrgId : Z; wi_Role : ApiUserRole }.

(** Package encoding/json on these structs: what a payload is, and what an
    object that was empty holds after decoding. *)
Class Json := {
  marshal_LoginRequest : string -> string -> string -> string;   (* username, password, org *)
  marshal_RefreshRequest : string -> string;
  decode_LoginResponse : string -> LoginResponse;
  decode_RefreshResponse : string -> RefreshResponse;
  decode_TokenExpiryResponse : string -> TokenExpiryResponse;
  decode_ClusterInfoResponse : string -> ClusterInfoResponse;
  decode_WhoamiResponse : string -> WhoamiResponse;
  decode_nodes : string -> list WekaNode
}.
(** Without data the object stays as it was. *)
Definition decoded {A} (f : string -> A) (zero : A) (data : option string) : A :=
  match data with Some d => f d | None => zero end.

Definition ApiPathLogin : string := "login".
Definition ApiPathTokenExpiry : string := "security/defaultTokensExpiry".
Definition ApiPathRefresh : string := "login/refresh".
Definition ApiPathClusterInfo : string := "cluster".
Definition ApiPathWhoami : string := "users/whoami".
Definition NodeRoleBackend : string := "COMPUTE".
Definition NodeRoleFrontend : string := "FRONTEND".
Definition NodeRoleDrive : string := "DRIVES".
Definition NodeRoleManagement : string := "MANAGEMENT".

(** What a client keeps of its log-in, beside the [Client] of ApiRequests.v. *)
Record Session := MkSession {
  s_Credentials : Credentials;
  apiTokenExpiryDate : Z;
  refreshToken : string;
  apiTokenExpiryInterval : Z;
  ClusterName : string;
  ClusterGuid : Z;
  s_CompatibilityMap : WekaCompatibilityMap;
  s_ApiUserRole : ApiUserRole;
  s_ApiOrgId : Z;
  MountEndpoints : list string
}.
Record LoginState (W : Type) := MkLogin { conn : ClientState W; session : Session }.
Arguments MkLogin {W}.
Arguments conn {W}.
Arguments session {W}.

Definition set_tokens (token : string) (c : Client) : Client :=
  MkClient (HttpScheme c) (Endpoints c) (actualApiEndpoints c) (currentEndpoint c) token
    (refreshTokenExpiryDate c) (refreshTokenExpiryInterval c) (UrlQueryParams c).
Definition set_refresh_interval (i : Z) (c : Client) : Client :=
  MkClient (HttpScheme c) (Endpoints c) (actualApiEndpoints c) (currentEndpoint c) (apiToken c)
    (refreshTokenExpiryDate c) i (UrlQueryParams c).
Definition set_refresh_date (d : Z) (c : Client) : Client :=
  MkClient (HttpScheme c) (Endpoints c) (actualApiEndpoints c) (currentEndpoint c) (apiToken c)
    d (refreshTokenExpiryInterval c) (UrlQueryParams c).
Definition set_query_params (b : bool) (c : Client) : Client :=
  MkClient (HttpScheme c) (Endpoints c) (actualApiEndpoints c) (currentEndpoint c) (apiToken c)
    (refreshTokenExpiryDate c) (refreshTokenExpiryInterval c) b.

Definition set_expiry (token : string) (date : Z) (x : Session) : Session :=
  MkSession (s_Credentials x) date token (apiTokenExpiryInterval x) (ClusterName x) (ClusterGuid x)
    (s_CompatibilityMap x) (s_ApiUserRole x) (s_ApiOrgId x) (MountEndpoints x).
Definition set_token_interval (i : Z) (x : Session) : Session :=
  MkSession (s_Credentials x) (apiTokenExpiryDate x) (refreshToken x) i (ClusterName x) (ClusterGuid x)
    (s_CompatibilityMap x) (s_ApiUserRole x) (s_ApiOrgId x) (MountEndpoints x).
Definition set_cluster (name : string) (guid : Z) (m : WekaCompatibilityMap) (x : Session) : Session :=
  MkSession (s_Credentials x) (apiTokenExpiryDate x) (refreshToken x) (apiTokenExpiryInterval x) name guid
    m (s_ApiUserRole x) (s_ApiOrgId x) (MountEndpoints x).
Definition set_role (r : ApiUserRole) (org : Z) (x : Session) : Session :=
  MkSession (s_Credentials x) (apiTokenExpiryDate x) (refreshToken x) (apiTokenExpiryInterval x) (ClusterName x)
    (ClusterGuid x) (s_CompatibilityMap x) r org (MountEndpoints x).
Definition set_MountEndpoints (l : list string) (x : Session) : Session :=
  MkSession (s_Credentials x) (apiTokenExpiryDate x) (refreshToken x) (apiTokenExpiryInterval x) (ClusterName x)
    (ClusterGuid x) (s_CompatibilityMap x) (s_ApiUserRole x) (s_ApiOrgId x) l.

Definition role_has_CSIPermissions (r : ApiUserRole) : bool :=
  match r with ApiUserRoleCSI | ApiUserRoleClusterAdmin | ApiUserRoleOrgAdmin => true | _ => false end.

(** ** node.go *)

Definition hasRole (role : string) (n : WekaNode) : bool := existsb (fun r => bool_decide (r = role)) (node_Roles n).
Definition isBackend (n : WekaNode) : bool := hasRole NodeRoleBackend n.
Definition isFrontend (n : WekaNode) : bool := hasRole NodeRoleFrontend n.
Definition isMgmt (n : WekaNode) : bool := hasRole NodeRoleManagement n.
Definition isDrive (n : WekaNode) : bool := hasRole NodeRoleDrive n.
Definition node_GetBasePath (m : WekaCompatibilityMap) : string :=
  if NewNodeApiObjectPath m then "processes" else "nodes".
(** As in [NfsClientGroupRule], only an error of [url.JoinPath] would give a URL. *)
Definition node_GetApiUrl (_ : Z) : string := "".

Section Login.
Context {W : Type} `{Net W} `{Json} `{GoVersion}.
Abbreviation st := (LoginState W).
Local Open Scope blocking_scope.

Definition on_conn {A} (m : M (ClientState W) A) : L st A :=
  runs (zoom conn (fun c s => MkLogin c (session s)) m).
Definition get_session : L st Session := runs (gets session).
Definition on_session (f : Session -> Session) : L st unit :=
  runs (modify (fun s => MkLogin (conn s) (f (session s)))).
Definition ok {A} (a : A) : L st A := runs (ret a).
Definition fail {A} (e : error) : L st A := runs (throw e).

(** [request] never reaches the branch that would log in again. *)
Definition plain_request (method path : string) (payload : option string) : L st (option string) :=
  on_conn (request (ret tt) method path payload []).
(** [time.Now().Add(n * time.Second)] *)
Definition in_seconds (n : Z) : L st Z :=
  let^ t := on_conn now in ok (t + wrap64 (n * Second)).

(** *** Init, for a given way to log in; [fine] is the answer without a log-in *)
Definition Init_with {A} (fine : A) (login : L st A) : L st A :=
  let^ x := get_session in
  let^ t := on_conn now in
  if t <? apiTokenExpiryDate x then ok fine
  else
    let^ logged := on_conn isLoggedIn in
    if negb logged then login
    else
      let^ r := caught (plain_request "POST" ApiPathRefresh (Some (marshal_RefreshRequest (refreshToken x)))) in
      match r with
      | inl _ => login
      | inr d =>
          let resp := decoded decode_RefreshResponse (MkRefreshResponse "" "") d in
          let^ x := get_session in
          let^ date := in_seconds (wrap64 (apiTokenExpiryInterval x - 30)) in
          let^ _ := on_session (set_expiry (rr_RefreshToken resp) date) in
          let^ _ := on_conn (on_client (set_tokens (rr_AccessToken resp))) in
          ok fine
      end.

(** Within [Login] the lock is taken: logging in again blocks. *)
Definition Login_locked : L st unit :=
  let^ logged := on_conn isLoggedIn in if logged then ok tt else blocks.
Definition Init_locked : L st unit := Init_with tt Login_locked.
Definition Get_locked (path : string) : L st (option string) :=
  let^ _ := Init_locked in plain_request "GET" path None.

(** *** What a log-in reads *)
Definition updateTokensExpiryInterval : L st unit :=
  let^ d := Get_locked ApiPathTokenExpiry in
  let resp := decoded decode_TokenExpiryResponse (MkTokenExpiry 0 0) d in
  let^ _ := on_conn (on_client (set_refresh_interval (RefreshTokenExpiry resp))) in
  on_session (set_token_interval (AccessTokenExpiry resp)).
Definition fetchUserRoleAndOrgId : L st unit :=
  let^ r := caught (Get_locked ApiPathWhoami) in
  match r with
  | inl _ => ok tt
  | inr d =>
      let resp := decoded decode_WhoamiResponse (MkWhoami 0 RoleNone) d in
      on_session (set_role (wi_Role resp) (wi_OrgId resp))
  end.
Definition ensureSufficientPermissions : L st unit :=
  let^ _ := fetchUserRoleAndOrgId in
  let^ x := get_session in
  if negb (role_has_CSIPermissions (s_ApiUserRole x))
  then fail (EPlain "user %s does not have sufficient permissions for performing CSI operations") else ok tt.
Definition fetchClusterInfo : L st unit :=
  let^ d := Get_locked ApiPathClusterInfo in
  let resp := decoded decode_ClusterInfoResponse (MkClusterInfo "" 0 "") d in
  let^ m := runs (lift (fillIn ("v" +:+ ci_Release resp))) in
  let^ _ := on_session (set_cluster (ci_Name resp) (ci_Guid resp) m) in
  on_conn (on_client (set_query_params (compat_UrlQueryParams m))).

(** The nodes, with a given way to make requests. *)
Definition GetNodes (get : string -> L st (option string)) : L st (list WekaNode) :=
  let^ x := get_session in
  let^ d := get (node_GetBasePath (s_CompatibilityMap x)) in
  ok (decoded decode_nodes [] d).
(** An error of the request leaves the list empty and is not returned. *)
Definition GetNodesByRole (get : string -> L st (option string)) (role : string) : L st (list WekaNode) :=
  let^ r := caught (GetNodes get) in
  match r with
  | inl _ => ok []
  | inr nodes => ok (filter (fun n => hasRole role n = true) nodes)
  end.
Definition UpdateApiEndpoints_locked : L st unit :=
  let^ nodes := GetNodesByRole Get_locked NodeRoleManagement in
  on_conn (UpdateApiEndpoints (Ok nodes)).

(** *** Login *)

(** The rest of [Login] once the token is stored. *)
Definition complete_login : L st unit :=
  let^ c := on_conn (gets client) in
  let^ _ := (if refreshTokenExpiryInterval c <? 1
             then let^ _ := caught updateTokensExpiryInterval in ok tt else ok tt) in
  let^ c := on_conn (gets client) in
  let^ date := in_seconds (refreshTokenExpiryInterval c) in
  let^ _ := on_conn (on_client (set_refresh_date date)) in
  let^ _ := ensureSufficientPermissions in
  let^ _ := fetchClusterInfo in
  let^ x := get_session in
  if cr_AutoUpdateEndpoints (s_Credentials x)
  then let^ _ := caught UpdateApiEndpoints_locked in ok tt else ok tt.
Definition store_tokens (resp : LoginResponse) : L st unit :=
  let^ _ := on_conn (on_client (set_tokens (AccessToken resp))) in
  let^ date := in_seconds (wrap64 (ExpiresIn resp - 30)) in
  on_session (set_expiry (RefreshToken resp) date).
Definition after_login (resp : LoginResponse) : L st unit :=
  let^ _ := store_tokens resp in complete_login.
(** The request of [Login], unless the client is logged in by now. *)
Definition login_request : L st (option LoginResponse) :=
  let^ logged := on_conn isLoggedIn in
  if logged then ok None
  else
    let^ x := get_session in
    let c := s_Credentials x in
    let^ d := plain_request "POST" ApiPathLogin
                (Some (marshal_LoginRequest (cr_Username c) (cr_Password c) (cr_Organization c))) in
    ok (Some (decoded decode_LoginResponse (MkLoginResponse "" 0 "") d)).
Definition Login : L st unit :=
  let^ r := login_request in
  match r with None => ok tt | Some resp => after_login resp end.
Definition Init : L st unit := Init_with tt Login.
Definition Get_ (path : string) : L st (option string) :=
  let^ _ := Init in plain_request "GET" path None.

(** [fetchMountEndpoints] (apiendpoint.go) *)
Definition fetchMountEndpoints : L st unit :=
  let^ _ := on_session (set_MountEndpoints []) in
  let^ nodes := GetNodesByRole Get_ NodeRoleBackend in
  on_session (set_MountEndpoints (concat (node_Ips <$> nodes))).
End Login.

(** * Theorems *)

Section Frames.
Context {S V : Type} (view : S -> V).
(** A computation that leaves a part of the state alone, if it returns. *)
Definition keeps {A} (m : L S A) : Prop := forall s r s', m s = Finished r s' -> view s' = view s.
Lemma keeps_andthen {A B} (m : L S A) (f : A -> L S B) : keeps m -> (forall a, keeps (f a)) -> keeps (andthen m f).
Proof.
  intros Hm Hf s r s'. unfold andthen. destruct (m s) as [[a|e|] s1|s1] eqn:E; [..|done].
  - intros Hr. by rewrite (Hf _ _ _ _ Hr), (Hm _ _ _ E).
  - intros [= <- <-]. eapply Hm, E.
  - intros [= <- <-]. eapply Hm, E.
Qed.
Lemma keeps_caught {A} (m : L S A) : keeps m -> keeps (caught m).
Proof.
  intros Hm s r s'. unfold caught. destruct (m s) as [[a|e|] s1|s1] eqn:E; [..|done];
    intros [= <- <-]; eapply Hm, E.
Qed.
Lemma keeps_runs {A} (m : M S A) : (forall s, view (snd (m s)) = view s) -> keeps (runs m).
Proof. intros Hm s r s'. unfold runs. specialize (Hm s). destruct (m s). by intros [= <- <-]. Qed.
End Frames.

Section LoginLaws.
Context {W : Type} `{Net W} `{Json} `{GoVersion}.
Abbreviation st := (LoginState W).

Lemma keeps_on_conn {V} (view : Session -> V) {A} (m : M (ClientState W) A) :
  keeps (fun s : st => view (session s)) (on_conn m).
Proof. apply keeps_runs. intros s. cbn. unfold zoom. by destruct (m (conn s)). Qed.
Lemma keeps_on_session {V} (view : Session -> V) (f : Session -> Session) :
  (forall x, view (f x) = view x) -> keeps (fun s : st => view (session s)) (on_session f).
Proof. intros Hf. apply keeps_runs. intros s. apply Hf. Qed.
Lemma keeps_ok {V} (view : st -> V) {A} (a : A) : keeps view (ok a).
Proof. by apply keeps_runs. Qed.
Lemma keeps_fail {V} (view : st -> V) {A} e : keeps view (fail (A:=A) e).
Proof. by apply keeps_runs. Qed.
Lemma keeps_blocks {V} (view : st -> V) {A} : keeps view (blocks (A:=A)).
Proof. by intros s r s'. Qed.
Lemma keeps_pure {V} (view : st -> V) {A} (r : result A) : keeps view (runs (lift r)).
Proof. by apply keeps_runs. Qed.
Lemma keeps_get_session {V} (view : st -> V) : keeps view get_session.
Proof. by apply keeps_runs. Qed.
End LoginLaws.
Create HintDb login.
#[export] Hint Resolve keeps_caught keeps_on_conn keeps_ok keeps_fail keeps_blocks keeps_pure keeps_get_session : login.
Ltac keeps_solve := repeat first
  [ solve [eauto 2 with login] | apply keeps_andthen; [|intros ?] | apply keeps_caught
  | apply keeps_on_session; done | progress cbv zeta | case_match ].

Section Roles.
Context {W : Type} `{Net W} `{Json} `{GoVersion}.
Abbreviation st := (LoginState W).
Abbreviation role := (fun s : st => s_ApiUserRole (session s)).

Lemma keeps_role_Init_locked : keeps role Init_locked.
Proof. unfold Init_locked, Init_with, plain_request, in_seconds, Login_locked. keeps_solve. Qed.
Lemma keeps_role_Get_locked path : keeps role (Get_locked path).
Proof. pose proof keeps_role_Init_locked. unfold Get_locked, plain_request. keeps_solve. Qed.
Lemma keeps_role_after : keeps role (andthen fetchClusterInfo (fun _ =>
  andthen get_session (fun x => if cr_AutoUpdateEndpoints (s_Credentials x)
    then andthen (caught UpdateApiEndpoints_locked) (fun _ => ok tt) else ok tt))).
Proof.
  pose proof keeps_role_Get_locked. unfold fetchClusterInfo, UpdateApiEndpoints_locked, GetNodesByRole, GetNodes. keeps_solve.
Qed.

Lemma andthen_inv {A B} (m : L st A) (f : A -> L st B) s b s' : andthen m f s = Finished (Ok b) s' ->
  exists a s1, m s = Finished (Ok a) s1 /\ f a s1 = Finished (Ok b) s'.
Proof. unfold andthen. destruct (m s) as [[a|e|] s1|s1]; naive_solver. Qed.
Ltac split_step Hr := apply andthen_inv in Hr as (? & ? & ? & Hr).

Lemma ensure_role (s s' : st) u : ensureSufficientPermissions s = Finished (Ok u) s' ->
  role_has_CSIPermissions (role s') = true.
Proof.
  unfold ensureSufficientPermissions. intros Hr. split_step Hr. split_step Hr.
  match goal with E : get_session _ = _ |- _ => injection E as <- <- end.
  destruct (role_has_CSIPermissions (s_ApiUserRole (session _))) eqn:E; [|done]. injection Hr as <- <-. exact E.
Qed.

Lemma now_run (s s' : st) t : on_conn now s = Finished (Ok t) s' ->
  t = fst (time_Now (world (conn s))) /\ client (conn s') = client (conn s) /\ session s' = session s.
Proof.
  unfold on_conn, runs, zoom, now, effect. destruct (time_Now (world (conn s))) as [t' w]. by intros [= <- <-].
Qed.
Lemma logged_out (s : st) : apiToken (client (conn s)) = "" -> on_conn isLoggedIn s = Finished (Ok false) s.
Proof.
  intros Ht. unfold on_conn, runs, zoom, isLoggedIn, bind, gets. rewrite decide_True by done. by destruct s.
Qed.
Lemma andthen_Ok {A B} (m : L st A) (f : A -> L st B) s a s1 : m s = Finished (Ok a) s1 -> andthen m f s = f a s1.
Proof. unfold andthen. by intros ->. Qed.

(** A log-in that succeeds has checked the role. *)
Lemma after_login_role resp (s s' : st) : after_login resp s = Finished (Ok tt) s' ->
  role_has_CSIPermissions (role s') = true.
Proof.
  unfold after_login, complete_login. intros Hr. do 7 split_step Hr.
  rewrite (keeps_role_after _ _ _ Hr). eapply ensure_role. eassumption.
Qed.

(** (C23) Nobody works with a user that lacks the permissions: a client without a
    token, and with no token expiry date ahead, whose log-in succeeds has a role
    that the driver may use, as checked by this log-in. *)
Theorem login_requires_role (s s' : st) :
  apiToken (client (conn s)) = "" -> apiTokenExpiryDate (session s) <= fst (time_Now (world (conn s))) ->
  Init s = Finished (Ok tt) s' -> role_has_CSIPermissions (s_ApiUserRole (session s')) = true.
Proof.
  intros Htok Hdate Hr. unfold Init, Init_with in Hr. rewrite (andthen_Ok get_session _ s (session s) s eq_refl) in Hr.
  apply andthen_inv in Hr as (t & s1 & Ht & Hr). apply now_run in Ht as (-> & Hc & Hx).
  destruct (Z.ltb_spec (fst (time_Now (world (conn s)))) (apiTokenExpiryDate (session s))); [lia|].
  rewrite <- Hc in Htok. rewrite (andthen_Ok _ _ _ _ _ (logged_out s1 Htok)) in Hr. cbn [negb] in Hr.
  unfold Login in Hr. apply andthen_inv in Hr as (resp & s2 & Hq & Hr). unfold login_request in Hq.
  rewrite (andthen_Ok _ _ _ _ _ (logged_out s1 Htok)) in Hq. do 2 split_step Hq. injection Hq as <- <-.
  eapply after_login_role. eassumption.
Qed.
End Roles.

(** ** The lock *)

Definition lifetime (resp : LoginResponse) : Z := wrap64 (wrap64 (ExpiresIn resp - 30) * Second).

(** The clock does not go back: what it shows in a world, and later. *)
Definition clock {W} `{Net W} (w : W) : Z := fst (time_Now w).
Class Monotonic (W : Type) `{Net W} : Prop := {
  clock_Now w : clock w <= clock (snd (time_Now w));
  clock_Do r w : clock w <= clock (snd (http_Do r w));
  clock_rand n w : clock w <= clock (snd (rand_Int63n n w))
}.

Section Ages.
Context {W : Type} `{Monotonic W}.
(** Time passes during a computation of the client. *)
Definition ages {A} (m : M (ClientState W) A) : Prop := forall s, clock (world s) <= clock (world (snd (m s))).
Lemma ages_silent {A} (m : M (ClientState W) A) : (forall s, world (snd (m s)) = world s) -> ages m.
Proof. intros Hm s. rewrite Hm. lia. Qed.
Lemma ages_effect {A} (f : W -> A * W) ev : (forall w, clock w <= clock (snd (f w))) -> ages (effect f ev).
Proof. intros Hf s. unfold effect. specialize (Hf (world s)). by destruct (f (world s)). Qed.
Lemma ages_now : ages now.
Proof. apply ages_effect, clock_Now. Qed.
Lemma ages_Do r : ages (Do r).
Proof. apply ages_effect, clock_Do. Qed.
Lemma ages_Int63n n : ages (Int63n n).
Proof. apply ages_effect, clock_rand. Qed.
Lemma ages_Sleep d : ages (Sleep d).
Proof. by apply ages_silent. Qed.
Lemma ages_bind {A B} (m : M (ClientState W) A) (f : A -> M (ClientState W) B) :
  ages m -> (forall a, ages (f a)) -> ages (bind m f).
Proof.
  intros Hm Hf s. unfold bind. specialize (Hm s). destruct (m s) as [[a|e|] s1]; cbn in *; [|done..].
  specialize (Hf a s1). lia.
Qed.
Lemma ages_attempt {A} (m : M (ClientState W) A) : ages m -> ages (attempt m).
Proof. intros Hm s. unfold attempt. specialize (Hm s). by destruct (m s) as [[a|e|] s1]. Qed.
Ltac ages := repeat first
  [ solve [ apply ages_now | apply ages_Do | apply ages_Int63n | apply ages_Sleep | by apply ages_silent | eauto 2 ]
  | apply ages_bind; [|intros ?] | apply ages_attempt | progress cbv zeta | case_match ].
Lemma ages_rotate : ages rotateEndpoint.
Proof. unfold rotateEndpoint, resetDefaultEndpoints. ages. Qed.
Lemma ages_getEndpoint : ages getEndpoint.
Proof. pose proof ages_rotate. unfold getEndpoint. ages. Qed.
Lemma ages_isLoggedIn : ages isLoggedIn.
Proof. unfold isLoggedIn. ages. Qed.
Lemma ages_do method path payload query : ages (do_ method path payload query).
Proof.
  pose proof ages_getEndpoint. pose proof ages_isLoggedIn. unfold do_, getUrl, getBaseUrl, on_endpoint. ages.
Qed.
Lemma ages_retryBackoff n b f : ages f -> ages (retryBackoff n b f).
Proof.
  intros Hf. revert b. induction n as [|n IH]; intros b; cbn [retryBackoff]; [ages|].
  apply ages_bind; [done|]. intros [d|[e|] d|[e|]]; ages.
Qed.
Lemma ages_request method path payload query : ages (request (ret tt) method path payload query).
Proof.
  pose proof ages_do. pose proof ages_rotate. apply ages_retryBackoff. unfold request_once. ages.
Qed.
Lemma ages_UpdateApiEndpoints r : ages (UpdateApiEndpoints r).
Proof. pose proof ages_rotate. unfold UpdateApiEndpoints. ages. Qed.
End Ages.
#[export] Hint Resolve ages_now ages_isLoggedIn ages_request ages_UpdateApiEndpoints : login.
#[export] Hint Extern 1 (ages (on_client _)) => (by apply ages_silent) : login.
#[export] Hint Extern 1 (ages (gets _)) => (by apply ages_silent) : login.

Section Lock.
Context {W : Type} `{Monotonic W} `{Json} `{GoVersion}.
Abbreviation st := (LoginState W).
Abbreviation time s := (clock (world (conn s))).
Abbreviation due s := (apiTokenExpiryDate (session s)).

(** Time passes; and a token that is good until the end is not touched, nor
    does the computation block. *)
Definition passes {A} (m : L st A) : Prop := forall s, time s <= time (end_state (m s)).
Definition lapses {A} (m : L st A) : Prop := forall s,
  match m s with
  | Finished _ s' => time s' < due s -> due s' = due s
  | Blocked s' => due s <= time s'
  end.
Definition safe {A} (m : L st A) : Prop := passes m /\ lapses m.

Lemma passes_andthen {A B} (m : L st A) (f : A -> L st B) :
  passes m -> (forall a, passes (f a)) -> passes (andthen m f).
Proof.
  intros Hm Hf s. unfold andthen. specialize (Hm s). destruct (m s) as [[a|e|] s1|s1]; cbn in *; [|done..].
  specialize (Hf a s1). lia.
Qed.
Lemma passes_caught {A} (m : L st A) : passes m -> passes (caught m).
Proof. intros Hm s. unfold caught. specialize (Hm s). by destruct (m s) as [[a|e|] s1|s1]. Qed.
Lemma passes_on_conn {A} (m : M (ClientState W) A) : ages m -> passes (on_conn m).
Proof. intros Hm s. unfold on_conn, runs, zoom. specialize (Hm (conn s)). by destruct (m (conn s)). Qed.
Lemma passes_runs {A} (m : M st A) : (forall s, conn (snd (m s)) = conn s) -> passes (runs m).
Proof. intros Hm s. unfold runs. specialize (Hm s). destruct (m s). cbn in *. rewrite Hm. lia. Qed.
Lemma passes_blocks {A} : passes (blocks (A:=A)).
Proof. intros s. cbn. lia. Qed.

Lemma safe_andthen {A B} (m : L st A) (f : A -> L st B) : safe m -> (forall a, safe (f a)) -> safe (andthen m f).
Proof.
  intros [Pm Lm] Hf. split; [apply passes_andthen; [done|]; intros a; apply Hf|].
  intros s. unfold andthen. specialize (Lm s). specialize (Pm s). destruct (m s) as [[a|e|] s1|s1]; cbn in *; [|done..].
  destruct (Hf a) as [Pf Lf]. specialize (Pf s1). specialize (Lf s1). destruct (f a s1) as [r s2|s2]; cbn in *; [|].
  - intros Hd. rewrite Lf; [apply Lm; lia|]. rewrite Lm by lia. lia.
  - destruct (Z.lt_ge_cases (time s1) (due s)); [rewrite <- Lm by done; done|lia].
Qed.
Lemma safe_caught {A} (m : L st A) : safe m -> safe (caught m).
Proof.
  intros [Pm Lm]. split; [by apply passes_caught|]. intros s. unfold caught. specialize (Lm s).
  by destruct (m s) as [[a|e|] s1|s1].
Qed.
Lemma safe_on_conn {A} (m : M (ClientState W) A) : ages m -> safe (on_conn m).
Proof.
  intros Hm. split; [by apply passes_on_conn|]. intros s. unfold on_conn, runs, zoom. by destruct (m (conn s)).
Qed.
Lemma safe_runs {A} (m : M st A) : (forall s, conn (snd (m s)) = conn s /\ due (snd (m s)) = due s) -> safe (runs m).
Proof.
  intros Hm. split; [apply passes_runs, Hm|]. intros s. unfold runs. destruct (Hm s) as [_ E]. by destruct (m s).
Qed.
Lemma safe_on_session f : (forall x, apiTokenExpiryDate (f x) = apiTokenExpiryDate x) -> safe (on_session f).
Proof. intros Hf. apply safe_runs. intros s. split; [done|apply Hf]. Qed.

Lemma now_end (s : st) : on_conn now s = Finished (Ok (time s)) (end_state (on_conn now s)).
Proof. unfold on_conn, runs, zoom, now, effect, clock. by destruct (time_Now (world (conn s))). Qed.
Ltac passes := repeat first
  [ solve [apply passes_on_conn; auto with login | by apply passes_runs | apply passes_blocks | eauto 2]
  | apply passes_andthen; [|intros ?] | apply passes_caught | progress cbv zeta | case_match ].
Lemma passes_Init_locked : passes Init_locked.
Proof. unfold Init_locked, Init_with, Login_locked, plain_request, in_seconds. passes. Qed.
(** With a good token [Init] returns at once, also under the lock. *)
Lemma safe_Init_locked : safe Init_locked.
Proof.
  split; [apply passes_Init_locked|]. intros s. pose proof (passes_Init_locked s) as Hp. revert Hp.
  unfold Init_locked, Init_with. rewrite (andthen_Ok get_session _ s (session s) s eq_refl), (andthen_Ok _ _ _ _ _ (now_end s)).
  destruct (Z.ltb_spec (time s) (due s)) as [Hlt|Hge].
  - intros _ _. cbn. unfold on_conn, runs, zoom. by destruct (now (conn s)).
  - set (rest := andthen _ _ _). destruct rest as [r s'|s']; cbn; lia.
Qed.
Ltac safe := repeat first
  [ solve [ apply safe_on_conn; auto with login | by apply safe_runs | apply safe_Init_locked
          | apply safe_on_session; done | eauto 2 ]
  | apply safe_andthen; [|intros ?] | apply safe_caught | progress cbv zeta | case_match ].
Lemma safe_Get_locked path : safe (Get_locked path).
Proof. unfold Get_locked, plain_request. safe. Qed.
(** The rest of a log-in, once the token is stored. *)
Lemma safe_complete_login : safe complete_login.
Proof.
  pose proof safe_Get_locked. unfold complete_login, in_seconds, updateTokensExpiryInterval,
    ensureSufficientPermissions, fetchUserRoleAndOrgId, fetchClusterInfo, UpdateApiEndpoints_locked,
    GetNodesByRole, GetNodes. safe.
Qed.
(** Storing the tokens reads the clock once. *)
Lemma store_tokens_run resp (s : st) : exists s1, store_tokens resp s = Finished (Ok tt) s1 /\
  apiToken (client (conn s1)) = AccessToken resp /\ due s1 = time s + lifetime resp /\ time s <= time s1.
Proof.
  destruct s as [[c w l] x]. unfold store_tokens, in_seconds, andthen, on_conn, on_session, ok, runs, zoom, now, effect,
    on_client, modify, clock. cbn. pose proof (clock_Now w) as Hc. unfold clock in Hc.
  destruct (time_Now w) as [t w'] eqn:E. cbn in *. eexists. split; [done|]. cbn. auto.
Qed.

(** What [Init] does before it has the reply of a log-in, if it logs in. *)
Definition login_reply : L st (option LoginResponse) := Init_with None login_request.
Lemma andthen_assoc {A B C} (m : L st A) (f : A -> L st B) (g : B -> L st C) s :
  andthen (andthen m f) g s = andthen m (fun a => andthen (f a) g) s.
Proof. unfold andthen. by destruct (m s) as [[a|e|] s1|s1]. Qed.
Lemma andthen_ext {A B} (m : L st A) (f g : A -> L st B) s : (forall a s', f a s' = g a s') -> andthen m f s = andthen m g s.
Proof. intros Hfg. unfold andthen. destruct (m s) as [[a|e|] s1|s1]; auto. Qed.
Definition go_on (r : option LoginResponse) : L st unit := match r with None => ok tt | Some resp => after_login resp end.
Lemma Init_reply s : Init s = andthen login_reply go_on s.
Proof.
  unfold Init, login_reply, Init_with. rewrite andthen_assoc. apply andthen_ext. intros x s1.
  rewrite andthen_assoc. apply andthen_ext. intros t s2. destruct (t <? apiTokenExpiryDate x); [done|].
  rewrite andthen_assoc. apply andthen_ext. intros logged s3. destruct (negb logged); [done|].
  rewrite andthen_assoc. apply andthen_ext. intros [e|d] s4; [done|]. cbv zeta.
  rewrite andthen_assoc. apply andthen_ext. intros x' s5. rewrite andthen_assoc. apply andthen_ext. intros date s6.
  rewrite andthen_assoc. apply andthen_ext. intros u s7. by rewrite andthen_assoc.
Qed.
(** Up to there nothing blocks. *)
Definition finishes {A} (m : L st A) : Prop := forall s s', m s <> Blocked s'.
Lemma finishes_andthen {A B} (m : L st A) (f : A -> L st B) :
  finishes m -> (forall a, finishes (f a)) -> finishes (andthen m f).
Proof. intros Hm Hf s s'. unfold andthen. specialize (Hm s). destruct (m s) as [[a|e|] s1|s1]; [apply Hf|done|done|by destruct (Hm s1)]. Qed.
Lemma finishes_caught {A} (m : L st A) : finishes m -> finishes (caught m).
Proof. intros Hm s s'. unfold caught. specialize (Hm s). destruct (m s) as [[a|e|] s1|s1]; [done..|by destruct (Hm s1)]. Qed.
Lemma finishes_runs {A} (m : M st A) : finishes (runs m).
Proof. intros s s'. unfold runs. by destruct (m s). Qed.
Lemma finishes_login_reply : finishes login_reply.
Proof.
  unfold login_reply, Init_with, login_request, plain_request, in_seconds.
  repeat first [ apply finishes_runs | apply finishes_andthen; [|intros ?] | apply finishes_caught
               | progress cbv zeta | case_match ].
Qed.

(** (C24) A log-in never waits for its own lock while its token is good: if
    [Init] blocks for ever, then it logged in, and by the time it blocks the
    token that the reply of this very log-in brought has outlived its lifetime,
    less the thirty seconds that are taken off, on a clock that does not go
    back.  In all other cases [Init] returns. *)
Theorem Init_blocks_only_short_lived (s s' : st) : Init s = Blocked s' ->
  exists resp s1, login_reply s = Finished (Ok (Some resp)) s1 /\ after_login resp s1 = Blocked s' /\
    lifetime resp <= time s' - time s1.
Proof.
  rewrite Init_reply. unfold andthen. pose proof (finishes_login_reply s) as Hf.
  destruct (login_reply s) as [[[resp|]|e|] s1|s1] eqn:E; [|done..|by destruct (Hf s1)]. intros Hb.
  exists resp, s1. split_and!; [done..|]. cbn [go_on] in Hb. unfold after_login in Hb.
  destruct (store_tokens_run resp s1) as (s2 & Es & _ & Hd & _). rewrite (andthen_Ok _ _ _ _ _ Es) in Hb.
  pose proof (proj2 safe_complete_login s2) as Hl. rewrite Hb in Hl. lia.
Qed.

(** ** A reply without a token

    Such as one with status 200 and error codes: the next request logs in
    again under the lock. *)
Definition tokenless (s : st) : Prop := apiToken (client (conn s)) = "" /\ due s <= time s.
Definition blocked {A} (o : outcome st A) : Prop := match o with Blocked _ => True | _ => False end.
Lemma blocked_andthen {A B} (m : L st A) (f : A -> L st B) s : blocked (m s) -> blocked (andthen m f s).
Proof. unfold andthen. by destruct (m s). Qed.
Lemma blocked_caught {A} (m : L st A) s : blocked (m s) -> blocked (caught m s).
Proof. unfold caught. by destruct (m s). Qed.
Lemma Get_locked_blocks path s : tokenless s -> blocked (Get_locked path s).
Proof.
  intros [Htok Hdate]. unfold Get_locked. apply blocked_andthen. unfold Init_locked, Init_with.
  rewrite (andthen_Ok get_session _ s (session s) s eq_refl), (andthen_Ok _ _ _ _ _ (now_end s)).
  destruct (Z.ltb_spec (time s) (due s)); [lia|].
  destruct (now_run _ _ _ (now_end s)) as (_ & Hc & _). rewrite <- Hc in Htok.
  rewrite (andthen_Ok _ _ _ _ _ (logged_out _ Htok)). cbn [negb].
  unfold Login_locked. by rewrite (andthen_Ok _ _ _ _ _ (logged_out _ Htok)).
Qed.
Lemma complete_login_blocks s : tokenless s -> blocked (complete_login s).
Proof.
  intros Hs. unfold complete_login.
  assert (Hg : forall s0 : st, on_conn (gets client) s0 = Finished (Ok (client (conn s0))) s0) by by intros [[c w l] x].
  rewrite (andthen_Ok _ _ _ _ _ (Hg s)). destruct (_ <? 1).
  { apply blocked_andthen, blocked_andthen, blocked_caught. unfold updateTokensExpiryInterval.
    by apply blocked_andthen, Get_locked_blocks. }
  rewrite (andthen_Ok (ok tt) _ s tt s eq_refl), (andthen_Ok _ _ _ _ _ (Hg s)).
  unfold in_seconds. rewrite andthen_assoc, (andthen_Ok _ _ _ _ _ (now_end s)).
  destruct (now_run _ _ _ (now_end s)) as (_ & Hc & Hx). pose proof (passes_on_conn now ages_now s) as Ht.
  destruct (end_state (on_conn now s)) as [cs x]. cbn in Hc, Hx, Ht. destruct Hs as [Htok Hdate].
  set (d := _ + _). rewrite (andthen_Ok (ok d) _ (MkLogin cs x) d (MkLogin cs x) eq_refl).
  rewrite (andthen_Ok (on_conn (on_client (set_refresh_date d))) _ (MkLogin cs x) tt
    (MkLogin (MkState (set_refresh_date d (client cs)) (world cs) (log cs)) x) eq_refl).
  apply blocked_andthen. unfold ensureSufficientPermissions, fetchUserRoleAndOrgId.
  apply blocked_andthen, blocked_andthen, blocked_caught, Get_locked_blocks. split; cbn.
  - by rewrite Hc.
  - rewrite Hx. lia.
Qed.
Theorem login_without_token_blocks resp (s : st) :
  AccessToken resp = "" -> lifetime resp <= 0 -> blocked (after_login resp s).
Proof.
  intros Htok Hlife. unfold after_login. destruct (store_tokens_run resp s) as (s1 & E & Ht & Hd & Hm).
  rewrite (andthen_Ok _ _ _ _ _ E). apply complete_login_blocks. split; [by rewrite Ht|lia].
Qed.
End Lock.

(** ** Witnesses: a cluster that answers every request *)

Record Lab := MkLab { served : nat }.
Definition lab_net : Net Lab := {|
  http_Do r w := (Reply 200 (Envelope (URL r) [] ""), MkLab (S (served w)));
  time_Now w := (5, w);
  rand_Int63n n w := (n / 2, w);
  ParseIP _ := true;
  validURL _ := true
|}.
(** Log-in replies with a given token and lifetime; the user has [role]. *)
Definition lab_json (token : string) (life : Z) (role : ApiUserRole) : Json := {|
  marshal_LoginRequest u p o := u;
  marshal_RefreshRequest t := t;
  decode_LoginResponse _ := MkLoginResponse token life "refresh";
  decode_RefreshResponse _ := MkRefreshResponse token "refresh";
  decode_TokenExpiryResponse _ := MkTokenExpiry 300 3600;
  decode_ClusterInfoResponse _ := MkClusterInfo "lab" 7 "4.4.2";
  decode_WhoamiResponse _ := MkWhoami 1 role;
  decode_nodes _ := []
|}.
Definition lab_start : LoginState Lab :=
  MkLogin (MkState flaky_client (MkLab 0) [])
    (MkSession (MkCredentials "csi" "secret" "Root" "https" ["10.0.0.1"] "" false "" [] (MkKmsCreds "" "" "" ""))
       0 "" 0 "" 0 compat_zero RoleNone 0 []).
Definition lab_init (token : string) (life : Z) (role : ApiUserRole) :=
  @Init Lab lab_net (lab_json token life role) dotted lab_start.

Lemma login_requires_role_witness : exists s', lab_init "token" 300 ApiUserRoleCSI = Finished (Ok tt) s' /\
  served (world (conn s')) = 4%nat /\ role_has_CSIPermissions (s_ApiUserRole (session s')) = true.
Proof.
  assert (F : match lab_init "token" 300 ApiUserRoleCSI with
              | Finished r s => r = Ok tt /\ served (world (conn s)) = 4%nat | Blocked _ => False end)
    by (vm_compute; split; reflexivity).
  pose proof (@login_requires_role Lab lab_net (lab_json "token" 300 ApiUserRoleCSI) dotted lab_start) as T.
  fold (lab_init "token" 300 ApiUserRoleCSI) in T. revert F T.
  generalize (lab_init "token" 300 ApiUserRoleCSI). intros [r s'|s'] F T; [|destruct F]. destruct F as [-> F].
  exists s'. split; [reflexivity|]. split; [exact F|]. apply T; [reflexivity|vm_compute; discriminate|reflexivity].
Defined.
#[export] Instance lab_monotonic : @Monotonic Lab lab_net.
Proof. split; intros; cbn; lia. Qed.
(** A reply without a token. *)
Lemma Init_blocks_only_short_lived_witness : exists s' resp s1, lab_init "" 0 RoleNone = Blocked s' /\
  @login_reply Lab lab_net (lab_json "" 0 RoleNone) lab_start = Finished (Ok (Some resp)) s1 /\
  @after_login Lab lab_net (lab_json "" 0 RoleNone) dotted resp s1 = Blocked s' /\
  lifetime resp <= @clock Lab lab_net (world (conn s')) - @clock Lab lab_net (world (conn s1)).
Proof.
  pose proof (@Init_blocks_only_short_lived Lab lab_net lab_monotonic (lab_json "" 0 RoleNone) dotted lab_start) as T.
  assert (F : match lab_init "" 0 RoleNone with Blocked _ => True | _ => False end) by (vm_compute; exact I).
  fold (lab_init "" 0 RoleNone) in T. revert F T. generalize (lab_init "" 0 RoleNone). intros [r s'|s'] F T; [destruct F|].
  destruct (T s' eq_refl) as (resp & s1 & T1 & T2 & T3). exists s', resp, s1.
  split; [reflexivity|]. split; [exact T1|]. split; [exact T2|exact T3].
Defined.
Example unprivileged_user : match lab_init "token" 300 ApiUserRoleReadOnly with
  Finished (Err (EPlain _)) s => served (world (conn s)) = 3%nat | _ => False end.
Proof. vm_compute. reflexivity. Qed.
