(* ===== verification/WaitForLeader.v ===== *)
(** * The gate in front of a sidecar (cmd/wait-for-leader/main.go)

    The process waits for the leader file and for the CSI socket, runs the
    sidecar as its child, watches the file, and stops the child when the
    leadership is lost.  It is a state machine: a phase says which statement
    the process has reached, and an event what that statement found out (a
    stat, a dial, the branch of a [select] that fired). *)
From S2P Require Import Prelude.
From S2P Require Import GoStrings.
From S2P Require Import Strconv.

Module Gate.

(** ** Configuration *)

Definition defaultLeaderReadyFile : string := "/leader-state/leader_ready".
Definition defaultPollIntervalSecs : Z := 1.
Definition defaultSocketPath : string := "/csi/csi.sock".
Definition defaultLeaderLossDebounceSecs : Z := 3.
Definition defaultStopGracePeriodSecs : Z := 10.
Definition second : Z := 1000000000.

Section Config.
Context (getenv : string -> string).
Definition parseEnvInt (name : string) (defaultValue : Z) : Z :=
  let raw := TrimSpace (getenv name) in
  if bool_decide (raw = "") then defaultValue
  else match Atoi raw with
       | Ok parsed => if parsed <=? 0 then defaultValue else parsed
       | _ => defaultValue
       end.
Record config := MkConfig {
  leaderFile : string;
  pollInterval : Z;
  socketPath : string;
  leaderLossDebounce : Z;
  stopGrace : Z;
  binary : string;
  args : list string
}.
(** [time.Duration(n) * time.Second] *)
Definition seconds (n : Z) : Z := wrap64 (n * second).
(** The part of [main] before its loop: exit code 1 without a command. *)
Definition configure (argv : list string) : Z + config :=
  match argv with
  | _ :: bin :: rest =>
      let file := TrimSpace (getenv "LEADER_READY_FILE") in
      let sock := TrimSpace (getenv "CSI_SOCKET_PATH") in
      inr (MkConfig (if bool_decide (file = "") then defaultLeaderReadyFile else file)
             (seconds (parseEnvInt "WAIT_POLL_INTERVAL" defaultPollIntervalSecs))
             (if bool_decide (sock = "") then defaultSocketPath else sock)
             (seconds (parseEnvInt "LEADER_LOSS_DEBOUNCE" defaultLeaderLossDebounceSecs))
             (seconds (parseEnvInt "STOP_GRACE_PERIOD" defaultStopGracePeriodSecs)) bin rest)
  | _ => inl 1
  end.
End Config.
(** [time.NewTicker] panics on an interval that is not positive. *)
Definition NewTicker (d : Z) : result unit := if d <=? 0 then Panic else Ok tt.

(** ** Events and phases *)

(** How [cmd.Wait] returns: without error, with an [ExitError], or another. *)
Inductive wait_result := ExitedZero | ExitError (code : Z) | WaitError.
Inductive event :=
| Stat (present : bool) (now : Z)      (* [fileExists(leaderFile)], and the clock then *)
| Dial (accepted : bool)
| Spawn (ok : bool)                    (* [cmd.Start] *)
| CtxDone
| Tick
| ChildDone (r : wait_result)
| GraceOver.
Inductive file_pc := FileStat | FileSelect.
Inductive socket_pc := SocketStat | SocketDial | SocketSelect.
Inductive monitor_pc := MonitorSelect | MonitorStat.
Inductive terminate_pc := AfterTerm | AfterKill.
Inductive phase :=
| WaitingForFile (pc : file_pc)
| WaitingForSocket (pc : socket_pc)
| Starting
| Monitoring (pc : monitor_pc) (missingSince : option Z)
| Terminating (pc : terminate_pc) (leaving : bool)    (* [os.Exit(0)] afterwards, or the loop again *)
| Exited (code : Z).
Inductive signal := SIGTERM | SIGKILL.

(** ** Functions
    [None]: the event cannot happen here.  [inl]: the function goes on at that
    statement.  [inr]: it returns. *)

Definition waitForLeaderFile (pc : file_pc) (e : event) : option (file_pc + option string) :=
  match pc, e with
  | FileStat, Stat present _ => Some (if present then inr None else inl FileSelect)
  | FileSelect, CtxDone => Some (inr (Some "context canceled"))
  | FileSelect, Tick => Some (inl FileStat)
  | _, _ => None
  end.
Definition errLeadershipLost : string := "leadership lost".
Definition waitForSocket (pc : socket_pc) (e : event) : option (socket_pc + option string) :=
  match pc, e with
  | SocketStat, Stat present _ => Some (if negb present then inr (Some errLeadershipLost) else inl SocketDial)
  | SocketDial, Dial accepted => Some (if accepted then inr None else inl SocketSelect)
  | SocketSelect, CtxDone => Some (inr (Some "context canceled"))
  | SocketSelect, Tick => Some (inl SocketStat)
  | _, _ => None
  end.
(** SIGTERM was sent on entry. *)
Definition terminateChild (pc : terminate_pc) (e : event) : option ((terminate_pc * list signal) + unit) :=
  match pc, e with
  | AfterTerm, ChildDone _ => Some (inr tt)
  | AfterTerm, GraceOver => Some (inl (AfterKill, [SIGKILL]))
  | AfterKill, ChildDone _ => Some (inr tt)
  | _, _ => None
  end.
Definition exit_code (r : wait_result) : Z :=
  match r with ExitedZero => 0 | ExitError code => code | WaitError => 1 end.

(** One turn of [monitorLoop], with the signals it sends. *)
Definition monitorLoop (debounce : Z) (pc : monitor_pc) (missingSince : option Z) (e : event) :
  option (phase * list signal) :=
  match pc, e with
  | MonitorSelect, CtxDone => Some (Terminating AfterTerm true, [SIGTERM])
  | MonitorSelect, ChildDone r => Some (Exited (exit_code r), [])
  | MonitorSelect, Tick => Some (Monitoring MonitorStat missingSince, [])
  | MonitorStat, Stat true _ => Some (Monitoring MonitorSelect None, [])
  | MonitorStat, Stat false now =>
      match missingSince with
      | None => Some (Monitoring MonitorSelect (Some now), [])
      | Some t =>
          if now - t <? debounce then Some (Monitoring MonitorSelect missingSince, [])
          else Some (Terminating AfterTerm false, [SIGTERM])
      end
  | _, _ => None
  end.

(** The loop of [main]. *)
Definition main_step (debounce : Z) (p : phase) (e : event) : option (phase * list signal) :=
  match p with
  | WaitingForFile pc =>
      match waitForLeaderFile pc e with
      | Some (inl pc') => Some (WaitingForFile pc', [])
      | Some (inr None) => Some (WaitingForSocket SocketStat, [])
      | Some (inr (Some _)) => Some (Exited 0, [])
      | None => None
      end
  | WaitingForSocket pc =>
      match waitForSocket pc e with
      | Some (inl pc') => Some (WaitingForSocket pc', [])
      | Some (inr None) => Some (Starting, [])
      | Some (inr (Some err)) =>
          Some (if bool_decide (err = errLeadershipLost) then WaitingForFile FileStat else Exited 0, [])
      | None => None
      end
  | Starting =>
      match e with
      | Spawn ok => Some (if ok then Monitoring MonitorSelect None else Exited 1, [])
      | _ => None
      end
  | Monitoring pc missingSince => monitorLoop debounce pc missingSince e
  | Terminating pc leaving =>
      match terminateChild pc e with
      | Some (inl (pc', sig)) => Some (Terminating pc' leaving, sig)
      | Some (inr _) => Some (if leaving then Exited 0 else WaitingForFile FileStat, [])
      | None => None
      end
  | Exited _ => None
  end.

Definition start : phase := WaitingForFile FileStat.
(** A run: the events in order, with the signals sent. *)
Fixpoint main_run (debounce : Z) (p : phase) (es : list event) : option (phase * list signal) :=
  match es with
  | [] => Some (p, [])
  | e :: es' =>
      match main_step debounce p e with
      | Some (p', sig) =>
          match main_run debounce p' es' with Some (p'', sig') => Some (p'', sig ++ sig') | None => None end
      | None => None
      end
  end.

(** * Theorems *)

(** ** The child *)

(** Children started and not yet waited for, after a run. *)
Fixpoint children (es : list event) : Z :=
  match es with
  | [] => 0
  | Spawn true :: es' => 1 + children es'
  | ChildDone _ :: es' => children es' - 1
  | _ :: es' => children es'
  end.
Definition has_child (p : phase) : bool :=
  match p with Monitoring _ _ | Terminating _ _ => true | _ => false end.

Lemma main_step_child d p e p' sig : main_step d p e = Some (p', sig) ->
  children [e] = Z.b2z (has_child p') - Z.b2z (has_child p).
Proof.
  unfold main_step, waitForLeaderFile, waitForSocket, terminateChild, monitorLoop.
  repeat case_match; naive_solver.
Qed.
Lemma children_app es es' : children (es ++ es') = children es + children es'.
Proof. induction es as [|e es IH]; [done|]. destruct e as [ | | [] | | | | ]; cbn in *; lia. Qed.
Lemma main_run_child d es : forall p p' sig, main_run d p es = Some (p', sig) ->
  children es = Z.b2z (has_child p') - Z.b2z (has_child p).
Proof.
  induction es as [|e es IH]; intros p p' sig; cbn [main_run].
  { intros [= <- _]. cbn. lia. }
  destruct (main_step d p e) as [[p1 sig1]|] eqn:E; [|done].
  destruct (main_run d p1 es) as [[p2 sig2]|] eqn:E2; [|done]. intros [= <- _].
  change (children ([e] ++ es) = Z.b2z (has_child p2) - Z.b2z (has_child p)).
  rewrite children_app, (main_step_child _ _ _ _ _ E), (IH _ _ _ E2). lia.
Qed.
Lemma main_run_app d es es' p : main_run d p (es ++ es') =
  match main_run d p es with
  | Some (p1, sig) => match main_run d p1 es' with Some (p2, sig') => Some (p2, sig ++ sig') | None => None end
  | None => None
  end.
Proof.
  revert p. induction es as [|e es IH]; intros p; cbn [main_run app].
  { by destruct (main_run d p es') as [[p2 sig]|]. }
  destruct (main_step d p e) as [[p1 sig1]|]; [|done]. rewrite IH.
  destruct (main_run d p1 es) as [[p2 sig2]|]; [|done].
  destruct (main_run d p2 es') as [[p3 sig3]|]; [|done]. by rewrite app_assoc.
Qed.

(** (C15) One sidecar at a time, and none left behind: at every point of every run
    the process has at most one child, and none when it waits or has exited. *)
Theorem one_child d es p sig : main_run d start es = Some (p, sig) ->
  children es = (if has_child p then 1 else 0) /\ forall code, p = Exited code -> children es = 0.
Proof.
  intros E. apply main_run_child in E. cbn in E. split; [destruct (has_child p); cbn in E; lia|].
  intros code ->. cbn in E. lia.
Qed.

(** The last events before a phase, as far as they matter. *)
Definition guard (p : phase) (es : list event) : Prop :=
  match p with
  | WaitingForSocket SocketDial => exists pre t, es = pre ++ [Stat true t]
  | Starting => exists pre t, es = pre ++ [Stat true t; Dial true]
  | _ => True
  end.
Lemma main_step_guard d p e p' sig es : main_step d p e = Some (p', sig) -> guard p es -> guard p' (es ++ [e]).
Proof.
  intros E G. destruct p as [[]|[]| |[] ?|[] ?|?], e as [[] ?| [] | [] | | | | ]; cbn in E; simplify_eq; cbn; eauto.
  - destruct G as (pre & t & ->). exists pre, t. by rewrite <- app_assoc.
  - repeat case_match; simplify_eq; done.
  - by destruct leaving.
  - by destruct leaving.
Qed.
Lemma main_step_starting d p e sig : main_step d p e = Some (Starting, sig) ->
  p = WaitingForSocket SocketDial /\ e = Dial true.
Proof.
  intros E. destruct p as [[]|[]| |[] ?|[] ?|?], e as [[] ?| [] | [] | | | | ]; cbn in E; simplify_eq; try done.
  - repeat case_match; simplify_eq.
  - by destruct leaving.
  - by destruct leaving.
Qed.
Lemma main_run_guard d es : forall p sig, main_run d start es = Some (p, sig) -> guard p es.
Proof.
  induction es as [|e es IH] using rev_ind; intros p sig; [by intros [= <- _]|].
  rewrite main_run_app. destruct (main_run d start es) as [[p1 sig1]|] eqn:E1; [|done]. cbn.
  destruct (main_step d p1 e) as [[p2 sig2]|] eqn:E2; [|done]. intros [= <- _].
  by eapply main_step_guard, IH.
Qed.

(** A sidecar is started only by a leader that serves: in every run, right
    before a child is started the leader file was there and then the socket
    accepted a connection. *)
Theorem start_guarded d pre ok post r : main_run d start (pre ++ Spawn ok :: post) = Some r ->
  exists pre' t, pre = pre' ++ [Stat true t; Dial true].
Proof.
  rewrite main_run_app. destruct (main_run d start pre) as [[p sig]|] eqn:E; [|done].
  apply main_run_guard in E. cbn [main_run]. destruct p as [[]|[]| |[] ?|[] ?|?]; try done.
Qed.

(** ** Losing the leadership *)

(** What the ticks of the monitor loop see, and the events they are. *)
Definition observation : Type := Z * bool.                   (* time, leader file present *)
Definition ticks (obs : list observation) : list event := obs ≫= fun '(t, b) => [Tick; Stat b t].

(** Since when the file is missing: the first of the observations after the
    last one that saw it. *)
Definition missing_since (obs : list observation) (t0 : Z) : Prop :=
  exists pre mid, obs = pre ++ (t0, false) :: mid /\ Forall (fun o => snd o = false) mid /\
    (pre = [] \/ exists pre' t, pre = pre' ++ [(t, true)]).
(** The last observation shows that the leadership is lost. *)
Definition shows_loss (d : Z) (obs : list observation) : Prop :=
  exists seen t0 t, obs = seen ++ [(t, false)] /\ missing_since seen t0 /\ d <= t - t0.

Lemma missing_since_snoc obs t b t0 :
  missing_since (obs ++ [(t, b)]) t0 <->
  b = false /\ (missing_since obs t0 \/ ((obs = [] \/ exists pre' t', obs = pre' ++ [(t', true)]) /\ t0 = t)).
Proof.
  split.
  - intros (pre & mid & E & Hmid & Hpre). destruct mid as [|o mid _] using rev_ind.
    + apply app_inj_tail in E as [-> [= -> ->]]. split; [done|]. by right.
    + rewrite app_comm_cons, app_assoc in E. apply app_inj_tail in E as [-> <-].
      apply Forall_app in Hmid as [Hmid Ho]. rewrite Forall_singleton in Ho. cbn in Ho. subst b.
      split; [reflexivity|]. left. exists pre, mid. split; [reflexivity|]. by split.
  - intros (-> & [(pre & mid & -> & Hmid & Hpre)|[Hobs ->]]).
    + exists pre, (mid ++ [(t, false)]). split_and!; [by rewrite <- app_assoc|by apply Forall_app; repeat constructor|done].
    + by exists obs, [].
Qed.
Lemma missing_since_functional obs t1 t2 : missing_since obs t1 -> missing_since obs t2 -> t1 = t2.
Proof.
  revert t1 t2. induction obs as [|[t b] obs IH] using rev_ind; intros t1 t2.
  { by intros (pre & mid & E & _); destruct pre. }
  intros [-> [H1|[H1 ->]]]%missing_since_snoc [_ [H2|[H2 ->]]]%missing_since_snoc; eauto.
  - exfalso. destruct H2 as [->|(pre' & t' & ->)]; [by destruct H1 as ([] & ? & ? & _)|].
    by apply missing_since_snoc in H1 as [? _].
  - exfalso. destruct H1 as [->|(pre' & t' & ->)]; [by destruct H2 as ([] & ? & ? & _)|].
    by apply missing_since_snoc in H2 as [? _].
Qed.

(** The variable [missingSince] after some observations. *)
Definition tracks (m : option Z) (obs : list observation) : Prop :=
  match m with
  | None => obs = [] \/ exists pre t, obs = pre ++ [(t, true)]
  | Some t0 => missing_since obs t0
  end.
Lemma ticks_snoc obs t b : ticks (obs ++ [(t, b)]) = ticks obs ++ [Tick; Stat b t].
Proof. unfold ticks. by rewrite bind_app. Qed.
Abbreviation watching m := (Monitoring MonitorSelect m).
Abbreviation stopping := (Terminating AfterTerm false).

(** One more observation. *)
Lemma observe d m obs t b : tracks m obs ->
  (shows_loss d (obs ++ [(t, b)]) /\ main_run d (watching m) [Tick; Stat b t] = Some (stopping, [SIGTERM])) \/
  (~ shows_loss d (obs ++ [(t, b)]) /\ exists m', tracks m' (obs ++ [(t, b)]) /\
     main_run d (watching m) [Tick; Stat b t] = Some (watching m', [])).
Proof.
  intros Hm. unfold shows_loss. destruct b; [right|destruct m as [t0|]].
  - split; [intros (? & ? & ? & E & _); by apply app_inj_tail in E as [_ ?]|]. exists None. split; [right; eauto|done].
  - cbn in Hm. cbn. destruct (Z.ltb_spec (t - t0) d); [right|left].
    + split; [|exists (Some t0); split; [apply missing_since_snoc; eauto|done]].
      intros (seen & t0' & t' & E & Hs & Hd). apply app_inj_tail in E as [<- [= <-]].
      pose proof (missing_since_functional _ _ _ Hs Hm). lia.
    + split; [|done]. by exists obs, t0, t.
  - right. split; [|exists (Some t); split; [apply missing_since_snoc; eauto|done]].
    intros (seen & t0 & t' & E & Hs & _). apply app_inj_tail in E as [<- _]. cbn in Hm.
    destruct Hm as [->|(pre & t1 & ->)]; [by destruct Hs as ([] & ? & ? & _)|].
    by apply missing_since_snoc in Hs as [? _].
Qed.

(** (C13) The monitor stops the sidecar exactly when the leader file has been
    missing for the debounce period: as long as no earlier observation showed a
    loss, the loop stops the child with SIGTERM if and only if the file was
    missing at each observation over at least that period. *)
Theorem debounce_exact d obs :
  (forall obs' o rest, obs = obs' ++ o :: rest -> ~ shows_loss d obs') ->
  (shows_loss d obs <-> main_run d (watching None) (ticks obs) = Some (stopping, [SIGTERM])) /\
  (~ shows_loss d obs <-> exists m, main_run d (watching None) (ticks obs) = Some (watching m, [])).
Proof.
  intros Hbefore. enough ((shows_loss d obs /\ main_run d (watching None) (ticks obs) = Some (stopping, [SIGTERM])) \/
    (~ shows_loss d obs /\ exists m, tracks m obs /\ main_run d (watching None) (ticks obs) = Some (watching m, [])))
    as [[? E]|(? & m & ? & E)] by (rewrite E; split; split; eauto; naive_solver).
  induction obs as [|[t b] obs IH] using rev_ind.
  { right. split; [intros (seen & ? & ? & E & _); by destruct seen|]. exists None. split; [by left|done]. }
  destruct IH as [[Hl _]|(_ & m & Hm & E)].
  - intros obs' o rest ->. eapply Hbefore. by rewrite <- app_assoc.
  - by destruct (Hbefore obs (t, b) []).
  - rewrite ticks_snoc, main_run_app, E. destruct (observe d m obs t b Hm) as [[Hl ->]|(Hl & m' & Hm' & ->)]; eauto.
Qed.

(** Observations at most [p] apart, the first at most [p] after [u]. *)
Fixpoint spaced (p u : Z) (obs : list observation) : Prop :=
  match obs with [] => True | (t, _) :: obs' => u <= t <= u + p /\ spaced p t obs' end.
Lemma missing_run d t0 p obs : forall u, spaced p u obs -> Forall (fun o => snd o = false) obs -> u < t0 + d ->
  Exists (fun o => t0 + d <= fst o) obs ->
  exists seen t rest, obs = seen ++ (t, false) :: rest /\ t < t0 + d + p /\
    main_run d (watching (Some t0)) (ticks (seen ++ [(t, false)])) = Some (stopping, [SIGTERM]).
Proof.
  induction obs as [|[t b] obs IH]; intros u Hs Hf Hu Hex; [by apply Exists_nil in Hex|].
  destruct Hs as [Ht Hs]. apply Forall_cons in Hf as [Hb Hf]. cbn in Hb. subst b.
  destruct (Z.ltb_spec (t - t0) d) as [Hd|Hd].
  - apply Exists_cons in Hex as [Hex|Hex]; [cbn in Hex; lia|].
    destruct (IH t Hs Hf ltac:(lia) Hex) as (seen & t' & rest & -> & Ht' & E).
    exists ((t, false) :: seen), t', rest. split; [done|]. split; [lia|].
    change (ticks (((t, false) :: seen) ++ [(t', false)])) with ([Tick; Stat false t] ++ ticks (seen ++ [(t', false)])).
    rewrite main_run_app. cbn [main_run main_step monitorLoop]. apply Z.ltb_lt in Hd. rewrite Hd.
    cbn [app]. rewrite E. done.
  - exists [], t, obs. split; [done|]. split; [lia|]. cbn. apply Z.ltb_ge in Hd. by rewrite Hd.
Qed.

(** (C14) A lost leadership stops the sidecar in time: once the leader file stays
    away, with ticks at most [p] apart, the child gets SIGTERM less than the
    debounce period and two ticks after [u]. *)
Theorem loss_bounded d p u obs : 0 < d -> spaced p u obs -> Forall (fun o => snd o = false) obs ->
  Exists (fun o => u + p + d <= fst o) obs ->
  exists seen t rest, obs = seen ++ (t, false) :: rest /\ t < u + d + 2 * p /\
    main_run d (watching None) (ticks (seen ++ [(t, false)])) = Some (stopping, [SIGTERM]).
Proof.
  intros Hd Hs Hf Hex. destruct obs as [|[t0 b] obs]; [by apply Exists_nil in Hex|].
  destruct Hs as [Ht Hs]. apply Forall_cons in Hf as [Hb Hf]. cbn in Hb. subst b.
  apply Exists_cons in Hex as [Hex|Hex]; [cbn in Hex; lia|].
  destruct (missing_run d t0 p obs t0 Hs Hf ltac:(lia)) as (seen & t & rest & -> & Hlt & E).
  { eapply Exists_impl; [exact Hex|]. intros o. cbn. lia. }
  exists ((t0, false) :: seen), t, rest. split; [done|]. split; [lia|].
  change (ticks (((t0, false) :: seen) ++ [(t, false)])) with ([Tick; Stat false t0] ++ ticks (seen ++ [(t, false)])).
  rewrite main_run_app. cbn [main_run main_step monitorLoop app]. by rewrite E.
Qed.

(** ** Intervals *)

Lemma parseEnvInt_pos getenv name n : 0 < n -> 0 < parseEnvInt getenv name n.
Proof.
  intros Hn. unfold parseEnvInt. case_bool_decide; [done|].
  destruct (Atoi _) as [k|e|]; [|done..]. by destruct (Z.leb_spec k 0).
Qed.
(** Up to 9223372036 seconds, an interval is what it says and a ticker accepts it. *)
Lemma seconds_exact n : 0 < n <= 9223372036 -> seconds n = n * second /\ NewTicker (seconds n) = Ok tt.
Proof.
  intros Hn. assert (E : seconds n = n * second) by (unfold seconds, second; apply wrap64_id; unfold in_int64; lia).
  split; [done|]. rewrite E. unfold NewTicker, second. by destruct (Z.leb_spec (n * 1000000000) 0); [lia|].
Qed.
(** One second more wraps around, and the first ticker panics. *)
Example poll_interval_overflow :
  match configure (fun x => if bool_decide (x = "WAIT_POLL_INTERVAL") then "9223372037" else "") ["gate"; "sidecar"] with
  | inr c => NewTicker (pollInterval c) = Panic
  | inl _ => False
  end.
Proof. vm_compute. reflexivity. Qed.

(** ** Witnesses *)

Definition demo_obs : list observation := [(0, true); (1, false); (2, false); (3, false); (4, false)].
Definition demo_events : list event :=
  [Stat false 0; Tick; Stat true 1; Stat true 1; Dial false; Tick; Stat true 1; Dial true; Spawn true].
Lemma one_child_witness :
  children (demo_events ++ ticks demo_obs) = 1 /\
  main_run 3 start (demo_events ++ ticks demo_obs) = Some (stopping, [SIGTERM]).
Proof.
  assert (E : main_run 3 start (demo_events ++ ticks demo_obs) = Some (stopping, [SIGTERM])) by reflexivity.
  split; [|exact E]. exact (proj1 (one_child 3 _ _ _ E)).
Defined.
Lemma start_guarded_witness : exists pre' t,
  [Stat false 0; Tick; Stat true 1; Stat true 1; Dial false; Tick; Stat true 1; Dial true] = pre' ++ [Stat true t; Dial true].
Proof. apply (start_guarded 3 _ true (ticks demo_obs) (stopping, [SIGTERM])). reflexivity. Defined.
Lemma debounce_exact_witness : main_run 3 (watching None) (ticks demo_obs) = Some (stopping, [SIGTERM]).
Proof.
  apply (debounce_exact 3 demo_obs).
  - intros obs' o rest E (seen & t0 & t & -> & (pre & mid & -> & Hmid & Hpre) & Hd).
    assert (Hlen : (length pre + length mid + 3 <= 5)%nat)
      by (apply (f_equal length) in E; rewrite !length_app in E; cbn [length demo_obs] in E; lia).
    destruct pre as [|? [|? [|? ?]]], mid as [|? [|? [|? ?]]]; cbn in E, Hlen; try lia; unfold demo_obs in E; simplify_eq; lia.
  - exists (take 4 demo_obs), 1, 4. split; [reflexivity|]. split; [|lia].
    exists [(0, true)], [(2, false); (3, false)]. split; [reflexivity|]. split; [repeat constructor|].
    right. by exists [], 0.
Defined.
Lemma loss_bounded_witness : exists seen t rest, drop 1 demo_obs = seen ++ (t, false) :: rest /\ t < 4 /\
  main_run 2 (watching None) (ticks (seen ++ [(t, false)])) = Some (stopping, [SIGTERM]).
Proof.
  apply (loss_bounded 2 1 0 (drop 1 demo_obs)); [lia|cbn; lia|repeat constructor|].
  do 3 right. left. cbn. lia.
Defined.
End Gate.
