(* ===== verification/Objects.v ===== *)
(** * Volumes and snapshots of the driver (volume.go, snapshot.go, driverconfig.go)

    The structs [Volume] and [Snapshot], which refer to each other, the
    configuration their methods read, and one setter per field of a volume
    that the methods assign. *)
From S2P Require Import Prelude.
From S2P Require Import GoStrings.
From S2P Require Import Hashing.
From S2P Require Import MountOptions.
From S2P Require Import VolumeIds.
From S2P Require Import ApiObjects.
From S2P Require Import Compatibility.

(** The polling limit on deletions (snapshot.go), two hours. *)
Definition MaxSnapshotDeletionDuration : Z := 2 * 3600 * 1000000000.

Inductive DataTransport := dataTransportNfs | dataTransportWekafs.
#[export] Instance DataTransport_eq_dec : EqDecision DataTransport.
Proof. solve_decision. Defined.

(** The configuration the volumes and the controller read. *)
Record DriverConfig := MkConfig {
  DynamicVolPath : string; VolumePrefix : string; SnapshotPrefix : string; SeedSnapshotPrefix : string;
  allowAutoFsCreation : bool; allowAutoFsExpansion : bool; allowSnapshotsOfDirectoryVolumes : bool;
  debugPath : string; alwaysAllowSnapshotVolumes : bool;
  mutuallyExclusiveOptions : list mutuallyExclusiveMountOptionSet;
  waitForObjectDeletion : bool; allowEncryptionWithoutKms : bool; enforceDirVolTotalCapacity : bool;
  setOwnershipOnDynamicFilesystems : bool; keepThinProvisioningRatioOnExpand : bool;
  csiVersion : string;
  driverName : string                    (* GetDriver().name *)
}.
(** The server of a volume ([AnyServer]): its configuration, the default mount
    options and the transport of its mounter ([None] is a nil mounter). *)
Record Server := MkServer {
  getConfig : DriverConfig;
  srv_DefaultMountOptions : MountOptions;
  srv_Mounter : option DataTransport
}.
Definition isInDevMode (c : DriverConfig) : bool := negb (bool_decide (debugPath c = "")).

Inductive Volume := MkVolume {
  v_id : string;
  FilesystemName : string;
  filesystemGroupName : string;
  SnapshotName : string;
  SnapshotAccessPoint : string;
  SnapshotUuid : option Z;
  innerPath : string;
  apiClient : option ApiClient;
  permissions : Z;
  ownerUid : Z;
  ownerGid : Z;
  mountPath : string;
  enforceCapacity : bool;
  initialFilesystemSize : Z;
  mountOptions : MountOptions;
  encrypted : option bool;
  manageEncryptionKeys : bool;
  encryptWithoutKms : bool;
  kmsVaultNamespace : string;
  kmsVaultKeyIdentifier : string;
  kmsVaultRoleId : string;
  kmsVaultSecretId : string;
  srcVolume : option Volume;
  srcSnapshot : option Snapshot;
  fileSystemObject : option FileSystem;
  snapshotObject : option WekaSnapshot
}
with Snapshot : Type := MkSnapshot {
  s_id : string;
  s_FilesystemName : string;
  s_SnapshotNameHash : string;
  s_SnapshotIntegrityId : string;
  s_SnapshotName : string;
  s_innerPath : string;
  s_SourceVolume : option Volume;
  s_srcSnapshotUid : option Z;
  s_apiClient : option ApiClient
}.

Definition set_filesystemGroupName (x : string) (v : Volume) : Volume :=
    MkVolume (v_id v) (FilesystemName v) x (SnapshotName v) (SnapshotAccessPoint v) (SnapshotUuid v)
    (innerPath v) (apiClient v) (permissions v) (ownerUid v) (ownerGid v) (mountPath v) (enforceCapacity
    v) (initialFilesystemSize v) (mountOptions v) (encrypted v) (manageEncryptionKeys v)
    (encryptWithoutKms v) (kmsVaultNamespace v) (kmsVaultKeyIdentifier v) (kmsVaultRoleId v)
    (kmsVaultSecretId v) (srcVolume v) (srcSnapshot v) (fileSystemObject v) (snapshotObject v).
Definition set_permissions (x : Z) (v : Volume) : Volume :=
    MkVolume (v_id v) (FilesystemName v) (filesystemGroupName v) (SnapshotName v) (SnapshotAccessPoint
    v) (SnapshotUuid v) (innerPath v) (apiClient v) x (ownerUid v) (ownerGid v) (mountPath v)
    (enforceCapacity v) (initialFilesystemSize v) (mountOptions v) (encrypted v) (manageEncryptionKeys
    v) (encryptWithoutKms v) (kmsVaultNamespace v) (kmsVaultKeyIdentifier v) (kmsVaultRoleId v)
    (kmsVaultSecretId v) (srcVolume v) (srcSnapshot v) (fileSystemObject v) (snapshotObject v).
Definition set_ownerUid (x : Z) (v : Volume) : Volume :=
    MkVolume (v_id v) (FilesystemName v) (filesystemGroupName v) (SnapshotName v) (SnapshotAccessPoint
    v) (SnapshotUuid v) (innerPath v) (apiClient v) (permissions v) x (ownerGid v) (mountPath v)
    (enforceCapacity v) (initialFilesystemSize v) (mountOptions v) (encrypted v) (manageEncryptionKeys
    v) (encryptWithoutKms v) (kmsVaultNamespace v) (kmsVaultKeyIdentifier v) (kmsVaultRoleId v)
    (kmsVaultSecretId v) (srcVolume v) (srcSnapshot v) (fileSystemObject v) (snapshotObject v).
Definition set_ownerGid (x : Z) (v : Volume) : Volume :=
    MkVolume (v_id v) (FilesystemName v) (filesystemGroupName v) (SnapshotName v) (SnapshotAccessPoint
    v) (SnapshotUuid v) (innerPath v) (apiClient v) (permissions v) (ownerUid v) x (mountPath v)
    (enforceCapacity v) (initialFilesystemSize v) (mountOptions v) (encrypted v) (manageEncryptionKeys
    v) (encryptWithoutKms v) (kmsVaultNamespace v) (kmsVaultKeyIdentifier v) (kmsVaultRoleId v)
    (kmsVaultSecretId v) (srcVolume v) (srcSnapshot v) (fileSystemObject v) (snapshotObject v).
Definition set_mountPath (x : string) (v : Volume) : Volume :=
    MkVolume (v_id v) (FilesystemName v) (filesystemGroupName v) (SnapshotName v) (SnapshotAccessPoint
    v) (SnapshotUuid v) (innerPath v) (apiClient v) (permissions v) (ownerUid v) (ownerGid v) x
    (enforceCapacity v) (initialFilesystemSize v) (mountOptions v) (encrypted v) (manageEncryptionKeys
    v) (encryptWithoutKms v) (kmsVaultNamespace v) (kmsVaultKeyIdentifier v) (kmsVaultRoleId v)
    (kmsVaultSecretId v) (srcVolume v) (srcSnapshot v) (fileSystemObject v) (snapshotObject v).
Definition set_enforceCapacity (x : bool) (v : Volume) : Volume :=
    MkVolume (v_id v) (FilesystemName v) (filesystemGroupName v) (SnapshotName v) (SnapshotAccessPoint
    v) (SnapshotUuid v) (innerPath v) (apiClient v) (permissions v) (ownerUid v) (ownerGid v) (mountPath
    v) x (initialFilesystemSize v) (mountOptions v) (encrypted v) (manageEncryptionKeys v)
    (encryptWithoutKms v) (kmsVaultNamespace v) (kmsVaultKeyIdentifier v) (kmsVaultRoleId v)
    (kmsVaultSecretId v) (srcVolume v) (srcSnapshot v) (fileSystemObject v) (snapshotObject v).
Definition set_initialFilesystemSize (x : Z) (v : Volume) : Volume :=
    MkVolume (v_id v) (FilesystemName v) (filesystemGroupName v) (SnapshotName v) (SnapshotAccessPoint
    v) (SnapshotUuid v) (innerPath v) (apiClient v) (permissions v) (ownerUid v) (ownerGid v) (mountPath
    v) (enforceCapacity v) x (mountOptions v) (encrypted v) (manageEncryptionKeys v) (encryptWithoutKms
    v) (kmsVaultNamespace v) (kmsVaultKeyIdentifier v) (kmsVaultRoleId v) (kmsVaultSecretId v)
    (srcVolume v) (srcSnapshot v) (fileSystemObject v) (snapshotObject v).
Definition set_mountOptions (x : MountOptions) (v : Volume) : Volume :=
    MkVolume (v_id v) (FilesystemName v) (filesystemGroupName v) (SnapshotName v) (SnapshotAccessPoint
    v) (SnapshotUuid v) (innerPath v) (apiClient v) (permissions v) (ownerUid v) (ownerGid v) (mountPath
    v) (enforceCapacity v) (initialFilesystemSize v) x (encrypted v) (manageEncryptionKeys v)
    (encryptWithoutKms v) (kmsVaultNamespace v) (kmsVaultKeyIdentifier v) (kmsVaultRoleId v)
    (kmsVaultSecretId v) (srcVolume v) (srcSnapshot v) (fileSystemObject v) (snapshotObject v).
Definition set_encrypted (x : option bool) (v : Volume) : Volume :=
    MkVolume (v_id v) (FilesystemName v) (filesystemGroupName v) (SnapshotName v) (SnapshotAccessPoint
    v) (SnapshotUuid v) (innerPath v) (apiClient v) (permissions v) (ownerUid v) (ownerGid v) (mountPath
    v) (enforceCapacity v) (initialFilesystemSize v) (mountOptions v) x (manageEncryptionKeys v)
    (encryptWithoutKms v) (kmsVaultNamespace v) (kmsVaultKeyIdentifier v) (kmsVaultRoleId v)
    (kmsVaultSecretId v) (srcVolume v) (srcSnapshot v) (fileSystemObject v) (snapshotObject v).
Definition set_manageEncryptionKeys (x : bool) (v : Volume) : Volume :=
    MkVolume (v_id v) (FilesystemName v) (filesystemGroupName v) (SnapshotName v) (SnapshotAccessPoint
    v) (SnapshotUuid v) (innerPath v) (apiClient v) (permissions v) (ownerUid v) (ownerGid v) (mountPath
    v) (enforceCapacity v) (initialFilesystemSize v) (mountOptions v) (encrypted v) x (encryptWithoutKms
    v) (kmsVaultNamespace v) (kmsVaultKeyIdentifier v) (kmsVaultRoleId v) (kmsVaultSecretId v)
    (srcVolume v) (srcSnapshot v) (fileSystemObject v) (snapshotObject v).
Definition set_encryptWithoutKms (x : bool) (v : Volume) : Volume :=
    MkVolume (v_id v) (FilesystemName v) (filesystemGroupName v) (SnapshotName v) (SnapshotAccessPoint
    v) (SnapshotUuid v) (innerPath v) (apiClient v) (permissions v) (ownerUid v) (ownerGid v) (mountPath
    v) (enforceCapacity v) (initialFilesystemSize v) (mountOptions v) (encrypted v)
    (manageEncryptionKeys v) x (kmsVaultNamespace v) (kmsVaultKeyIdentifier v) (kmsVaultRoleId v)
    (kmsVaultSecretId v) (srcVolume v) (srcSnapshot v) (fileSystemObject v) (snapshotObject v).
Definition set_kmsVaultNamespace (x : string) (v : Volume) : Volume :=
    MkVolume (v_id v) (FilesystemName v) (filesystemGroupName v) (SnapshotName v) (SnapshotAccessPoint
    v) (SnapshotUuid v) (innerPath v) (apiClient v) (permissions v) (ownerUid v) (ownerGid v) (mountPath
    v) (enforceCapacity v) (initialFilesystemSize v) (mountOptions v) (encrypted v)
    (manageEncryptionKeys v) (encryptWithoutKms v) x (kmsVaultKeyIdentifier v) (kmsVaultRoleId v)
    (kmsVaultSecretId v) (srcVolume v) (srcSnapshot v) (fileSystemObject v) (snapshotObject v).
Definition set_kmsVaultKeyIdentifier (x : string) (v : Volume) : Volume :=
    MkVolume (v_id v) (FilesystemName v) (filesystemGroupName v) (SnapshotName v) (SnapshotAccessPoint
    v) (SnapshotUuid v) (innerPath v) (apiClient v) (permissions v) (ownerUid v) (ownerGid v) (mountPath
    v) (enforceCapacity v) (initialFilesystemSize v) (mountOptions v) (encrypted v)
    (manageEncryptionKeys v) (encryptWithoutKms v) (kmsVaultNamespace v) x (kmsVaultRoleId v)
    (kmsVaultSecretId v) (srcVolume v) (srcSnapshot v) (fileSystemObject v) (snapshotObject v).
Definition set_kmsVaultRoleId (x : string) (v : Volume) : Volume :=
    MkVolume (v_id v) (FilesystemName v) (filesystemGroupName v) (SnapshotName v) (SnapshotAccessPoint
    v) (SnapshotUuid v) (innerPath v) (apiClient v) (permissions v) (ownerUid v) (ownerGid v) (mountPath
    v) (enforceCapacity v) (initialFilesystemSize v) (mountOptions v) (encrypted v)
    (manageEncryptionKeys v) (encryptWithoutKms v) (kmsVaultNamespace v) (kmsVaultKeyIdentifier v) x
    (kmsVaultSecretId v) (srcVolume v) (srcSnapshot v) (fileSystemObject v) (snapshotObject v).
Definition set_kmsVaultSecretId (x : string) (v : Volume) : Volume :=
    MkVolume (v_id v) (FilesystemName v) (filesystemGroupName v) (SnapshotName v) (SnapshotAccessPoint
    v) (SnapshotUuid v) (innerPath v) (apiClient v) (permissions v) (ownerUid v) (ownerGid v) (mountPath
    v) (enforceCapacity v) (initialFilesystemSize v) (mountOptions v) (encrypted v)
    (manageEncryptionKeys v) (encryptWithoutKms v) (kmsVaultNamespace v) (kmsVaultKeyIdentifier v)
    (kmsVaultRoleId v) x (srcVolume v) (srcSnapshot v) (fileSystemObject v) (snapshotObject v).
Definition set_fileSystemObject (x : option FileSystem) (v : Volume) : Volume :=
    MkVolume (v_id v) (FilesystemName v) (filesystemGroupName v) (SnapshotName v) (SnapshotAccessPoint
    v) (SnapshotUuid v) (innerPath v) (apiClient v) (permissions v) (ownerUid v) (ownerGid v) (mountPath
    v) (enforceCapacity v) (initialFilesystemSize v) (mountOptions v) (encrypted v)
    (manageEncryptionKeys v) (encryptWithoutKms v) (kmsVaultNamespace v) (kmsVaultKeyIdentifier v)
    (kmsVaultRoleId v) (kmsVaultSecretId v) (srcVolume v) (srcSnapshot v) x (snapshotObject v).
Definition set_snapshotObject (x : option WekaSnapshot) (v : Volume) : Volume :=
    MkVolume (v_id v) (FilesystemName v) (filesystemGroupName v) (SnapshotName v) (SnapshotAccessPoint
    v) (SnapshotUuid v) (innerPath v) (apiClient v) (permissions v) (ownerUid v) (ownerGid v) (mountPath
    v) (enforceCapacity v) (initialFilesystemSize v) (mountOptions v) (encrypted v)
    (manageEncryptionKeys v) (encryptWithoutKms v) (kmsVaultNamespace v) (kmsVaultKeyIdentifier v)
    (kmsVaultRoleId v) (kmsVaultSecretId v) (srcVolume v) (srcSnapshot v) (fileSystemObject v) x.
Definition set_srcSnapshot (x : option Snapshot) (v : Volume) : Volume :=
    MkVolume (v_id v) (FilesystemName v) (filesystemGroupName v) (SnapshotName v) (SnapshotAccessPoint
    v) (SnapshotUuid v) (innerPath v) (apiClient v) (permissions v) (ownerUid v) (ownerGid v) (mountPath
    v) (enforceCapacity v) (initialFilesystemSize v) (mountOptions v) (encrypted v)
    (manageEncryptionKeys v) (encryptWithoutKms v) (kmsVaultNamespace v) (kmsVaultKeyIdentifier v)
    (kmsVaultRoleId v) (kmsVaultSecretId v) (srcVolume v) x (fileSystemObject v) (snapshotObject v).
Definition set_s_SnapshotName (x : string) (s : Snapshot) : Snapshot :=
    MkSnapshot (s_id s) (s_FilesystemName s) (s_SnapshotNameHash s) (s_SnapshotIntegrityId s) x
    (s_innerPath s) (s_SourceVolume s) (s_srcSnapshotUid s) (s_apiClient s).

(** The zero value with the fields every constructor sets. *)
Definition new_volume (id fs snapName snapAP inner : string) (api : option ApiClient) : Volume :=
  MkVolume id fs "" snapName snapAP None inner api 0 0 0 "" false 0 (MkOptions ∅ []) None false false
    "" "" "" "" None None None None.

(** ** Pure methods (volume.go) *)

(** DefaultVolumePermissions = 0750 *)
Definition DefaultVolumePermissions : Z := 488.

Definition hasCustomEncryptionSettings (v : Volume) : bool :=
  negb (bool_decide (kmsVaultNamespace v = "")) || negb (bool_decide (kmsVaultKeyIdentifier v = "")) ||
  negb (bool_decide (kmsVaultRoleId v = "")) || negb (bool_decide (kmsVaultSecretId v = "")).
Definition isOnSnapshot (v : Volume) : bool :=
  if SnapshotUuid v then true else negb (bool_decide (SnapshotAccessPoint v = "")).
Definition hasInnerPath (v : Volume) : bool := negb (bool_decide (innerPath v = "")).
Definition isFilesystem (v : Volume) : bool := negb (isOnSnapshot v) && negb (hasInnerPath v).
Definition requiresGc (v : Volume) : bool := hasInnerPath v && negb (isOnSnapshot v).

Inductive ContentSource := FromVolume (id : string) | FromSnapshot (id : string).
Definition getCsiContentSource (v : Volume) : option ContentSource :=
  match srcVolume v with
  | Some src => Some (FromVolume (v_id src))
  | None => match srcSnapshot v with Some s => Some (FromSnapshot (s_id s)) | None => None end
  end.

Definition pruneUnsupportedMountOptions (v : Volume) : Volume :=
  let o := mountOptions v in
  let o := if hasOption o MountOptionSyncOnClose then
      match apiClient v with
      | Some a => if SupportsSyncOnCloseMountOption a then o else RemoveOption o MountOptionSyncOnClose
      | None => RemoveOption o MountOptionSyncOnClose
      end else o in
  let o := if hasOption o MountOptionReadOnly then RemoveOption o MountOptionReadOnly else o in
  let o := if hasOption o MountOptionContainerName then RemoveOption o MountOptionContainerName else o in
  set_mountOptions o v.
Definition initMountOptions (v : Volume) : Volume :=
  pruneUnsupportedMountOptions (set_mountOptions getDefaultMountOptions v).

Definition GetRelativePath (v : Volume) : string :=
  Path.Join (["/"] ++ (if isOnSnapshot v then [SnapshotsSubDirectory; SnapshotAccessPoint v] else []) ++
             (if hasInnerPath v then [innerPath v] else [])).
Definition GetFullPath (v : Volume) : string := Path.Join [mountPath v; GetRelativePath v].

Definition CanBeOperated (c : DriverConfig) (v : Volume) : result unit :=
  if isOnSnapshot v || isFilesystem v then
    match apiClient v with
    | None => if isInDevMode c then Panic
              else Err (EPlain "Could not obtain a valid API secret configuration for operation")
    | Some a => if SupportsFilesystemAsVolume a then Ok tt
                else Err (EPlain "volume of type Filesystem is not supported on current version of Weka cluster")
    end
  else Ok tt.

(** [scaleThinSsdOnExpand]: big.Int's [Div] is Euclidean and panics on zero;
    [Int64] of a value that does not fit is its low 64 bits. *)
Definition Ediv (a b : Z) : Z := if 0 <? b then a / b else - (a / - b).
Definition scaleThinSsdOnExpand (oldTotal oldVal newTotal : Z) (keepRatio : bool) : result Z :=
  if negb keepRatio then Ok oldVal
  else if oldTotal =? 0 then Panic
  else Ok (wrap64 (Ediv (oldVal * newTotal) oldTotal)).

Definition Min (a b : Z) : Z := if a <? b then a else b.
Definition Max (a b : Z) : Z := if b <? a then a else b.
