(* ===== verification/Effects.v ===== *)
(** * What the driver asks of its surroundings

    The REST calls of the API client (one constructor per method and object,
    [rest_target] is the method and URL), the mounter interface, operating
    system calls, the garbage collector, the Kubernetes cache and the clock.
    [Env] gives the answers; a run of a method records each call with its
    answer, latest first, so that theorems can speak about what was done, in
    which order, and on what information. *)
From S2P Require Import Prelude.
From S2P Require Import GoStrings.
From S2P Require Import Strconv.
From S2P Require Import Monad.
From S2P Require Import Hashing.
From S2P Require Import MountOptions.
From S2P Require Import ApiObjects.
From S2P Require Import ClusterObjects.
From S2P Require Import Compatibility.
From S2P Require Import Credentials.

(** What a path names. *)
Inductive path_kind := Missing | IsDirectory | IsFile.
(** Why [os.Stat] fails, as far as the driver asks. *)
Inductive stat_error := NotExist | Stale | OtherStatError.
(** [syscall.Statfs_t]: the fields the statistics of a volume use. *)
Record statfs := MkStatfs { st_Blocks : Z; st_Bavail : Z; st_Bsize : Z; st_Files : Z; st_Ffree : Z }.

(** What the capacity tracker reads of a PersistentVolume: the CSI driver and
    handle (if it is a CSI volume) and the storage capacity (if set). *)
Record PersistentVolume := MkPV { pv_csi : option (string * string); pv_capacity : option Z }.

(** What the driver sets of the options of a controller-runtime manager. *)
Record ManagerOptions := MkManagerOptions {
  HealthProbeBindAddress : string;
  LeaderElection : bool;
  LeaderElectionNamespace : string;
  LeaderElectionID : string;
  LeaderElectionReleaseOnCancel : bool;
  stripsPVs : bool                           (* Cache.ByObject transforms PersistentVolumes *)
}.

Inductive event :=
(* REST calls, through [Get], [Post], [Put] and [Delete] of the client *)
| GetFileSystems (query : FileSystem)
| GetFileSystem (uid : Z) (forceFresh : bool)
| PostFileSystem (r : FileSystemCreateRequest)
| PutFileSystem (r : FileSystemResizeRequest)
| DelFileSystem (uid : Z)
| GetFileSystemToken (uid : Z)
| GetSnapshots (query : WekaSnapshot)
| GetSnapshot (uid : Z)
| PostSnapshot (r : SnapshotCreateRequest)
| DelSnapshot (uid : Z)
| GetQuota (fs : Z) (inode : Z)
| PutQuota (r : QuotaCreateRequest)
| GetQuotas (fs : Z)
| PutQuotaUpdate (r : QuotaUpdateRequest)
| DelQuota (fs : Z) (inode : Z)
| PutSnapshot (r : SnapshotUpdateRequest)
| GetCluster
| GetKms
| GetResolvePath (fs : Z) (path : string)
| GetNfsPermissions
| PostNfsPermission (r : NfsPermissionCreateRequest)
| DelNfsPermission (uid : Z)
| GetNfsClientGroups_ (query : NfsClientGroup)
| GetNfsClientGroup (uid : Z)
| PostNfsClientGroup (r : NfsClientGroupCreateRequest)
| DelNfsClientGroup (uid : Z)
| PostNfsClientGroupRule (r : NfsClientGroupRuleCreateRequest)
| GetInterfaceGroups_
| GetContainers
(* methods of the API client that the mounters call *)
| ClientEnsureLocalContainer (allowProtocolContainers : bool) (configured : string)
| ClientGetNfsMountIp
| ClientEnsureNfsPermissions (fs : string) (version group : string)
| ClientInit (c : Credentials)              (* Init of a new client: log in, read the cluster *)
(* the mounter, and the kernel mounter below it *)
| MountFs (fs : string) (opts : MountOptions)
| UnmountFs (fs : string) (opts : MountOptions)
| KMount (source target fstype : string) (options sensitive : list string)
| KUnmount (target : string)
(* the operating system *)
| OsOpen (path : string)                    (* PathExists, pathIsDirectory *)
| OsStat (path : string)                    (* inode number *)
| OsStatfs (path : string)                  (* Bavail, Bsize *)
| OsReaddirnames (path : string) (n : Z)
| OsMkdir (path : string) (mode : Z)
| OsMkdirAll (path : string) (mode : Z)
| OsChmod (path : string) (mode : Z)
| OsChown (path : string) (uid gid : Z)
| OsRemoveAll (path : string)
| XattrGet (path : string) (name : string)
| XattrSet (path : string) (name : string) (value : string)
| ReadProcMounts
| OsReadFile (path : string)
| OsLstat (path : string)                   (* error of os.Stat *)
| OsRemove (path : string)
| OsRename (old new : string)
| OsHostname
| OsStatfsAll (path : string)
| ReadProcModules
| ReadWekaInterface
| ReadSelinuxConfig
| LocalIpAddresses
| RouteTo (host : string)                   (* GetNodeIpAddressByRouting *)
| Getenv (name : string)
| RunLocar (path : string)
| RandIntn (n : Z)
(* the garbage collector, Kubernetes, the clock *)
| TriggerGc (fs : string) (innerPath : string)
| GcInitiate (fs : string)
| ListPVs
| KubeInClusterConfig                       (* rest.InClusterConfig *)
| KubeNewForConfig                          (* kubernetes.NewForConfig *)
| KubeGetNode (name : string)
| KubeReadNode (name : string)              (* through the API reader of the manager *)
| KubeUpdateNode (name : string) (labels : option (gmap string string))
| KubeBuildConfig (kubeconfig : string)     (* clientcmd.BuildConfigFromFlags *)
| KubeNewManager (o : ManagerOptions)       (* ctrl.NewManager *)
| KubeAddHealthzCheck
| KubeAddRunnable                           (* manager.Add *)
| NetDial (proto addr : string)
| TimeNow
| TimeSleep (d : Z)
(* the semaphores that bound concurrent requests, by operation *)
| SemAcquire (op : string)
| SemRelease (op : string)
(* goroutines the code starts and does not wait for *)
| SpawnWaitFilesystemDeletion (uid : Z)
| SpawnWaitSnapshotDeletion (uid : Z)
| SpawnDeleteSnapshot (uid : Z).

Definition answer (e : event) : Type :=
  match e with
  | GetFileSystems _ => error + list FileSystem
  | GetFileSystem _ _ => error + FileSystem
  | PutFileSystem _ => error + (FileSystem -> FileSystem)  (* decoded into the given object *)
  | GetFileSystemToken _ => error + FileSystemMountToken
  | GetSnapshots _ => error + list WekaSnapshot
  | GetSnapshot _ => error + WekaSnapshot
  | PostSnapshot _ => error + WekaSnapshot
  | GetQuota _ _ => error + Quota
  | PutQuota _ | PutQuotaUpdate _ => error + Quota
  | GetQuotas _ => error + list Quota
  | PutSnapshot _ => error + WekaSnapshot
  | KubeGetNode _ | KubeReadNode _ => error + option (gmap string string)   (* the labels of the node *)
  | GetCluster => error + Z
  | GetKms => error + Kms
  | GetResolvePath _ _ => error + string
  | GetNfsPermissions => error + list NfsPermission
  | PostNfsPermission _ => error + NfsPermission
  | GetNfsClientGroups_ _ => error + list NfsClientGroup
  | GetNfsClientGroup _ => error + NfsClientGroup
  | PostNfsClientGroup _ => error + NfsClientGroup
  | PostNfsClientGroupRule _ => error + NfsClientGroupRule
  | GetInterfaceGroups_ => error + list InterfaceGroup
  | GetContainers => error + list Container
  | ClientEnsureLocalContainer _ _ | ClientGetNfsMountIp => error + string
  | MountFs _ _ => error + string
  | OsOpen _ => path_kind
  | OsStat _ => error + Z
  | OsStatfs _ => error + (Z * Z)
  | OsReaddirnames _ _ => error + list string
  | XattrGet _ _ => error + string
  | ReadProcMounts | ReadProcModules | ReadSelinuxConfig => option (list string)
  | ReadWekaInterface | LocalIpAddresses => error + list string
  | OsHostname | RouteTo _ | OsReadFile _ => error + string
  | ClientInit _ => error + ApiClient
  | OsStatfsAll _ => error + statfs
  | OsLstat _ => option stat_error
  | Getenv _ => string
  | RandIntn _ => Z
  | ListPVs => error + list PersistentVolume
  | TimeNow => Z
  | GcInitiate _ | TimeSleep _ | SemRelease _ | SpawnWaitFilesystemDeletion _ | SpawnWaitSnapshotDeletion _ | SpawnDeleteSnapshot _ => unit
  | PostFileSystem _ | DelFileSystem _ | DelSnapshot _ | DelNfsPermission _ | UnmountFs _ _
  | OsMkdir _ _ | OsMkdirAll _ _ | OsChmod _ _ | OsChown _ _ _ | OsRemoveAll _ | XattrSet _ _ _
  | TriggerGc _ _ | SemAcquire _ | DelNfsClientGroup _ | ClientEnsureNfsPermissions _ _ _
  | KMount _ _ _ _ _ | KUnmount _ | OsRemove _ | OsRename _ _ | RunLocar _ | DelQuota _ _
  | KubeInClusterConfig | KubeNewForConfig | KubeUpdateNode _ _
  | KubeBuildConfig _ | KubeNewManager _ | KubeAddHealthzCheck | KubeAddRunnable | NetDial _ _ => option error
  end.

(** ** URLs of the objects of nfs.go, interfacegroup.go and resolvepath.go *)
Definition np_BasePath : string := "nfs/permissions".
Definition np_ApiUrl (u : Z) : string := Path.Join [np_BasePath; uuid_String u].
Definition ncg_BasePath : string := "nfs/clientGroups".
Definition ncg_ApiUrl (u : Z) : string := Path.Join [ncg_BasePath; uuid_String u].
(** The identifier of the rule stands where that of the group should. *)
Definition ncgr_BasePath (r : NfsClientGroupRule) : string := Path.Join [ncg_ApiUrl (nr_Uid r); "rules"].
(** The URL is given only when joining it fails, which it does not. *)
Definition ncgr_ApiUrl (_ : NfsClientGroupRule) : string := "".
Definition nrc_ApiUrl (r : NfsClientGroupRuleCreateRequest) : string :=
  Path.Join [ncg_ApiUrl (nrc_NfsClientGroupUid r); "rules"].
Definition ig_BasePath : string := "interfaceGroups".
Definition ig_ApiUrl (u : Z) : string := Path.Join [ig_BasePath; uuid_String u].
Definition resolvePath_BasePath (fs : Z) : string := Path.Join [fs_ApiUrl fs; "resolvePath"].

(** Method and URL of the REST calls ([GetApiUrl], [GetBasePath], [getApiUrl]). *)
Definition rest_target (e : event) : option (string * string) :=
  match e with
  | GetFileSystems _ => Some ("GET", fs_BasePath)
  | GetFileSystem u _ => Some ("GET", fs_ApiUrl u)
  | PostFileSystem _ => Some ("POST", fs_BasePath)
  | PutFileSystem r => Some ("PUT", fs_ApiUrl (fsu_Uid r))
  | DelFileSystem u => Some ("DELETE", fs_ApiUrl u)
  | GetFileSystemToken u => Some ("GET", Path.Join [fs_BasePath; uuid_String u; "mountToken"])
  | GetSnapshots _ => Some ("GET", sn_BasePath)
  | GetSnapshot u => Some ("GET", sn_ApiUrl u)
  | PostSnapshot _ => Some ("POST", sn_BasePath)
  | DelSnapshot u => Some ("DELETE", sn_ApiUrl u)
  | GetQuota fs i => Some ("GET", quota_ApiUrl fs i)
  | PutQuota r => Some ("PUT", quota_ApiUrl (qc_filesystemUid r) (qc_inodeId r))
  | GetQuotas fs => Some ("GET", quota_BasePath fs)
  | PutQuotaUpdate r => Some ("PUT", quota_ApiUrl (qu_filesystemUid r) (qu_inodeId r))
  | DelQuota fs i => Some ("DELETE", quota_ApiUrl fs i)
  | PutSnapshot r => Some ("PUT", sn_ApiUrl (snapu_Uid r))
  | GetCluster => Some ("GET", "cluster")
  | GetKms => Some ("GET", "/kms")
  | GetResolvePath fs _ => Some ("GET", resolvePath_BasePath fs)
  | GetNfsPermissions => Some ("GET", np_BasePath)
  | PostNfsPermission _ => Some ("POST", np_BasePath)
  | DelNfsPermission u => Some ("DELETE", np_ApiUrl u)
  | GetNfsClientGroups_ _ => Some ("GET", ncg_BasePath)
  | GetNfsClientGroup u => Some ("GET", ncg_ApiUrl u)
  | PostNfsClientGroup _ => Some ("POST", ncg_BasePath)
  | DelNfsClientGroup u => Some ("DELETE", ncg_ApiUrl u)
  | PostNfsClientGroupRule r => Some ("POST", nrc_ApiUrl r)
  | GetInterfaceGroups_ => Some ("GET", ig_BasePath)
  | GetContainers => Some ("GET", "containers")
  | _ => None
  end.

Class Env (W : Type) := exec : forall e : event, W -> answer e * W.

Record entry := Did { ev : event; ans : answer ev }.

Record Run (W V : Type) := MkRun { obj : V; env : W; trace : list entry }.
Arguments MkRun {W V}.
Arguments obj {W V}.
Arguments env {W V}.
Arguments trace {W V}.

Section Calls.
Context {W : Type} `{Env W} {V : Type}.
Abbreviation run := (Run W V).

(** Make a call and record it. *)
Definition call (e : event) : M run (answer e) := fun s =>
  let '(a, w) := exec e (env s) in (Ok a, MkRun (obj s) w (Did e a :: trace s)).
(** Calls that return only an error, or a value and an error. *)
Definition call_err (e : event) (cast : answer e -> option error) : M run unit :=
  bind (call e) (fun a => of_err (cast a)).
Definition call_val {A} (e : event) (cast : answer e -> error + A) : M run A :=
  bind (call e) (fun a => of_sum (cast a)).

Definition self : M run V := gets obj.
Definition update (f : V -> V) : M run unit :=
  modify (fun s => MkRun (f (obj s)) (env s) (trace s)).
End Calls.

(** Run a method of another object, and keep what it did to that object. *)
Definition method_of {W V U A} (o : U) (m : M (Run W U) A) : M (Run W V) (A * U) := fun s =>
  match m (MkRun o (env s) (trace s)) with
  | (Ok a, s') => (Ok (a, obj s'), MkRun (obj s) (env s') (trace s'))
  | (Err e, s') => (Err e, MkRun (obj s) (env s') (trace s'))
  | (Panic, s') => (Panic, MkRun (obj s) (env s') (trace s'))
  end.

(** Run a method of an object that is a part of this one; what it does to that
    part stays, however it ends. *)
Definition within {W V U A} (part : V -> U) (put : U -> V -> V) (m : M (Run W U) A) : M (Run W V) A :=
  fun s =>
  let '(r, s') := m (MkRun (part (obj s)) (env s) (trace s)) in
  (r, MkRun (put (obj s') (obj s)) (env s') (trace s')).

(** ** What a method may do

    A property of runs that composes is a preorder on traces: [respects R m]
    says that every run of [m] takes a trace to an [R]-related one.  "All calls
    satisfy [P]" and "every mount is released" are such properties. *)

Section Respects.
Context {W : Type} `{Env W} {V : Type} (R : relation (list entry)) `{!PreOrder R}.
Abbreviation run := (Run W V).

Definition respects {A} (m : M run A) : Prop := forall s, R (trace s) (trace (snd (m s))).
Definition allows (e : event) : Prop := forall a tr, R tr (Did e a :: tr).

Lemma respects_silent {A} (m : M run A) : (forall s, trace (snd (m s)) = trace s) -> respects m.
Proof. intros Hm s. by rewrite Hm. Qed.
Lemma respects_ret {A} (a : A) : respects (ret a).
Proof. by apply respects_silent. Qed.
Lemma respects_throw {A} e : respects (throw (A:=A) e).
Proof. by apply respects_silent. Qed.
Lemma respects_panic {A} : respects (panic (A:=A)).
Proof. by apply respects_silent. Qed.
Lemma respects_lift {A} (r : result A) : respects (lift r).
Proof. by apply respects_silent. Qed.
Lemma respects_of_sum {A} (r : error + A) : respects (of_sum r).
Proof. by destruct r; apply respects_silent. Qed.
Lemma respects_of_err r : respects (of_err r).
Proof. by destruct r; apply respects_silent. Qed.
Lemma respects_self : respects self.
Proof. by apply respects_silent. Qed.
Lemma respects_update f : respects (update f).
Proof. by apply respects_silent. Qed.
Lemma respects_bind {A B} (m : M run A) (f : A -> M run B) :
  respects m -> (forall a, respects (f a)) -> respects (bind m f).
Proof.
  intros Hm Hf s. unfold bind. pose proof (Hm s) as E1.
  destruct (m s) as [[a|e|] s1]; cbn in *; auto. etransitivity; [done|apply Hf].
Qed.
Lemma respects_attempt {A} (m : M run A) : respects m -> respects (attempt m).
Proof. intros Hm s. unfold attempt. specialize (Hm s). by destruct (m s) as [[| |] s1]. Qed.
Lemma respects_both {A} (m : M run A) c : respects m -> respects c -> respects (both m c).
Proof.
  intros Hm Hc s. unfold both. specialize (Hm s). destruct (m s) as [r s1]; cbn in *.
  specialize (Hc s1). destruct (c s1) as [[e|e|] s2]; cbn in *; by etransitivity.
Qed.
Lemma respects_call e : allows e -> respects (call e).
Proof. intros HP s. unfold call. destruct (exec e (env s)) as [a w]. apply HP. Qed.
Lemma respects_call_err e cast : allows e -> respects (call_err e cast).
Proof. intros HP. apply respects_bind; [by apply respects_call|]. intros a. apply respects_of_err. Qed.
Lemma respects_call_val {A} e (cast : answer e -> error + A) : allows e -> respects (call_val e cast).
Proof. intros HP. apply respects_bind; [by apply respects_call|]. intros a. apply respects_of_sum. Qed.
End Respects.

Lemma respects_method_of {W V U A} R (o : U) (m : M (Run W U) A) :
  respects R m -> respects (V:=V) R (method_of o m).
Proof.
  intros Hm s. unfold method_of. specialize (Hm (MkRun o (env s) (trace s))).
  by destruct (m _) as [[| |] s1].
Qed.

Lemma respects_within {W V U A} R part put (m : M (Run W U) A) :
  respects R m -> respects (V:=V) R (within part put m).
Proof.
  intros Hm s. unfold within. specialize (Hm (MkRun (part (obj s)) (env s) (trace s))).
  by destruct (m _) as [r s1].
Qed.

(** Prove [respects] along the structure of a method. *)
Create HintDb respects.
#[export] Hint Resolve respects_ret respects_throw respects_panic respects_lift respects_of_sum
  respects_of_err respects_self respects_update : respects.
#[export] Hint Extern 0 (PreOrder _) => (apply _) : respects.
Ltac respects_step :=
  match goal with
  | |- respects _ (bind _ _) => apply respects_bind; [apply _| |intros ?]
  | |- respects _ (attempt _) => apply respects_attempt
  | |- respects _ (both _ _) => apply respects_both; [apply _| |]
  | |- respects _ (method_of _ _) => apply respects_method_of
  | |- respects _ (within _ _ _) => apply respects_within
  | |- respects _ (call_err _ _) => apply respects_call_err; [apply _|]
  | |- respects _ (call_val _ _) => apply respects_call_val; [apply _|]
  | |- @respects _ _ _ _ ?m => match m with call ?e => refine (respects_call _ e _) end
  | |- respects _ (if ?b then _ else _) => destruct b
  | |- respects _ (match ?x with _ => _ end) => destruct x
  | |- respects _ (let _ := _ in _) => cbv zeta
  end.
Ltac respects := repeat first [solve [eauto 3 with respects] | respects_step].

(** ** What a method leaves alone

    [preserves f m]: no run of [m] changes the part [f] of its object. *)
Section Preserves.
Context {W : Type} `{Env W} {V B : Type} (f : V -> B).
Abbreviation run := (Run W V).
Definition preserves {A} (m : M run A) : Prop := forall s, f (obj (snd (m s))) = f (obj s).

Lemma preserves_silent {A} (m : M run A) : (forall s, obj (snd (m s)) = obj s) -> preserves m.
Proof. intros Hm s. by rewrite Hm. Qed.
Lemma preserves_ret {A} (a : A) : preserves (ret a).
Proof. by apply preserves_silent. Qed.
Lemma preserves_throw {A} e : preserves (throw (A:=A) e).
Proof. by apply preserves_silent. Qed.
Lemma preserves_panic {A} : preserves (panic (A:=A)).
Proof. by apply preserves_silent. Qed.
Lemma preserves_lift {A} (r : result A) : preserves (lift r).
Proof. by apply preserves_silent. Qed.
Lemma preserves_of_sum {A} (r : error + A) : preserves (of_sum r).
Proof. by destruct r; apply preserves_silent. Qed.
Lemma preserves_of_err r : preserves (of_err r).
Proof. by destruct r; apply preserves_silent. Qed.
Lemma preserves_self : preserves self.
Proof. by apply preserves_silent. Qed.
Lemma preserves_update g : (forall v, f (g v) = f v) -> preserves (update g).
Proof. intros Hg s. apply Hg. Qed.
Lemma preserves_bind {A C} (m : M run A) (k : A -> M run C) :
  preserves m -> (forall a, preserves (k a)) -> preserves (bind m k).
Proof.
  intros Hm Hk s. unfold bind. pose proof (Hm s) as E.
  destruct (m s) as [[a|e|] s1]; cbn in *; auto. by rewrite Hk.
Qed.
Lemma preserves_attempt {A} (m : M run A) : preserves m -> preserves (attempt m).
Proof. intros Hm s. unfold attempt. specialize (Hm s). by destruct (m s) as [[| |] s1]. Qed.
Lemma preserves_both {A} (m : M run A) c : preserves m -> preserves c -> preserves (both m c).
Proof.
  intros Hm Hc s. unfold both. specialize (Hm s). destruct (m s) as [r s1]; cbn in *.
  specialize (Hc s1). destruct (c s1) as [[e|e|] s2]; cbn in *; congruence.
Qed.
Lemma preserves_call e : preserves (call e).
Proof. intros s. unfold call. by destruct (exec e (env s)). Qed.
Lemma preserves_call_err e cast : preserves (call_err e cast).
Proof. apply preserves_bind; [apply preserves_call|intros a; apply preserves_of_err]. Qed.
Lemma preserves_call_val {A} e (cast : answer e -> error + A) : preserves (call_val e cast).
Proof. apply preserves_bind; [apply preserves_call|intros a; apply preserves_of_sum]. Qed.
Lemma preserves_method_of {U A} (o : U) (m : M (Run W U) A) : preserves (method_of o m).
Proof. intros s. unfold method_of. by destruct (m _) as [[| |] s1]. Qed.
End Preserves.

Create HintDb preserves.
#[export] Hint Resolve preserves_ret preserves_throw preserves_panic preserves_lift preserves_of_sum
  preserves_of_err preserves_self preserves_call preserves_call_err preserves_call_val
  preserves_method_of : preserves.
#[export] Hint Extern 1 (preserves _ (update _)) => (apply preserves_update; reflexivity) : preserves.
Ltac preserves_step :=
  match goal with
  | |- preserves _ (bind _ _) => apply preserves_bind; [|intros ?]
  | |- preserves _ (attempt _) => apply preserves_attempt
  | |- preserves _ (both _ _) => apply preserves_both
  | |- preserves _ (if ?b then _ else _) => destruct b
  | |- preserves _ (match ?x with _ => _ end) => destruct x
  | |- preserves _ (let _ := _ in _) => cbv zeta
  end.
Ltac preserves := repeat first [solve [eauto 3 with preserves] | preserves_step].

(** *** The two relations *)

(** The calls since [tr] all satisfy [P]. *)
Definition only (P : entry -> Prop) (tr tr' : list entry) : Prop :=
  exists new, tr' = new ++ tr /\ Forall P new.
#[export] Instance only_preorder P : PreOrder (only P).
Proof.
  split.
  - intros tr. by exists [].
  - intros tr1 tr2 tr3 (n1 & -> & H1) (n2 & -> & H2). exists (n2 ++ n1).
    rewrite app_assoc. split; [done|]. by apply Forall_app.
Qed.
Lemma only_allows P e : (forall a, P (Did e a)) -> allows (only P) e.
Proof. intros HP a tr. exists [Did e a]. split; [done|]. by constructor. Qed.

(** The mounts that are held after a trace, latest first.  A mount that
    succeeded is held until an unmount of it succeeds: a mounter that fails to
    unmount keeps the reference. *)
Fixpoint give_back (m : string * MountOptions) (open : list (string * MountOptions)) :
    list (string * MountOptions) :=
  match open with
  | [] => []
  | m' :: rest => if decide (m = m') then rest else m' :: give_back m rest
  end.
Definition mounts_step (e : entry) (open : list (string * MountOptions)) : list (string * MountOptions) :=
  match e with
  | Did (MountFs fs opts) (inr _) => (fs, opts) :: open
  | Did (UnmountFs fs opts) None => give_back (fs, opts) open
  | _ => open
  end.
Definition open_mounts (tr : list entry) : list (string * MountOptions) := foldr mounts_step [] tr.
(** The mounts that the mounter was asked to release and could not. *)
Definition refused_unmounts (tr : list entry) : list (string * MountOptions) :=
  omap (fun e => match e with Did (UnmountFs fs opts) (Some _) => Some (fs, opts) | _ => None end) tr.

(** What is held after the calls since [tr] is what was held before them and,
    once for each time, the mounts whose release was refused. *)
Definition balanced (tr tr' : list entry) : Prop :=
  exists new, tr' = new ++ tr /\ open_mounts tr' ≡ₚ refused_unmounts new ++ open_mounts tr.

Lemma give_back_Permutation m open rest : open ≡ₚ m :: rest -> give_back m open ≡ₚ rest.
Proof.
  revert rest. induction open as [|m' open IH]; intros rest E; [by apply Permutation_nil_cons in E|].
  cbn [give_back]. case_decide as Hm; [subst; by apply Permutation_cons_inv in E|].
  assert (m ∈ open) as Hin.
  { assert (m ∈ m' :: open) as Hin by (rewrite E; by left). apply elem_of_cons in Hin as [?|?]; [by destruct Hm|done]. }
  apply elem_of_Permutation in Hin as [l Hl]. rewrite (IH l Hl). rewrite Hl, Permutation_swap in E.
  by apply Permutation_cons_inv in E.
Qed.
#[export] Instance balanced_preorder : PreOrder balanced.
Proof.
  split; [by exists []|]. intros x y z (n1 & -> & E1) (n2 & -> & E2). exists (n2 ++ n1).
  split; [apply app_assoc|]. unfold refused_unmounts in *. by rewrite E2, E1, omap_app, app_assoc.
Qed.
(** Calls other than mounts and unmounts leave the open mounts as they are. *)
Lemma balanced_call e :
  (forall fs o, e <> MountFs fs o) -> (forall fs o, e <> UnmountFs fs o) -> allows balanced e.
Proof.
  intros Hm Hu a tr. exists [Did e a]. split; [done|].
  destruct e; try done; [by destruct (Hm fs opts)|by destruct (Hu fs opts)].
Qed.

(** An unmount of a mount that is held gives it back, or is refused. *)
Lemma balanced_release fs opts a path tr tr' :
  balanced (Did (MountFs fs opts) (inr path) :: tr) tr' -> balanced tr (Did (UnmountFs fs opts) a :: tr').
Proof.
  intros (new & -> & E). exists (Did (UnmountFs fs opts) a :: new ++ [Did (MountFs fs opts) (inr path)]).
  split; [cbn; by rewrite <- app_assoc|].
  change (open_mounts (Did (MountFs fs opts) (inr path) :: tr)) with ((fs, opts) :: open_mounts tr) in E.
  rewrite <- (Permutation_middle (refused_unmounts new)) in E. destruct a as [e|].
  - unfold refused_unmounts in *. cbn. rewrite omap_app. cbn. by rewrite app_nil_r.
  - unfold refused_unmounts in *. cbn. rewrite omap_app. cbn. rewrite app_nil_r. by apply give_back_Permutation.
Qed.
