(* ===== verification/ApiOps.v ===== *)
(** * Operations of the API client on filesystems, snapshots and quotas

    filesystem.go, snapshot.go, quota.go, resolvepath.go, kms.go, encryption.go
    and the NFS permissions of nfs.go in pkg/wekafs/apiclient.  A loop that
    polls until a deadline takes from [polls] how many rounds the clock allows;
    the theorems hold for every such number. *)
From S2P Require Import Prelude.
From S2P Require Import GoStrings.
From S2P Require Import Substrings.
From S2P Require Import Strconv.
From S2P Require Import Monad.
From S2P Require Import MountOptions.
From S2P Require Import ApiObjects.
From S2P Require Import Compatibility.
From S2P Require Import ClusterObjects.
From S2P Require Import Effects.

Definition Second : Z := 1000000000.
Definition Hour : Z := 3600 * Second.

(** The rounds of a polling loop that fit in a period. *)
Class Clock := polls : Z -> nat.

Section Ops.
Context {W : Type} `{Env W} `{Clock} {V : Type}.
Abbreviation run := (Run W V).
Local Open Scope go_scope.

(** The loop over a reply that keeps what matches the query. *)
Fixpoint keep_matching {A} `{ApiObject A} (q : A) (l : list A) : result (list A) :=
  match l with
  | [] => Ok []
  | o :: l' =>
      result_bind (ObjectsAreEqual q o) (fun b =>
      result_bind (keep_matching q l') (fun r => Ok (if b then o :: r else r)))
  end.
(** Exactly one result. *)
Definition the_one {A} (l : list A) : M run A :=
  match l with
  | [] => throw ObjectNotFoundError
  | [x] => ret x
  | _ => throw MultipleObjectsFoundError
  end.

Definition required {A} `{ApiObjectRequest A} (r : A) : M run unit :=
  let! ok := lift (ObjectRequestHasRequiredFields r) in
  if ok then ret tt else throw RequestMissingParams.

(** *** filesystem.go *)

(** The object that was passed in, after the call: untouched when an error
    was swallowed. *)
Definition GetFileSystemByUid (uid : Z) (forceFresh : bool) : M run FileSystem :=
  let! r := call (GetFileSystem uid forceFresh) in
  match r with
  | inr fs => ret fs
  | inl (ApiNotFoundError _) => throw ObjectNotFoundError
  | inl (ApiBadRequestError resp) =>
      if bool_decide ("FilesystemDoesNotExistException" ∈ ErrorCodes resp)
      then throw ObjectNotFoundError else ret fs_zero
  | inl e => throw e
  end.

Definition FindFileSystemsByFilter (query : FileSystem) : M run (list FileSystem) :=
  let! l := call_val (GetFileSystems query) id in lift (keep_matching query l).
Definition GetFileSystemByFilter (query : FileSystem) : M run FileSystem :=
  let! l := FindFileSystemsByFilter query in the_one l.
Definition GetFileSystemByName (name : string) : M run FileSystem :=
  GetFileSystemByFilter (fs_query name).

Fixpoint WaitFilesystemReady (fsName : string) (n : nat) : M run FileSystem :=
  match n with
  | O => throw AsyncOperationTimedOut
  | S n' =>
      let! r := attempt (GetFileSystemByName fsName) in
      match r with
      | inl _ => WaitFilesystemReady fsName n'
      | inr fs =>
          if fs_IsReady fs then ret fs
          else if fs_IsRemoving fs then throw ObjectMarkedForDeletion
          else call (TimeSleep Second) ;; WaitFilesystemReady fsName n'
      end
  end.

Definition CreateFileSystem (r : FileSystemCreateRequest) : M run unit :=
  required r ;;
  call_err (PostFileSystem r) id ;;
  let! w := attempt (WaitFilesystemReady (fsc_Name r) (polls (30 * Second))) in
  match w with
  | inl _ => throw (EPlain "Failed to create a file system after")
  | inr _ => ret tt
  end.

(** The reply is decoded into [fs], which is returned. *)
Definition UpdateFileSystem (r : FileSystemResizeRequest) (fs : FileSystem) : M run FileSystem :=
  required r ;;
  let! decode := call_val (PutFileSystem r) id in ret (decode fs).

Definition DeleteFileSystem (uid : Z) : M run unit :=
  required (MkUidRequest uid) ;;
  let! e := call (DelFileSystem uid) in
  match e with
  | Some (ApiNotFoundError _) => throw ObjectNotFoundError
  | Some (ApiBadRequestError resp) =>
      if bool_decide ("FilesystemDoesNotExistException" ∈ ErrorCodes resp)
      then throw ObjectNotFoundError else ret tt
  | _ => ret tt
  end.

(** nfs.go: the query is empty on the wire, the filter is here. *)
Definition FindNfsPermissionsByFilesystem (fsName : string) : M run (list NfsPermission) :=
  let! l := call_val GetNfsPermissions id in
  ret (filter (fun r => np_Filesystem r = fsName) l).
(** Errors other than not-found are dropped. *)
Definition DeleteNfsPermission (uid : Z) : M run unit :=
  required (MkUidRequest uid) ;;
  let! e := call (DelNfsPermission uid) in
  match e with
  | Some (ApiNotFoundError _) => throw ObjectNotFoundError
  | Some (ApiBadRequestError resp) =>
      if bool_decide ("PermissionDoesNotExistException" ∈ ErrorCodes resp)
      then throw ObjectNotFoundError else ret tt
  | _ => ret tt
  end.
Fixpoint delete_permissions (l : list NfsPermission) : M run unit :=
  match l with
  | [] => ret tt
  | p :: l' => DeleteNfsPermission (np_Uid p) ;; delete_permissions l'
  end.
Definition EnsureNoNfsPermissionsForFilesystem (fsName : string) : M run unit :=
  let! r := attempt (FindNfsPermissionsByFilesystem fsName) in
  let permissions := match r with inl _ => [] | inr l => l end in
  delete_permissions permissions ;;
  if bool_decide (length permissions = 0%nat) then ret tt else let! _ := call (TimeSleep (5 * Second)) in ret tt.

Definition GetFileSystemMountToken (uid : Z) : M run FileSystemMountToken :=
  required (MkUidRequest uid) ;;
  let! r := call (GetFileSystemToken uid) in
  match r with
  | inl (ApiForbiddenError _) => throw MountPermissionDenied
  | inl e => throw e
  | inr t => ret t
  end.
Definition GetMountTokenForFilesystemName (a : ApiClient) (fsName : string) : M run string :=
  if negb (SupportsAuthenticatedMounts a) then ret ""
  else
    let! fs := GetFileSystemByName fsName in
    let! t := GetFileSystemMountToken (fs_Uid fs) in
    if bool_decide (token_FilesystemName t = fsName) then ret (Token t)
    else throw (EPlain "failed to fetch mount token, got token for different filesystem name").

(** *** snapshot.go *)

Definition FindSnapshotsByFilter (query : WekaSnapshot) : M run (list WekaSnapshot) :=
  let! l := call_val (GetSnapshots query) id in lift (keep_matching query l).
Definition FindSnapshotsByFilesystem (fs : FileSystem) : M run (list WekaSnapshot) :=
  if fs_Uid fs =? uuid_Nil
  then throw (EPlain "cannot search for snapshots without explicit filesystem Uid")
  else FindSnapshotsByFilter (MkSnap false "" (fs_Name fs) false "" 0 "" 0).
Definition GetSnapshotByFilter (query : WekaSnapshot) : M run WekaSnapshot :=
  let! l := FindSnapshotsByFilter query in the_one l.
Definition GetSnapshotByName (name : string) : M run WekaSnapshot :=
  GetSnapshotByFilter (sn_query name).
Definition GetSnapshotByUid (uid : Z) : M run WekaSnapshot := call_val (GetSnapshot uid) id.
Definition CreateSnapshot (r : SnapshotCreateRequest) : M run WekaSnapshot :=
  required r ;; call_val (PostSnapshot r) id.
Definition UpdateSnapshot (r : SnapshotUpdateRequest) : M run WekaSnapshot :=
  required r ;; call_val (PutSnapshot r) id.
Definition DeleteSnapshot (uid : Z) : M run unit :=
  required (MkUidRequest uid) ;;
  let! e := call (DelSnapshot uid) in
  match e with
  | Some (ApiNotFoundError _) => throw ObjectNotFoundError
  | Some (ApiBadRequestError resp) =>
      if bool_decide ("SnapshotDoesNotExistException" ∈ ErrorCodes resp)
      then throw ObjectNotFoundError else throw (ApiBadRequestError resp)
  | Some e => throw e
  | None => ret tt
  end.

(** *** quota.go *)


Definition GetQuotaByFileSystemAndInode (fs : option FileSystem) (inodeId : Z) : M run Quota :=
  match fs with
  | None => panic                       (* fs.Name is read before the nil check *)
  | Some fs =>
      if inodeId =? 0 then throw RequestMissingParams
      else
        let! r := call (GetQuota (fs_Uid fs) inodeId) in
        match r with
        | inr q => ret (MkQuota (fs_Uid fs) inodeId (q_TotalBytes q) (q_HardLimitBytes q)
                          (q_SoftLimitBytes q) (q_Status q))
        | inl (ApiNotFoundError _) => throw ObjectNotFoundError
        | inl (ApiInternalError t resp) =>
            match resp with
            | None => panic             (* t.ApiResponse.Message of a nil response *)
            | Some resp' =>
                if Contains (Message resp') "Directory has no quota"
                then throw ObjectNotFoundError else throw (ApiInternalError t resp)
            end
        | inl e => throw e
        end
  end.

Definition IsQuotaActive (q : Quota) : M run bool :=
  let! q' := GetQuotaByFileSystemAndInode
    (Some (MkFS "" "" (q_FilesystemUid q) false false 0 false false "" 0 0 false 0 0 "" "" ""))
    (q_InodeId q) in
  ret (bool_decide (q_Status q' = QuotaStatusActive)).

(** [wait.Poll]: an error of the condition ends the wait. *)
Fixpoint WaitForQuotaActive (q : Quota) (n : nat) : M run unit :=
  match n with
  | O => throw (EPlain "timed out waiting for the condition")
  | S n' =>
      call (TimeSleep Second) ;;
      let! active := IsQuotaActive q in
      if active then ret tt else WaitForQuotaActive q n'
  end.

Definition CreateQuota (r : QuotaCreateRequest) (waitForCompletion : bool) : M run Quota :=
  required r ;;
  let! q := call_val (PutQuota r) id in
  if waitForCompletion then
    let q := MkQuota (qc_filesystemUid r) (qc_inodeId r) (q_TotalBytes q) (q_HardLimitBytes q)
               (q_SoftLimitBytes q) (q_Status q) in
    WaitForQuotaActive q (polls (24 * Hour)) ;; ret q
  else ret q.

(** The required fields are not checked. *)
Definition UpdateQuota (r : QuotaUpdateRequest) : M run Quota := call_val (PutQuotaUpdate r) id.
Definition DeleteQuota (r : QuotaDeleteRequest) : M run unit :=
  required r ;; call_err (DelQuota (qd_filesystemUid r) (qd_InodeId r)) id.
Definition with_filesystem (fs : Z) (q : Quota) : Quota :=
  MkQuota fs (q_InodeId q) (q_TotalBytes q) (q_HardLimitBytes q) (q_SoftLimitBytes q) (q_Status q).
Definition FindQuotaByFilter (query : Quota) : M run (list Quota) :=
  if q_FilesystemUid query =? uuid_Nil then throw RequestMissingParams
  else
    let! l := call_val (GetQuotas (q_FilesystemUid query)) id in
    lift (keep_matching query (with_filesystem (q_FilesystemUid query) <$> l)).
Definition GetQuotaByFilter (query : Quota) : M run Quota :=
  let! l := FindQuotaByFilter query in the_one l.

(** *** resolvepath.go *)
Definition ResolvePathToInode (fs : option FileSystem) (path : string) : M run Z :=
  match fs with
  | None => throw RequestMissingParams
  | Some fs =>
      if bool_decide (path = "") then throw RequestMissingParams
      else
        let! r := call (GetResolvePath (fs_Uid fs) path) in
        let parse (inode : string) : M run Z :=
          if bool_decide (inode = "") then throw ObjectNotFoundError
          else lift (ParseUint inode 10 64) in
        match r with
        | inr inode => parse inode
        | inl (ApiNotFoundError _) => throw ObjectNotFoundError
        | inl (ApiBadRequestError resp) =>
            if Contains (Message resp) "PATH_NOT_FOUND" then throw ObjectNotFoundError else parse ""
        | inl e => throw e
        end
  end.

(** *** cluster.go, kms.go, encryption.go *)
Definition GetFreeCapacity : M run Z := call_val GetCluster id.
Definition GetKmsConfiguration : M run Kms :=
  let! kms := call_val GetKms id in
  if IsSupportedForCommonEncryptionKey kms then ret kms
  else throw (EPlain "KMS configuration is not supported").
Definition HasKmsConfiguration : M run bool :=
  let! r := attempt GetKmsConfiguration in ret (match r with inl _ => false | inr _ => true end).
Definition IsEncryptionEnabled (a : ApiClient) : M run bool :=
  if negb (SupportsEncryptionWithCommonKey a) then ret false
  else
    let! r := attempt GetKmsConfiguration in
    match r with inl _ => ret false | inr kms => ret (IsSupportedForCommonEncryptionKey kms) end.
Definition AllowsCustomEncryptionSettings (a : ApiClient) : M run bool :=
  if negb (SupportsCustomEncryptionSettings a) then ret false
  else
    let! r := attempt GetKmsConfiguration in
    match r with
    | inl _ => ret false
    | inr kms => ret (IsSupportedForCommonEncryptionKey kms && IsSupportedForEncryptionKeyPerFilesystem kms)
    end.
End Ops.
