(* ===== verification/ProcMounts.v ===== *)
(** * Reading /proc/mounts (pkg/wekafs/utilities.go)

    [PathIsWekaMount], [GetMountIpFromActualMountPoint] and
    [GetMountContainerNameFromActualMountPoint] on the lines of the file;
    [None] is a file that cannot be opened. *)
From S2P Require Import Prelude.
From S2P Require Import GoStrings.
From S2P Require Import Hashing.
From S2P Require Import MountOptions.
From S2P Require Import Monad.
From S2P Require Import Effects.

(** [strings.TrimLeft]: drops leading characters that are in the cut set. *)
Fixpoint TrimLeft (s cutset : string) : string :=
  match s with
  | String c s' => if contains_char c cutset then TrimLeft s' cutset else s
  | "" => ""
  end.

Definition line_is_weka_mount (path line : string) : bool :=
  match Fields line with
  | _ :: p :: t :: _ =>
      (bool_decide (t = "wekafs") && bool_decide (p = path)) ||
      (HasPrefix t "nfs" && bool_decide (p = path))
  | _ => false
  end.
Definition PathIsWekaMount (mounts : option (list string)) (path : string) : bool :=
  match mounts with Some lines => existsb (line_is_weka_mount path) lines | None => false end.

Fixpoint mount_ip (lines : list string) (base : string) : result string :=
  match lines with
  | [] => Err (EPlain "mount point not found")
  | l :: ls =>
      match Fields l with
      | _ :: p :: _ :: _ =>
          if HasPrefix p (base +:+ "-") then Ok (TrimLeft p (base +:+ "-")) else mount_ip ls base
      | _ => mount_ip ls base
      end
  end.
Definition GetMountIpFromActualMountPoint (mounts : option (list string)) (base : string) : result string :=
  match mounts with
  | Some lines => mount_ip lines base
  | None => Err (EPlain "failed to open /proc/mounts")
  end.

Fixpoint mount_container (lines : list string) (base : string) : result string :=
  match lines with
  | [] => Err (EPlain "mount point not found: %s")
  | l :: ls =>
      match Fields l with
      | _ :: p :: t :: opts :: _ =>
          if bool_decide (t = "wekafs") && HasPrefix p base
          then Ok (getOptionValue (NewMountOptionsFromString opts) "container_name")
          else mount_container ls base
      | _ => mount_container ls base
      end
  end.
Definition GetMountContainerNameFromActualMountPoint (mounts : option (list string)) (base : string) :
    result string :=
  match mounts with
  | Some lines => mount_container lines base
  | None => Err (EPlain "failed to open /proc/mounts")
  end.

Section Paths.
Context {W : Type} `{Env W} {V : Type}.
Local Open Scope go_scope.

(** [PathExists] dies on a file. *)
Definition PathExists (p : string) : M (Run W V) bool :=
  let! k := call (OsOpen p) in
  match k with Missing => ret false | IsDirectory => ret true | IsFile => panic end.
(** [isMounted] of a mount point. *)
Definition mount_visible (p : string) : M (Run W V) bool :=
  let! there := PathExists p in
  if there then let! mounts := call ReadProcMounts in ret (PathIsWekaMount mounts p) else ret false.
End Paths.

(** The IP is what follows "base-" in the mount point, but the cut set also
    eats leading characters of the address itself. *)
Lemma mount_ip_corrupted :
  GetMountIpFromActualMountPoint
    (Some ["10.0.0.1:/fs /run/weka-fs-mounts/fs-1-10.0.0.1 nfs4 rw 0 0"]) "/run/weka-fs-mounts/fs-1" =
  Ok "0.0.0.1" /\
  GetMountIpFromActualMountPoint
    (Some ["192.168.0.1:/fs /run/weka-fs-mounts/fs-192.168.0.1 nfs4 rw 0 0"]) "/run/weka-fs-mounts/fs" =
  Ok "192.168.0.1".
Proof. split; vm_compute; reflexivity. Qed.
