(* ===== verification/Cluster.v ===== *)
(** * Local containers and NFS interfaces (apiclient/cluster.go, interfacegroup.go)

    How the driver finds the WEKA container of its host (the driver's
    interface file, the containers of the cluster, the addresses of the host)
    and the address to mount NFS from.  The object of a run is the part of
    [ApiClient] these methods keep between calls. *)
From S2P Require Import Prelude.
From S2P Require Import GoStrings.
From S2P Require Import Substrings.
From S2P Require Import Strconv.
From S2P Require Import Hashing.
From S2P Require Import Monad.
From S2P Require Import ApiObjects.
From S2P Require Import Compatibility.
From S2P Require Import ClusterObjects.
From S2P Require Import Effects.
From S2P Require Import ApiOps.

(** ** The driver's interface file *)

(** One line of /proc/wekafs/interface. *)
Definition parse_frontend (line : string) : option ProcFsContainer :=
  if negb (Contains line "Container=") then None
  else
    let name := default "" (Split "=" line !! 1%nat) in
    let name := default "" (Split " " name !! 0%nat) in
    match Split " " line with
    | _ :: _ :: id :: _ =>
        match Atoi (default "" (Split ":" id !! 0%nat)) with
        | Ok idInt =>
            if Contains line "Frontend is not connected"
            then Some (MkProcFsContainer name 0 idInt false)
            else if negb (Contains line "Connected frontend pid") then None
            else match SplitOn "pid " line with
                 | _ :: p :: _ =>
                     match Atoi (TrimSpace p) with
                     | Ok pidInt => Some (MkProcFsContainer name pidInt idInt true)
                     | _ => None
                     end
                 | _ => None
                 end
        | _ => None
        end
    | _ => None
    end.
Definition parse_frontends (lines : list string) : list ProcFsContainer := omap parse_frontend lines.

(** ** Containers and interface groups *)

(** What the client remembers, with the credentials it was made from. *)
Record ClusterClient := MkClusterClient {
  cc_api : ApiClient;
  cc_containerName : string;
  cc_containers : option (list Container);
  cc_containersUpdateTime : Z;
  cc_LocalContainerName : string;                   (* Credentials.LocalContainerName *)
  cc_NfsTargetIPs : list string;                    (* Credentials.NfsTargetIPs *)
  cc_NfsInterfaceGroupName : string;
  cc_NfsInterfaceGroups : gmap string InterfaceGroup;
  cc_NfsClientGroupName : string
}.
Definition set_containerName (x : string) (c : ClusterClient) : ClusterClient :=
  MkClusterClient (cc_api c) x (cc_containers c) (cc_containersUpdateTime c) (cc_LocalContainerName c)
    (cc_NfsTargetIPs c) (cc_NfsInterfaceGroupName c) (cc_NfsInterfaceGroups c) (cc_NfsClientGroupName c).
Definition set_containers (l : list Container) (now : Z) (c : ClusterClient) : ClusterClient :=
  MkClusterClient (cc_api c) (cc_containerName c) (Some l) now (cc_LocalContainerName c)
    (cc_NfsTargetIPs c) (cc_NfsInterfaceGroupName c) (cc_NfsInterfaceGroups c) (cc_NfsClientGroupName c).
Definition set_NfsInterfaceGroup (n : string) (g : InterfaceGroup) (c : ClusterClient) : ClusterClient :=
  MkClusterClient (cc_api c) (cc_containerName c) (cc_containers c) (cc_containersUpdateTime c)
    (cc_LocalContainerName c) (cc_NfsTargetIPs c) (cc_NfsInterfaceGroupName c)
    (<[n := g]> (cc_NfsInterfaceGroups c)) (cc_NfsClientGroupName c).
Definition set_NfsClientGroupName (x : string) (c : ClusterClient) : ClusterClient :=
  MkClusterClient (cc_api c) (cc_containerName c) (cc_containers c) (cc_containersUpdateTime c)
    (cc_LocalContainerName c) (cc_NfsTargetIPs c) (cc_NfsInterfaceGroupName c)
    (cc_NfsInterfaceGroups c) x.

Definition SupportsMultipleClusters (a : ApiClient) : bool := SingleClientMultipleClusters (CompatibilityMap a).

(** [filterFrontendContainers], for given addresses of the host. *)
Definition frontend_eligible (procFs : list ProcFsContainer) (localIps : list string) (allowProtocolContainers : bool)
    (c : Container) : bool :=
  (bool_decide (procFs = []) || bool_decide (c_ContainerName c ∈ pc_ContainerName <$> procFs)) &&
  (bool_decide (localIps = []) || bool_decide (c_ContainerIp c ∈ localIps)) &&
  if bool_decide (c_Mode c = "backend")
  then (1 <=? c_FrontendDedicatedCores c) && allowProtocolContainers
  else bool_decide (c_State c = "ACTIVE") && bool_decide (c_Status c = "UP").

#[export] Instance ProcFsContainer_eq_dec : EqDecision ProcFsContainer.
Proof. solve_decision. Defined.

(** [hashString]; the modulus is cut to 32 bits and a zero one panics. *)
Definition hashString (s : string) (n : Z) : result Z :=
  if n =? 0 then Ok 0
  else if uwrap 32 n =? 0 then Panic
  else Ok (fnv32a (bytes_of_string s) mod uwrap 32 n).

Section Frontends.
Context {W : Type} `{Env W} {V : Type}.
Local Open Scope go_scope.

(** An error reading the file, or the context ending first, is the error of
    [ReadWekaInterface]. *)
Definition GetFrontendsFromDriver : M (Run W V) (list ProcFsContainer) :=
  let! lines := call_val ReadWekaInterface id in ret (parse_frontends lines).

Definition WekaKernelModuleName : string := "wekafsgw".
Definition isWekaDriverLoaded : M (Run W V) bool :=
  let! lines := call ReadProcModules in
  match lines with
  | None => ret false
  | Some l => ret (existsb (fun line => bool_decide (Split " " line !! 0%nat = Some WekaKernelModuleName)) l)
  end.
Definition isWekaRunning : M (Run W V) bool :=
  let! loaded := isWekaDriverLoaded in
  if negb loaded then ret false
  else
    let! r := attempt GetFrontendsFromDriver in
    match r with
    | inl _ => ret false
    | inr frontends => ret (negb (bool_decide (frontends = [])) && forallb pc_Connected frontends)
    end.
End Frontends.

Section Cluster.
Context {W : Type} `{Env W}.
Abbreviation run := (Run W ClusterClient).
Local Open Scope go_scope.

Definition getLocalContainersFromDriver : M run (list ProcFsContainer) :=
  let! frontends := GetFrontendsFromDriver in ret (filter (fun f => pc_Connected f = true) frontends).

Definition filterFrontendContainers (l : list Container) (procFs : list ProcFsContainer) (allow : bool) :
    M run (list Container) :=
  let! r := call LocalIpAddresses in
  let ips := match r with inl _ => [] | inr ips => ips end in
  ret (filter (fun c => frontend_eligible procFs ips allow c = true) l).

(** [getContainers]: looked up at most once a minute; the second look at the
    cache is the one after the lock was released. *)
Definition fresh_containers : M run (option (list Container)) :=
  let! c := self in
  match cc_containers c with
  | None => ret None
  | Some l =>
      let! now := call TimeNow in
      ret (if now - 60 * Second <? cc_containersUpdateTime c then Some l else None)
  end.
Definition getContainers : M run (list Container) :=
  let! c1 := fresh_containers in
  match c1 with
  | Some l => ret l
  | None =>
      let! c2 := fresh_containers in
      match c2 with
      | Some l => ret l
      | None =>
          let! l := call_val GetContainers id in
          let! now := call TimeNow in
          update (set_containers l now) ;; ret l
      end
  end.

(** Indexing a slice. *)
Definition index {A} (l : list A) (i : Z) : M run A :=
  if i <? 0 then panic else match l !! Z.to_nat i with Some x => ret x | None => panic end.

Definition GetLocalContainer (allowProtocolContainers : bool) : M run Container :=
  let! r := attempt getLocalContainersFromDriver in
  let containers := match r with inl _ => [] | inr l => l end in
  let! all := getContainers in
  let! found := filterFrontendContainers all containers false in
  let! found :=
    (if bool_decide (length found = 0%nat) && allowProtocolContainers
     then filterFrontendContainers all containers true else ret found) in
  match found with
  | [] => throw (EPlain "could not find any local client container")
  | [c] => ret c
  | _ => let! i := call (RandIntn (Z.of_nat (length found))) in index found i
  end.

Definition EnsureLocalContainer (allowProtocolContainers : bool) (configuredContainerName : string) : M run string :=
  let! c := self in
  if negb (bool_decide (cc_containerName c = "")) then ret (cc_containerName c)
  else if negb (bool_decide (configuredContainerName = "")) then
    update (set_containerName configuredContainerName) ;; ret configuredContainerName
  else if negb (bool_decide (cc_LocalContainerName c = "")) then
    update (set_containerName (cc_LocalContainerName c)) ;; ret (cc_LocalContainerName c)
  else if negb (SupportsMultipleClusters (cc_api c)) then ret ""
  else
    let! r := attempt getLocalContainersFromDriver in
    match r with
    | inr [f] => ret (pc_ContainerName f)
    | _ =>
        let! container := GetLocalContainer allowProtocolContainers in
        update (set_containerName (c_ContainerName container)) ;; ret (c_ContainerName container)
    end.

(** *** Interface groups *)

Definition GetIpAddress (i : option InterfaceGroup) : M run string :=
  match i with
  | None => throw (EPlain "interface group is nil")
  | Some i =>
      if bool_decide (ig_Ips i = []) then throw (EPlain "no IP addresses found for interface group")
      else
        let! hostname := call_val OsHostname id in
        let hostname := if bool_decide (hostname = "") then "localhost" else hostname in
        let! idx := lift (hashString hostname (Z.of_nat (length (ig_Ips i)))) in
        index (ig_Ips i) idx
  end.
Definition GetRandomIpAddress (i : option InterfaceGroup) : M run string :=
  match i with
  | None => throw (EPlain "interface group is nil")
  | Some i =>
      if bool_decide (ig_Ips i = []) then throw (EPlain "no IP addresses found for interface group")
      else let! idx := call (RandIntn (Z.of_nat (length (ig_Ips i)))) in index (ig_Ips i) idx
  end.

(** The error of the request is dropped. *)
Definition GetInterfaceGroupsByType (groupType : InterfaceGroupType) : M run (list InterfaceGroup) :=
  let! r := call GetInterfaceGroups_ in
  match r with
  | inl _ => ret []
  | inr l => ret (filter (fun ig => ig_Type ig = groupType) l)
  end.

Definition group_key (name : string) : string := if bool_decide (name = "") then "default" else name.
Fixpoint choose_group (name : string) (igs : list InterfaceGroup) : M run unit :=
  match igs with
  | [] => throw (EPlain "no nfs interface group named '%s' found")
  | ig :: igs' =>
      if bool_decide (ig_Name ig = name) || bool_decide (name = "") then
        if bool_decide (ig_Ips ig = []) then
          if bool_decide (name = "") then choose_group name igs'
          else throw (EPlain "no IP addresses found for nfs interface group")
        else update (set_NfsInterfaceGroup (group_key name) ig)
      else choose_group name igs'
  end.
Definition fetchNfsInterfaceGroup (name : string) : M run unit :=
  let! igs := GetInterfaceGroupsByType InterfaceGroupTypeNFS in
  if bool_decide (length igs = 0%nat) then throw (EPlain "no nfs interface groups found")
  else choose_group name igs.
Definition GetNfsInterfaceGroup (name : string) : M run (option InterfaceGroup) :=
  let! c := self in
  match cc_NfsInterfaceGroups c !! group_key name with
  | Some g => ret (Some g)
  | None =>
      let! r := attempt (fetchNfsInterfaceGroup name) in
      match r with
      | inl _ => ret None
      | inr _ => let! c := self in ret (cc_NfsInterfaceGroups c !! group_key name)
      end
  end.
Definition GetNfsMountIp : M run string :=
  let! c := self in
  if match cc_NfsTargetIPs c with ip :: _ => negb (bool_decide (ip = "")) | [] => false end then
    let! i := call (RandIntn (Z.of_nat (length (cc_NfsTargetIPs c)))) in index (cc_NfsTargetIPs c) i
  else
    let! ig := GetNfsInterfaceGroup (cc_NfsInterfaceGroupName c) in
    match ig with
    | None => throw (EPlain "no NFS interface group found")
    | Some g =>
        if bool_decide (ig_Ips g = []) then throw (EPlain "no IP addresses found for NFS interface group")
        else GetRandomIpAddress (Some g)
    end.
End Cluster.
