(* ===== verification/Frontends.v ===== *)
(** * The interface file of the WEKA driver, printed and parsed

    [frontend_line] prints a frontend the way the kernel driver does (the
    format quoted in [GetFrontendsFromDriver]); the parser recovers it, except
    for a container whose name ends in "pid", which it loses. *)
From stdpp Require Import pretty.
From S2P Require Import Prelude.
From S2P Require Import GoStrings.
From S2P Require Import Substrings.
From S2P Require Import Strconv.
From S2P Require Import Hashing.
From S2P Require Import ClusterObjects.
From S2P Require Import Cluster.

(** ** Decimal numbers are plain words *)

Definition digit_char (a : ascii) : bool := bool_decide (48 <= code_of a) && bool_decide (code_of a <= 57).

Lemma pretty_N_go_digits x s : all_chars digit_char s -> all_chars digit_char (pretty_N_go x s).
Proof.
  revert s. induction (N.lt_wf_0 x) as [x _ IH]; intros s Hs.
  destruct (decide (x = 0)%N) as [->|Hx]; [done|]. rewrite pretty_N_go_step by lia.
  apply IH; [apply N.div_lt; lia|]. unfold all_chars. cbn [chars]. constructor; [|done].
  pose proof (code_of_pretty_char (x `mod` 10) (N.mod_lt x 10 ltac:(lia))).
  unfold digit_char. by rewrite !bool_decide_true by lia.
Qed.
Lemma FormatInt_digits z : 0 <= z -> all_chars digit_char (FormatInt z).
Proof.
  intros Hz. unfold FormatInt. destruct z as [|p|p]; [by repeat constructor| |lia].
  change (all_chars digit_char (pretty (N.pos p))). unfold pretty, pretty_N.
  case_decide; [done|]. apply pretty_N_go_digits. constructor.
Qed.
Lemma digits_no_char c s : all_chars digit_char s -> digit_char c = false -> contains_char c s = false.
Proof. apply all_chars_not_contains. Qed.

Lemma chars_app s t : chars (s +:+ t) = chars s ++ chars t.
Proof. induction s as [|a s IH]; [done|]. rewrite app_str_cons. cbn. by rewrite IH. Qed.
Lemma chars_rev s : chars (String.rev s) = reverse (chars s).
Proof.
  induction s as [|a s IH]; [done|]. rewrite rev_str_cons, chars_app, IH.
  change (chars (String a s)) with (a :: chars s). by rewrite reverse_cons.
Qed.
Lemma TrimSpace_plain s : all_chars plain s -> TrimSpace s = s.
Proof.
  unfold TrimSpace, all_chars. intros Hs. destruct s as [|a s]; [done|].
  pose proof Hs as Hs'. cbn in Hs'. apply Forall_cons in Hs' as [Ha _]. rewrite trim_left_plain by done.
  assert (Hr : Forall (fun a => plain a = true) (chars (String.rev (String a s))))
    by (rewrite chars_rev; by apply Forall_reverse).
  destruct (String.rev (String a s)) as [|b t] eqn:E.
  - exfalso. apply (f_equal chars) in E. rewrite chars_rev in E. apply (f_equal length) in E. rewrite length_reverse in E.
    done.
  - cbn in Hr. apply Forall_cons in Hr as [Hb _]. rewrite trim_left_rev_plain by done.
    by rewrite <- E, rev_str_involutive.
Qed.

(** ** Lines *)

Definition frontend_line (c : ProcFsContainer) : string :=
  "Container=" +:+ pc_ContainerName c +:+ " FE " +:+ FormatInt (pc_ContainerId c) +:+ ": " +:+
  if pc_Connected c then "Connected frontend pid " +:+ FormatInt (pc_Pid c) else "Frontend is not connected".

(** What the driver prints: names are words without an equals sign, numbers
    are not negative, and there is no process without a connection. *)
Record printable (c : ProcFsContainer) : Prop := {
  name_one_word : contains_char " " (pc_ContainerName c) = false;
  name_no_equals : contains_char "=" (pc_ContainerName c) = false;
  id_range : 0 <= pc_ContainerId c < 2 ^ 63;
  pid_range : 0 <= pc_Pid c < 2 ^ 63;
  pid_connected : pc_Connected c = false -> pc_Pid c = 0
}.

(** The fields of a line. *)
Definition frontend_words (c : ProcFsContainer) : list string :=
  ["Container=" +:+ pc_ContainerName c; "FE"; FormatInt (pc_ContainerId c) +:+ ":"] ++
  if pc_Connected c then ["Connected"; "frontend"; "pid"; FormatInt (pc_Pid c)]
  else ["Frontend"; "is"; "not"; "connected"].

Lemma frontend_line_words c : frontend_line c = Join " " (frontend_words c).
Proof.
  unfold frontend_line, frontend_words. destruct (pc_Connected c); cbn [app Join]; rewrite !app_str_assoc; done.
Qed.
Lemma frontend_words_clean c : printable c -> Forall (fun w => contains_char " " w = false) (frontend_words c).
Proof.
  intros [Hn _ Hi Hp _]. pose proof (FormatInt_digits _ (proj1 Hi)) as Di.
  pose proof (FormatInt_digits _ (proj1 Hp)) as Dp.
  assert (Hd : forall s, all_chars digit_char s -> contains_char " " s = false) by (intros s Hs; by apply (digits_no_char " "%char) in Hs).
  unfold frontend_words. destruct (pc_Connected c); cbn [app]; rewrite !Forall_cons, Forall_nil;
    rewrite !contains_char_app, Hn, (Hd _ Di), ?(Hd _ Dp); done.
Qed.
Lemma frontend_line_Split c : printable c -> Split " " (frontend_line c) = frontend_words c.
Proof.
  intros Hc. rewrite frontend_line_words. apply (Split_Join " "%char); [done|by apply frontend_words_clean].
Qed.

Lemma line_name c : printable c ->
  default "" (Split " " (default "" (Split "=" (frontend_line c) !! 1%nat)) !! 0%nat) = pc_ContainerName c.
Proof.
  intros Hc. destruct Hc as [Hn He Hi Hp _].
  assert (Hd : forall z, 0 <= z -> contains_char "=" (FormatInt z) = false)
    by (intros z Hz; apply (digits_no_char "="%char); [by apply FormatInt_digits|done]).
  unfold frontend_line. change ("Container=" +:+ ?t) with ("Container" +:+ String "=" t).
  rewrite (Split_app_sep "="%char "Container") by done. cbn [lookup list_lookup].
  match goal with |- context [Split "=" ?t] => rewrite (Split_no_sep "="%char t) end.
  - cbn [lookup list_lookup default]. change (" FE " +:+ ?t) with (String " " ("FE " +:+ t)).
    unfold id. by rewrite (Split_app_sep " "%char) by done.
  - rewrite !contains_char_app, He, Hd by lia. destruct (pc_Connected c); [|done].
    by rewrite contains_char_app, Hd by lia.
Qed.

Lemma line_container c : Contains (frontend_line c) "Container=" = true.
Proof. apply Contains_spec. eexists "", _. rewrite app_str_nil_l. reflexivity. Qed.

Lemma line_id c : printable c ->
  Atoi (default "" (Split ":" (FormatInt (pc_ContainerId c) +:+ ":") !! 0%nat)) = Ok (pc_ContainerId c).
Proof.
  intros [_ _ Hi _ _]. rewrite (Split_app_sep ":"%char _ "").
  - cbn. apply Atoi_FormatInt. unfold in_int64. lia.
  - apply digits_no_char; [apply FormatInt_digits; lia|done].
Qed.

Lemma line_not_connected c : printable c ->
  Contains (frontend_line c) "Frontend is not connected" = negb (pc_Connected c).
Proof.
  intros Hc. destruct (pc_Connected c) eqn:E; cbn [negb].
  - apply not_true_is_false. intros (a & b & Hl)%Contains_spec.
    assert (Hin : "is" ∈ Split " " (frontend_line c)).
    { rewrite Hl. change ("Frontend is not connected" +:+ b)
        with ("Frontend" +:+ String " " ("is" +:+ String " " ("not connected" +:+ b))).
      rewrite <- app_str_assoc. by apply (Split_word " "%char). }
    rewrite frontend_line_Split in Hin by done. unfold frontend_words in Hin. rewrite E in Hin.
    destruct Hc as [_ _ Hi Hp _].
    assert (Hd : forall z, 0 <= z -> forall s, "is" <> FormatInt z +:+ s).
    { intros z Hz s Heq. pose proof (FormatInt_digits z Hz) as D.
      destruct (FormatInt z) as [|d r] eqn:Ez.
      - unfold FormatInt in Ez. destruct z as [|p|p]; [done| |lia].
        change (pretty (N.pos p) = "") in Ez. by destruct (pretty_N_head (N.pos p)) as (? & ? & E' & _); rewrite E' in Ez.
      - rewrite app_str_cons in Heq. injection Heq as <- _.
        unfold all_chars in D. cbn in D. by apply Forall_cons in D as [D _]. }
    cbn [app] in Hin. rewrite !elem_of_cons in Hin. destruct_or!; try done.
    + by apply Hd in Hin; [|lia].
    + specialize (Hd (pc_Pid c) (proj1 Hp) ""). by rewrite app_str_nil_r in Hd.
    + by apply not_elem_of_nil in Hin.
  - apply Contains_spec. unfold frontend_line. rewrite E.
    exists ("Container=" +:+ pc_ContainerName c +:+ " FE " +:+ FormatInt (pc_ContainerId c) +:+ ": "), "".
    by rewrite app_str_nil_r, !app_str_assoc.
Qed.

(** A prefix that ends in an equals sign does not make up a suffix. *)
Lemma no_pid_suffix pre name u :
  (forall s, name <> s +:+ "pid") -> pre +:+ "=" +:+ name <> u +:+ "pid".
Proof.
  intros Hn Heq. apply (f_equal String.rev) in Heq. rewrite !rev_str_app in Heq.
  change (String.rev "pid") with "dip" in Heq. change (String.rev "=") with "=" in Heq.
  rewrite <- (rev_str_involutive name) in Hn. revert Hn Heq.
  destruct (String.rev name) as [|a [|b [|d r]]]; intros Hn Heq; cbn in Heq; try done.
  apply (Hn (String.rev r)). injection Heq as -> -> -> _. by rewrite !rev_str_cons, !app_str_assoc.
Qed.
Lemma digits_colon_no_pid s u : s +:+ ":" <> u +:+ "pid".
Proof. intros Heq. apply (f_equal String.rev) in Heq. by rewrite !rev_str_app in Heq. Qed.

(** The process number follows the first field that ends in "pid". *)
Lemma line_pid c : printable c -> pc_Connected c = true ->
  (forall s, pc_ContainerName c <> s +:+ "pid") ->
  exists before, SplitOn "pid " (frontend_line c) = [before; FormatInt (pc_Pid c)].
Proof.
  intros Hc E Hpid. destruct Hc as [Hn _ Hi Hp _].
  pose proof (FormatInt_digits _ (proj1 Hi)) as Di. pose proof (FormatInt_digits _ (proj1 Hp)) as Dp.
  assert (Hsp : forall s, all_chars digit_char s -> contains_char " " s = false)
    by (intros s Hs; by apply (digits_no_char " "%char) in Hs).
  assert (Hl : frontend_line c = ("Container" +:+ "=" +:+ pc_ContainerName c) +:+ String " " ("FE" +:+ String " "
    ((FormatInt (pc_ContainerId c) +:+ ":") +:+ String " " ("Connected" +:+ String " " ("frontend" +:+ String " "
    ("pid" +:+ String " " (FormatInt (pc_Pid c)))))))).
  { unfold frontend_line. rewrite E, !app_str_assoc. done. }
  assert (Hcut : exists before, cut_at "pid " (frontend_line c) = Some (before, FormatInt (pc_Pid c))).
  { rewrite Hl. change "pid " with ("pid" +:+ String " " "").
    assert (Hend : forall u, "FE" <> u +:+ "pid" /\ "Connected" <> u +:+ "pid" /\ "frontend" <> u +:+ "pid").
    { intros u. repeat split; intros Heq; apply (f_equal String.rev) in Heq; by rewrite rev_str_app in Heq. }
    rewrite cut_at_word_skip; [|done|done|by rewrite !contains_char_app, Hn|by intros; apply no_pid_suffix].
    rewrite cut_at_word_skip; [|done|done|done|intros u; apply Hend].
    rewrite cut_at_word_skip; [|done|done|by rewrite contains_char_app, (Hsp _ Di)|apply digits_colon_no_pid].
    rewrite cut_at_word_skip; [|done|done|done|intros u; apply Hend].
    rewrite cut_at_word_skip; [|done|done|done|intros u; apply Hend].
    rewrite cut_at_word_here. eauto. }
  destruct Hcut as (before & Hcut). exists before. unfold SplitOn.
  destruct (String.length (frontend_line c)) as [|n] eqn:En; [by rewrite Hl in En|].
  cbn [split_go]. rewrite Hcut. f_equal. destruct n as [|n]; [done|]. cbn [split_go].
  destruct (cut_at "pid " (FormatInt (pc_Pid c))) as [[x y]|] eqn:E2; [|done].
  apply cut_at_Some in E2. pose proof (Hsp _ Dp) as H2. rewrite E2, !contains_char_app in H2.
  cbn in H2. by rewrite orb_true_r in H2.
Qed.

(** Reading the line the driver prints for a frontend gives the frontend
    back, connected or not, as long as the container's name does not end in
    "pid". *)
Theorem parse_frontend_line c :
  printable c -> (forall s, pc_ContainerName c <> s +:+ "pid") -> parse_frontend (frontend_line c) = Some c.
Proof.
  intros Hc Hpid. unfold parse_frontend. rewrite line_container, line_name by done. cbn [negb].
  rewrite frontend_line_Split by done. unfold frontend_words at 1. cbn [app].
  rewrite line_id, line_not_connected by done.
  destruct (pc_Connected c) eqn:E; cbn [negb].
  - assert (Contains (frontend_line c) "Connected frontend pid" = true) as ->.
    { apply Contains_spec. unfold frontend_line. rewrite E.
      exists ("Container=" +:+ pc_ContainerName c +:+ " FE " +:+ FormatInt (pc_ContainerId c) +:+ ": "),
        (" " +:+ FormatInt (pc_Pid c)).
      by rewrite !app_str_assoc. }
    destruct (line_pid c Hc E Hpid) as (before & ->). destruct Hc as [_ _ _ Hp _].
    rewrite TrimSpace_plain.
    + rewrite Atoi_FormatInt by (unfold in_int64; lia). cbn. rewrite <- E. by destruct c.
    + eapply Forall_impl; [apply (FormatInt_digits _ (proj1 Hp))|]. intros a Ha.
      unfold digit_char in Ha. unfold plain. bool_to_prop. unfold code_of in *.
      rewrite !bool_decide_true by lia. done.
  - rewrite <- (pid_connected c Hc E), <- E. by destruct c.
Qed.

Definition demo_frontend : ProcFsContainer := MkProcFsContainer "c88742862af5client" 4081176 0 true.
Lemma parse_frontend_line_witness :
  frontend_line demo_frontend = "Container=c88742862af5client FE 0: Connected frontend pid 4081176" /\
  parse_frontend (frontend_line demo_frontend) = Some demo_frontend.
Proof.
  split; [reflexivity|]. apply parse_frontend_line.
  - split; cbn; try lia; done.
  - intros s Heq. apply (f_equal String.rev) in Heq. by rewrite rev_str_app in Heq.
Defined.

(** The line of a connected container called "rapid" is dropped. *)
Lemma pid_name_dropped : parse_frontend (frontend_line (MkProcFsContainer "rapid" 17 0 true)) = None.
Proof. vm_compute. reflexivity. Qed.
