(* ===== verification/Mounts.v ===== *)
(** * Reference-counted mounts (wekafsmount.go, wekafsmounter.go)

    A mounter shares one kernel mount between all users of the same mount
    point and options and counts them.  [incRef] and [decRef] are the same
    code in both transports; here they are written once over the interface
    [AnyMount] that the two kinds of mounts implement.  Each runs under the
    mounter's lock, so a schedule of concurrent users is a sequence of these
    operations. *)
From S2P Require Import Prelude.
From S2P Require Import GoStrings.
From S2P Require Import Hashing.
From S2P Require Import MountOptions.
From S2P Require Import VolumeIds.
From S2P Require Import Monad.
From S2P Require Import ApiObjects.
From S2P Require Import Compatibility.
From S2P Require Import Objects.
From S2P Require Import Effects.
From S2P Require Import ApiOps.
From S2P Require Import ProcMounts.
From S2P Require Import Cluster.

(** What a mounter changes: the reference counts, by mount point and options,
    and whether SELinux was found enforcing. *)
Record Mounter := MkMounter { mountMap : gmap string Z; selinuxSupport : option bool }.
Definition set_mountMap (m : gmap string Z) (x : Mounter) : Mounter := MkMounter m (selinuxSupport x).
Definition set_selinuxSupport (b : bool) (x : Mounter) : Mounter := MkMounter (mountMap x) (Some b).

(** The part of the interface [AnyMount] (interfaces.go) that the counting
    relies on. *)
Class AnyMount (T : Type) := {
  getMountPoint : T -> string;
  getMountOptions : T -> MountOptions;
  getRefcountIdx : T -> string;
  doMount : forall {W : Type} `{Env W}, T -> option ApiClient -> MountOptions -> M (Run W Mounter) unit;
  doUnmount : forall {W : Type} `{Env W}, T -> M (Run W Mounter) unit
}.

Section Counting.
Context {T : Type} `{AnyMount T} {W : Type} `{Env W}.
Abbreviation run := (Run W Mounter).
Local Open Scope go_scope.

Definition mount_isMounted (m : T) : M run bool := mount_visible (getMountPoint m).

Definition incRef (m : T) (apiClient : option ApiClient) : M run unit :=
  let! x := self in
  let refCount := default 0 (mountMap x !! getRefcountIdx m) in
  (if refCount =? 0 then doMount m apiClient (getMountOptions m) else ret tt) ;;
  (if 0 <? refCount then
     let! mounted := mount_isMounted m in
     if mounted then ret tt else doMount m apiClient (getMountOptions m)
   else ret tt) ;;
  update (fun x => set_mountMap (<[getRefcountIdx m := refCount + 1]> (mountMap x)) x).

Definition decRef (m : T) : M run unit :=
  let! x := self in
  let refCount := default 0 (mountMap x !! getRefcountIdx m) in
  (if refCount =? 1 then
     let! mounted := mount_isMounted m in
     if mounted then doUnmount m else ret tt
   else ret tt) ;;
  if 0 <? refCount
  then update (fun x => set_mountMap (<[getRefcountIdx m := refCount - 1]> (mountMap x)) x)
  else ret tt.

(** [gcInactiveMounts] removes the entries without users; reading /proc/mounts
    only decides what is logged. *)
Definition gcInactiveMounts : M run unit :=
  update (fun x => set_mountMap (filter (fun e => e.2 <> 0) (mountMap x)) x).
End Counting.

(** ** The wekafs transport *)

Inductive CsiPluginMode := CsiModeNode | CsiModeController | CsiModeAll.
Definition mountBaseDirForRole (mode : CsiPluginMode) : string :=
  match mode with
  | CsiModeNode => "/run/weka-fs-mounts-node"
  | CsiModeController => "/run/weka-fs-mounts-controller"
  | CsiModeAll => "/run/weka-fs-mounts"
  end.

(** What a mounter is made with ([newWekafsMounter]). *)
Record MounterConfig := MkMounterConfig {
  mc_debugPath : string;
  mc_mountBaseDir : string;
  mc_allowProtocolContainers : bool;
  mc_wekafsContainerName : string             (* config.wekafsContainerName *)
}.
(** The flag for protocol containers of the driver's configuration is not
    handed on. *)
Definition newWekafsMounter (debugPath : string) (mode : CsiPluginMode) (wekafsContainerName : string)
    (selinux : bool) : MounterConfig * Mounter :=
  (MkMounterConfig debugPath (mountBaseDirForRole mode) false wekafsContainerName,
   MkMounter ∅ (if selinux then Some true else None)).

Record wekafsMount := MkWekafsMount {
  wm_fsName : string;
  wm_mountPoint : string;
  wm_debugPath : string;
  wm_mountOptions : MountOptions;
  wm_allowProtocolContainers : bool;
  wm_containerName : string
}.
Definition set_wm_containerName (n : string) (m : wekafsMount) : wekafsMount :=
  MkWekafsMount (wm_fsName m) (wm_mountPoint m) (wm_debugPath m) (wm_mountOptions m)
    (wm_allowProtocolContainers m) n.

Definition wekafs_getMountPoint (m : wekafsMount) : string :=
  if bool_decide (wm_containerName m = "") then wm_mountPoint m
  else wm_mountPoint m +:+ "-" +:+ wm_containerName m.
Definition wekafs_isInDevMode (m : wekafsMount) : bool := negb (bool_decide (wm_debugPath m = "")).
Definition wekafs_getRefcountIdx (m : wekafsMount) : string :=
  wekafs_getMountPoint m +:+ "^" +:+ String_ (wm_mountOptions m).

Section Wekafs.
Context {W : Type} `{Env W}.
Abbreviation run := (Run W Mounter).
Local Open Scope go_scope.

Definition wekafs_doUnmount (m : wekafsMount) : M run unit :=
  call_err (KUnmount (wekafs_getMountPoint m)) id ;;
  let! still := mount_visible (wekafs_getMountPoint m) in
  if still then throw (EPlain "mount point %s still exists in /proc/mounts after umount")
  else let! _ := call (OsRemove (wekafs_getMountPoint m)) in ret tt.

(** The bind mount that stands for a filesystem in debug mode. *)
Definition mount_fake (debugPath fsName target : string) : M run unit :=
  let fakePath := Path.Join [debugPath; fsName] in
  let! e := call (OsMkdirAll fakePath DefaultVolumePermissions) in
  match e with
  | Some _ => panic
  | None => call_err (KMount fakePath target "" ["bind"] []) id
  end.

Definition wekafs_doMount (m : wekafsMount) (apiClient : option ApiClient) (mountOptions : MountOptions) : M run unit :=
  call_err (OsMkdirAll (wekafs_getMountPoint m) DefaultVolumePermissions) id ;;
  if negb (wekafs_isInDevMode m) then
    let! running := isWekaRunning in
    if negb running then throw (EPlain "weka is not running, cannot mount")
    else
      let! sensitive :=
        match apiClient with
        | None => ret []
        | Some a => let! t := GetMountTokenForFilesystemName a (wm_fsName m) in ret ["token=" +:+ t]
        end in
      let opts := if bool_decide (wm_containerName m = "") then mountOptions
                  else AddOption mountOptions ("container_name=" +:+ wm_containerName m) in
      call_err (KMount (wm_fsName m) (wekafs_getMountPoint m) "wekafs" (Strings opts) sensitive) id
  else mount_fake (wm_debugPath m) (wm_fsName m) (wekafs_getMountPoint m).
End Wekafs.

#[export] Instance wekafsMount_AnyMount : AnyMount wekafsMount := {
  getMountPoint := wekafs_getMountPoint;
  getMountOptions := wm_mountOptions;
  getRefcountIdx := wekafs_getRefcountIdx;
  doMount W H := wekafs_doMount;
  doUnmount W H := wekafs_doUnmount
}.

Section WekafsMounter.
Context {W : Type} `{Env W} (cfg : MounterConfig).
Abbreviation run := (Run W Mounter).
Local Open Scope go_scope.

Definition NewMount (fsName : string) (options : MountOptions) : wekafsMount :=
  let uniqueId := getStringSha1AsB32 (fsName +:+ ":" +:+ String_ options) in
  MkWekafsMount fsName (mc_mountBaseDir cfg +:+ "/" +:+ getAsciiPart fsName 64 +:+ "-" +:+ uniqueId)
    (mc_debugPath cfg) options (mc_allowProtocolContainers cfg) "".

(** utilities.go: a line of the SELinux configuration says "enforcing". *)
Definition getSelinuxStatus_conf : M run bool :=
  let! lines := call ReadSelinuxConfig in
  match lines with
  | None => ret false
  | Some l => ret (existsb (fun line => Substrings.Contains line "SELINUX=enforcing") l)
  end.
Definition getSelinuxStatus : M run bool :=
  let! x := self in
  match selinuxSupport x with
  | Some true => ret true
  | _ => let! b := getSelinuxStatus_conf in update (set_selinuxSupport b) ;; ret b
  end.

(** The error of [EnsureLocalContainer] is logged and dropped; the name is
    then empty. *)
Definition ensureLocalContainerName (m : wekafsMount) (apiClient : option ApiClient) : M run wekafsMount :=
  if negb (bool_decide (wm_containerName m = "")) then ret m
  else match apiClient with
       | None => ret m
       | Some _ =>
           if wekafs_isInDevMode m then ret m
           else
             let! r := call (ClientEnsureLocalContainer (wm_allowProtocolContainers m) (mc_wekafsContainerName cfg)) in
             match r with
             | inl _ => ret (set_wm_containerName "" m)
             | inr n => ret (set_wm_containerName n m)
             end
       end.

(** The mount point, and the mount that the returned function releases. *)
Definition mountWithOptions (fsName : string) (mountOptions : MountOptions) (apiClient : option ApiClient) :
    M run (string * wekafsMount) :=
  let! selinux := getSelinuxStatus in
  let m := NewMount fsName (setSelinux mountOptions selinux MountProtocolWekafs) in
  let! m := ensureLocalContainerName m apiClient in
  incRef m apiClient ;;
  ret (getMountPoint m, m).
Definition mounter_Mount (fs : string) (apiClient : option ApiClient) : M run (string * wekafsMount) :=
  mountWithOptions fs getDefaultMountOptions apiClient.

Definition locateContainerName (m : wekafsMount) : M run wekafsMount :=
  if bool_decide (wm_containerName m = "") then
    let! mounts := call ReadProcMounts in
    let! n := lift (GetMountContainerNameFromActualMountPoint mounts (wm_mountPoint m)) in
    ret (set_wm_containerName n m)
  else ret m.
Definition unmountWithOptions (fsName : string) (options : MountOptions) : M run unit :=
  let! selinux := getSelinuxStatus in
  let m := NewMount fsName (setSelinux options selinux MountProtocolWekafs) in
  let! m := locateContainerName m in
  decRef m.
End WekafsMounter.
