(* ===== verification/Leader.v ===== *)
(** * Leadership in a controller pod (wekafs.go, server.go)

    The driver of a controller pod starts its gRPC server when the manager has
    elected it, and tells the sidecars of the pod through the leader file.  The
    driver and the gate of a sidecar (WaitForLeader.v) are processes that share
    the file and the socket; a run of the pod interleaves their steps in any
    order, with crashes and restarts of the driver. *)
From S2P Require Import Prelude.
From S2P Require Import GoStrings.
From S2P Require Import Substrings.
From S2P Require Import Strconv.
From S2P Require Import Mounts.
From S2P Require Import WaitForLeader.

(** ** Plugin mode and endpoint *)

(** [log.Fatal] ends the process. *)
Definition GetCsiPluginMode (mode : string) : option CsiPluginMode :=
  if bool_decide (mode = "node") then Some CsiModeNode
  else if bool_decide (mode = "controller") then Some CsiModeController
  else if bool_decide (mode = "all") then Some CsiModeAll else None.

(** [strings.ToLower], as far as ASCII letters come out of it: ASCII letters,
    and the two other characters whose lower case is one, U+0130 (in UTF-8
    C4 B0, to i) and U+212A (E2 84 AA, to k).  All others stay as they are,
    which no comparison with ASCII text can tell. *)
Definition lower_char (a : ascii) : ascii :=
  if (65 <=? code_of a) && (code_of a <=? 90) then Ascii.ascii_of_N (Z.to_N (code_of a + 32)) else a.
Definition is_U0130 (a b : ascii) : bool := (code_of a =? 196) && (code_of b =? 176).
Definition is_U212A (a b c : ascii) : bool := (code_of a =? 226) && (code_of b =? 132) && (code_of c =? 170).
Fixpoint ToLower (s : string) : string :=
  match s with
  | "" => ""
  | String a s1 =>
      match s1 with
      | "" => String (lower_char a) ""
      | String b s2 =>
          if is_U0130 a b then String "i" (ToLower s2)
          else match s2 with
               | "" => String (lower_char a) (ToLower s1)
               | String c s3 => if is_U212A a b c then String "k" (ToLower s3) else String (lower_char a) (ToLower s1)
               end
      end
  end.
Definition invalid_endpoint : error := EPlain "Invalid endpoint: %v".
Definition parseEndpoint (ep : string) : error + (string * string) :=
  if HasPrefix (ToLower ep) "unix://" || HasPrefix (ToLower ep) "tcp://" then
    match cut_at "://" ep with                       (* strings.SplitN(ep, "://", 2) *)
    | Some (proto, addr) => if bool_decide (addr = "") then inl invalid_endpoint else inr (proto, addr)
    | None => inl invalid_endpoint
    end
  else inl invalid_endpoint.

(** ** The leader file *)

(** How [os.Remove] ends. *)
Inductive remove_outcome := Removed | NotExist | RemoveFailed.
Definition createLeaderReadyFile (mkdir_ok write_ok : bool) (file : bool) : option error * bool :=
  if negb mkdir_ok then (Some (EPlain "failed to create leader state directory: %w"), file)
  else if negb write_ok then (Some (EPlain "failed to create leader ready file: %w"), file)
  else (None, true).
Definition removeLeaderReadyFile (o : remove_outcome) (file : bool) : option error * bool :=
  match o with
  | Removed => (None, false)
  | NotExist => (None, file)
  | RemoveFailed => (Some (EPlain "failed to remove leader ready file: %w"), file)
  end.
(** A file that is there cannot be reported missing, nor the other way round. *)
Definition possible (o : remove_outcome) (file : bool) : bool :=
  match o with Removed => file | NotExist => negb file | RemoveFailed => true end.

(** ** The gRPC server *)

(** Where the goroutine of [Start] is; [NotServing] before it is started. *)
Inductive serve_pc :=
| NotServing
| ServeRemove                    (* parse the endpoint, remove the old socket *)
| ServeListen
| ServeRegister                  (* listening; [s.server] not set *)
| ServeReady                     (* [s.server] set, services registered *)
| Serving
| ServeClosed                    (* [GracefulStop] before [Serve]: the listener is still open *)
| Draining                       (* [GracefulStop] during [Serve]: no new connections *)
| ServeDone.
(** Connections are accepted, at least by the kernel. *)
Definition listening (p : serve_pc) : bool :=
  match p with ServeRegister | ServeReady | Serving | ServeClosed => true | _ => false end.
(** [s.server != nil] *)
Definition server_set (p : serve_pc) : bool :=
  match p with ServeReady | Serving | ServeClosed | Draining | ServeDone => true | _ => false end.
(** [serve], a statement at a time; [None] is [Die].  [ok] is whether the
    system call worked.  An endpoint that cannot be parsed only fails at
    [net.Listen]: [log.Fatal()] without a message does nothing. *)
Definition serve_step (endpoint : string) (p : serve_pc) (ok : bool) : option serve_pc :=
  match p with
  | ServeRemove =>
      match parseEndpoint endpoint with
      | inl _ => Some ServeListen
      | inr (proto, _) => if bool_decide (proto = "unix") && negb ok then None else Some ServeListen
      end
  | ServeListen =>
      match parseEndpoint endpoint with inl _ => None | inr _ => if ok then Some ServeRegister else None end
  | ServeRegister => Some ServeReady
  | ServeReady => Some Serving
  | Serving => if ok then Some Serving else None       (* [Serve] failed on its own *)
  | ServeClosed => None                                (* [Serve] closes the listener and returns ErrServerStopped *)
  | p => Some p
  end.
(** [Stop]: nothing without a server; otherwise [GracefulStop] closes the
    listener that [Serve] was given, if it was, and the result says whether
    requests are left to finish. *)
Definition server_Stop (p : serve_pc) : serve_pc :=
  match p with
  | ServeReady => ServeClosed
  | Serving => Draining
  | p => p
  end.
Definition still_draining (p : serve_pc) : bool := match p with Draining => true | _ => false end.

(** ** The driver *)

(** Where the function that the manager runs for the leader is. *)
Inductive runnable_pc :=
| AtAdd | Standby | AtStart | AtStore | AtCreate | AtWait | AtClear | AtRemove | AtStop | AtDrain | Returned.
Record Driver := MkDriver {
  runnable : runnable_pc;
  server : serve_pc;
  isLeader : bool;
  removal_failed : bool          (* the error that is logged, of the start or the end *)
}.
(** Started, about to add the runnable to the manager. *)
Definition just_started (failed : bool) : Driver := MkDriver AtAdd NotServing false failed.
Definition is_some {A} (o : option A) : bool := match o with Some _ => true | None => false end.

(** The next statement of the runnable of [runWithLeaderElection]. *)
Definition runnable_step (mkdir_ok write_ok : bool) (o : remove_outcome) (d : Driver) (file : bool) :
    option (Driver * bool) :=
  match runnable d with
  | AtStart => Some (MkDriver AtStore ServeRemove (isLeader d) (removal_failed d), file)
  | AtStore => Some (MkDriver AtCreate (server d) true (removal_failed d), file)
  | AtCreate => Some (MkDriver AtWait (server d) (isLeader d) (removal_failed d),
                      snd (createLeaderReadyFile mkdir_ok write_ok file))
  | AtClear => Some (MkDriver AtRemove (server d) false (removal_failed d), file)
  | AtRemove =>
      if possible o file
      then Some (MkDriver AtStop (server d) (isLeader d) (removal_failed d || is_some (fst (removeLeaderReadyFile o file))),
                 snd (removeLeaderReadyFile o file))
      else None
  | AtStop => Some (MkDriver (if still_draining (server_Stop (server d)) then AtDrain else Returned)
                      (server_Stop (server d)) (isLeader d) (removal_failed d), file)
  | AtAdd | Standby | AtWait | AtDrain | Returned => None
  end.

(** ** The pod *)

Record Pod := MkPod {
  file : bool;
  driver : option Driver;          (* [None]: its container is not running *)
  gate : Gate.phase
}.
Inductive pod_event :=
| DriverStarts (o : remove_outcome)       (* [Run] removes a stale leader file first *)
| Added (ok : bool)                       (* [manager.Add]; [log.Fatal] if it fails *)
| Elected                                 (* the manager calls the runnable *)
| Cancelled                               (* leadership lost, or the process is told to stop *)
| RunnableStep (mkdir_ok write_ok : bool) (o : remove_outcome)
| ServeStep (ok : bool)
| Drained                                 (* the last request is answered: [GracefulStop] returns *)
| DriverEnds                              (* exit or crash *)
| GateStep (e : Gate.event).

Definition with_runnable (p : runnable_pc) (d : Driver) : Driver :=
  MkDriver p (server d) (isLeader d) (removal_failed d).
Definition with_server (p : serve_pc) (d : Driver) : Driver :=
  MkDriver (runnable d) p (isLeader d) (removal_failed d).
(** What a step of the gate sees of the pod. *)
Definition seen (p : Pod) (e : Gate.event) : bool :=
  match e with
  | Gate.Stat present _ => bool_decide (present = file p)
  | Gate.Dial accepted => bool_decide (accepted = from_option (fun d => listening (server d)) false (driver p))
  | _ => true
  end.

Section Pod.
Context (endpoint : string) (debounce : Z).
Definition pod_step (p : Pod) (e : pod_event) : option Pod :=
  match e, driver p with
  | DriverStarts o, None =>
      if possible o (file p)
      then let '(err, f) := removeLeaderReadyFile o (file p) in Some (MkPod f (Some (just_started (is_some err))) (gate p))
      else None
  | Added ok, Some d =>
      match runnable d with
      | AtAdd => Some (MkPod (file p) (if ok then Some (with_runnable Standby d) else None) (gate p))
      | _ => None
      end
  | Elected, Some d =>
      match runnable d with Standby => Some (MkPod (file p) (Some (with_runnable AtStart d)) (gate p)) | _ => None end
  | Cancelled, Some d =>
      match runnable d with AtWait => Some (MkPod (file p) (Some (with_runnable AtClear d)) (gate p)) | _ => None end
  | RunnableStep mk wr o, Some d =>
      match runnable_step mk wr o d (file p) with
      | Some (d', f) => Some (MkPod f (Some d') (gate p))
      | None => None
      end
  | ServeStep ok, Some d =>
      Some (MkPod (file p) (match serve_step endpoint (server d) ok with Some s => Some (with_server s d) | None => None end)
              (gate p))
  | Drained, Some d =>
      match runnable d, server d with
      | AtDrain, Draining => Some (MkPod (file p) (Some (with_server ServeDone (with_runnable Returned d))) (gate p))
      | _, _ => None
      end
  | DriverEnds, Some _ => Some (MkPod (file p) None (gate p))
  | GateStep e, _ =>
      if seen p e
      then match Gate.main_step debounce (gate p) e with
           | Some (g, _) => Some (MkPod (file p) (driver p) g)
           | None => None
           end
      else None
  | _, _ => None
  end.
Fixpoint pod_run (p : Pod) (es : list pod_event) : option Pod :=
  match es with
  | [] => Some p
  | e :: es' => match pod_step p e with Some p' => pod_run p' es' | None => None end
  end.
End Pod.
(** A new pod: the volume of the leader file is empty. *)
Definition new_pod : Pod := MkPod false None Gate.start.

(** ** Without leader election ([runWithoutLeaderElection])

    The main goroutine starts the server and waits for it; another waits for
    the signal to terminate, cleans up the labels of the node, stops the server
    and exits. *)
Inductive term_pc := TermWait | TermCleanup | TermStop | TermDrain | TermExit.
Record Lone := MkLone { term : term_pc; lone_server : serve_pc; exit_status : option Z }.
Definition lone_start : Lone := MkLone TermWait ServeRemove None.
Inductive lone_event :=
| Terminate                               (* SIGTERM or SIGINT *)
| TermStep
| LoneServeStep (ok : bool)
| LoneDrained
| WaitReturns.                            (* [s.Wait] of the main goroutine: [Run] and [handle] return, [os.Exit(0)] *)
Definition lone_step (endpoint : string) (l : Lone) (e : lone_event) : option Lone :=
  match exit_status l with
  | Some _ => None
  | None =>
      match e, term l with
      | Terminate, TermWait => Some (MkLone TermCleanup (lone_server l) None)
      | TermStep, TermCleanup => Some (MkLone TermStop (lone_server l) None)
      | TermStep, TermStop =>
          Some (MkLone (if still_draining (server_Stop (lone_server l)) then TermDrain else TermExit)
                  (server_Stop (lone_server l)) None)
      | TermStep, TermExit => Some (MkLone TermExit (lone_server l) (Some 1))
      | LoneServeStep ok, t =>
          match serve_step endpoint (lone_server l) ok with
          | Some p => Some (MkLone t p None)
          | None => Some (MkLone t (lone_server l) (Some 2))             (* a panic *)
          end
      | LoneDrained, t =>
          match lone_server l with
          | Draining => Some (MkLone (match t with TermDrain => TermExit | t => t end) ServeDone None)
          | _ => None
          end
      | WaitReturns, t => match lone_server l with ServeDone => Some (MkLone t ServeDone (Some 0)) | _ => None end
      | _, _ => None
      end
  end.
Definition lone_run (endpoint : string) : Lone -> list lone_event -> option Lone :=
  fix go l es := match es with [] => Some l | e :: es' => match lone_step endpoint l e with Some l' => go l' es' | None => None end end.

(** * Theorems *)

(** ** Endpoints *)

Lemma lower_char_mark c m : lower_char c = m -> bool_decide (m = ":"%char) || bool_decide (m = "/"%char) = true -> c = m.
Proof.
  intros <-. destruct c as [[] [] [] [] [] [] [] []]; vm_compute; intros [=]; reflexivity.
Qed.
(** Does the text start with one of the two characters? *)
Definition special (s : string) : bool :=
  match s with
  | String a (String b s2) => is_U0130 a b || match s2 with String c _ => is_U212A a b c | "" => false end
  | _ => false
  end.
Lemma ToLower_plain a s : special (String a s) = false -> ToLower (String a s) = String (lower_char a) (ToLower s).
Proof.
  destruct s as [|b [|c s]]; [done|..]; cbn [special]; intros [E1 E2]%orb_false_iff; cbn [ToLower]; rewrite E1; [done|].
  by rewrite E2.
Qed.
Lemma special_app a s t : special (String a s) = false -> special (String a (s +:+ String ":" t)) = false.
Proof.
  assert (E1 : forall a, is_U0130 a ":" = false) by (intros x; apply andb_false_r).
  assert (E2 : forall a c, is_U212A a ":" c = false) by (intros x c; unfold is_U212A; by rewrite andb_false_r).
  assert (E3 : forall a b, is_U212A a b ":" = false) by (intros x b; unfold is_U212A; apply andb_false_r).
  destruct s as [|b [|c s]]; rewrite ?app_str_cons, ?app_str_nil_l; cbn [special]; rewrite ?E1, ?E3; try done.
  intros _. destruct t; [done|]. apply E2.
Qed.
Lemma lower_ind (P : string -> Prop) : P "" ->
  (forall a s, special (String a s) = false -> P s -> P (String a s)) ->
  (forall a b s, is_U0130 a b = true -> P s -> P (String a (String b s))) ->
  (forall a b c s, is_U0130 a b = false -> is_U212A a b c = true -> P s -> P (String a (String b (String c s)))) -> forall s, P s.
Proof.
  intros H0 H1 H2 H3 s. assert (Hl : exists n, (String.length s <= n)%nat) by eauto. destruct Hl as [n Hn].
  revert s Hn. induction n as [|n IH]; intros s Hn; [by destruct s; [|cbn in Hn; lia]|].
  destruct s as [|a s1]; [done|]. cbn in Hn. destruct (special (String a s1)) eqn:E; [|apply H1; [done|apply IH; lia]].
  destruct s1 as [|b s2]; [done|]. cbn in Hn. cbn [special] in E. destruct (is_U0130 a b) eqn:E1; [apply H2; [done|apply IH; lia]|].
  destruct s2 as [|c s3]; [done|]. cbn in Hn. apply H3; [done..|apply IH; lia].
Qed.

Lemma ToLower_colon s t : ToLower (s +:+ String ":" t) = ToLower s +:+ String ":" (ToLower t).
Proof.
  induction s as [|a s Hs IH|a b s E IH|a b c s E1 E IH] using lower_ind; rewrite ?app_str_cons, ?app_str_nil_l.
  - rewrite ToLower_plain; [done|]. destruct t as [|b [|c t]]; done.
  - rewrite ToLower_plain by by apply special_app. by rewrite IH, ToLower_plain, app_str_cons.
  - cbn [ToLower]. by rewrite E, IH, app_str_cons.
  - cbn [ToLower]. by rewrite E1, E, IH, app_str_cons.
Qed.
Lemma ToLower_no_mark s : contains_char ":" (ToLower s) = contains_char ":" s.
Proof.
  induction s as [|a s Hs IH|a b s E IH|a b c s E1 E IH] using lower_ind; [done|..].
  - rewrite ToLower_plain by done. cbn [contains_char]. rewrite IH. f_equal. apply bool_decide_ext. split; [|by intros ->].
    intros Ha. by apply lower_char_mark in Ha.
  - cbn [ToLower]. rewrite E. cbn [contains_char]. rewrite IH. unfold is_U0130 in E. apply andb_true_iff in E as [Ea Eb].
    rewrite (bool_decide_false (a = _)), (bool_decide_false (b = _)); [done|intros ->; done..].
  - cbn [ToLower]. rewrite E1, E. cbn [contains_char]. rewrite IH. unfold is_U212A in E.
    apply andb_true_iff in E as [[Ea Eb]%andb_true_iff Ec].
    rewrite (bool_decide_false (a = _)), (bool_decide_false (b = _)), (bool_decide_false (c = _)); [done|intros ->; done..].
Qed.
Lemma ToLower_slash s y : ToLower s = String "/" y -> exists t, s = String "/" t /\ ToLower t = y.
Proof.
  destruct s as [|a s]; [done|]. destruct (special (String a s)) eqn:E.
  - destruct s as [|b s]; [done|]. cbn [special] in E. cbn [ToLower]. destruct (is_U0130 a b); [done|].
    destruct s as [|c s]; [done|]. cbn in E. by rewrite E.
  - rewrite ToLower_plain by done. intros [= Ha <-]. apply lower_char_mark in Ha as ->; [|done]. eauto.
Qed.

(** The part before the first colon. *)
Lemma first_colon s : contains_char ":" s = true -> exists p t, s = p +:+ String ":" t /\ contains_char ":" p = false.
Proof.
  induction s as [|a s IH]; [done|]. cbn [contains_char]. case_bool_decide as Ha.
  - intros _. subst a. by exists "", s.
  - cbn. intros (p & t & -> & Hp)%IH. exists (String a p), t. rewrite app_str_cons. split; [done|].
    cbn [contains_char]. by rewrite bool_decide_false, Hp.
Qed.
Lemma first_colon_unique p t q u : p +:+ String ":" t = q +:+ String ":" u ->
  contains_char ":" p = false -> contains_char ":" q = false -> p = q /\ t = u.
Proof.
  revert q. induction p as [|a p IH]; intros [|b q]; rewrite ?app_str_cons, ?app_str_nil_l; cbn [contains_char].
  - by intros [= ->].
  - intros [= <- _] _ [? _]%orb_false_iff. done.
  - intros [= -> _] [? _]%orb_false_iff. done.
  - intros [= -> E] [_ Hp]%orb_false_iff [_ Hq]%orb_false_iff. destruct (IH q E Hp Hq) as [-> ->]. done.
Qed.
Lemma cut_scheme scheme s : contains_char ":" scheme = false -> HasPrefix (ToLower s) (scheme +:+ "://") = true ->
  exists p a, ToLower p = scheme /\ s = p +:+ "://" +:+ a /\ cut_at "://" s = Some (p, a).
Proof.
  intros Hs Hp. unfold HasPrefix in Hp. apply bool_decide_eq_true in Hp as [y Ht]. apply strip_prefix_Some in Ht.
  rewrite app_str_assoc, (app_str_cons ":"), (app_str_cons "/"), (app_str_cons "/"), app_str_nil_l in Ht.
  destruct (contains_char ":" s) eqn:Ec.
  2:{ rewrite <- ToLower_no_mark, Ht in Ec. exfalso. clear -Ec. induction scheme as [|c scheme IH].
      - by rewrite app_str_nil_l in Ec.
      - rewrite app_str_cons in Ec. cbn [contains_char] in Ec. apply orb_false_iff in Ec as [_ Ec]. auto. }
  apply first_colon in Ec as (p & t & -> & Hp). rewrite ToLower_colon in Ht.
  apply first_colon_unique in Ht as [<- Ht]; [|by rewrite ToLower_no_mark|done].
  apply ToLower_slash in Ht as (t1 & -> & Ht). apply ToLower_slash in Ht as (a & -> & _).
  assert (E : String ":" (String "/" (String "/" a)) = "://" +:+ a) by (by rewrite !app_str_cons, app_str_nil_l).
  rewrite E. exists p, a. split_and!; [done..|]. rewrite cut_at_skip by done.
  replace (cut_at "://" ("://" +:+ a)) with (Some ("", a)) by (by rewrite !app_str_cons, app_str_nil_l).
  by rewrite app_str_nil_r.
Qed.
Lemma lower_prefix p a scheme : ToLower p = scheme -> HasPrefix (ToLower (p +:+ "://" +:+ a)) (scheme +:+ "://") = true.
Proof.
  intros <-. unfold HasPrefix. apply bool_decide_eq_true.
  assert (E : forall a, "://" +:+ a = String ":" (String "/" (String "/" a))) by (intros; by rewrite !app_str_cons, app_str_nil_l).
  assert (Hsl : forall s, ToLower (String "/" s) = String "/" (ToLower s)).
  { intros s. rewrite ToLower_plain; [done|]. destruct s as [|b [|c s]]; done. }
  exists (ToLower a). apply strip_prefix_Some. by rewrite E, ToLower_colon, !Hsl, app_str_assoc, E.
Qed.

(** (C40) Endpoints are read as they are written: [parseEndpoint] accepts exactly
    the texts scheme://address with a non-empty address and the scheme unix or
    tcp in any case (as [strings.ToLower] folds it), and gives back the scheme
    and the address. *)
Theorem parseEndpoint_exact ep proto addr : parseEndpoint ep = inr (proto, addr) <->
  ep = proto +:+ "://" +:+ addr /\ addr <> "" /\ (ToLower proto = "unix" \/ ToLower proto = "tcp").
Proof.
  unfold parseEndpoint. split.
  - destruct (_ || _) eqn:E; [|done]. intros Hr.
    assert (exists p a, (ToLower p = "unix" \/ ToLower p = "tcp") /\ ep = p +:+ "://" +:+ a /\ cut_at "://" ep = Some (p, a))
      as (p & a & Hp & Hep & Hcut).
    { apply orb_true_iff in E as [E|E].
      - apply (cut_scheme "unix") in E as (p & a & ? & ? & ?); [|done]. eauto 6.
      - apply (cut_scheme "tcp") in E as (p & a & ? & ? & ?); [|done]. eauto 6. }
    rewrite Hcut in Hr. case_bool_decide; [done|]. by injection Hr as <- <-.
  - intros (-> & Ha & Hp).
    assert (E : HasPrefix (ToLower (proto +:+ "://" +:+ addr)) "unix://" ||
                HasPrefix (ToLower (proto +:+ "://" +:+ addr)) "tcp://" = true).
    { apply orb_true_iff. destruct Hp as [Hp|Hp]; [left; apply (lower_prefix _ _ "unix")|right; apply (lower_prefix _ _ "tcp")]; done. }
    rewrite E. rewrite cut_at_skip by (rewrite <- ToLower_no_mark; destruct Hp as [-> | ->]; done).
    replace (cut_at "://" ("://" +:+ addr)) with (Some ("", addr)) by (by rewrite !app_str_cons, app_str_nil_l).
    rewrite app_str_nil_r. by rewrite bool_decide_false.
Qed.

(** ** Runs *)

Section Runs.
Context (endpoint : string) (debounce : Z).
Abbreviation step := (pod_step endpoint debounce).
Abbreviation run := (pod_run endpoint debounce).

Lemma pod_run_snoc es e p p' : run p (es ++ [e]) = Some p' <-> exists p1, run p es = Some p1 /\ step p1 e = Some p'.
Proof.
  revert p. induction es as [|e' es IH]; intros p; cbn [app pod_run].
  - split.
    + destruct (step p e) as [q|] eqn:E; [|done]. intros [= <-]. by exists p.
    + by intros (p1 & [= <-] & ->).
  - destruct (step p e') as [q|]; [apply IH|]. split; [done|]. by intros (? & ? & ?).
Qed.
Lemma pod_run_app es es' p p' : run p (es ++ es') = Some p' ->
  exists p1, run p es = Some p1 /\ run p1 es' = Some p'.
Proof.
  revert p. induction es as [|e es IH]; intros p; cbn [app pod_run]; [by eauto|].
  destruct (step p e); [apply IH|done].
Qed.

(** Rule induction over the runs of a pod. *)
Lemma reachable_ind (P : list pod_event -> Pod -> Prop) : P [] new_pod ->
  (forall es p e p', run new_pod es = Some p -> P es p -> step p e = Some p' -> P (es ++ [e]) p') ->
  forall es p, run new_pod es = Some p -> P es p.
Proof.
  intros H0 Hstep es. induction es as [|e es IH] using rev_ind; intros p Hp.
  { by injection Hp as <-. }
  apply pod_run_snoc in Hp as (p1 & H1 & H2). eauto.
Qed.

(** ** Invariants of the driver *)

(** In the part of the runnable where the leader file may be there, where the
    health check takes the process for the leader, and before the server. *)
Definition announced (p : runnable_pc) : bool :=
  match p with AtWait | AtClear | AtRemove => true | _ => false end.
Definition leading (p : runnable_pc) : bool :=
  match p with AtCreate | AtWait | AtClear => true | _ => false end.
Definition unelected (p : runnable_pc) : bool := match p with AtAdd | Standby | AtStart => true | _ => false end.
Record driver_ok (f : bool) (d : Driver) : Prop := {
  ok_file : f = true -> removal_failed d = false -> announced (runnable d) = true;
  ok_leader : isLeader d = leading (runnable d);
  ok_server : unelected (runnable d) = true -> server d = NotServing;
  ok_drain : runnable d = AtDrain -> server d = Draining \/ server d = ServeDone
}.
Ltac driver_fields := split; cbn in *; intros; subst; solve [done | auto | intuition (congruence || auto)].
Lemma driver_ok_started o f err f' : possible o f = true -> removeLeaderReadyFile o f = (err, f') ->
  driver_ok f' (just_started (is_some err)).
Proof. intros Hp E. destruct o, f; cbn in Hp, E; simplify_eq; driver_fields. Qed.
Lemma driver_ok_runnable mk wr o f d d' f' : driver_ok f d -> runnable_step mk wr o d f = Some (d', f') -> driver_ok f' d'.
Proof.
  intros [Hf Hl Hs Hd] E. destruct d as [r s l rf]. destruct r; cbn in *; simplify_eq; try driver_fields.
  - destruct (possible o f) eqn:Ep; [|done]. injection E as <- <-. destruct o, f, rf; cbn in Ep; simplify_eq; driver_fields.
  - destruct s; driver_fields.
Qed.
Lemma serve_step_NotServing ok : serve_step endpoint NotServing ok = Some NotServing.
Proof. done. Qed.
Lemma driver_ok_serve f d ok s : driver_ok f d -> serve_step endpoint (server d) ok = Some s ->
  driver_ok f (with_server s d).
Proof.
  intros [Hf Hl Hs Hd] E. split; [done..| |]; cbn.
  - intros Hu. rewrite (Hs Hu) in E. by injection E as <-.
  - intros Hu. destruct (Hd Hu) as [E'|E']; rewrite E' in E; injection E as <-; eauto.
Qed.
Lemma driver_ok_step p e p' d' : (forall d, driver p = Some d -> driver_ok (file p) d) ->
  step p e = Some p' -> driver p' = Some d' -> driver_ok (file p') d'.
Proof.
  intros Hok E Hd'. destruct p as [f [d|] g], e; cbn in E, Hok; try done;
    try (specialize (Hok d eq_refl)).
  - destruct (runnable d) eqn:Er; try done. destruct ok; injection E as <-; cbn in Hd'; [|done].
    destruct Hok as [Hf Hl Hs Hd]. injection Hd' as <-. destruct d as [[] s l rf]; cbn in *; simplify_eq; driver_fields.
  - repeat case_match; simplify_eq. destruct Hok as [Hf Hl Hs Hd]. cbn in Hd'. injection Hd' as <-.
    destruct d as [[] s l rf]; cbn in *; simplify_eq; driver_fields.
  - repeat case_match; simplify_eq. destruct Hok as [Hf Hl Hs Hd]. cbn in Hd'. injection Hd' as <-.
    destruct d as [[] s l rf]; cbn in *; simplify_eq; driver_fields.
  - destruct (runnable_step _ _ _ _ _) as [[d1 f1]|] eqn:E1; [|done]. simplify_eq. cbn in Hd'. injection Hd' as <-.
    by eapply driver_ok_runnable.
  - injection E as <-. cbn in Hd'. destruct (serve_step endpoint (server d) ok) eqn:E1; [|done].
    injection Hd' as <-. by eapply driver_ok_serve.
  - repeat case_match; simplify_eq. destruct Hok as [Hf Hl Hs Hd]. cbn in Hd'. injection Hd' as <-.
    destruct d as [[] s l rf]; cbn in *; simplify_eq; driver_fields.
  - by simplify_eq.
  - repeat case_match; simplify_eq. cbn in Hd'. by injection Hd' as <-.
  - destruct (possible o f) eqn:Ep; [|done]. destruct (removeLeaderReadyFile o f) as [err f1] eqn:E1. simplify_eq.
    cbn in Hd'. injection Hd' as <-. by eapply driver_ok_started.
  - repeat case_match; simplify_eq.
Qed.
Lemma driver_ok_reachable es p d : run new_pod es = Some p -> driver p = Some d -> driver_ok (file p) d.
Proof.
  intros Hp. revert d. pattern es, p. revert es p Hp. apply reachable_ind; [done|].
  intros es p e p' _ IH E d. by eapply driver_ok_step.
Qed.

(** (C11) The leader file tells the truth: in every run of a pod, with any
    interleaving and any number of restarts, if the file is there while the
    driver runs and no removal has failed, the driver has been elected, and has
    not yet finished giving the leadership up. *)
Theorem leader_file_truthful es p d :
  run new_pod es = Some p -> driver p = Some d -> removal_failed d = false -> file p = true ->
  isLeader d = true \/ runnable d = AtRemove.
Proof.
  intros Hp Hd Hr Hf. destruct (driver_ok_reachable es p d Hp Hd) as [Ha Hl _ _].
  specialize (Ha Hf Hr). rewrite Hl. destruct (runnable d); cbn in *; auto.
Qed.

(** ** Sidecars *)

(** The dial after which the gate starts the sidecar. *)
Definition dialed (es : list pod_event) : Prop :=
  exists pre mid p d, es = pre ++ GateStep (Gate.Dial true) :: mid /\
    Forall (fun e => match e with GateStep _ => False | _ => True end) mid /\
    run new_pod pre = Some p /\ driver p = Some d /\ listening (server d) = true.
Lemma dialed_snoc es e : dialed es -> (forall g, e <> GateStep g) -> dialed (es ++ [e]).
Proof.
  intros (pre & mid & p & d & -> & Hmid & H1) He. exists pre, (mid ++ [e]), p, d.
  split; [by rewrite <- app_assoc|]. split; [|exact H1]. apply Forall_app. split; [done|].
  apply Forall_singleton. destruct e; try done. by apply (He e).
Qed.
Lemma step_gate p e p' : step p e = Some p' -> (forall g, e <> GateStep g) -> gate p' = gate p.
Proof. intros E He. destruct p as [f [d|] g], e; cbn in E; repeat case_match; simplify_eq; try done; by destruct (He e). Qed.
Lemma starting_dialed es p : run new_pod es = Some p -> gate p = Gate.Starting -> dialed es.
Proof.
  intros Hp. pattern es, p. revert es p Hp. apply reachable_ind; [done|].
  intros es p e p' Hp IH E Hg. assert ((exists g, e = GateStep g) \/ forall g, e <> GateStep g) as [[g ->]|Hne] by (destruct e; eauto).
  - cbn in E. destruct p as [f dr ph]. cbn in E. destruct (seen _ g) eqn:Es; [|by destruct dr].
    destruct (Gate.main_step debounce ph g) as [[g1 sig]|] eqn:E1; [|by destruct dr].
    assert (g1 = Gate.Starting) as -> by (destruct dr; by simplify_eq).
    apply Gate.main_step_starting in E1 as [_ ->]. cbn in Es. case_bool_decide as Hl; [|done].
    destruct dr as [d|]; [|done]. exists es, [], (MkPod f (Some d) ph), d. by split_and!.
  - rewrite (step_gate _ _ _ E Hne) in Hg. apply dialed_snoc; [by apply IH|done].
Qed.

(** (C10) A sidecar works only for an elected leader: whenever the gate of a
    sidecar starts it, the last thing the gate did was to connect to the socket
    of a driver that the manager had elected and whose server was listening. *)
Theorem sidecar_needs_leader pre ok post p : run new_pod (pre ++ GateStep (Gate.Spawn ok) :: post) = Some p ->
  exists pre1 mid p1 d, pre = pre1 ++ GateStep (Gate.Dial true) :: mid /\
    Forall (fun e => match e with GateStep _ => False | _ => True end) mid /\
    run new_pod pre1 = Some p1 /\ driver p1 = Some d /\ listening (server d) = true /\
    unelected (runnable d) = false.
Proof.
  intros Hp. apply pod_run_app in Hp as (p1 & Hp1 & Hp). cbn [pod_run] in Hp.
  destruct (step p1 _) as [p2|] eqn:E; [|done].
  assert (gate p1 = Gate.Starting) as Hg.
  { destruct p1 as [f dr ph]. cbn in E. destruct ph as [[]|[]| |[] ?|[] ?|?], dr; cbn in E; try done. }
  destruct (starting_dialed _ _ Hp1 Hg) as (pre1 & mid & q & d & -> & Hmid & Hq & Hd & Hl).
  exists pre1, mid, q, d. split_and!; try done.
  destruct (driver_ok_reachable _ _ _ Hq Hd) as [_ _ Hs _].
  destruct (unelected (runnable d)); [|done]. by rewrite (Hs eq_refl) in Hl.
Qed.

(** ** Giving up the leadership *)

(** After [Stop] of a server that was set, from [s0] on: either [Serve] had
    begun, or it has not, and then its next statement ends the process. *)
Definition closed (s0 p : serve_pc) : bool :=
  match s0, p with
  | ServeReady, ServeClosed | ServeClosed, ServeClosed => true
  | Serving, (Draining | ServeDone) | Draining, (Draining | ServeDone) | ServeDone, ServeDone => true
  | _, _ => false
  end.
Definition closed_pod (s0 : serve_pc) (p : Pod) : Prop :=
  forall d, driver p = Some d -> closed s0 (server d) = true /\ (runnable d = AtDrain \/ runnable d = Returned).
Lemma closed_step s0 p e p' : closed_pod s0 p -> step p e = Some p' -> (forall o, e <> DriverStarts o) -> closed_pod s0 p'.
Proof.
  intros Hc E He d' Hd'. destruct p as [f [d|] g], e; cbn in E; try done; try (destruct (Hc d eq_refl) as [Hs Hr]).
  - repeat case_match; simplify_eq; destruct Hr; congruence.
  - repeat case_match; simplify_eq. destruct Hr; congruence.
  - repeat case_match; simplify_eq. destruct Hr; congruence.
  - unfold runnable_step in E. destruct Hr as [Hr|Hr]; rewrite Hr in E; done.
  - injection E as <-. cbn in Hd'. destruct (server d) eqn:Es, s0; cbn in *; simplify_eq; by split.
  - repeat case_match; simplify_eq. cbn in Hd'. injection Hd' as <-. split; [|by right]. destruct s0; cbn in *; congruence.
  - by simplify_eq.
  - repeat case_match; simplify_eq. cbn in Hd'. by injection Hd' as <-.
  - by destruct (He o).
  - repeat case_match; simplify_eq.
Qed.

(** (C12) A leader that steps down stops serving: once the runnable has stopped
    a server that was set up, this process never serves again.  Its socket
    accepts no connection any more either, unless [Serve] had not been called
    by then: in that case it may until [Serve] is called, and that call ends
    the process. *)
Theorem step_down_stops_serving es p d mk wr o p' es' p'' d'' :
  run new_pod es = Some p -> driver p = Some d -> runnable d = AtStop -> server_set (server d) = true ->
  step p (RunnableStep mk wr o) = Some p' -> run p' es' = Some p'' ->
  Forall (fun e => forall o, e <> DriverStarts o) es' -> driver p'' = Some d'' ->
  server d'' <> Serving /\
  (listening (server d'') = true ->
   (server d = ServeReady \/ server d = ServeClosed) /\ forall ok, serve_step endpoint (server d'') ok = None).
Proof.
  intros _ Hd Hr Hset E Hp Hes Hd''. cut (closed_pod (server d) p'').
  { intros Hc. destruct (Hc d'' Hd'') as [Hs _]. destruct (server d), (server d''); cbn in *; auto; done. }
  assert (closed_pod (server d) p') as Hc.
  { cbn in E. rewrite Hd in E. unfold runnable_step in E. rewrite Hr in E. injection E as <-.
    intros d1 [= <-]. destruct (server d); cbn in *; (done || eauto). }
  clear E. revert p' Hp Hc. induction Hes as [|e es1 He _ IH]; intros p' Hp Hc; cbn [pod_run] in Hp.
  { by injection Hp as <-. }
  destruct (step p' e) as [q|] eqn:E; [|done]. by eapply IH, closed_step.
Qed.
End Runs.

(** A leader that loses its lease before its server is set up does not stop it:
    the runnable has returned and the socket accepts connections. *)
Example early_step_down :
  match pod_run "unix:///csi/csi.sock" 0 new_pod
    ([DriverStarts NotExist; Added true; Elected] ++ replicate 3 (RunnableStep true true Removed) ++ [Cancelled] ++
     replicate 3 (RunnableStep true true Removed) ++ replicate 2 (ServeStep true)) with
  | Some (MkPod false (Some d) _) => runnable d = Returned /\ isLeader d = false /\ listening (server d) = true
  | _ => False
  end.
Proof. by vm_compute. Qed.

(** A driver without election that is told to terminate exits when its server
    is done, with either status. *)
Definition lone_terminates : list lone_event :=
  replicate 4 (LoneServeStep true) ++ [Terminate; TermStep; TermStep; LoneDrained].
Example exit_status_races :
  (exit_status <$> lone_run "unix:///csi/csi.sock" lone_start (lone_terminates ++ [TermStep])) = Some (Some 1) /\
  (exit_status <$> lone_run "unix:///csi/csi.sock" lone_start (lone_terminates ++ [WaitReturns])) = Some (Some 0).
Proof. by vm_compute. Qed.

(** ** Witnesses *)

Definition rstep : pod_event := RunnableStep true true Removed.
Definition to_leader : list pod_event :=
  [DriverStarts NotExist; Added true; Elected; rstep; rstep; rstep; ServeStep true; ServeStep true; ServeStep true; ServeStep true].
Definition gate_opens : list pod_event :=
  [GateStep (Gate.Stat true 0); GateStep (Gate.Stat true 0); GateStep (Gate.Dial true)].
Definition demo_endpoint : string := "unix:///csi/csi.sock".
Definition leader_now : Pod := MkPod true (Some (MkDriver AtWait Serving true false)) Gate.start.
Lemma leader_file_truthful_witness :
  pod_run demo_endpoint 3 new_pod to_leader = Some leader_now /\ (true = true \/ AtWait = AtRemove).
Proof.
  assert (E : pod_run demo_endpoint 3 new_pod to_leader = Some leader_now) by (vm_compute; reflexivity).
  split; [exact E|]. exact (leader_file_truthful demo_endpoint 3 to_leader leader_now _ E eq_refl eq_refl eq_refl).
Defined.
Lemma sidecar_needs_leader_witness : exists pre1 mid p1 d,
  to_leader ++ gate_opens = pre1 ++ GateStep (Gate.Dial true) :: mid /\
  Forall (fun e => match e with GateStep _ => False | _ => True end) mid /\
  pod_run demo_endpoint 3 new_pod pre1 = Some p1 /\ driver p1 = Some d /\ listening (server d) = true /\
  unelected (runnable d) = false.
Proof.
  apply (sidecar_needs_leader demo_endpoint 3 (to_leader ++ gate_opens) true []
    (MkPod true (driver leader_now) (Gate.Monitoring Gate.MonitorSelect None))).
  vm_compute. reflexivity.
Defined.
Lemma step_down_stops_serving_witness :
  ServeDone <> Serving /\
  (listening ServeDone = true ->
   (Serving = ServeReady \/ Serving = ServeClosed) /\ forall ok, serve_step demo_endpoint ServeDone ok = None).
Proof.
  apply (step_down_stops_serving demo_endpoint 3 (to_leader ++ [Cancelled; rstep; rstep])
    (MkPod false (Some (MkDriver AtStop Serving false false)) Gate.start) (MkDriver AtStop Serving false false)
    true true Removed (MkPod false (Some (MkDriver AtDrain Draining false false)) Gate.start)
    [Drained] (MkPod false (Some (MkDriver Returned ServeDone false false)) Gate.start)
    (MkDriver Returned ServeDone false false)); try reflexivity.
  repeat constructor. discriminate.
Defined.
