(* ===== verification/Volume.v ===== *)
(** * Volumes (pkg/wekafs/volume.go)

    Every method that talks to the cluster, the mounter or the operating
    system, as a computation on the volume's own fields and the recorded
    calls.  [with_underlying_fs] is the pattern
    [err, unmount := v.MountUnderlyingFS(ctx); defer deferUmount(unmount, &retErr)]. *)
From S2P Require Import Prelude.
From S2P Require Import GoStrings.
From S2P Require Import Strconv.
From S2P Require Import Monad.
From S2P Require Import Hashing.
From S2P Require Import MountOptions.
From S2P Require Import VolumeIds.
From S2P Require Import ApiObjects.
From S2P Require Import Compatibility.
From S2P Require Import Objects.
From S2P Require Import Effects.
From S2P Require Import ApiOps.
From S2P Require Import ProcMounts.

Definition xattrCapacity : string := "user.weka_capacity".
Definition xattrVolumeName : string := "user.weka_k8s_volname".

Section Volumes.
Context {W : Type} `{Env W} `{Clock} `{MapOrder} (server : Server).
Abbreviation run := (Run W Volume).
Abbreviation config := (getConfig server).
Local Open Scope go_scope.

Definition isInDevMode_ : bool := isInDevMode config.

(** *** Mounting *)

Definition unmount_underlying (fs : string) (opts : MountOptions) : M run (option error) :=
  let! e := call (UnmountFs fs opts) in
  update (set_mountPath "") ;; ret e.

(** [MountUnderlyingFS]: what its unmount function needs. *)
Definition MountUnderlyingFS : M run (string * MountOptions) :=
  match srv_Mounter server with
  | None => throw (EPlain "could not mount volume, mounter not in context")
  | Some _ =>
      let! v := self in
      let opts := MergedWith (srv_DefaultMountOptions server) (mountOptions v)
                    (mutuallyExclusiveOptions config) in
      let! mount := call_val (MountFs (FilesystemName v) opts) id in
      update (set_mountPath mount) ;;
      ret (FilesystemName v, opts)
  end.
(** With the unmount function deferred around [body]: both results. *)
Definition mounted {A} (body : M run A) : M run ((error + A) * option error) :=
  let! (fs, opts) := MountUnderlyingFS in both body (unmount_underlying fs opts).
(** [deferUmount]: the error of the unmount counts if there is no other. *)
Definition with_underlying_fs {A} (body : M run A) : M run A :=
  let! (r, uErr) := mounted body in
  match r, uErr with
  | inl e, _ => throw e
  | inr _, Some e => throw e
  | inr a, None => ret a
  end.

Definition isMounted : M run bool :=
  let! v := self in
  if bool_decide (mountPath v = "") then ret false
  else let! m := call ReadProcMounts in ret (PathIsWekaMount m (mountPath v)).

(** *** Objects of the cluster *)

Definition getFilesystemObj (fromCache : bool) : M run (option FileSystem) :=
  let! v := self in
  let fetch : M run (option FileSystem) :=
    match apiClient v with
    | None => throw (EPlain "cannot get object of API-unbound volume")
    | Some _ =>
        let! r := attempt (GetFileSystemByName (FilesystemName v)) in
        match r with
        | inl ObjectNotFoundError => ret None
        | inl e => throw e
        | inr fs => update (set_fileSystemObject (Some fs)) ;; ret (Some fs)
        end
    end in
  match fileSystemObject v with
  | Some fs => if fromCache && negb (fs_IsRemoving fs) then ret (Some fs) else fetch
  | None => fetch
  end.

Definition getSnapshotObj (fromCache : bool) : M run (option WekaSnapshot) :=
  let! v := self in
  let fetch : M run (option WekaSnapshot) :=
    match apiClient v with
    | None => throw (EPlain "cannot get object of API-unbound snapshot")
    | Some _ =>
        let! r := attempt (GetSnapshotByName (SnapshotName v)) in
        match r with
        | inl ObjectNotFoundError => ret None
        | inl e => throw e
        | inr s => ret (Some s)
        end
    end in
  match snapshotObject v with
  | Some s => if fromCache then ret (Some s) else fetch
  | None => fetch
  end.

(** *** Existence *)

Definition fileSystemExists : M run bool :=
  let! fsObj := getFilesystemObj false in
  match fsObj with
  | None => ret false
  | Some fs => ret (negb (fs_Uid fs =? uuid_Nil) && negb (fs_IsRemoving fs))
  end.
Definition snapshotExists : M run bool :=
  let! snapObj := getSnapshotObj false in
  match snapObj with
  | None => ret false
  | Some s => ret (negb (sn_Uid s =? uuid_Nil) && negb (sn_IsRemoving s))
  end.

Definition pathIsDirectory (p : string) : M run unit :=
  let! k := call (OsOpen p) in
  match k with
  | Missing => throw (EStatus NotFound "volume path %s not found")
  | IsFile => throw (EStatus Internal "volume path %s is not a valid directory")
  | IsDirectory => ret tt
  end.

Definition mimicDirectoryStructureForDebugMode : M run unit :=
  with_underlying_fs (
    let! v := self in
    call_err (OsMkdirAll (GetFullPath v) DefaultVolumePermissions) id).

(** The two results of [Exists]: an error of the deferred unmount comes with
    the value found before it. *)
Definition Exists_results : M run (bool * option error) :=
  let! v := self in
  if (isOnSnapshot v || isFilesystem v) && bool_decide (apiClient v = None :> option ApiClient)
  then ret (false, None)
  else if isFilesystem v then
    let! r := attempt fileSystemExists in
    match r with inl e => ret (false, Some e) | inr b => ret (b, None) end
  else
    let! go_on :=
      attempt (if isOnSnapshot v then
         let! exists_ := snapshotExists in
         if negb exists_ then ret false
         else (if isInDevMode_ then mimicDirectoryStructureForDebugMode else ret tt) ;; ret true
       else ret true) in
    match go_on with
    | inl e => ret (false, Some e)
    | inr false => ret (false, None)
    | inr true =>
        if hasInnerPath v then
          let! m := attempt (mounted (
            let! v := self in
            let! there := PathExists (GetFullPath v) in
            if negb there then ret false
            else
              let! d := attempt (pathIsDirectory (GetFullPath v)) in
              match d with
              | inl _ => throw (EStatus Internal "err.Error()")
              | inr _ => ret true
              end)) in
          match m with
          | inl e | inr (inl e, _) => ret (false, Some e)
          | inr (inr b, uErr) => ret (b, uErr)
          end
        else ret (true, None)
    end.
Definition Exists : M run bool :=
  let! (b, e) := Exists_results in
  match e with Some e => throw e | None => ret b end.

(** *** Encryption *)

Definition adopt_kms (fs : FileSystem) (v : Volume) : Volume :=
  let or (a b : string) := if bool_decide (a = "") then b else a in
  set_kmsVaultKeyIdentifier (or (kmsVaultKeyIdentifier v) (fs_KmsKeyIdentifier fs))
    (set_kmsVaultNamespace (or (kmsVaultNamespace v) (fs_KmsNamespace fs))
      (set_kmsVaultRoleId (or (kmsVaultRoleId v) (fs_KmsRole fs)) v)).

(** The result is [*v.encrypted]: nil if the volume's existence could not be
    checked, or without an API client. *)
Definition isEncrypted : M run bool :=
  let! v := self in
  match encrypted v with
  | Some b => ret b
  | None =>
      if negb (isFilesystem v) then ret false
      else
        let! ex := attempt Exists in
        (match ex, apiClient v with
         | inr exists_, Some _ =>
             let! fsObj := getFilesystemObj true in
             if exists_ then
               match fsObj with
               | None => panic
               | Some fs =>
                   update (set_encrypted (Some (fs_IsEncrypted fs))) ;;
                   if fs_IsEncrypted fs then update (adopt_kms fs) else ret tt
               end
             else update (set_encrypted (Some false))
         | _, _ => ret tt
         end) ;;
        let! v := self in
        match encrypted v with Some b => ret b | None => panic end
  end.
Definition isEncryptedSafe : M run bool :=
  let! r := attempt isEncrypted in
  match r with inl _ => ret false | inr b => ret b end.

Definition ensureEncryptionParams : M run EncryptionParams :=
  let! enc := isEncryptedSafe in
  let! v := self in
  let params := MkEncryption enc (encryptWithoutKms v) (kmsVaultKeyIdentifier v) (kmsVaultNamespace v)
                  (kmsVaultRoleId v) (kmsVaultSecretId v) in
  let! enc := isEncryptedSafe in
  let! v := self in
  if negb enc then ret params
  else if negb (isFilesystem v) then ret params
  else if negb (allowEncryptionWithoutKms config) && encryptWithoutKms v then
    throw (EStatus InvalidArgument "Creating encrypted filesystems without KMS server configuration is prohibited")
  else match apiClient v with
  | None => panic
  | Some a =>
      if negb (SupportsEncryptionWithCommonKey a) then
        throw (EStatus Internal "Encryption is not supported on the cluster")
      else if manageEncryptionKeys v then
        throw (EStatus FailedPrecondition "Automatic management of encryption keys is not supported by current version of WEKA CSI Plugin")
      else if hasCustomEncryptionSettings v then
        if negb (SupportsCustomEncryptionSettings a) then
          throw (EStatus FailedPrecondition "Encryption with custom settings per filesystem is not supported by current version of WEKA cluster")
        else
          let! allowed := AllowsCustomEncryptionSettings a in
          if negb allowed then
            throw (EStatus FailedPrecondition "WEKA cluster KMS server configuration does not support custom encryption settings per filesystem")
          else ret params
      else
        let! enabled := IsEncryptionEnabled a in
        if negb enabled && negb (encryptWithoutKms v) then
          throw (EStatus FailedPrecondition "Encryption is not enabled on the cluster")
        else ret params
  end.

Definition enrichWithEncryptionParams : M run unit :=
  let! enc := isEncryptedSafe in
  let! v := self in
  match apiClient v with
  | Some a =>
      if negb enc then ret tt
      else
        let c := KmsPreexistingCredentials a in
        let given (x : string) := negb (bool_decide (x = "")) in
        (if given (RoleId c) then update (set_kmsVaultRoleId (RoleId c)) else ret tt) ;;
        (if given (SecretId c) then update (set_kmsVaultSecretId (SecretId c)) else ret tt) ;;
        (if negb (given (kmsVaultNamespace v)) && given (Namespace c)
         then update (set_kmsVaultNamespace (Namespace c)) else ret tt) ;;
        (if negb (given (kmsVaultKeyIdentifier v)) && given (KeyIdentifier c)
         then update (set_kmsVaultKeyIdentifier (KeyIdentifier c)) else ret tt)
  | None => ret tt
  end.

(** *** Snapshots below a filesystem *)

Definition getSeedSnapshotName (v : Volume) : string :=
  generateWekaSeedSnapshotName (SeedSnapshotPrefix config) (FilesystemName v).
Definition getSeedSnapshotAccessPoint (v : Volume) : string :=
  generateWekaSeedAccessPoint (FilesystemName v).

Definition getUnderlyingSnapshots : M run (list WekaSnapshot) :=
  let! v := self in
  match apiClient v with
  | None => throw (EPlain "cannot check for underlying snaphots as volume is not bound to API")
  | Some _ =>
      let! fsObj := getFilesystemObj true in
      match fsObj with
      | None => ret []
      | Some fs => if fs_IsRemoving fs then ret [] else FindSnapshotsByFilesystem fs
      end
  end.
(** The loop: a snapshot that is neither being removed nor the seed blocks. *)
Definition blocks_deletion (v : Volume) (s : WekaSnapshot) : bool :=
  negb (sn_IsRemoving s || bool_decide (sn_Name s = getSeedSnapshotName v)).
Definition hasUnderlyingSnapshots : M run bool :=
  let! v := self in
  if negb (isFilesystem v) then ret false
  else let! l := getUnderlyingSnapshots in ret (existsb (blocks_deletion v) l).
Definition isAllowedForDeletion : M run bool :=
  let! v := self in
  if negb (isFilesystem v) then ret true
  else
    let! r := attempt hasUnderlyingSnapshots in
    match r with inl _ => ret false | inr has => ret (negb has) end.

(** *** Capacity of the storage *)

Definition getFilesystemFreeSpaceByApi : M run Z :=
  let! v := self in
  match apiClient v with
  | None => throw (EStatus FailedPrecondition "Could not bind volume %s to API endpoint")
  | Some _ =>
      let! r := attempt (getFilesystemObj true) in
      match r with
      | inl _ => throw (EStatus FailedPrecondition "Could not obtain free capacity for filesystem %s: %s")
      | inr None => throw ErrFilesystemNotFound
      | inr (Some fs) =>
          let! r := attempt (GetFileSystemByUid (fs_Uid fs) true) in
          match r with
          | inl _ => throw (EStatus FailedPrecondition "Could not obtain precise capacity for filesystem %s: %s")
          | inr fresh => ret (fs_FreeTotal fresh)
          end
      end
  end.
Definition getFilesystemFreeSpace : M run Z :=
  let! v := self in
  match apiClient v with
  | Some _ => getFilesystemFreeSpaceByApi
  | None =>
      with_underlying_fs (
        let! v := self in
        let! r := call (OsStatfs (mountPath v)) in
        match r with
        | inl _ => throw (EStatus FailedPrecondition "Could not obtain free capacity on mount path %s: %s")
        | inr (bavail, bsize) => ret (wrap64 (uwrap64 (bavail * uwrap64 bsize)))
        end)
  end.
Definition getFreeSpaceOnStorage : M run Z :=
  let! r := attempt fileSystemExists in
  match r with
  | inl _ => throw (EStatus Internal "Failed to check for existence of volume")
  | inr _ =>
      let! v := self in
      match apiClient v with
      | None => throw (EStatus FailedPrecondition "Could not bind volume %s to API endpoint")
      | Some _ =>
          let! r := attempt GetFreeCapacity in
          match r with
          | inl _ => throw (EStatus FailedPrecondition "Could not obtain free capacity for filesystem %s on cluster %s: %s")
          | inr c => ret (wrap64 c)
          end
      end
  end.
Definition getFilesystemTotalCapacity : M run Z :=
  let! r := attempt (getFilesystemObj false) in
  match r with
  | inl _ => throw (EStatus FailedPrecondition "Could not obtain free capacity for filesystem %s: %s")
  | inr (Some fs) => ret (fs_TotalCapacity fs)
  | inr None => ret 0
  end.
Definition getMaxCapacity : M run Z :=
  let! v := self in
  match apiClient v with
  | None => getFilesystemFreeSpace
  | Some _ =>
      let! currentFsSize := getFilesystemTotalCapacity in
      if negb (allowAutoFsExpansion config) && negb (isFilesystem v) then ret currentFsSize
      else let! maxFree := getFreeSpaceOnStorage in ret (wrap64 (maxFree + currentFsSize))
  end.
Definition getCapacityFromFsSize : M run Z :=
  let! fsObj := getFilesystemObj false in
  match fsObj with
  | None => throw ErrFilesystemNotFound
  | Some fs => ret (fs_TotalCapacity fs)
  end.

(** *** Inodes and quotas *)

Definition getInodeIdFromApi : M run Z :=
  let! fsObj := getFilesystemObj true in
  let! v := self in
  match fsObj with
  | None => throw ErrFilesystemNotFound
  | Some fs => ResolvePathToInode (Some fs) (GetRelativePath v)
  end.
Definition getInodeId : M run Z :=
  let! v := self in
  match apiClient v with
  | None => panic
  | Some a =>
      if SupportsResolvePathToInode a then getInodeIdFromApi
      else with_underlying_fs (let! v := self in call_val (OsStat (GetFullPath v)) id)
  end.

Definition quota_type_of (enforceCapacity : option bool) : QuotaType :=
  match enforceCapacity with
  | Some true => QuotaTypeHard
  | Some false => QuotaTypeSoft
  | None => QuotaTypeDefault
  end.
Definition setQuota (enforceCapacity : option bool) (capacityLimit : Z) : M run Quota :=
  let! fsObj := getFilesystemObj true in
  let! r := attempt getInodeId in
  match r, fsObj with
  | inl _, _ => throw (EPlain "cannot set quota, could not find inode ID of the volume")
  | inr _, None => panic
  | inr inodeId, Some fs =>
      CreateQuota (NewQuotaCreateRequest fs inodeId (quota_type_of enforceCapacity) capacityLimit) true
  end.
Definition getQuota : M run Quota :=
  let! fsObj := getFilesystemObj true in
  let! inodeId := getInodeId in
  GetQuotaByFileSystemAndInode fsObj inodeId.
Definition getSizeFromQuota : M run Z :=
  let! q := getQuota in ret (GetCapacityLimit q).
Definition getSizeFromXattr : M run Z :=
  with_underlying_fs (
    let! v := self in
    let! r := call (XattrGet (GetFullPath v) xattrCapacity) in
    match r with
    | inl _ => throw ErrNoXattrOnVolume
    | inr s => match ParseInt s 10 64 with Ok c => ret (uwrap64 c) | _ => throw ErrBadXattrOnVolume end
    end).

Definition getCapacityFromQuota : M run Z :=
  with_underlying_fs (
    let! v := self in
    let xattr : M run Z := let! size := getSizeFromXattr in ret (wrap64 size) in
    match apiClient v with
    | Some a =>
        if SupportsQuotaDirectoryAsVolume a && negb isInDevMode_ then
          let! r := attempt getSizeFromQuota in
          match r with inr size => ret (wrap64 size) | inl _ => xattr end
        else xattr
    | None => xattr
    end).
Definition GetCapacity : M run Z := getCapacityFromQuota.

(** *** Changing the capacity *)

Definition resizeFilesystem (capacity : Z) : M run unit :=
  let! fsObj := getFilesystemObj false in
  match fsObj with
  | None => throw ErrFilesystemNotFound
  | Some fs =>
      if capacity <? fs_TotalCapacity fs then throw ErrFilesystemBiggerThanRequested
      else
        let keepRatio := keepThinProvisioningRatioOnExpand config in
        let scale old := scaleThinSsdOnExpand (fs_TotalCapacity fs) old capacity keepRatio in
        let fsu := NewFileSystemResizeRequest (fs_Uid fs) (Some capacity) in
        let! fsu :=
          (if fs_IsThinlyProvisioned fs then
             let! minSsd := lift (scale (fs_ThinProvisioningMinSsd fs)) in
             let! maxSsd := lift (scale (fs_ThinProvisioningMaxSsd fs)) in
             ret (MkFSResize (fsu_Uid fsu) (fsu_TotalCapacity fsu) (Some minSsd) (Some maxSsd))
           else ret fsu) in
        let! fs' := UpdateFileSystem fsu fs in
        update (set_fileSystemObject (Some fs'))
  end.

Definition ensureSufficientFsSizeOnUpdateCapacity (capacityLimit : Z) : M run unit :=
  let! v := self in
  match apiClient v with
  | None => ret tt
  | Some _ =>
      let! r := attempt getCapacityFromFsSize in
      match r with
      | inl _ => throw (EStatus FailedPrecondition "Failed to get current volume capacity for volume %s")
      | inr currentFsCapacity =>
          if currentFsCapacity <? capacityLimit then
            if (isOnSnapshot v || hasInnerPath v) && negb (allowAutoFsExpansion config) then
              throw (EStatus FailedPrecondition "Not allowed to expand volume of %s as underlying filesystem %s is too small")
            else
              let! r := attempt (resizeFilesystem capacityLimit) in
              match r with
              | inl _ => throw (EStatus FailedPrecondition "Could not expand filesystem to support new volume capacity")
              | inr _ => ret tt
              end
          else ret tt
      end
  end.

Definition updateCapacityQuota (enforceCapacity : option bool) (capacityLimit : Z) : M run unit :=
  let! inodeId := getInodeId in
  let! fsObj := getFilesystemObj true in
  let! r := attempt (GetQuotaByFileSystemAndInode fsObj inodeId) in
  match r with
  | inl ObjectNotFoundError | inr _ =>
      let! _ := setQuota enforceCapacity (uwrap64 capacityLimit) in ret tt
  | inl _ => throw (EStatus Internal "err.Error()")
  end.

(** [setVolumeProperties]; the attributes are set in the order of a map. *)
Fixpoint updateXattrs (volPath : string) (attrs : list (string * string)) : M run unit :=
  match attrs with
  | [] => ret tt
  | (key, val) :: rest =>
      let! e := call (XattrSet volPath key val) in
      match e with
      | Some _ => throw (EStatus Internal "failed to update volume attribute %s: %s, %s")
      | None => updateXattrs volPath rest
      end
  end.
Definition setVolumeProperties (volPath : string) (capacity : Z) (volName : string) : M run unit :=
  updateXattrs volPath
    ((if bool_decide (volName = "") then [] else [(xattrVolumeName, volName)]) ++
     (if 0 <? capacity then [(xattrCapacity, FormatInt capacity)] else [])).
Definition updateCapacityXattr (enforceCapacity : option bool) (capacityLimit : Z) : M run unit :=
  let! mounted := isMounted in
  let body : M run unit :=
    let! v := self in setVolumeProperties (GetFullPath v) capacityLimit (innerPath v) in
  if mounted then body else with_underlying_fs body.

(** Whether the capacity is kept in a quota, or in extended attributes. *)
Definition uses_quota (v : Volume) : bool :=
  match apiClient v with
  | None => false
  | Some a =>
      negb isInDevMode_ && SupportsQuotaDirectoryAsVolume a &&
      (SupportsAuthenticatedMounts a || bool_decide (Organization a = "Root"))
  end.
Definition UpdateCapacity (enforceCapacity : option bool) (capacityLimit : Z) : M run unit :=
  ensureSufficientFsSizeOnUpdateCapacity capacityLimit ;;
  let! v := self in
  if uses_quota v then updateCapacityQuota enforceCapacity capacityLimit
  else updateCapacityXattr enforceCapacity capacityLimit.

Definition UpdateParams : M run unit :=
  with_underlying_fs (
    let! v := self in
    let volPath := GetFullPath v in
    call_err (OsChmod volPath (permissions v)) id ;;
    if wrap64 (ownerUid v + ownerGid v) =? 0 then ret tt
    else call_err (OsChown volPath (ownerUid v) (ownerGid v)) id).

(** *** Seed snapshots *)

Definition isFilesystemEmpty : M run bool :=
  with_underlying_fs (
    let! v := self in
    let! r := call (OsReaddirnames (mountPath v) 2) in
    match r with
    | inl e => throw e                                 (* os.Open *)
    | inr names => ret (forallb (fun n => bool_decide (n = SnapshotsSubDirectory)) names)
    end).

Definition createSeedSnapshot : M run WekaSnapshot :=
  let! fsObj := getFilesystemObj true in
  let! v := self in
  match fsObj with
  | None => panic
  | Some fs =>
      CreateSnapshot (NewSnapshotCreateRequest (getSeedSnapshotName v) (getSeedSnapshotAccessPoint v)
        (fs_Uid fs) None false)
  end.
Definition getSeedSnapshot : M run (option WekaSnapshot) :=
  let! v := self in
  match apiClient v with
  | None => panic
  | Some _ =>
      let! r := attempt (GetSnapshotByName (getSeedSnapshotName v)) in
      match r with
      | inl ObjectNotFoundError => ret None
      | inl e => throw e
      | inr s =>
          if sn_Uid s =? uuid_Nil then ret None
          else if negb (bool_decide (sn_AccessPoint s = getSeedSnapshotAccessPoint v)) then
            throw (EPlain "mismatch detected between seed snapshot identifiers")
          else if sn_IsWritable s then throw (EPlain "seed snapshot is writable")
          else ret (Some s)
      end
  end.
(** The debug directory: a failing unmount is only logged. *)
Definition mimicSeedDirectory : M run unit :=
  let! (r, _) := mounted (
    let! v := self in
    call_err (OsMkdirAll (Path.Join [mountPath v; SnapshotsSubDirectory; getSeedSnapshotAccessPoint v])
      DefaultVolumePermissions) id) in
  of_sum r.
Definition ensureSeedSnapshot : M run WekaSnapshot :=
  let! snap := getSeedSnapshot in
  let! snap :=
    match snap with
    | Some s => ret s
    | None =>
        let! empty := isFilesystemEmpty in
        if negb empty && negb isInDevMode_ then
          throw (EPlain "cannot create seed snaspshot on non-empty filesystem")
        else createSeedSnapshot
    end in
  (if isInDevMode_ then mimicSeedDirectory else ret tt) ;;
  ret snap.
Definition deleteSeedSnapshot : M run unit :=
  let! r := attempt getSeedSnapshot in
  match r with
  | inr (Some s) =>
      if sn_Uid s =? uuid_Nil then ret tt else call (SpawnDeleteSnapshot (sn_Uid s))
  | _ => ret tt
  end.

(** *** Source snapshots; [getObject] is Snapshot's (snapshot.go) *)

Definition getObject : M (Run W Snapshot) (option WekaSnapshot) :=
  let! s := self in
  match s_apiClient s with
  | None => throw (EStatus FailedPrecondition "Could not bind snapshot %s to API endpoint")
  | Some _ =>
      let! r := attempt (GetSnapshotByName (s_SnapshotName s)) in
      match r with
      | inr snap => ret (Some snap)
      | inl ObjectNotFoundError =>
          let possibleName := TrimPrefix (s_SnapshotName s) (SnapshotPrefix config) in
          let! r2 := attempt (GetSnapshotByName possibleName) in
          let conclude (snap : WekaSnapshot) : M (Run W Snapshot) (option WekaSnapshot) :=
            if bool_decide (s_SnapshotIntegrityId s = sn_AccessPoint snap)
            then update (set_s_SnapshotName (sn_Name snap)) ;; ret (Some snap)
            else ret None in
          match r2 with
          | inr snap => conclude snap
          | inl ObjectNotFoundError => conclude sn_zero     (* an empty object, not nil *)
          | inl e => throw e
          end
      | inl e => throw e
      end
  end.

Definition uid_of_snap (s : option WekaSnapshot) : option Z :=
  match s with
  | Some s => if sn_Uid s =? uuid_Nil then None else Some (sn_Uid s)
  | None => None
  end.
(** An error while fetching the source's snapshot is dropped, and the volume
    is treated as having no source snapshot. *)
Definition getUidOfSourceSnap : M run (option Z) :=
  let! v := self in
  match srcSnapshot v, srcVolume v with
  | Some src, _ =>
      let! r := attempt (method_of src getObject) in
      match r with
      | inl _ => ret None
      | inr (obj, src') => update (set_srcSnapshot (Some src')) ;; ret (uid_of_snap obj)
      end
  | None, Some src =>
      if isOnSnapshot src then
        let! r := attempt (method_of src (getSnapshotObj false)) in
        match r with inl _ => ret None | inr (obj, _) => ret (uid_of_snap obj) end
      else ret None
  | None, None =>
      if isOnSnapshot v then
        let! r := attempt ensureSeedSnapshot in
        match r with
        | inl _ => throw (EStatus Internal "err.Error()")
        | inr s => ret (uid_of_snap (Some s))
        end
      else ret None
  end.

(** *** Deletion *)

Fixpoint waitForFilesystemDeletion (fsUid : Z) (n : nat) : M run unit :=
  match n with
  | O => throw (EPlain "Timeout deleting volume")
  | S n' =>
      let! r := attempt (GetFileSystemByUid fsUid false) in
      match r with
      | inl ObjectNotFoundError => ret tt
      | inl _ => waitForFilesystemDeletion fsUid n'
      | inr fs =>
          if fs_Uid fs =? uuid_Nil then waitForFilesystemDeletion fsUid n'
          else if fs_IsRemoving fs then call (TimeSleep Second) ;; waitForFilesystemDeletion fsUid n'
          else throw (EPlain "FilesystemName %s not marked for deletion but it should")
      end
  end.
Definition deleteFilesystem : M run unit :=
  let! v := self in
  let! r := attempt (getFilesystemObj true) in
  match r with
  | inl _ => throw (EStatus Internal "Failed to fetch filesystem for deletion: %s, %e")
  | inr None => ret tt
  | inr (Some fs) =>
      if fs_Uid fs =? uuid_Nil then ret tt
      else
        let wait_or_spawn : M run unit :=
          if waitForObjectDeletion config
          then waitForFilesystemDeletion (fs_Uid fs) (polls MaxSnapshotDeletionDuration)
          else call (SpawnWaitFilesystemDeletion (fs_Uid fs)) in
        if fs_IsRemoving fs then wait_or_spawn
        else
          match srv_Mounter server with
          | None => panic
          | Some transport =>
              (if bool_decide (transport = dataTransportNfs)
               then EnsureNoNfsPermissionsForFilesystem (fs_Name fs) else ret tt) ;;
              update (set_fileSystemObject None) ;;
              let! r := attempt (DeleteFileSystem (fs_Uid fs)) in
              match r with
              | inr _ => wait_or_spawn
              | inl ObjectNotFoundError | inl (ApiNotFoundError _) | inl (ApiBadRequestError _) => ret tt
              | inl _ => throw (EStatus Internal "Failed to delete filesystem %s: %s")
              end
          end
  end.

Fixpoint waitForSnapshotDeletion (snapUid : Z) (n : nat) : M run unit :=
  match n with
  | O => ret tt
  | S n' =>
      let! r := attempt (GetSnapshotByUid snapUid) in
      match r with
      | inl ObjectNotFoundError | inl (ApiNotFoundError _) => ret tt
      | inl _ => waitForSnapshotDeletion snapUid n'
      | inr s =>
          if sn_Uid s =? uuid_Nil then waitForSnapshotDeletion snapUid n'
          else if sn_IsRemoving s then call (TimeSleep Second) ;; waitForSnapshotDeletion snapUid n'
          else
            let! v := self in
            match SnapshotUuid v with
            | None => panic                            (* v.SnapshotUuid.String() *)
            | Some _ => throw (EPlain "Snapshot %s not marked for deletion but it should")
            end
      end
  end.
Definition deleteSnapshot : M run unit :=
  let! r := attempt (getSnapshotObj true) in
  match r with
  | inl _ => throw (EStatus Internal "Failed to fetch snapshot for deletion: %s: %e")
  | inr None => ret tt
  | inr (Some s) =>
      if sn_Uid s =? uuid_Nil then ret tt
      else
        update (set_snapshotObject None) ;;
        let! r := attempt (DeleteSnapshot (sn_Uid s)) in
        match r with
        | inr _ =>
            if waitForObjectDeletion config
            then waitForSnapshotDeletion (sn_Uid s) (polls MaxSnapshotDeletionDuration)
            else call (SpawnWaitSnapshotDeletion (sn_Uid s))
        | inl ObjectNotFoundError | inl (ApiNotFoundError _) | inl (ApiBadRequestError _) => ret tt
        | inl _ => throw (EStatus Internal "Failed to delete filesystem %s: %s")
        end
  end.

Definition deleteDirectory : M run unit :=
  with_underlying_fs (
    let! v := self in
    let! _ := call (OsRemoveAll (GetFullPath v)) in ret tt).

Definition Delete : M run unit :=
  let! v := self in
  if (isFilesystem v || isOnSnapshot v) && bool_decide (apiClient v = None :> option ApiClient)
  then throw (EPlain "Failed to delete volume, no API secret exists")
  else if isFilesystem v then
    let! allowed := isAllowedForDeletion in
    if allowed then deleteFilesystem else throw ErrFilesystemHasUnderlyingSnapshots
  else if isOnSnapshot v then deleteSnapshot
  else deleteDirectory.
Definition Trash : M run unit :=
  let! v := self in
  if requiresGc v then call_err (TriggerGc (FilesystemName v) (innerPath v)) id else Delete.

(** *** Creation *)

Definition setSelfOwnership (v : Volume) : bool :=
  match apiClient v with
  | Some a => setOwnershipOnDynamicFilesystems config && SupportsSettingSelfAsFilesystemOwner a
  | None => false
  end.
Definition createFilesystem (capacity maxStorageCapacity : Z) (ep : EncryptionParams) : M run unit :=
  let! v := self in
  let fsSize := Max capacity (initialFilesystemSize v) in
  if maxStorageCapacity <? fsSize then
    throw (EStatus OutOfRange "Minimum filesystem size %d is set in storageClass, which exceeds total free capacity %d")
  else
    let cr := NewFilesystemCreateRequest (FilesystemName v) (filesystemGroupName v) fsSize ep
                (setSelfOwnership v) in
    let! r := attempt (match apiClient v with
                       | None => required cr ;; panic
                       | Some _ => CreateFileSystem cr
                       end) in
    match r with inl _ => throw (EStatus Internal "err.Error()") | inr _ => ret tt end.
Definition createSnapshotVolume : M run unit :=
  let! snapSrcUid := getUidOfSourceSnap in
  let! fsObj := getFilesystemObj true in
  let! r := attempt isEncrypted in
  match r with
  | inl _ => throw (EStatus Internal "Failed to check if volume is encrypted: %s")
  | inr enc =>
      match fsObj with
      | None => panic
      | Some fs =>
          if enc && negb (fs_IsEncrypted fs) then
            throw (EStatus InvalidArgument "Cannot create encrypted snapshot-backed volume on unencrypted filesystem")
          else
            let! v := self in
            let sr := NewSnapshotCreateRequest (SnapshotName v) (SnapshotAccessPoint v) (fs_Uid fs) snapSrcUid true in
            let! r := attempt (match apiClient v with
                               | None => required sr ;; panic
                               | Some _ => CreateSnapshot sr
                               end) in
            match r with
            | inl _ => throw (EStatus Internal "err.Error()")
            | inr _ =>
                if isInDevMode_ then
                  let! r := attempt mimicDirectoryStructureForDebugMode in
                  match r with
                  | inl e => let! _ := attempt deleteSnapshot in throw e
                  | inr _ => ret tt
                  end
                else ret tt
            end
      end
  end.
(** [filepath.Dir] of a clean path. *)
Definition Dir (p : string) : string := Path.Join [p; ".."].
(** Creating the directory; [rest] is the remainder of [Create], which runs
    before the deferred unmount. *)
Definition createDirectory (rest : M run unit) : M run unit :=
  let! r := attempt isEncrypted in
  match r with
  | inl _ => throw (EStatus Internal "Failed to check if volume is encrypted: %s")
  | inr enc =>
      let! v := self in
      (if enc then
         match apiClient v with
         | None => throw (EPlain "cannot create encrypted volume without API binding")
         | Some _ =>
             let! fsObj := getFilesystemObj true in
             match fsObj with
             | None => panic
             | Some fs =>
                 if fs_IsEncrypted fs then ret tt
                 else throw (EStatus InvalidArgument "Cannot create encrypted directory-backed volume on unencrypted filesystem")
             end
         end
       else ret tt) ;;
      with_underlying_fs (
        let! v := self in
        let volPath := GetFullPath v in
        call_err (OsMkdirAll (Dir volPath) DefaultVolumePermissions) id ;;
        call_err (OsMkdir volPath DefaultVolumePermissions) id ;;
        rest)
  end.

Definition Create (capacity : Z) : M run unit :=
  let! r := attempt getMaxCapacity in
  match r with
  | inl _ => throw (EStatus Internal "CreateVolume: Cannot obtain free capacity for volume %s")
  | inr maxStorageCapacity =>
      if maxStorageCapacity <? capacity then
        throw (EStatus OutOfRange "Requested capacity %d exceeds maximum allowed %d")
      else
        let! ep := ensureEncryptionParams in
        let! v := self in
        let finish : M run unit :=
          let! v := self in
          UpdateCapacity (Some (enforceCapacity v)) capacity ;; UpdateParams in
        if isFilesystem v then createFilesystem capacity maxStorageCapacity ep ;; finish
        else if isOnSnapshot v then createSnapshotVolume ;; finish
        else createDirectory finish
  end.

(** *** Parameters of the storage class *)

Definition getCapacityEnforcementParam (params : gmap string string) : result bool :=
  match params !! "capacityEnforcement" with
  | None | Some "" | Some "HARD" => Ok true
  | Some "SOFT" => Ok false
  | Some _ => Err (EPlain "unsupported capacityEnforcement in volume params")
  end.
(** Apply [f] to a parameter that is present. *)
Definition with_param (params : gmap string string) (key : string) (f : string -> M run unit) : M run unit :=
  match params !! key with Some val => f val | None => ret tt end.
Definition ObtainRequestParams (params : gmap string string) : M run unit :=
  with_param params "mountOptions" (fun val =>
    update (fun v => set_mountOptions
      (Merge (mountOptions v) (NewMountOptionsFromString val) (mutuallyExclusiveOptions config)) v)) ;;
  with_param params "filesystemGroupName" (fun val =>
    update (set_filesystemGroupName val) ;;
    if bool_decide (val = "") then throw (EStatus InvalidArgument "FilesystemGroupName not specified")
    else ret tt) ;;
  with_param params "permissions" (fun val =>
    let! raw := lift (ParseInt val 0 32) in update (set_permissions (uwrap 32 raw))) ;;
  with_param params "ownerUid" (fun val => let! raw := lift (Atoi val) in update (set_ownerUid raw)) ;;
  with_param params "ownerGid" (fun val => let! raw := lift (Atoi val) in update (set_ownerGid raw)) ;;
  (let! enforce := lift (getCapacityEnforcementParam params) in update (set_enforceCapacity enforce)) ;;
  with_param params "initialFilesystemSizeGB" (fun val =>
    let! raw := lift (Atoi val) in update (set_initialFilesystemSize (wrap64 (raw * 10 ^ 9)))) ;;
  with_param params "encryptionEnabled" (fun val =>
    let! b := lift (ParseBool val) in update (set_encrypted (Some b))) ;;
  let! enc := isEncryptedSafe in
  if negb enc then ret tt
  else
    with_param params "manageEncryptionKeys" (fun val =>
      let! b := lift (ParseBool val) in update (set_manageEncryptionKeys b)) ;;
    with_param params "encryptWithoutKms" (fun val =>
      let! b := lift (ParseBool val) in update (set_encryptWithoutKms b)) ;;
    with_param params "kmsVaultNamespace" (fun val => update (set_kmsVaultNamespace val)) ;;
    with_param params "kmsVaultKeyIdentifier" (fun val => update (set_kmsVaultKeyIdentifier val)).

(** utilities.go: exists, matches, error (a value, as the caller inspects it). *)
Definition volumeExistsAndMatchesCapacity (capacity : Z) : M run (bool * bool * option error) :=
  let! (exists_, err) := Exists_results in
  match err, exists_ with
  | Some e, _ => ret (exists_, false, Some e)
  | None, false => ret (false, false, None)
  | None, true =>
      let! c := attempt GetCapacity in
      match c with
      | inl e => ret (true, false, Some e)
      | inr reported => ret (true, bool_decide (reported = capacity), None)
      end
  end.
End Volumes.
