(* ===== verification/Demo.v ===== *)
(** * Concrete surroundings for the witnesses

    A configuration, an API client and environments that answer from a table
    and refuse everything else. *)
From S2P Require Import Prelude.
From S2P Require Import GoStrings.
From S2P Require Import Hashing.
From S2P Require Import MountOptions.
From S2P Require Import VolumeIds.
From S2P Require Import ApiObjects.
From S2P Require Import Compatibility.
From S2P Require Import Objects.
From S2P Require Import Effects.
From S2P Require Import ApiOps.

(** The answer to a call that the table does not know: an error, or nothing;
    semaphores are free. *)
Definition refuse (e : event) : answer e :=
  match e with
  | GetFileSystems _ | GetFileSystem _ _ | PutFileSystem _ | GetFileSystemToken _ | GetSnapshots _
  | GetSnapshot _ | PostSnapshot _ | GetQuota _ _ | PutQuota _ | GetCluster | GetKms | GetResolvePath _ _
  | GetNfsPermissions | PostNfsPermission _ | GetNfsClientGroups_ _ | GetNfsClientGroup _ | PostNfsClientGroup _
  | PostNfsClientGroupRule _ | GetInterfaceGroups_ | GetContainers | ClientEnsureLocalContainer _ _
  | ClientGetNfsMountIp | ReadWekaInterface | LocalIpAddresses | OsHostname | RouteTo _ | OsStatfsAll _
  | OsReadFile _ | ClientInit _
  | MountFs _ _ | OsStat _ | OsStatfs _ | OsReaddirnames _ _ | XattrGet _ _
  | GetQuotas _ | PutQuotaUpdate _ | PutSnapshot _ | KubeGetNode _ | KubeReadNode _
  | ListPVs => inl (EPlain "refused")
  | PostFileSystem _ | DelFileSystem _ | DelSnapshot _ | DelNfsPermission _ | UnmountFs _ _ | OsMkdir _ _
  | OsMkdirAll _ _ | OsChmod _ _ | OsChown _ _ _ | OsRemoveAll _ | XattrSet _ _ _ | TriggerGc _ _ =>
      Some (EPlain "refused")
  | DelQuota _ _ | KubeInClusterConfig | KubeNewForConfig | KubeUpdateNode _ _ | KubeBuildConfig _ | KubeNewManager _
  | KubeAddHealthzCheck | KubeAddRunnable | NetDial _ _ | DelNfsClientGroup _ | ClientEnsureNfsPermissions _ _ _
  | KMount _ _ _ _ _ | KUnmount _ | OsRemove _ | OsRename _ _ | RunLocar _ => Some (EPlain "refused")
  | OsLstat _ => Some NotExist
  | Getenv _ => ""
  | RandIntn _ => 0
  | OsOpen _ => Missing
  | ReadProcMounts | ReadProcModules | ReadSelinuxConfig => None
  | TimeNow => 0
  | SemAcquire _ => None
  | GcInitiate _ | TimeSleep _ | SemRelease _ | SpawnWaitFilesystemDeletion _ | SpawnWaitSnapshotDeletion _ | SpawnDeleteSnapshot _ => tt
  end.

(** Answers that may depend on how many calls were made. *)
Definition scripted (f : nat -> forall e, option (answer e)) : Env nat := fun e n =>
  (default (refuse e) (f n e), S n).

Definition demo_clock : Clock := fun _ => 3%nat.
Definition demo_compat : WekaCompatibilityMap :=
  MkCompat true true true true true false false true true true true true true true true true true.
Definition demo_api : ApiClient := MkApi demo_compat ApiUserRoleCSI 0 "Root" (MkKmsCreds "" "" "" "").
Definition demo_config : DriverConfig :=
  MkConfig "csi-volumes" "csivol-" "csisnp-" "csisnp-seed-" true true true "" false
    [[MountOptionWriteCache; MountOptionCoherent; MountOptionReadCache]] false false true false true
    "v2" "csi.weka.io".
Definition demo_server : Server := MkServer demo_config getDefaultMountOptions (Some dataTransportWekafs).

Definition demo_fs : FileSystem :=
  MkFS "1" "fs1" 77 false false 1000 false true "default" 5000 5000 false 0 0 "" "" "".
(** A filesystem-backed, a snapshot-backed and a directory-backed volume. *)
Definition demo_fs_volume : Volume := new_volume "weka/v2/fs1" "fs1" "" "" "" (Some demo_api).
Definition demo_snap_volume : Volume :=
  new_volume "weka/v2/fs1:ap" "fs1" "csivol-ap" "ap" "" (Some demo_api).
Definition demo_dir_volume : Volume :=
  new_volume "dir/v1/fs1/csi-volumes/v" "fs1" "" "" "csi-volumes/v" (Some demo_api).
