(* ===== verification/MountCounts.v ===== *)
(** * What counting references promises

    Users of a mounter acquire and release handles.  Whatever they do and
    however the kernel answers, the count of an entry is the number of its
    users, and a filesystem somebody uses stays mounted.  The proof is against
    two interfaces: [MountTable], what the kernel does to its mount table, and
    [LawfulMount], what mounting and unmounting in one transport does to it. *)
From stdpp Require Import gmultiset.
From S2P Require Import Prelude.
From S2P Require Import GoStrings.
From S2P Require Import MountOptions.
From S2P Require Import Monad.
From S2P Require Import ApiObjects.
From S2P Require Import Compatibility.
From S2P Require Import Objects.
From S2P Require Import Effects.
From S2P Require Import ApiOps.
From S2P Require Import ProcMounts.
From S2P Require Import Cluster.
From S2P Require Import Mounts.
From S2P Require Import Demo.

(** ** The kernel *)

Definition mount_call (e : event) : bool :=
  match e with KMount _ _ _ _ _ | KUnmount _ => true | _ => false end.
Definition weka_fstype (t : string) : bool := bool_decide (t = "wekafs") || bool_decide (t = "nfs").

(** [table w p]: a weka filesystem is mounted on [p].  /proc/mounts shows the
    table, and a mount point is a directory; a mount that succeeds is in the
    table; a call on one path leaves the others alone; a call that fails and a
    call of another kind leave all alone.  An unmount that succeeds may leave
    the mount in place. *)
Class MountTable (W : Type) `{Env W} := {
  table : W -> string -> bool;
  table_read w : forall p, PathIsWekaMount (fst (exec ReadProcMounts w)) p = table w p;
  table_open w p : table w p = true -> fst (exec (OsOpen p) w) = IsDirectory;
  table_mount w src p t o s : fst (exec (KMount src p t o s) w) = None -> weka_fstype t = true ->
    table (snd (exec (KMount src p t o s) w)) p = true;
  table_elsewhere w src p t o s q : q <> p ->
    table (snd (exec (KMount src p t o s) w)) q = table w q /\
    table (snd (exec (KUnmount p) w)) q = table w q;
  table_failed w src p t o s e q :
    (fst (exec (KMount src p t o s) w) = Some e -> table (snd (exec (KMount src p t o s) w)) q = table w q) /\
    (fst (exec (KUnmount p) w) = Some e -> table (snd (exec (KUnmount p) w)) q = table w q);
  table_other w e q : mount_call e = false -> table (snd (exec e w)) q = table w q
}.

(** A method whose calls do not touch the mount table leaves it alone. *)
Definition keeps_table {W} `{MountTable W} {V A} (m : M (Run W V) A) : Prop :=
  forall s p, table (env (snd (m s))) p = table (env s) p.

Section Keeps.
Context {W : Type} `{MountTable W} {V : Type}.
Implicit Types (A B : Type).
Abbreviation keeps := (keeps_table (V:=V)).

Lemma keeps_silent {A} (m : M (Run W V) A) : (forall s, env (snd (m s)) = env s) -> keeps m.
Proof. intros Hm s p. by rewrite Hm. Qed.
Lemma keeps_ret {A} (a : A) : keeps (ret a).
Proof. by apply keeps_silent. Qed.
Lemma keeps_throw {A} e : keeps (throw (A:=A) e).
Proof. by apply keeps_silent. Qed.
Lemma keeps_panic {A} : keeps (panic (A:=A)).
Proof. by apply keeps_silent. Qed.
Lemma keeps_lift {A} (r : result A) : keeps (lift r).
Proof. by apply keeps_silent. Qed.
Lemma keeps_of_sum {A} (r : error + A) : keeps (of_sum r).
Proof. by destruct r; apply keeps_silent. Qed.
Lemma keeps_of_err r : keeps (of_err r).
Proof. by destruct r; apply keeps_silent. Qed.
Lemma keeps_self : keeps self.
Proof. by apply keeps_silent. Qed.
Lemma keeps_update f : keeps (update f).
Proof. by apply keeps_silent. Qed.
Lemma keeps_bind {A B} (m : M (Run W V) A) (f : A -> M (Run W V) B) :
  keeps m -> (forall a, keeps (f a)) -> keeps (bind m f).
Proof.
  intros Hm Hf s p. unfold bind. pose proof (Hm s p) as E.
  destruct (m s) as [[a|e|] s1]; cbn in *; auto. by rewrite Hf.
Qed.
Lemma keeps_attempt {A} (m : M (Run W V) A) : keeps m -> keeps (attempt m).
Proof. intros Hm s p. unfold attempt. specialize (Hm s p). by destruct (m s) as [[| |] s1]. Qed.
Lemma keeps_call e : mount_call e = false -> keeps (call e).
Proof.
  intros He s p. unfold call. pose proof (table_other (env s) e p He).
  by destruct (exec e (env s)).
Qed.
Lemma keeps_call_err e cast : mount_call e = false -> keeps (call_err e cast).
Proof. intros He. apply keeps_bind; [by apply keeps_call|intros a; apply keeps_of_err]. Qed.
Lemma keeps_call_val {A} e (cast : answer e -> error + A) : mount_call e = false -> keeps (call_val e cast).
Proof. intros He. apply keeps_bind; [by apply keeps_call|intros a; apply keeps_of_sum]. Qed.
End Keeps.

Create HintDb keeps.
#[export] Hint Resolve keeps_ret keeps_throw keeps_panic keeps_lift keeps_of_sum keeps_of_err keeps_self
  keeps_update : keeps.
Ltac keeps_step :=
  match goal with
  | |- keeps_table (bind _ _) => apply keeps_bind; [|intros ?]
  | |- keeps_table (attempt _) => apply keeps_attempt
  | |- keeps_table (call _) => refine (keeps_call _ _); reflexivity
  | |- keeps_table (call_err _ _) => apply keeps_call_err; reflexivity
  | |- keeps_table (call_val _ _) => apply keeps_call_val; reflexivity
  | |- keeps_table (if ?b then _ else _) => destruct b
  | |- keeps_table (match ?x with _ => _ end) => destruct x
  | |- keeps_table (let _ := _ in _) => cbv zeta
  end.
Ltac keeps := repeat first [solve [eauto 3 with keeps] | keeps_step].

(** ** One transport *)

(** [real m]: [m] mounts a weka filesystem (and not, in debug mode, a directory). *)
Class LawfulMount (T : Type) `{AnyMount T} := {
  real : T -> Prop;
  doMount_map {W} `{Env W} m a o : preserves (W:=W) mountMap (doMount m a o);
  doUnmount_map {W} `{Env W} m : preserves (W:=W) mountMap (doUnmount m);
  doMount_elsewhere {W} `{MountTable W} m a o s q : q <> getMountPoint m ->
    table (env (snd (doMount m a o s))) q = table (env s) q;
  doMount_done {W} `{MountTable W} m a o s s' : real m -> doMount m a o s = (Ok tt, s') ->
    table (env s') (getMountPoint m) = true;
  doMount_failed {W} `{MountTable W} m a o s e s' : doMount m a o s = (Err e, s') ->
    table (env s') (getMountPoint m) = table (env s) (getMountPoint m);
  doUnmount_elsewhere {W} `{MountTable W} m s q : q <> getMountPoint m ->
    table (env (snd (doUnmount m s))) q = table (env s) q;
  doUnmount_failed {W} `{MountTable W} m s e s' : doUnmount m s = (Err e, s') ->
    table (env s) (getMountPoint m) = true -> table (env s') (getMountPoint m) = true
}.

Section Visible.
Context {W : Type} `{MountTable W} {V : Type}.

Lemma keeps_visible p : keeps_table (V:=V) (mount_visible p).
Proof. unfold mount_visible, PathExists. keeps. Qed.
(** Where a weka filesystem is mounted, it is seen. *)
Lemma visible_spec p (s s' : Run W V) b : mount_visible p s = (Ok b, s') -> b = table (env s) p.
Proof.
  unfold mount_visible, PathExists. intros Hr.
  apply bind_inv in Hr as (there & s1 & Ht & Hr). apply bind_inv in Ht as (k & s2 & Hc & Ht).
  unfold call in Hc. pose proof (table_open (env s) p) as Ho.
  pose proof (table_other (env s) (OsOpen p) p eq_refl) as Hk.
  destruct (exec (OsOpen p) (env s)) as [k' w]. cbn in Ho, Hk. injection Hc as <- <-. destruct k'.
  - injection Ht as <- <-. injection Hr as <- <-. destruct (table (env s) p); [|done]. by discriminate Ho.
  - injection Ht as <- <-. apply bind_inv in Hr as (l & s3 & Hc & Hr). unfold call in Hc. cbn in Hc.
    pose proof (table_read w p) as Hp. destruct (exec ReadProcMounts w) as [l' w'].
    injection Hc as <- <-. injection Hr as <- _. cbn in Hp. by rewrite Hp.
  - done.
Qed.
End Visible.

Section Counts.
Context {T : Type} `{LawfulMount T} {W : Type} `{MountTable W}.
Abbreviation run := (Run W Mounter).
Abbreviation count s i := (default 0 (mountMap (obj s) !! i)).

Lemma preserves_visible {V B} (f : V -> B) p : preserves (W:=W) f (mount_visible p).
Proof. unfold mount_visible, PathExists. preserves. Qed.

(** What a reference taken, or not taken, does. *)
Lemma doMount_same m a o (s s' : run) r : doMount m a o s = (r, s') -> mountMap (obj s') = mountMap (obj s).
Proof. intros E. pose proof (doMount_map (W:=W) m a o s) as P. by rewrite E in P. Qed.
Lemma doUnmount_same m (s s' : run) r : doUnmount m s = (r, s') -> mountMap (obj s') = mountMap (obj s).
Proof. intros E. pose proof (doUnmount_map (W:=W) m s) as P. by rewrite E in P. Qed.
Lemma visible_same p (s s' : run) r : mount_visible p s = (r, s') ->
  mountMap (obj s') = mountMap (obj s) /\ forall q, table (env s') q = table (env s) q.
Proof.
  intros E. pose proof (preserves_visible mountMap p s) as P. pose proof (keeps_visible p s) as Q.
  by rewrite E in P, Q.
Qed.

(** The mounting that precedes the count, in [incRef] and [decRef]. *)
Definition ensure_mounted (m : T) (a : option ApiClient) (refCount : Z) : M run unit :=
  bind (if refCount =? 0 then doMount m a (getMountOptions m) else ret tt) (fun _ =>
  if 0 <? refCount then
    bind (mount_isMounted m) (fun mounted => if mounted then ret tt else doMount m a (getMountOptions m))
  else ret tt).

Lemma ensure_mounted_spec m a c (s s' : run) r : 0 <= c -> ensure_mounted m a c s = (r, s') ->
  mountMap (obj s') = mountMap (obj s) /\
  (forall q, q <> getMountPoint m -> table (env s') q = table (env s) q) /\
  (r = Ok tt -> real m -> table (env s') (getMountPoint m) = true) /\
  (forall e, r = Err e -> table (env s') (getMountPoint m) = table (env s) (getMountPoint m)).
Proof.
  intros Hc. unfold ensure_mounted. destruct (c =? 0) eqn:E0.
  - assert (0 <? c = false) as -> by (bool_to_prop; lia). unfold bind.
    pose proof (doMount_elsewhere m a (getMountOptions m) s) as He.
    destruct (doMount m a (getMountOptions m) s) as [[[]|e|] s1] eqn:Em; intros [= <- <-]; cbn in He;
      (split; [by apply doMount_same in Em|]; split; [done|]; split).
    + intros _ Hr. by apply doMount_done in Em.
    + done.
    + done.
    + intros _ _. by apply doMount_failed in Em.
    + done.
    + done.
  - assert (0 <? c = true) as -> by (bool_to_prop; lia). unfold bind, ret, mount_isMounted.
    destruct (mount_visible (getMountPoint m) s) as [[b|e|] s1] eqn:Ev;
      pose proof (visible_same _ _ _ _ Ev) as (Hm1 & Ht1).
    + pose proof (visible_spec _ _ _ _ Ev) as Hb. destruct b.
      * intros [= <- <-]. split; [done|]. split; [done|]. split; [|done]. intros _ _. by rewrite Ht1.
      * pose proof (doMount_elsewhere m a (getMountOptions m) s1) as He.
        destruct (doMount m a (getMountOptions m) s1) as [r1 s2] eqn:Em. intros [= <- <-]. cbn in He.
        split; [apply doMount_same in Em; congruence|]. split; [intros q Hq; by rewrite He, Ht1|]. split.
        -- intros -> Hr. by apply doMount_done in Em.
        -- intros e ->. apply doMount_failed in Em. by rewrite Em, Ht1.
    + intros [= <- <-]. naive_solver.
    + intros [= <- <-]. naive_solver.
Qed.

Lemma incRef_eq m a (s : run) :
  incRef m a s =
  bind (ensure_mounted m a (count s (getRefcountIdx m)))
    (fun _ => update (fun x => set_mountMap (<[getRefcountIdx m := count s (getRefcountIdx m) + 1]> (mountMap x)) x)) s.
Proof.
  unfold incRef, ensure_mounted. rewrite (bind_Ok self _ s (obj s) s eq_refl). cbv zeta.
  by rewrite bind_assoc.
Qed.

Lemma incRef_Ok m a (s s' : run) : 0 <= count s (getRefcountIdx m) -> incRef m a s = (Ok tt, s') ->
  mountMap (obj s') = <[getRefcountIdx m := count s (getRefcountIdx m) + 1]> (mountMap (obj s)) /\
  (real m -> table (env s') (getMountPoint m) = true) /\
  (forall q, q <> getMountPoint m -> table (env s') q = table (env s) q).
Proof.
  intros Hc. rewrite incRef_eq. intros Hr. apply bind_inv in Hr as ([] & s1 & Hm & Hu).
  apply ensure_mounted_spec in Hm as (Hmap & Hq & Hok & _); [|done]. injection Hu as <-. cbn.
  rewrite Hmap. auto.
Qed.
Lemma incRef_Err m a (s s' : run) e : 0 <= count s (getRefcountIdx m) -> incRef m a s = (Err e, s') ->
  mountMap (obj s') = mountMap (obj s) /\ (forall q, table (env s') q = table (env s) q).
Proof.
  intros Hc. rewrite incRef_eq. unfold bind.
  destruct (ensure_mounted _ _ _ s) as [[[]|e'|] s1] eqn:Em; try done. intros [= <- <-].
  apply ensure_mounted_spec in Em as (Hmap & Hq & _ & Herr); [|done]. split; [done|]. intros q.
  destruct (decide (q = getMountPoint m)) as [->|Hne]; [by eapply Herr|auto].
Qed.

(** Giving a reference back. *)
Definition release_mount (m : T) (refCount : Z) : M run unit :=
  if refCount =? 1 then
    bind (mount_isMounted m) (fun mounted => if mounted then doUnmount m else ret tt)
  else ret tt.

Lemma release_mount_spec m c (s s' : run) r : release_mount m c s = (r, s') ->
  mountMap (obj s') = mountMap (obj s) /\
  (forall q, q <> getMountPoint m \/ c <> 1 -> table (env s') q = table (env s) q) /\
  (forall e, r = Err e -> table (env s) (getMountPoint m) = true -> table (env s') (getMountPoint m) = true).
Proof.
  unfold release_mount, mount_isMounted. destruct (c =? 1) eqn:E1.
  - bool_to_prop. unfold bind.
    destruct (mount_visible (getMountPoint m) s) as [[b|e|] s1] eqn:Ev;
      pose proof (visible_same _ _ _ _ Ev) as (Hm1 & Ht1); [|intros [= <- <-]; naive_solver..].
    destruct b; [|intros [= <- <-]; naive_solver].
    pose proof (doUnmount_elsewhere m s1) as He.
    destruct (doUnmount m s1) as [r1 s2] eqn:Em. intros [= <- <-]. cbn in He.
    split; [apply doUnmount_same in Em; congruence|]. split.
    + intros q [Hq|Hq]; [by rewrite He, Ht1|lia].
    + intros e -> Ht. apply doUnmount_failed in Em; [done|]. by rewrite Ht1.
  - intros [= <- <-]. naive_solver.
Qed.

Lemma decRef_spec m (s s' : run) r : decRef m s = (r, s') ->
  let c := count s (getRefcountIdx m) in
  (forall q, q <> getMountPoint m \/ c <> 1 -> table (env s') q = table (env s) q) /\
  (r = Ok tt -> mountMap (obj s') =
     if 0 <? c then <[getRefcountIdx m := c - 1]> (mountMap (obj s)) else mountMap (obj s)) /\
  (forall e, r = Err e -> mountMap (obj s') = mountMap (obj s) /\
     (table (env s) (getMountPoint m) = true -> table (env s') (getMountPoint m) = true)).
Proof.
  unfold decRef. rewrite (bind_Ok self _ s (obj s) s eq_refl). cbv zeta. intros Hr.
  change (bind (release_mount m (count s (getRefcountIdx m))) (fun _ =>
    if 0 <? count s (getRefcountIdx m) then update (fun x => set_mountMap (<[getRefcountIdx m := count s (getRefcountIdx m) - 1]> (mountMap x)) x)
    else ret tt) s = (r, s')) in Hr.
  unfold bind in Hr. destruct (release_mount _ _ s) as [[[]|e|] s1] eqn:Em;
    apply release_mount_spec in Em as (Hmap & Hq & Herr).
  - destruct (0 <? _); injection Hr as <- <-; cbn; (split; [done|]; split; [intros _; by rewrite Hmap|done]).
  - injection Hr as <- <-. split; [done|]. split; [done|]. intros e' [= ->]. eauto.
  - injection Hr as <- <-. done.
Qed.

(** ** The system: users, the collector, and everybody else *)

(** The mounts in play: real ones, with one entry per mount point. *)
Variable in_play : T -> Prop.
Hypothesis in_play_real : forall m, in_play m -> real m.
Hypothesis one_entry : forall m m', in_play m -> in_play m' ->
  getMountPoint m = getMountPoint m' <-> getRefcountIdx m = getRefcountIdx m'.

Inductive label := Acquired (i : string) | Released (i : string) | Quiet.

Inductive mounter_step : label -> run -> run -> Prop :=
| step_acquire m a s s' : in_play m -> incRef m a s = (Ok tt, s') ->
    mounter_step (Acquired (getRefcountIdx m)) s s'
| step_acquire_failed m a e s s' : in_play m -> incRef m a s = (Err e, s') -> mounter_step Quiet s s'
| step_release m s s' : in_play m -> decRef m s = (Ok tt, s') ->
    mounter_step (Released (getRefcountIdx m)) s s'
| step_release_failed m e s s' : in_play m -> decRef m s = (Err e, s') -> mounter_step Quiet s s'
| step_collect s s' : gcInactiveMounts s = (Ok tt, s') -> mounter_step Quiet s s'
| step_elsewhere s w tr : (forall m, in_play m -> table w (getMountPoint m) = table (env s) (getMountPoint m)) ->
    mounter_step Quiet s (MkRun (obj s) w tr).

(** The abstract mounter is the multiset of references held: what a history,
    latest first, leaves; users release only what they hold. *)
Fixpoint holders (ls : list label) : gmultiset string :=
  match ls with
  | [] => ∅
  | Acquired i :: ls' => {[+ i +]} ⊎ holders ls'
  | Released i :: ls' => holders ls' ∖ {[+ i +]}
  | Quiet :: ls' => holders ls'
  end.
Fixpoint legal (ls : list label) : Prop :=
  match ls with
  | [] => True
  | Released i :: ls' => i ∈ holders ls' /\ legal ls'
  | _ :: ls' => legal ls'
  end.
Inductive history (s0 : run) : list label -> run -> Prop :=
| history_start : history s0 [] s0
| history_step l ls s s' : history s0 ls s -> mounter_step l s s' -> history s0 (l :: ls) s'.

(** The relation between the two: counts are multiplicities, and what is held
    is mounted. *)
Definition refines (s : run) (users : gmultiset string) : Prop :=
  (forall i, count s i = Z.of_nat (multiplicity i users)) /\
  (forall m, in_play m -> getRefcountIdx m ∈ users -> table (env s) (getMountPoint m) = true).

Lemma count_nonneg s users i : refines s users -> 0 <= count s i.
Proof. intros [Hc _]. rewrite Hc. lia. Qed.

Lemma elsewhere m m' : in_play m -> in_play m' -> getRefcountIdx m' <> getRefcountIdx m ->
  getMountPoint m' <> getMountPoint m.
Proof. intros Hm Hm' Hne Heq. by apply Hne, one_entry. Qed.

Lemma refines_acquire m a s s' users : in_play m -> incRef m a s = (Ok tt, s') -> refines s users ->
  refines s' ({[+ getRefcountIdx m +]} ⊎ users).
Proof.
  intros Hm Hi Hr. pose proof (count_nonneg _ _ (getRefcountIdx m) Hr) as Hc0. destruct Hr as [Hc Ht].
  apply incRef_Ok in Hi as (Hmap & Hmp & Hq); [|done]. split.
  - intros i. rewrite Hmap, multiplicity_disj_union. destruct (decide (i = getRefcountIdx m)) as [->|Hne].
    + rewrite lookup_insert_eq, multiplicity_singleton_eq. cbn [default]. rewrite Hc. unfold id. lia.
    + rewrite lookup_insert_ne, multiplicity_singleton_ne, Hc by done. lia.
  - intros m' Hm' Hin. destruct (decide (getRefcountIdx m' = getRefcountIdx m)) as [He|Hne].
    + apply one_entry in He as ->; auto.
    + rewrite Hq by by apply elsewhere. apply Ht; [done|]. multiset_solver.
Qed.

Lemma refines_release m s s' users : in_play m -> decRef m s = (Ok tt, s') -> refines s users ->
  getRefcountIdx m ∈ users -> refines s' (users ∖ {[+ getRefcountIdx m +]}).
Proof.
  intros Hm Hd [Hc Ht] Hin. apply decRef_spec in Hd as (Hq & Hmap & _). specialize (Hmap eq_refl).
  rewrite elem_of_multiplicity in Hin. rewrite Hc in Hq, Hmap.
  assert (0 <? Z.of_nat (multiplicity (getRefcountIdx m) users) = true) as Hlt by (apply Z.ltb_lt; lia).
  rewrite Hlt in Hmap. split.
  - intros i. rewrite Hmap, multiplicity_difference. destruct (decide (i = getRefcountIdx m)) as [->|Hne].
    + rewrite lookup_insert_eq, multiplicity_singleton_eq. cbn [default]. unfold id. lia.
    + rewrite lookup_insert_ne, multiplicity_singleton_ne, Hc by done. lia.
  - intros m' Hm' Hin'. rewrite Hq; [apply Ht; [done|multiset_solver]|].
    destruct (decide (getRefcountIdx m' = getRefcountIdx m)) as [He|Hne]; [right|left; by apply elsewhere].
    rewrite He in Hin'. rewrite elem_of_multiplicity in Hin'.
    rewrite multiplicity_difference, multiplicity_singleton_eq in Hin'. lia.
Qed.

Lemma refines_quiet s s' users : mounter_step Quiet s s' -> refines s users -> refines s' users.
Proof.
  intros Hs Hr. pose proof (fun i => count_nonneg _ _ i Hr) as Hc0. destruct Hr as [Hc Ht].
  inversion Hs as [|m a e ? ? Hm Hi| |m e ? ? Hm Hd|? ? Hg|? w tr Hw]; subst.
  - apply incRef_Err in Hi as (Hmap & Hq); [|done]. split; [intros i; by rewrite Hmap|].
    intros m' Hm' Hin. rewrite Hq. auto.
  - apply decRef_spec in Hd as (Hq & _ & Herr). destruct (Herr e eq_refl) as (Hmap & Hkeep).
    split; [intros i; by rewrite Hmap|]. intros m' Hm' Hin.
    destruct (decide (getMountPoint m' = getMountPoint m)) as [He|Hne].
    + rewrite He in *. apply Hkeep. rewrite <- He. auto.
    + rewrite Hq by auto. auto.
  - injection Hg as <-. split; [|done]. intros i. cbn. rewrite <- Hc. cbn.
    rewrite map_lookup_filter. destruct (mountMap (obj s) !! i) as [z|]; [|done]. cbn.
    case_guard as Hz; [done|]. cbn in *. unfold id. lia.
  - split; [done|]. intros m Hm Hin. cbn. rewrite Hw; auto.
Qed.

(** (C9) Counting refines counting users: after any history of users taking and
    giving back references, failed attempts, collections of idle entries and
    mounts elsewhere, the count of every entry is the number of references
    held on it, and every filesystem on which a reference is held is mounted. *)
Theorem mounter_refines_users s0 ls s :
  mountMap (obj s0) = ∅ -> history s0 ls s -> legal ls -> refines s (holders ls).
Proof.
  intros Hempty Hh. induction Hh as [|l ls s s' Hh IH Hs]; intros Hl.
  - split; [|intros m _ Hin; by apply gmultiset_elem_of_empty in Hin].
    intros i. cbn. rewrite Hempty, multiplicity_empty. by rewrite lookup_empty.
  - destruct l as [i|i|]; cbn in *.
    + inversion Hs; subst. eapply refines_acquire; eauto.
    + inversion Hs; subst. destruct Hl. eapply refines_release; eauto.
    + eapply refines_quiet; eauto.
Qed.
End Counts.

(** ** The wekafs transport keeps the laws *)

Section WekafsLaws.
Context {W : Type} `{MountTable W}.
Abbreviation run := (Run W Mounter).

Lemma keeps_isWekaRunning : keeps_table (V:=Mounter) isWekaRunning.
Proof. unfold isWekaRunning, isWekaDriverLoaded, GetFrontendsFromDriver. keeps. Qed.
Lemma keeps_token a n : keeps_table (V:=Mounter) (GetMountTokenForFilesystemName a n).
Proof.
  unfold GetMountTokenForFilesystemName, GetFileSystemByName, GetFileSystemByFilter, FindFileSystemsByFilter,
    GetFileSystemMountToken, required, the_one. keeps.
Qed.

(** A method that ends in one call of the kernel mounter on [p]. *)
Definition mounts_at {A} (weka : bool) (p : string) (m : M run A) : Prop :=
  forall s, (forall q, q <> p -> table (env (snd (m s))) q = table (env s) q) /\
    (forall a s', m s = (Ok a, s') -> weka = true -> table (env s') p = true) /\
    (forall e s', m s = (Err e, s') -> table (env s') p = table (env s) p).

Lemma mounts_at_call weka src p t o x : (weka = true -> weka_fstype t = true) ->
  mounts_at weka p (call_err (KMount src p t o x) id).
Proof.
  intros Ht s. unfold call_err, bind, call.
  pose proof (table_elsewhere (env s) src p t o x) as He. pose proof (table_mount (env s) src p t o x) as Hm.
  pose proof (fun e q => proj1 (table_failed (env s) src p t o x e q)) as Hf.
  destruct (exec (KMount src p t o x) (env s)) as [[e|] w]; cbn in *.
  - split; [intros q Hq; by apply He|]. split; [done|]. intros e' s' [= <- <-]. by eapply Hf.
  - split; [intros q Hq; by apply He|]. split; [|done]. intros [] s' [= <-] Hw. by apply Hm, Ht.
Qed.
Lemma mounts_at_fail weka p {A} e : mounts_at (A:=A) weka p (throw e).
Proof. intros s. split; [done|]. split; [done|]. by intros ? ? [= <- <-]. Qed.
Lemma mounts_at_panic weka p {A} : mounts_at (A:=A) weka p panic.
Proof. by intros s. Qed.
Lemma mounts_at_bind weka p {A B} (m : M run A) (f : A -> M run B) :
  keeps_table m -> (forall a, mounts_at weka p (f a)) -> mounts_at weka p (bind m f).
Proof.
  intros Hm Hf s. unfold bind. pose proof (Hm s) as Hk. destruct (m s) as [[a|e|] s1]; cbn in *.
  - destruct (Hf a s1) as (H1 & H2 & H3). split; [intros q Hq; rewrite H1; auto|]. split; [done|].
    intros e s' Hr. rewrite (H3 e s' Hr). auto.
  - split; [auto|]. split; [done|]. intros e' s' [= <- <-]. auto.
  - split; [auto|]. done.
Qed.
Lemma mounts_at_fake weka p d n : weka = false -> mounts_at weka p (mount_fake d n p).
Proof.
  intros ->. unfold mount_fake. cbv zeta. apply mounts_at_bind; [keeps|]. intros [e|]; [apply mounts_at_panic|].
  by apply mounts_at_call.
Qed.

Lemma wekafs_mounts m a o :
  mounts_at (negb (wekafs_isInDevMode m)) (wekafs_getMountPoint m) (wekafs_doMount m a o).
Proof.
  unfold wekafs_doMount. apply mounts_at_bind; [keeps|]. intros _.
  destruct (wekafs_isInDevMode m); cbn [negb]; [by apply mounts_at_fake|].
  apply mounts_at_bind; [apply keeps_isWekaRunning|]. intros [|]; cbn [negb]; [|apply mounts_at_fail].
  apply mounts_at_bind; [|intros l; by apply mounts_at_call].
  destruct a; [|keeps]. apply keeps_bind; [apply keeps_token|keeps].
Qed.

Lemma kunmount_elsewhere p s q : q <> p ->
  table (env (snd (call_err (V:=Mounter) (KUnmount p) id s))) q = table (env s) q.
Proof.
  intros Hq. unfold call_err, bind, call. pose proof (table_elsewhere (env s) "" p "" [] [] q Hq) as [_ He].
  by destruct (exec (KUnmount p) (env s)) as [[e|] w].
Qed.
Lemma kunmount_failed p (s s' : run) e q : call_err (KUnmount p) id s = (Err e, s') ->
  table (env s') q = table (env s) q.
Proof.
  unfold call_err, bind, call. pose proof (fun e => proj2 (table_failed (env s) "" p "" [] [] e q)) as Hf.
  destruct (exec (KUnmount p) (env s)) as [[e'|] w]; [|done]. cbn in Hf. intros [= <- <-]. by eapply Hf.
Qed.
(** After the unmount: look, and remove the directory if the mount is gone. *)
Lemma wekafs_doUnmount_cases m (s s' : run) r : wekafs_doUnmount m s = (r, s') ->
  exists r1 s1, call_err (KUnmount (wekafs_getMountPoint m)) id s = (r1, s1) /\
    (forall q, table (env s') q = table (env s1) q) /\
    match r1 with
    | Ok _ => match r with
              | Ok _ => table (env s') (wekafs_getMountPoint m) = false
              | Err _ => table (env s') (wekafs_getMountPoint m) = true
              | Panic => True
              end
    | _ => s' = s1 /\ r = r1
    end.
Proof.
  unfold wekafs_doUnmount. intros Hr. unfold bind in Hr at 1.
  destruct (call_err (KUnmount _) id s) as [[[]|e|] s1] eqn:E1.
  - exists (Ok ()), s1. split; [done|].
    unfold bind in Hr at 1. destruct (mount_visible _ s1) as [[b|e|] s2] eqn:Ev;
      pose proof (keeps_visible (wekafs_getMountPoint m) s1) as Hk; rewrite Ev in Hk; cbn in Hk.
    + apply visible_spec in Ev. destruct b.
      * injection Hr as <- <-. split; [done|]. by rewrite Hk.
      * pose proof (keeps_call (V:=Mounter) (OsRemove (wekafs_getMountPoint m)) eq_refl s2) as Hc.
        unfold bind, call in *. destruct (exec (OsRemove _) (env s2)) as [o w]. cbn in Hc.
        injection Hr as <- <-. cbn. split; [intros q; by rewrite Hc|]. by rewrite Hc, Hk.
    + exfalso. revert Ev. unfold mount_visible, PathExists, bind, call.
      destruct (exec (OsOpen _) (env s1)) as [[] w]; cbn; [done| |done]. by destruct (exec ReadProcMounts w).
    + injection Hr as <- <-. done.
  - injection Hr as <- <-. by exists (Err e), s1.
  - injection Hr as <- <-. by exists Panic, s1.
Qed.
End WekafsLaws.

Lemma preserves_wekafs_doMount {W} `{Env W} m a o : preserves (W:=W) mountMap (wekafs_doMount m a o).
Proof.
  unfold wekafs_doMount, mount_fake, isWekaRunning, isWekaDriverLoaded, GetFrontendsFromDriver,
    GetMountTokenForFilesystemName, GetFileSystemByName, GetFileSystemByFilter, FindFileSystemsByFilter,
    GetFileSystemMountToken, required, the_one. preserves.
Qed.
Lemma preserves_wekafs_doUnmount {W} `{Env W} m : preserves (W:=W) mountMap (wekafs_doUnmount m).
Proof. unfold wekafs_doUnmount, mount_visible, PathExists. preserves. Qed.

#[export] Instance wekafs_lawful : LawfulMount wekafsMount.
Proof.
  refine {| real m := wekafs_isInDevMode m = false |}; cbn -[wekafs_doMount wekafs_doUnmount]; intros.
  - apply preserves_wekafs_doMount.
  - apply preserves_wekafs_doUnmount.
  - by apply wekafs_mounts.
  - destruct (wekafs_mounts m a o s) as (_ & Hok & _). eapply Hok; [done|]. by apply negb_true_iff.
  - destruct (wekafs_mounts m a o s) as (_ & _ & Herr). by eapply Herr.
  - destruct (wekafs_doUnmount m s) as [r s'] eqn:E.
    destruct (wekafs_doUnmount_cases _ _ _ _ E) as (r1 & s1 & E1 & Hq & _). cbn. rewrite Hq.
    pose proof (kunmount_elsewhere (wekafs_getMountPoint m) s q ltac:(done)) as Hk. by rewrite E1 in Hk.
  - match goal with E : wekafs_doUnmount m s = _ |- _ => apply wekafs_doUnmount_cases in E end.
    destruct_and?. match goal with E : exists _, _ |- _ => destruct E as ([[]|e'|] & s1 & E1 & Hq & Hc) end;
      [done| |naive_solver].
    destruct Hc as [-> _]. by rewrite (kunmount_failed _ _ _ _ _ E1).
Defined.

(** When the last user of a mount leaves, the mount is gone: a release
    that succeeds on an entry with one reference leaves nothing mounted there,
    whatever the unmount claimed. *)
Theorem last_release_unmounts {W} `{MountTable W} (m : wekafsMount) (s s' : Run W Mounter) :
  mountMap (obj s) !! getRefcountIdx m = Some 1 -> decRef m s = (Ok tt, s') ->
  table (env s') (getMountPoint m) = false /\ mountMap (obj s') !! getRefcountIdx m = Some 0.
Proof.
  intros Hc Hd. pose proof (decRef_spec m s s' (Ok tt) Hd) as (_ & Hmap & _). specialize (Hmap eq_refl).
  rewrite Hc in Hmap. cbn -[getRefcountIdx] in Hmap. split; [|by rewrite Hmap, lookup_insert_eq].
  unfold decRef in Hd. rewrite (bind_Ok self _ s (obj s) s eq_refl) in Hd. cbv zeta in Hd. rewrite Hc in Hd.
  cbn -[getRefcountIdx getMountPoint bind doUnmount] in Hd.
  apply bind_inv in Hd as ([] & s1 & Hr & Hu). injection Hu as <-. cbn [env].
  apply bind_inv in Hr as (b & s2 & Hv & Hr). pose proof (visible_spec _ _ _ _ Hv) as Hb.
  pose proof (keeps_visible (getMountPoint m) s) as Hk. unfold mount_isMounted in Hv. rewrite Hv in Hk. cbn [snd] in Hk.
  destruct b; [|injection Hr as <-; by rewrite Hk].
  apply wekafs_doUnmount_cases in Hr as ([[]|e|] & s3 & _ & _ & Hend); [done|by destruct Hend..].
Qed.

(** ** A kernel *)

(** The mount table is the list of lines of /proc/mounts.  A mount whose line
    could not be read back is refused. *)
Definition mount_line (src p t : string) : string := src +:+ " " +:+ p +:+ " " +:+ t +:+ " rw 0 0".
Definition kernel_exec (refuse_other : forall e, answer e) (e : event) (w : list string) : answer e * list string :=
  match e return answer e * list string with
  | ReadProcMounts => (Some w, w)
  | OsOpen _ => (IsDirectory, w)
  | KMount src p t _ _ =>
      if line_is_weka_mount p (mount_line src p t) then (None, mount_line src p t :: w)
      else (Some (EPlain "invalid argument"), w)
  | KUnmount p => (None, filter (fun l => line_is_weka_mount p l = false) w)
  | e => (refuse_other e, w)
  end.

Lemma weka_mount_path p q l : line_is_weka_mount p l = true -> line_is_weka_mount q l = true -> p = q.
Proof.
  unfold line_is_weka_mount. destruct (Fields l) as [|a [|b [|c r]]]; try done. intros H1 H2.
  rewrite orb_true_iff, !andb_true_iff, !bool_decide_eq_true in H1, H2. naive_solver.
Qed.

Definition kernel (refuse_other : forall e, answer e) : Env (list string) := kernel_exec refuse_other.
#[export] Instance kernel_table o : MountTable (list string) (H:=kernel o).
Proof.
  refine {| table w p := PathIsWekaMount (Some w) p |}; unfold exec, kernel; try done.
  - intros w src p t opts s. cbn -[line_is_weka_mount]. destruct (line_is_weka_mount p _) eqn:E; [|done]. intros _ _.
    cbn -[line_is_weka_mount]. by rewrite E.
  - intros w src p t opts s q Hq. cbn -[line_is_weka_mount]. split.
    + destruct (line_is_weka_mount p _) eqn:E; [|done]. cbn -[line_is_weka_mount].
      destruct (line_is_weka_mount q _) eqn:E2; [|done]. by destruct Hq; eapply weka_mount_path.
    + induction w as [|l w IH]; [done|]. rewrite filter_cons. case_decide as Hl; cbn -[line_is_weka_mount].
      * by rewrite IH.
      * rewrite IH. destruct (line_is_weka_mount q l) eqn:E2; [|done].
        apply not_false_is_true in Hl. by destruct Hq; eapply weka_mount_path.
  - intros w src p t opts s e q. cbn -[line_is_weka_mount]. split; [|done].
    by destruct (line_is_weka_mount p _).
  - intros w e q He. by destruct e.
Defined.

(** A host on which the WEKA client runs. *)
Definition host_answers (e : event) : answer e :=
  match e return answer e with
  | OsMkdirAll _ _ | OsRemove _ | OsRename _ _ | OsRemoveAll _ => None
  | ReadProcModules => Some ["wekafsgw 1 0"]
  | ReadWekaInterface => inr ["Container=client FE 0: Connected frontend pid 17"]
  | e => refuse e
  end.
#[local] Instance host : Env (list string) := kernel host_answers.
#[local] Instance host_table : MountTable (list string) := kernel_table host_answers.

Definition demo_mounter : MounterConfig := fst (newWekafsMounter "" CsiModeNode "" false).
Definition demo_mount_a : wekafsMount := NewMount demo_mounter "fs1" getDefaultMountOptions.
Definition demo_mount_b : wekafsMount := NewMount demo_mounter "fs1" (NewMountOptionsFromString "ro").
Definition demo_start : Run (list string) Mounter := MkRun (snd (newWekafsMounter "" CsiModeNode "" false)) [] [].
Definition demo_in_play (m : wekafsMount) : Prop := m = demo_mount_a \/ m = demo_mount_b.

Lemma ends_Ok {S} (m : M S unit) s : fst (m s) = Ok tt -> m s = (Ok tt, snd (m s)).
Proof. destruct (m s) as [r s']. by intros [= ->]. Qed.

Definition demo_s1 := snd (incRef demo_mount_a None demo_start).
Definition demo_s2 := snd (incRef demo_mount_b None demo_s1).
Definition demo_s3 := snd (incRef demo_mount_a None demo_s2).
Definition demo_s4 := snd (decRef demo_mount_a demo_s3).

Lemma demo_labels (a b : string) :
  holders [Released a; Acquired a; Acquired b; Acquired a] = {[+ b; a +]} /\
  legal [Released a; Acquired a; Acquired b; Acquired a].
Proof. cbn [holders legal]. split; [multiset_solver|]. split; [multiset_solver|done]. Qed.

Lemma mounter_refines_users_witness :
  refines demo_in_play demo_s4 {[+ getRefcountIdx demo_mount_b; getRefcountIdx demo_mount_a +]}.
Proof.
  set (a := getRefcountIdx demo_mount_a). set (b := getRefcountIdx demo_mount_b).
  destruct (demo_labels a b) as [<- Hl].
  apply (mounter_refines_users demo_in_play) with (s0 := demo_start).
  - intros m [->| ->]; reflexivity.
  - intros m m' [->| ->] [->| ->]; split; intros Heq; try reflexivity; vm_compute in Heq; discriminate.
  - reflexivity.
  - apply (history_step _ demo_start (Released a) _ demo_s3 demo_s4);
      [apply (history_step _ demo_start (Acquired a) _ demo_s2 demo_s3);
      [apply (history_step _ demo_start (Acquired b) _ demo_s1 demo_s2);
      [apply (history_step _ demo_start (Acquired a) _ demo_start demo_s1); [constructor|]|]|]|].
    + refine (step_acquire demo_in_play demo_mount_a None demo_start _ _ (ends_Ok (incRef demo_mount_a None) demo_start _)); [by left|].
      vm_compute. reflexivity.
    + refine (step_acquire demo_in_play demo_mount_b None demo_s1 _ _ (ends_Ok (incRef demo_mount_b None) demo_s1 _)); [by right|].
      vm_compute. reflexivity.
    + refine (step_acquire demo_in_play demo_mount_a None demo_s2 _ _ (ends_Ok (incRef demo_mount_a None) demo_s2 _)); [by left|].
      vm_compute. reflexivity.
    + refine (step_release demo_in_play demo_mount_a demo_s3 _ _ (ends_Ok (decRef demo_mount_a) demo_s3 _)); [by left|].
      vm_compute. reflexivity.
  - exact Hl.
Defined.

Lemma last_release_unmounts_witness :
  mountMap (obj demo_s4) !! getRefcountIdx demo_mount_b = Some 1 /\
  table (env demo_s4) (getMountPoint demo_mount_b) = true /\
  table (env (snd (decRef demo_mount_b demo_s4))) (getMountPoint demo_mount_b) = false.
Proof.
  split; [vm_compute; reflexivity|]. split; [vm_compute; reflexivity|].
  refine (proj1 (last_release_unmounts demo_mount_b demo_s4 _ _ (ends_Ok (decRef demo_mount_b) demo_s4 _)));
    vm_compute; reflexivity.
Defined.
