(* ===== verification/NfsMounts.v ===== *)
(** * The NFS transport (nfsmount.go, nfsmounter.go)

    The counting is that of [Mounts]; what differs is how a mount is named,
    how its options are converted, and how it is mounted: only by a client of
    the root organization, after the permissions were ensured, with up to
    three attempts. *)
From S2P Require Import Prelude.
From S2P Require Import GoStrings.
From S2P Require Import Hashing.
From S2P Require Import MountOptions.
From S2P Require Import VolumeIds.
From S2P Require Import Monad.
From S2P Require Import ApiObjects.
From S2P Require Import ClusterObjects.
From S2P Require Import Compatibility.
From S2P Require Import Objects.
From S2P Require Import Effects.
From S2P Require Import ApiOps.
From S2P Require Import ProcMounts.
From S2P Require Import Cluster.
From S2P Require Import Mounts.
From S2P Require Import MountCounts.
From S2P Require Import Demo.

Record nfsMount := MkNfsMount {
  nm_fsName : string;
  nm_mountPoint : string;
  nm_debugPath : string;
  nm_mountOptions : MountOptions;
  nm_mountIpAddress : string;
  nm_clientGroupName : string;
  nm_protocolVersion : string
}.
Definition set_nm_mountIpAddress (ip : string) (m : nfsMount) : nfsMount :=
  MkNfsMount (nm_fsName m) (nm_mountPoint m) (nm_debugPath m) (nm_mountOptions m) ip
    (nm_clientGroupName m) (nm_protocolVersion m).

(** [NfsVersionString.AsOption], nfs.go *)
Definition AsOption (n : string) : string :=
  let v := TrimLeft n "V" in if HasPrefix v "3." then "3" else v.

Definition nfs_getMountPoint (m : nfsMount) : string := nm_mountPoint m +:+ "-" +:+ nm_mountIpAddress m.
Definition nfs_getMountOptions (m : nfsMount) : MountOptions :=
  AddOption (nm_mountOptions m) ("vers=" +:+ AsOption (nm_protocolVersion m)).
Definition nfs_isInDevMode (m : nfsMount) : bool := negb (bool_decide (nm_debugPath m = "")).
Definition nfs_getRefcountIdx (m : nfsMount) : string :=
  nfs_getMountPoint m +:+ "^" +:+ String_ (AsNfs (nfs_getMountOptions m)).

Section Nfs.
Context {W : Type} `{Env W}.
Abbreviation run := (Run W Mounter).
Local Open Scope go_scope.

Definition nfs_doUnmount (m : nfsMount) : M run unit :=
  call_err (KUnmount (nfs_getMountPoint m)) id ;;
  let! _ := call (OsRemove (nfs_getMountPoint m)) in ret tt.

(** The loop over [maxRetries]; [err] is the error of the last attempt. *)
Fixpoint mount_attempts (n : nat) (err : option error) (source target : string) (options : list string) : M run unit :=
  match n with
  | O => of_err err
  | S n' =>
      let! e := call (KMount source target "nfs" options []) in
      match e with
      | None => ret tt
      | Some _ => let! _ := call (TimeSleep (2 * Second)) in mount_attempts n' e source target options
      end
  end.
Definition maxRetries : nat := 3.

Definition nfs_doMount (m : nfsMount) (apiClient : option ApiClient) (mountOptions : MountOptions) : M run unit :=
  match apiClient with
  | None => throw (EPlain "no API client for mount, cannot do NFS mount")
  | Some a =>
      if negb (ApiOrgId a =? 0) then throw (EPlain "cannot mount NFS volumes with non-Root organization")
      else if negb (nfs_isInDevMode m) then
        let! e := call (ClientEnsureNfsPermissions (nm_fsName m) NfsVersionV4 (nm_clientGroupName m)) in
        match e with
        | Some _ => throw (EPlain "failed to ensure NFS permissions")
        | None =>
            let mountTarget := nm_mountIpAddress m +:+ ":/" +:+ nm_fsName m in
            call_err (OsMkdirAll (nfs_getMountPoint m) DefaultVolumePermissions) id ;;
            mount_attempts maxRetries None mountTarget (nfs_getMountPoint m) (Strings mountOptions)
        end
      else mount_fake (nm_debugPath m) (nm_fsName m) (nfs_getMountPoint m)
  end.
End Nfs.

#[export] Instance nfsMount_AnyMount : AnyMount nfsMount := {
  getMountPoint := nfs_getMountPoint;
  getMountOptions := nfs_getMountOptions;
  getRefcountIdx := nfs_getRefcountIdx;
  doMount W H := nfs_doMount;
  doUnmount W H := nfs_doUnmount
}.
Definition nfs_incRef {W} `{Env W} : nfsMount -> option ApiClient -> M (Run W Mounter) unit := incRef.
Definition nfs_decRef {W} `{Env W} : nfsMount -> M (Run W Mounter) unit := decRef.

(** What the mounter is made with ([newNfsMounter]). *)
Record NfsMounterConfig := MkNfsMounterConfig {
  nc_debugPath : string;
  nc_mountBaseDir : string;
  nc_clientGroupName : string;
  nc_nfsProtocolVersion : string;
  nc_exclusiveMountOptions : list mutuallyExclusiveMountOptionSet
}.

Definition newNfsMounter (debugPath : string) (mode : CsiPluginMode) (clientGroupName nfsProtocolVersion : string)
    (exclusive : list mutuallyExclusiveMountOptionSet) (selinux : bool) : NfsMounterConfig * Mounter :=
  (MkNfsMounterConfig debugPath (mountBaseDirForRole mode) clientGroupName nfsProtocolVersion exclusive,
   MkMounter ∅ (if selinux then Some true else None)).

Section NfsMounter.
Context {W : Type} `{Env W} `{MapOrder} (cfg : NfsMounterConfig).
Abbreviation run := (Run W Mounter).
Local Open Scope go_scope.

Definition nfs_NewMount (fsName : string) (options : MountOptions) : nfsMount :=
  let uniqueId := getStringSha1AsB32 (fsName +:+ ":" +:+ String_ options) in
  MkNfsMount fsName (nc_mountBaseDir cfg +:+ "/" +:+ getAsciiPart fsName 64 +:+ "-" +:+ uniqueId)
    (nc_debugPath cfg) options "" (nc_clientGroupName cfg) ("V" +:+ nc_nfsProtocolVersion cfg).

(** The options a mount is made and found with. *)
Definition nfs_options (opts : MountOptions) (selinux : bool) : MountOptions :=
  MergeSelf (AsNfs (setSelinux opts selinux MountProtocolNfs)) (nc_exclusiveMountOptions cfg).

(** The address is asked of the client, which is dereferenced. *)
Definition ensureMountIpAddress (m : nfsMount) (apiClient : option ApiClient) : M run nfsMount :=
  if bool_decide (nm_mountIpAddress m = "") then
    match apiClient with
    | None => panic
    | Some _ => let! ip := call_val ClientGetNfsMountIp id in ret (set_nm_mountIpAddress ip m)
    end
  else ret m.

Definition nfs_mountWithOptions (fsName : string) (mountOptions : MountOptions) (apiClient : option ApiClient) :
    M run (string * nfsMount) :=
  let! selinux := getSelinuxStatus in
  let m := nfs_NewMount fsName (nfs_options mountOptions selinux) in
  let! m := ensureMountIpAddress m apiClient in
  nfs_incRef m apiClient ;;
  ret (nfs_getMountPoint m, m).
Definition nfs_Mount (fs : string) (apiClient : option ApiClient) : M run (string * nfsMount) :=
  nfs_mountWithOptions fs getDefaultMountOptions apiClient.

Definition locateMountIP (m : nfsMount) : M run nfsMount :=
  if bool_decide (nm_mountIpAddress m = "") then
    let! mounts := call ReadProcMounts in
    let! ip := lift (GetMountIpFromActualMountPoint mounts (nm_mountPoint m)) in
    ret (set_nm_mountIpAddress ip m)
  else ret m.
Definition nfs_unmountWithOptions (fsName : string) (options : MountOptions) : M run unit :=
  let! selinux := getSelinuxStatus in
  let m := nfs_NewMount fsName (nfs_options options selinux) in
  let! m := locateMountIP m in
  nfs_decRef m.
End NfsMounter.

(** ** The laws of the transport *)

Section NfsLaws.
Context {W : Type} `{MountTable W}.
Abbreviation run := (Run W Mounter).

(** As long as there is an attempt left, or an error to report. *)
Lemma mounts_at_attempts n : forall err src p o, n <> O \/ is_Some err ->
  mounts_at true p (mount_attempts (W:=W) n err src p o).
Proof.
  induction n as [|n IH]; intros err src p o Hn.
  - destruct Hn as [?|[e ->]]; [done|]. apply mounts_at_fail.
  - intros s. pose proof (mounts_at_call true src p "nfs" o [] (fun _ => eq_refl) s) as Hc.
    pose (retry e := bind (call (TimeSleep (2 * Second))) (fun _ => mount_attempts (W:=W) n (Some e) src p o)).
    pose (after a (w : W) := MkRun (obj s) w (Did (KMount src p "nfs" o []) a :: trace s)).
    assert (Eq : mount_attempts (W:=W) (S n) err src p o s =
      let '(a, w) := exec (KMount src p "nfs" o []) (env s) in
      match a with None => (Ok tt, after a w) | Some e => retry e (after a w) end).
    { cbn [mount_attempts]. unfold bind at 1, call at 1. by destruct (exec _ _) as [[e|] w]. }
    rewrite Eq. unfold call_err, bind at 1 2 3, call at 1 2 3 in Hc.
    destruct (exec (KMount src p "nfs" o []) (env s)) as [[e|] w]; [|exact Hc].
    destruct Hc as (Hc1 & _ & Hc3). specialize (Hc3 e _ eq_refl). cbn in Hc1, Hc3.
    assert (Hr : mounts_at true p (retry e)) by (apply mounts_at_bind; [keeps|]; intros _; apply IH; by right).
    destruct (Hr (after (Some e) w)) as (H1 & H2 & H3). cbn in H1, H2, H3.
    split; [intros q Hq; rewrite H1, Hc1; done|]. split; [done|].
    intros e' s' Heq. rewrite (H3 e' s' Heq). done.
Qed.

Lemma nfs_mounts m a o :
  mounts_at (negb (nfs_isInDevMode m)) (nfs_getMountPoint m) (nfs_doMount (W:=W) m a o).
Proof.
  unfold nfs_doMount. destruct a as [a|]; [|apply mounts_at_fail].
  destruct (negb (ApiOrgId a =? 0)); [apply mounts_at_fail|].
  destruct (nfs_isInDevMode m); cbn [negb]; [by apply mounts_at_fake|].
  apply mounts_at_bind; [keeps|]. intros [e|]; [apply mounts_at_fail|]. cbv zeta.
  apply mounts_at_bind; [keeps|]. intros _. apply mounts_at_attempts. by left.
Qed.

Lemma nfs_doUnmount_cases m (s s' : run) r : nfs_doUnmount m s = (r, s') ->
  exists s1, call_err (KUnmount (nfs_getMountPoint m)) id s = (r, s1) /\
    forall q, table (env s') q = table (env s1) q.
Proof.
  unfold nfs_doUnmount. intros Hr. unfold bind in Hr at 1.
  destruct (call_err (KUnmount _) id s) as [[[]|e|] s1].
  - pose proof (keeps_call (V:=Mounter) (OsRemove (nfs_getMountPoint m)) eq_refl s1) as Hc.
    unfold bind, call in *. destruct (exec (OsRemove _) (env s1)) as [o w]. injection Hr as <- <-. eauto.
  - injection Hr as <- <-. eauto.
  - injection Hr as <- <-. eauto.
Qed.
End NfsLaws.

Lemma preserves_nfs_doMount {W} `{Env W} m a o : preserves (W:=W) mountMap (nfs_doMount m a o).
Proof.
  assert (Hat : forall n err src p l, preserves (W:=W) mountMap (mount_attempts n err src p l)).
  { induction n as [|n IH]; intros; cbn [mount_attempts]; preserves. }
  unfold nfs_doMount, mount_fake. preserves.
Qed.
Lemma preserves_nfs_doUnmount {W} `{Env W} m : preserves (W:=W) mountMap (nfs_doUnmount m).
Proof. unfold nfs_doUnmount. preserves. Qed.

#[export] Instance nfs_lawful : LawfulMount nfsMount.
Proof.
  refine {| real m := nfs_isInDevMode m = false |}; cbn -[nfs_doMount nfs_doUnmount]; intros.
  - apply preserves_nfs_doMount.
  - apply preserves_nfs_doUnmount.
  - by apply nfs_mounts.
  - destruct (nfs_mounts m a o s) as (_ & Hok & _). eapply Hok; [done|]. by apply negb_true_iff.
  - destruct (nfs_mounts m a o s) as (_ & _ & Herr). by eapply Herr.
  - destruct (nfs_doUnmount m s) as [r s'] eqn:E. apply nfs_doUnmount_cases in E as (s1 & E1 & Hq). cbn. rewrite Hq.
    pose proof (kunmount_elsewhere (nfs_getMountPoint m) s q ltac:(done)) as Hk. by rewrite E1 in Hk.
  - match goal with E : nfs_doUnmount m s = _ |- _ => apply nfs_doUnmount_cases in E end.
    match goal with E : exists _, _ |- _ => destruct E as (s1 & E1 & Hq) end.
    rewrite Hq. by rewrite (kunmount_failed _ _ _ _ _ E1).
Defined.

(** ** Attempts *)

(** The calls of the kernel mounter in a trace, latest first: source, target
    and how it answered. *)
Definition kmount_of (e : entry) : option (string * string * option error) :=
  match e with Did (KMount src p _ _ _) a => Some (src, p, a) | _ => None end.
Definition kmounts (tr : list entry) : list (string * string * option error) := omap kmount_of tr.

(** How attempts end: with a success after failures, or with the error of the
    last of all of them. *)
Definition attempts_end (n : nat) (r : result unit) (es : list (option error)) : Prop :=
  match r with
  | Ok _ => exists failed, es = None :: failed /\ Forall is_Some failed
  | Err e => Forall is_Some es /\ (length es = n)%nat /\ head es = Some (Some e)
  | Panic => False
  end.

Section Attempts.
Context {W : Type} `{Env W}.
Abbreviation run := (Run W Mounter).

Lemma attempts_end_snoc n r es e : attempts_end n r es -> attempts_end (S n) r (es ++ [Some e]).
Proof.
  destruct r as [|e'|]; cbn; [| |done].
  - intros (failed & -> & Hf). exists (failed ++ [Some e]). split; [done|]. apply Forall_app. eauto.
  - intros (Hf & Hn & Hh). rewrite Forall_app, length_app. split; [eauto|]. split; [cbn; lia|]. by destruct es.
Qed.

Lemma mount_attempts_spec src p o n : forall err (s s' : run) r,
  mount_attempts (S n) err src p o s = (r, s') ->
  exists new es, trace s' = new ++ trace s /\ kmounts new = (fun e => (src, p, e)) <$> es /\
    (length es <= S n)%nat /\ attempts_end (S n) r es.
Proof.
  induction n as [|n IH]; intros err s s' r; cbn [mount_attempts];
    unfold bind at 1, call at 1; destruct (exec (KMount src p "nfs" o []) (env s)) as [[e|] w].
  - unfold bind, call. destruct (exec (TimeSleep _) _) as [u w']. intros [= <- <-]. cbn [trace].
    eexists [_; _], [Some e]. do 3 (split; [done|]). cbn. rewrite Forall_singleton. eauto.
  - intros [= <- <-]. eexists [_], [None]. do 2 (split; [done|]). split; [cbn; lia|]. by exists [].
  - unfold bind at 1, call at 1. destruct (exec (TimeSleep _) _) as [u w']. cbn [env obj trace].
    intros (new & es & Ht & Hk & Hl & He)%(IH (Some e)). cbn [trace] in Ht.
    exists (new ++ [Did (TimeSleep (2 * Second)) u; Did (KMount src p "nfs" o []) (Some e)]), (es ++ [Some e]).
    rewrite <- app_assoc. split; [done|]. split; [|split].
    + unfold kmounts in *. by rewrite omap_app, Hk, fmap_app.
    + rewrite length_app. cbn. lia.
    + by apply attempts_end_snoc.
  - intros [= <- <-]. eexists [_], [None]. do 2 (split; [done|]). split; [cbn; lia|]. by exists [].
Qed.

Lemma call_trace {V} e (s s' : Run W V) a : call e s = (Ok a, s') -> trace s' = Did e a :: trace s.
Proof. unfold call. destruct (exec e (env s)). by intros [= <- <-]. Qed.

(** (C28) Mounting over NFS: nothing is mounted for a client outside the root
    organization or before the permissions of the filesystem were ensured;
    then the address is tried at most three times, success means that the last
    attempt succeeded and all before it failed, and after three failures the
    error is that of the third. *)
Theorem nfs_doMount_outcome (m : nfsMount) a o (s s' : run) r :
  nfs_isInDevMode m = false -> nfs_doMount m a o s = (r, s') ->
  exists new es, trace s' = new ++ trace s /\
    kmounts new = (fun e => (nm_mountIpAddress m +:+ ":/" +:+ nm_fsName m, nfs_getMountPoint m, e)) <$> es /\
    (length es <= 3)%nat /\
    match es with
    | [] => exists e, r = Err e
    | _ => (exists api, a = Some api /\ ApiOrgId api = 0) /\
           Did (ClientEnsureNfsPermissions (nm_fsName m) NfsVersionV4 (nm_clientGroupName m)) None ∈ new /\
           attempts_end 3 r es
    end.
Proof.
  intros Hdev. unfold nfs_doMount. destruct a as [a|]; [|intros [= <- <-]; exists [], []; cbn; repeat split; eauto; lia].
  destruct (ApiOrgId a =? 0) eqn:Eo; cbn [negb]; [|intros [= <- <-]; exists [], []; cbn; repeat split; eauto; lia].
  bool_to_prop. rewrite Hdev. cbn [negb]. unfold bind at 1, call at 1.
  destruct (exec (ClientEnsureNfsPermissions _ _ _) (env s)) as [[e|] w].
  { intros [= <- <-]. eexists [_], []. cbn. repeat split; eauto; lia. }
  cbv zeta. unfold bind at 1, call_err, bind at 1, call at 1. cbn [env obj trace].
  destruct (exec (OsMkdirAll _ _) w) as [[e|] w']; cbn [id of_err throw ret].
  { intros [= <- <-]. eexists [_; _], []. cbn. repeat split; eauto; lia. }
  intros (new & es & Ht & Hk & Hl & He)%mount_attempts_spec. cbn [trace] in Ht.
  exists (new ++ [Did (OsMkdirAll (nfs_getMountPoint m) DefaultVolumePermissions) None;
    Did (ClientEnsureNfsPermissions (nm_fsName m) NfsVersionV4 (nm_clientGroupName m)) None]), es.
  rewrite <- app_assoc. split; [done|]. split; [|split; [done|]].
  - unfold kmounts in *. by rewrite omap_app, Hk, app_nil_r.
  - destruct es; [exfalso; destruct r; cbn in He; naive_solver|]. split; [eauto|]. split; [set_solver|done].
Qed.
End Attempts.

(** The second attempt succeeds. *)
Definition flaky_env : Env nat := scripted (fun n e =>
  match e return option (answer e) with
  | ClientEnsureNfsPermissions _ _ _ | OsMkdirAll _ _ => Some None
  | KMount _ _ _ _ _ => if bool_decide (n = 4%nat) then Some None else None
  | _ => None
  end).
Definition demo_nfs_mount : nfsMount :=
  MkNfsMount "fs1" "/run/weka-fs-mounts/fs1-X" "" getDefaultMountOptions "10.0.0.1" "" "V4.1".
Definition demo_nfs_run : result unit * Run nat Mounter :=
  nfs_doMount (H:=flaky_env) demo_nfs_mount (Some demo_api) getDefaultMountOptions
    (MkRun (MkMounter ∅ None) 0%nat []).
Lemma nfs_doMount_outcome_witness :
  fst demo_nfs_run = Ok tt /\ length (kmounts (trace (snd demo_nfs_run))) = 2%nat /\
  exists new es, trace (snd demo_nfs_run) = new ++ [] /\
    kmounts new = (fun e => ("10.0.0.1:/fs1", "/run/weka-fs-mounts/fs1-X-10.0.0.1", e)) <$> es /\ (length es <= 3)%nat.
Proof.
  split; [vm_compute; reflexivity|]. split; [vm_compute; reflexivity|].
  destruct (nfs_doMount_outcome (H:=flaky_env) demo_nfs_mount (Some demo_api) getDefaultMountOptions
    (MkRun (MkMounter ∅ None) 0%nat []) (snd demo_nfs_run) (fst demo_nfs_run)) as (new & es & Ht & Hk & Hl & _).
  - reflexivity.
  - apply surjective_pairing.
  - exists new, es. split; [exact Ht|]. split; [exact Hk|exact Hl].
Defined.
