(* ===== verification/Nfs.v ===== *)
(** * NFS permissions, client groups and their rules (apiclient/nfs.go)

    How the driver makes sure that its node may mount a filesystem over NFS: a
    client group with a rule for the node's address, and a permission of that
    group on the filesystem.  The object of a run is the client of Cluster.v. *)
From S2P Require Import Prelude.
From S2P Require Import GoStrings.
From S2P Require Import Substrings.
From S2P Require Import Strconv.
From S2P Require Import IpAddresses.
From S2P Require Import Monad.
From S2P Require Import ApiObjects.
From S2P Require Import ClusterObjects.
From S2P Require Import Compatibility.
From S2P Require Import Effects.
From S2P Require Import ApiOps.
From S2P Require Import Cluster.
From S2P Require Import Demo.

Definition AsWeka (v : string) : string := default "" (head (Split "." v)).
Definition versions_Matches (s other : option (list string)) : bool :=
  forallb (fun v => bool_decide (v ∈ default [] other)) (default [] s).
Definition permission_Matches (n o : NfsPermission) : bool :=
  bool_decide (np_SquashMode n = np_SquashMode o) && bool_decide (np_Filesystem n = np_Filesystem o) &&
  bool_decide (np_Group n = np_Group o) && bool_decide (np_Path n = np_Path o) &&
  bool_decide (np_PermissionType n = np_PermissionType o) &&
  versions_Matches (np_SupportedVersions n) (np_SupportedVersions o).
Definition IsEligibleForCsi (n : NfsPermission) : bool :=
  negb (np_RootSquashing n) && bool_decide (NfsVersionV4 ∈ default [] (np_SupportedVersions n)) &&
  bool_decide (np_PermissionType n = NfsPermissionTypeReadWrite) &&
  bool_decide (np_SquashMode n = NfsPermissionSquashModeNone).

(** ** Rules *)

Definition IsIPRule (r : NfsClientGroupRule) : bool := bool_decide (nr_Type r = NfsClientGroupRuleTypeIP).
Definition IsDNSRule (r : NfsClientGroupRule) : bool := bool_decide (nr_Type r = NfsClientGroupRuleTypeDNS).
Definition GetNetwork (r : NfsClientGroupRule) : option Network :=
  if IsIPRule r then parseNetworkString (nr_Rule r) else None.
Definition IsEligibleForIP (r : NfsClientGroupRule) (ip : string) : bool :=
  match GetNetwork r with Some n => ContainsIPAddress n ip | None => false end.
(** A rule that does not parse is a nil network: reading the address of the
    other one panics, and so does asking a nil network about an address. *)
Definition IsSupersetOf (r other : NfsClientGroupRule) : result bool :=
  if IsIPRule r && IsIPRule other then
    match GetNetwork other with
    | None => Panic
    | Some n2 =>
        let ip := IP_String (nw_IP n2) in
        match GetNetwork r with
        | Some n1 => Ok (ContainsIPAddress n1 ip)
        | None => if ParseIP ip then Panic else Ok false
        end
    end
  else Ok false.
(** The loop of [FindNfsClientGroupRulesByFilter]. *)
Fixpoint matching_rules (query : NfsClientGroupRule) (l : list NfsClientGroupRule) : result (list NfsClientGroupRule) :=
  match l with
  | [] => Ok []
  | r :: l' =>
      result_bind (ObjectsAreEqual r query) (fun eq =>
      result_bind (if eq then Ok true else IsSupersetOf r query) (fun b =>
      result_bind (matching_rules query l') (fun rs => Ok (if b then r :: rs else rs))))
  end.
Fixpoint matching_permissions (query : NfsPermission) (l : list NfsPermission) : result (list NfsPermission) :=
  match l with
  | [] => Ok []
  | r :: l' =>
      result_bind (ObjectsAreEqual r query) (fun eq =>
      result_bind (matching_permissions query l') (fun rs =>
        Ok (if eq || permission_Matches query r then r :: rs else rs)))
  end.
Fixpoint matching_groups (query : NfsClientGroup) (l : list NfsClientGroup) : result (list NfsClientGroup) :=
  match l with
  | [] => Ok []
  | r :: l' =>
      result_bind (ObjectsAreEqual r query) (fun eq =>
      result_bind (matching_groups query l') (fun rs => Ok (if eq then r :: rs else rs)))
  end.

Definition rule_AsRule (r : NfsClientGroupRuleCreateRequest) : string :=
  if bool_decide (nrc_Type r = NfsClientGroupRuleTypeDNS) then nrc_Hostname r else nrc_Ip r.
Definition NewNfsClientGroupRuleCreateRequest (cgUid : Z) (ruleType rule : string) :
    option NfsClientGroupRuleCreateRequest :=
  if bool_decide (ruleType = NfsClientGroupRuleTypeDNS) then Some (MkNfsRuleCreate cgUid ruleType rule "")
  else if bool_decide (ruleType = NfsClientGroupRuleTypeIP) then
    match parseNetworkString rule with
    | None => None
    | Some net => Some (MkNfsRuleCreate cgUid ruleType "" (AsNfsRule net))
    end
  else Some (MkNfsRuleCreate cgUid ruleType "" "").

Section Nfs.
Context {W : Type} `{Env W}.
Abbreviation run := (Run W ClusterClient).
Local Open Scope go_scope.

(** ** Permissions *)

Definition FindNfsPermissionsByFilter (query : NfsPermission) : M run (list NfsPermission) :=
  let! l := call_val GetNfsPermissions id in lift (matching_permissions query l).
Definition GetNfsPermissionByFilter (query : NfsPermission) : M run NfsPermission :=
  let! l := FindNfsPermissionsByFilter query in the_one l.
Definition np_zero : NfsPermission := MkNfsPermission None "" "" "" 0 "" "" "" "" false.
Definition np_of_path (path : string) : NfsPermission := MkNfsPermission None "" "" "" 0 "" "" path "" false.
Definition np_of_uid (uid : Z) : NfsPermission := MkNfsPermission None "" "" "" uid "" "" "" "" false.
Definition GetNfsPermissionsByFilesystemName (fsName : string) : M run (list NfsPermission) :=
  FindNfsPermissionsByFilter (np_of_path fsName).
Definition GetNfsPermissionByUid (uid : Z) : M run NfsPermission := GetNfsPermissionByFilter (np_of_uid uid).
Definition CreateNfsPermission (r : NfsPermissionCreateRequest) : M run NfsPermission :=
  required r ;; call_val (PostNfsPermission r) id.

Definition wanted_permission (fsName group version : string) : NfsPermission :=
  MkNfsPermission (Some [AsWeka version]) (FormatInt 65534) (FormatInt 65534) fsName 0 group
    NfsPermissionTypeReadWrite "/" NfsPermissionSquashModeNone false.
Definition new_permission (fsName group : string) : NfsPermissionCreateRequest :=
  MkNfsPermissionCreate fsName group "/" NfsPermissionTypeReadWrite NfsPermissionSquashModeNone 65534 65534
    (Some [NfsVersionV3; NfsVersionV4]).
(** Whether a permission was created, and the error. *)
Definition EnsureNfsPermission (fsName group version : string) : M run (bool * option error) :=
  let! r := attempt (GetNfsPermissionByFilter (wanted_permission fsName group version)) in
  match r with
  | inr _ => ret (false, None)
  | inl ObjectNotFoundError =>
      let! c := attempt (CreateNfsPermission (new_permission fsName group)) in
      match c with inr _ => ret (true, None) | inl e => ret (false, Some e) end
  | inl e => ret (false, Some e)
  end.

(** ** Client groups *)

Definition GetNfsClientGroups : M run (list NfsClientGroup) := call_val (GetNfsClientGroups_ ng_zero) id.
Definition FindNfsClientGroupsByFilter (query : NfsClientGroup) : M run (list NfsClientGroup) :=
  let! l := call_val (GetNfsClientGroups_ query) id in lift (matching_groups query l).
Definition GetNfsClientGroupByFilter (query : NfsClientGroup) : M run NfsClientGroup :=
  let! l := FindNfsClientGroupsByFilter query in the_one l.
Definition GetNfsClientGroupByName (name : string) : M run NfsClientGroup :=
  GetNfsClientGroupByFilter (MkNfsClientGroup 0 [] "" name).
(** Another bad request is no error and leaves the group empty. *)
Definition GetNfsClientGroupByUid (uid : Z) : M run NfsClientGroup :=
  let! r := call (GetNfsClientGroup uid) in
  match r with
  | inr g => ret g
  | inl (ApiNotFoundError _) => throw ObjectNotFoundError
  | inl (ApiBadRequestError resp) =>
      if bool_decide ("ClientGroupDoesNotExistException" ∈ ErrorCodes resp)
      then throw ObjectNotFoundError else ret ng_zero
  | inl e => throw e
  end.
Definition CreateNfsClientGroup (r : NfsClientGroupCreateRequest) : M run NfsClientGroup :=
  required r ;; call_val (PostNfsClientGroup r) id.
Definition DeleteNfsClientGroup (uid : Z) : M run unit :=
  required (MkUidRequest uid) ;;
  let! e := call (DelNfsClientGroup uid) in
  match e with
  | Some (ApiNotFoundError _) => throw ObjectNotFoundError
  | Some (ApiBadRequestError resp) =>
      if bool_decide ("FilesystemDoesNotExistException" ∈ ErrorCodes resp)
      then throw ObjectNotFoundError else ret tt
  | _ => ret tt
  end.
(** The error of the creation is dropped; the group is then empty. *)
Definition EnsureCsiPluginNfsClientGroup : M run (NfsClientGroup * bool) :=
  update (fun c => if bool_decide (cc_NfsClientGroupName c = "")
                   then set_NfsClientGroupName NfsClientGroupName_default c else c) ;;
  let! c := self in
  let! r := attempt (GetNfsClientGroupByName (cc_NfsClientGroupName c)) in
  match r with
  | inr g => ret (g, false)
  | inl ObjectNotFoundError =>
      let! n := attempt (CreateNfsClientGroup (NewNfsClientGroupCreateRequest (cc_NfsClientGroupName c))) in
      match n with inr g => ret (g, true) | inl _ => ret (ng_zero, false) end
  | inl e => throw e
  end.
Definition GetNfsClientGroupRules : M run (list NfsClientGroupRule) :=
  let! (cg, _) := EnsureCsiPluginNfsClientGroup in ret (ng_Rules cg).

Definition FindNfsClientGroupRulesByFilter (query : NfsClientGroupRule) : M run (list NfsClientGroupRule) :=
  let! cg := GetNfsClientGroupByUid (nr_NfsClientGroupUid query) in lift (matching_rules query (ng_Rules cg)).
Definition GetNfsClientGroupRuleByFilter (rule : NfsClientGroupRule) : M run NfsClientGroupRule :=
  let! l := FindNfsClientGroupRulesByFilter rule in the_one l.
(** A nil request is dereferenced. *)
Definition CreateNfsClientGroupRule (r : option NfsClientGroupRuleCreateRequest) : M run NfsClientGroupRule :=
  match r with
  | None => panic
  | Some r => required r ;; call_val (PostNfsClientGroupRule r) id
  end.
Definition EnsureNfsClientGroupRuleForIp (cg : option NfsClientGroup) (ip : string) : M run bool :=
  match cg with
  | None => throw (EPlain "NfsClientGroup is nil")
  | Some cg =>
      match parseNetworkString ip with
      | None => throw (EPlain "invalid CIDR notation: %s")
      | Some r =>
          let q := MkNfsRule (ng_Uid cg) NfsClientGroupRuleTypeIP 0 (AsNfsRule r) "" in
          let! found := attempt (GetNfsClientGroupRuleByFilter q) in
          match found with
          | inr _ => ret false
          | inl ObjectNotFoundError =>
              let! _ := CreateNfsClientGroupRule
                          (NewNfsClientGroupRuleCreateRequest (ng_Uid cg) (nr_Type q) (nr_Rule q)) in ret true
          | inl e => throw e
          end
      end
  end.

Definition EnsureNfsPermissions (fsName version clientGroupName : string) : M run unit :=
  let caption := if bool_decide (clientGroupName = "") then NfsClientGroupName_default else clientGroupName in
  let! cg := GetNfsClientGroupByName caption in
  let! (created, err) := EnsureNfsPermission fsName (ng_Name cg) version in
  (if created then let! _ := call (TimeSleep (5 * Second)) in ret tt else ret tt) ;;
  of_err err.

(** ** Registration of the node *)

Definition GetNodeIpAddress : M run string :=
  let! ip := call (Getenv "KUBE_NODE_IP_ADDRESS") in
  ret (if bool_decide (ip = "") then "127.0.0.1" else ip).
Definition RegisterNfsClientGroup : M run unit :=
  let! targetIp := GetNfsMountIp in
  let! routed := call (RouteTo targetIp) in
  let! nodeIP := (match routed with inr ip => ret ip | inl _ => GetNodeIpAddress end) in
  let! (cg, created) := EnsureCsiPluginNfsClientGroup in
  (if created then update (set_NfsClientGroupName (ng_Name cg)) else ret tt) ;;
  let! added := EnsureNfsClientGroupRuleForIp (Some cg) nodeIP in
  if created || added then let! _ := call (TimeSleep (5 * Second)) in ret tt else ret tt.
End Nfs.

(** ** What the node is admitted by *)

(** A rule the driver takes to admit the address: it has the text of the
    address' own rule (an empty rule matches anything), or it is a network
    that contains the address. *)
Definition rule_admits (l : list Z) (r : NfsClientGroupRule) : Prop :=
  nr_Rule r = "" \/ nr_Rule r = mask_form l 32 \/ IsEligibleForIP r (dotted_quad l) = true.
Definition address_rule (uid : Z) (l : list Z) : NfsClientGroupRule :=
  MkNfsRule uid NfsClientGroupRuleTypeIP 0 (mask_form l 32) "".

Lemma rule_EQ r q : exists b, ObjectsAreEqual r q = Ok b /\ (b = true <-> nr_Rule r = "" \/ nr_Rule r = nr_Rule q).
Proof.
  unfold ObjectsAreEqual. cbn [getImmutableFields NfsClientGroupRule_object fields_match].
  change (FieldByName r "Rule") with (Some (VString (nr_Rule r))).
  change (FieldByName q "Rule") with (Some (VString (nr_Rule q))). cbn [IsZero].
  case_bool_decide; [exists true; naive_solver|].
  case_bool_decide as E; [exists true; split; [done|]; injection E; tauto|].
  exists false. split; [done|]. split; [done|]. intros [?|E']; [done|]. by rewrite E' in E.
Qed.
Lemma superset_admits uid l r b : bytes4 l -> IsSupersetOf r (address_rule uid l) = Ok b ->
  b = IsEligibleForIP r (dotted_quad l).
Proof.
  intros Hl. destruct (parse_mask_form l 32 Hl) as (nw & Hp & Hi & _); [lia|].
  unfold IsSupersetOf, IsEligibleForIP, GetNetwork, address_rule, IsIPRule. cbn [nr_Type nr_Rule].
  rewrite (bool_decide_true (NfsClientGroupRuleTypeIP = _)), Hp, Hi, IP_String_mapped, ParseIP_dotted by (done || apply Hl).
  destruct (bool_decide _); cbn [andb]; [|naive_solver]. destruct (parseNetworkString (nr_Rule r)); naive_solver.
Qed.
Lemma matching_rules_no_error q rules e : matching_rules q rules <> Err e.
Proof.
  induction rules as [|r rules IH]; cbn [matching_rules]; [done|].
  destruct (rule_EQ r q) as (eq & -> & _). cbn [result_bind].
  destruct (if eq then Ok true else IsSupersetOf r q) as [b|e'|] eqn:Eb; cbn [result_bind]; [|exfalso|done].
  - by destruct (matching_rules q rules).
  - destruct eq; [done|]. unfold IsSupersetOf in Eb. by repeat case_match.
Qed.
Lemma matching_rules_admit uid l rules rs : bytes4 l -> matching_rules (address_rule uid l) rules = Ok rs ->
  Forall (fun r => r ∈ rules /\ rule_admits l r) rs /\ (rs = [] -> Forall (fun r => ~ rule_admits l r) rules).
Proof.
  intros Hl. revert rs. induction rules as [|r rules IH]; intros rs; cbn [matching_rules].
  { intros [= <-]. by split. }
  destruct (rule_EQ r (address_rule uid l)) as (eq & -> & Heq). cbn [result_bind].
  destruct (if eq then Ok true else IsSupersetOf r (address_rule uid l)) as [b| |] eqn:Eb; [|done|done].
  cbn [result_bind]. destruct (matching_rules _ rules) as [rs'| |] eqn:Em; [|done|done]. intros [= <-].
  destruct (IH rs' eq_refl) as [Hin Hnone]. 
  assert (Hb : b = true <-> rule_admits l r).
  { unfold rule_admits. destruct eq; [naive_solver|]. apply (superset_admits uid l) in Eb as ->; [|done].
    cbn in Heq. naive_solver. }
  assert (Hin' : Forall (fun r0 => r0 ∈ r :: rules /\ rule_admits l r0) rs').
  { eapply Forall_impl; [exact Hin|]. intros ? [? ?]. split; [by right|done]. }
  destruct b; (split; [|]).
  - constructor; [|done]. split; [by left|naive_solver].
  - done.
  - done.
  - intros ->. constructor; [naive_solver|auto].
Qed.

Section Ensured.
Context {W : Type} `{Env W}.
Abbreviation run := (Run W ClusterClient).

Definition listed (a : error + NfsClientGroup) : list NfsClientGroupRule :=
  match a with inr g => ng_Rules g | inl _ => [] end.
Lemma get_group_run uid (s s' : run) r : GetNfsClientGroupByUid uid s = (r, s') -> exists a,
  trace s' = Did (GetNfsClientGroup uid) a :: trace s /\
  match r with Ok g => ng_Rules g = listed a | _ => listed a = [] /\ r <> Panic end.
Proof.
  unfold GetNfsClientGroupByUid, bind, call. destruct (exec (GetNfsClientGroup _) (env s)) as [a w].
  cbn [answer] in a |- *. intros Hr. exists a. destruct a as [e|g]; [|by injection Hr as <- <-].
  destruct e; try case_bool_decide; injection Hr as <- <-; repeat split; try done; discriminate.
Qed.
(** A search for a rule lists the group once; it finds the only match, or
    nothing, or fails. *)
Lemma get_rule_run (q : NfsClientGroupRule) (s s' : run) r :
  GetNfsClientGroupRuleByFilter q s = (r, s') -> exists a,
  trace s' = Did (GetNfsClientGroup (nr_NfsClientGroupUid q)) a :: trace s /\
  (forall rule, r = Ok rule -> matching_rules q (listed a) = Ok [rule]) /\
  (r = Err ObjectNotFoundError -> matching_rules q (listed a) = Ok []).
Proof.
  unfold GetNfsClientGroupRuleByFilter, FindNfsClientGroupRulesByFilter. rewrite bind_assoc. unfold bind at 1.
  destruct (GetNfsClientGroupByUid _ s) as [r1 s1] eqn:E. apply get_group_run in E as (a & Ht & Hr).
  destruct r1 as [g|e|].
  - unfold bind, lift. destruct (matching_rules q (ng_Rules g)) as [[|x [|]]|e|] eqn:Em;
      [..|by apply matching_rules_no_error in Em|];
      cbn; intros [= <- <-]; exists a; rewrite <- Hr, Em; (split; [done|split; intros; congruence]).
  - destruct Hr as [Hl _]. intros [= <- <-]. exists a. rewrite Hl. done.
  - by destruct Hr.
Qed.

Definition address_request (uid : Z) (l : list Z) : NfsClientGroupRuleCreateRequest :=
  MkNfsRuleCreate uid NfsClientGroupRuleTypeIP "" (mask_form l 32).
Lemma new_address_request uid l : bytes4 l ->
  NewNfsClientGroupRuleCreateRequest uid NfsClientGroupRuleTypeIP (mask_form l 32) = Some (address_request uid l).
Proof.
  intros Hl. destruct (parse_mask_form l 32 Hl) as (nw & Hp & Hnw); [lia|]. unfold NewNfsClientGroupRuleCreateRequest.
  rewrite bool_decide_false, bool_decide_true, Hp by done. by rewrite (AsNfsRule_network l 32 nw Hl).
Qed.

(** (C29) The node gets admitted: when EnsureNfsClientGroupRuleForIp succeeds for
    an IPv4 address, the group was listed once, and either some rule of the
    listing admits the address and nothing was changed, or none does and the
    rule for exactly this address was created.  To admit it is what the driver
    takes it to be ([rule_admits]): besides networks that contain the address,
    a rule with an empty text, or with the text of the address' own network
    whatever its type, counts, as [ObjectsAreEqual] compares it. *)
Theorem rule_ensured cg l (s s' : run) created : bytes4 l ->
  EnsureNfsClientGroupRuleForIp (Some cg) (dotted_quad l) s = (Ok created, s') -> exists a,
  let list_rules := Did (GetNfsClientGroup (ng_Uid cg)) a in
  if created then
    Forall (fun r => ~ rule_admits l r) (listed a) /\
    exists rule, trace s' = Did (PostNfsClientGroupRule (address_request (ng_Uid cg) l)) (inr rule) :: list_rules :: trace s
  else trace s' = list_rules :: trace s /\ exists rule, rule ∈ listed a /\ rule_admits l rule.
Proof.
  intros Hl. unfold EnsureNfsClientGroupRuleForIp. destruct (parse_address l Hl) as (nw & -> & Hnw).
  rewrite (AsNfsRule_network l 32 nw Hl) by (lia || done). intros Hr.
  change (MkNfsRule _ _ _ _ _) with (address_rule (ng_Uid cg) l) in Hr.
  apply bind_inv in Hr as (found & s1 & Ha & Hr). unfold attempt in Ha.
  destruct (GetNfsClientGroupRuleByFilter _ s) as [r s2] eqn:Eg.
  apply get_rule_run in Eg as (a & Ht & Hone & Hnone). cbn [nr_NfsClientGroupUid address_rule] in Ht.
  exists a. destruct r as [rule|e|]; simplify_eq.
  - injection Hr as <- <-. split; [done|]. exists rule.
    destruct (matching_rules_admit _ l _ _ Hl (Hone rule eq_refl)) as [Hin _]. by apply Forall_cons in Hin as [? _].
  - destruct (decide (e = ObjectNotFoundError)) as [->|Hne]; [|by destruct e].
    cbn [nr_Type nr_Rule address_rule] in Hr. rewrite new_address_request in Hr by done.
    apply bind_inv in Hr as (rule & s3 & Hc & Hr). injection Hr as <- <-.
    split; [by apply (matching_rules_admit _ l _ _ Hl (Hnone eq_refl))|]. exists rule.
    unfold CreateNfsClientGroupRule in Hc. rewrite <- Ht.
    unfold required, call_val, lift in Hc.
    change (ObjectRequestHasRequiredFields (address_request (ng_Uid cg) l)) with (@Ok bool true) in Hc.
    unfold bind, call in Hc. cbn in Hc.
    destruct (exec (PostNfsClientGroupRule _) (env s1)) as [[?|?] w]; [done|]. by injection Hc as <- <-.
Qed.
End Ensured.

(** A cluster whose group has a rule for another network. *)
Definition demo_group : NfsClientGroup :=
  MkNfsClientGroup 9 [MkNfsRule 9 "IP" 1 "192.168.0.0/255.255.0.0" ""] "" "WekaCSIPluginClients".
Definition group_env : Env nat := scripted (fun _ e =>
  match e with
  | GetNfsClientGroup _ => Some (inr demo_group)
  | PostNfsClientGroupRule r => Some (inr (MkNfsRule 9 "IP" 2 (nrc_Ip r) ""))
  | _ => None
  end).
Definition demo_client : ClusterClient := MkClusterClient demo_api "" None 0 "" [] "" ∅ "".
Lemma rule_ensured_witness :
  let run := @EnsureNfsClientGroupRuleForIp nat group_env (Some demo_group) "10.1.2.3" (MkRun demo_client 0%nat []) in
  fst run = Ok true /\ exists a,
    Forall (fun r => ~ rule_admits [10; 1; 2; 3] r) (listed a) /\
    exists rule, trace (snd run) =
      [Did (PostNfsClientGroupRule (address_request 9 [10; 1; 2; 3])) (inr rule); Did (GetNfsClientGroup 9) a].
Proof.
  intros run. assert (E : fst run = Ok true) by (vm_compute; reflexivity). split; [exact E|].
  refine (@rule_ensured nat group_env demo_group [10; 1; 2; 3] (MkRun demo_client 0%nat []) (snd run) true _ _).
  - split; [reflexivity|]. repeat constructor; lia.
  - change (dotted_quad [10; 1; 2; 3]) with "10.1.2.3". rewrite <- E. apply surjective_pairing.
Defined.

(** Two networks that contain the address make the search ambiguous, and a rule
    that is no network makes it panic. *)
Definition ip_rule (uid : Z) (rule : string) : NfsClientGroupRule := MkNfsRule 9 "IP" uid rule "".
Definition rules_env (rules : list NfsClientGroupRule) : Env nat := scripted (fun _ e =>
  match e with GetNfsClientGroup _ => Some (inr (MkNfsClientGroup 9 rules "" "g")) | _ => None end).
Lemma overlapping_rules_fail :
  fst (@EnsureNfsClientGroupRuleForIp nat (rules_env [ip_rule 1 "10.0.0.0/255.0.0.0"; ip_rule 2 "10.1.0.0/255.255.0.0"])
         (Some demo_group) "10.1.2.3" (MkRun demo_client 0%nat [])) = Err MultipleObjectsFoundError.
Proof. vm_compute. reflexivity. Qed.
Lemma unparsable_rule_panics :
  fst (@EnsureNfsClientGroupRuleForIp nat (rules_env [ip_rule 1 "10.0.0.0/99"])
         (Some demo_group) "10.1.2.3" (MkRun demo_client 0%nat [])) = Panic.
Proof. vm_compute. reflexivity. Qed.
(** The comparison starts from the permission that was found: one with an
    identifier but another path is never the answer to a search by identifier. *)
Lemma permission_by_uid_not_found :
  let p := MkNfsPermission (Some ["V4"]) "65534" "65534" "fs1" 7 "g" "RW" "/" "none" false in
  let env := scripted (fun _ e => match e with GetNfsPermissions => Some (inr [p]) | _ => None end) in
  fst (@GetNfsPermissionByUid nat env 7 (MkRun demo_client 0%nat [])) = Err ObjectNotFoundError.
Proof. vm_compute. reflexivity. Qed.
(** A group that could not be created counts as an existing one without rules. *)
Lemma group_creation_error_dropped :
  let env := scripted (fun _ e => match e with GetNfsClientGroups_ _ => Some (inr []) | _ => None end) in
  fst (@EnsureCsiPluginNfsClientGroup nat env (MkRun demo_client 0%nat [])) = Ok (ng_zero, false).
Proof. vm_compute. reflexivity. Qed.
