(* ===== verification/ApiStore.v ===== *)
(** * The store of API clients (wekafs.go)

    Every request brings a secret; clients are kept by the hash of the
    credentials and shared.  A client is known by its address; goroutines that
    ask at the same time look the hash up without the lock, and again under
    it before they make a client. *)
From S2P Require Import Prelude.
From S2P Require Import GoStrings.
From S2P Require Import Hashing.
From S2P Require Import MountOptions.
From S2P Require Import Monad.
From S2P Require Import ApiObjects.
From S2P Require Import Compatibility.
From S2P Require Import Credentials.
From S2P Require Import ClusterObjects.
From S2P Require Import Objects.
From S2P Require Import Effects.
From S2P Require Import ApiOps.
From S2P Require Import ProcMounts.
From S2P Require Import Cluster.
From S2P Require Import Demo.
From S2P Require Import Nfs.

Definition RootOrganizationName : string := "Root".
Definition LegacySecretPath : string := "/legacy-volume-access".

(** What the store and the choice of a mounter read of the configuration. *)
Record StoreConfig := MkStoreConfig {
  sc_allowNfsFailback : bool;
  sc_useNfs : bool;
  sc_interfaceGroupName : string;
  sc_clientGroupName : string;
  sc_isInDevMode : bool
}.

(** Clients by address, with the credentials each was made from. *)
Record ApiStore := MkApiStore {
  apis : gmap Z nat;
  clients : gmap nat (Credentials * ClusterClient);
  legacySecrets : option (gmap string string)
}.
Definition new_address (s : ApiStore) : nat := fresh (dom (clients s)).
Definition put_client (hash : Z) (c : Credentials) (cl : ClusterClient) (s : ApiStore) : ApiStore :=
  let p := new_address s in
  MkApiStore (<[hash := p]> (apis s)) (<[p := (c, cl)]> (clients s)) (legacySecrets s).
Definition set_legacySecrets (x : option (gmap string string)) (s : ApiStore) : ApiStore :=
  MkApiStore (apis s) (clients s) x.

(** A client that has not logged in; its HTTP transport is left out. *)
Definition NewApiClient (c : Credentials) : error + ClusterClient :=
  if bool_decide (cr_Endpoints c = []) then inl ApiNoEndpointsError
  else inr (MkClusterClient (MkApi compat_zero RoleNone 0 (cr_Organization c) (cr_Kms c)) "" None 0
              (cr_LocalContainerName c) (cr_NfsTargetIPs c) "" ∅ "").
(** What logging in found out about the cluster and the user. *)
Definition logged_in (a : ApiClient) (c : Credentials) (cl : ClusterClient) : ClusterClient :=
  MkClusterClient (MkApi (CompatibilityMap a) (ApiUserRole_ a) (ApiOrgId a) (cr_Organization c) (cr_Kms c))
    (cc_containerName cl) (cc_containers cl) (cc_containersUpdateTime cl) (cc_LocalContainerName cl)
    (cc_NfsTargetIPs cl) (cc_NfsInterfaceGroupName cl) (cc_NfsInterfaceGroups cl) (cc_NfsClientGroupName cl).
Definition set_nfs_groups (interfaceGroup clientGroup : string) (cl : ClusterClient) : ClusterClient :=
  MkClusterClient (cc_api cl) (cc_containerName cl) (cc_containers cl) (cc_containersUpdateTime cl)
    (cc_LocalContainerName cl) (cc_NfsTargetIPs cl) interfaceGroup (cc_NfsInterfaceGroups cl) clientGroup.

Section ApiStore.
Context {W : Type} `{Env W} (config : StoreConfig).
Abbreviation run := (Run W ApiStore).
Local Open Scope go_scope.

Definition getByHash (key : Z) (s : ApiStore) : option nat := apis s !! key.

(** With NFS, the node is registered in the client group. *)
Definition register_nfs (cl : ClusterClient) : M run ClusterClient :=
  if (sc_allowNfsFailback config || sc_useNfs config) && negb (sc_isInDevMode config)
  then let! (_, cl) := method_of (set_nfs_groups (sc_interfaceGroupName config) (sc_clientGroupName config) cl)
                         RegisterNfsClientGroup in ret cl
  else ret cl.
(** The part of [fromCredentials] under the lock. *)
Definition fromCredentials_locked (c : Credentials) (newClient : ClusterClient) : M run nat :=
  let hash := generateHash c in
  let! st := self in
  match getByHash hash st with
  | Some p => ret p
  | None =>
      let! a := call_val (ClientInit c) id in
      if negb (SupportsAuthenticatedMounts a) && negb (bool_decide (cr_Organization c = RootOrganizationName))
      then throw (EPlain "Using Organization %s is not supported on Weka cluster %s")
      else
        let! newClient := register_nfs (logged_in a c newClient) in
        let! st := self in
        update (put_client hash c newClient) ;; ret (new_address st)
  end.
Definition fromCredentials (c : Credentials) : M run nat :=
  match NewApiClient c with
  | inl _ => throw (EPlain "could not create API client object from supplied params")
  | inr newClient =>
      let! st := self in
      match getByHash (generateHash c) st with
      | Some p => ret p
      | None => fromCredentials_locked c newClient
      end
  end.
Definition fromSecrets (secrets : gmap string string) : M run nat :=
  match credentials_of secrets with inl e => throw e | inr c => fromCredentials c end.
(** No client for a request without a secret, unless there is a global one. *)
Definition GetClientFromSecrets (secrets : gmap string string) : M run (option nat) :=
  let! st := self in
  let secrets := if bool_decide (secrets = ∅) then legacySecrets st else Some secrets in
  match secrets with
  | None => ret None
  | Some secrets => let! p := fromSecrets secrets in ret (Some p)
  end.

(** The files of the global secret. *)
Fixpoint read_keys (keys : list string) : M run (gmap string string) :=
  match keys with
  | [] => ret ∅
  | k :: keys' =>
      let filePath := LegacySecretPath +:+ "/" +:+ k in
      let! e := call (OsLstat filePath) in
      match e with
      | Some NotExist => throw (EPlain "Missing key %s in legacy secret configuration")
      | _ =>
          let! r := call (OsReadFile filePath) in
          match r with
          | inl _ => throw (EPlain "Could not read key %s from legacy secret configuration")
          | inr contents => let! m := read_keys keys' in ret (<[k := contents]> m)
          end
      end
  end.
Definition GetDefaultSecrets : M run (gmap string string) :=
  let! k := call (OsOpen LegacySecretPath) in
  match k with
  | IsDirectory => read_keys ["scheme"; "endpoints"; "organization"; "username"; "password"]
  | _ => throw (EPlain "no legacy secret exists")
  end.
Definition NewApiStore : M run unit :=
  update (fun _ => MkApiStore ∅ ∅ None) ;;
  let! r := attempt GetDefaultSecrets in
  match r with
  | inl _ => ret tt
  | inr secrets => update (set_legacySecrets (Some secrets))
  end.

(** [NewMounter]: which transport the driver mounts with. *)
Definition NewMounter : M run DataTransport :=
  if sc_useNfs config then ret dataTransportNfs
  else if sc_allowNfsFailback config then
    let! running := isWekaRunning in
    if negb running && negb (sc_isInDevMode config) then ret dataTransportNfs else ret dataTransportWekafs
  else ret dataTransportWekafs.
End ApiStore.

(** ** Goroutines that ask for clients *)

(** A request looks the hash up, and waits for the lock if there is no client;
    the part under the lock writes the store once, so that it is one step. *)
Inductive phase :=
| Asking (c : Credentials)
| Waiting (c : Credentials)
| Served (c : Credentials) (p : nat)
| Refused (c : Credentials).
Definition served (c : Credentials) (r : result nat) : phase :=
  match r with Ok p => Served c p | _ => Refused c end.

Section Sharing.
Context {W : Type} `{Env W} (config : StoreConfig).
Abbreviation run := (Run W ApiStore).

Inductive store_step : run * list phase -> run * list phase -> Prop :=
| step_request s l c : store_step (s, l) (s, l ++ [Asking c])
| step_lookup s l1 l2 c cl : NewApiClient c = inr cl ->
    store_step (s, l1 ++ Asking c :: l2)
      (s, l1 ++ match getByHash (generateHash c) (obj s) with Some p => Served c p | None => Waiting c end :: l2)
| step_reject s l1 l2 c e : NewApiClient c = inl e ->
    store_step (s, l1 ++ Asking c :: l2) (s, l1 ++ Refused c :: l2)
| step_locked s s' l1 l2 c cl r : NewApiClient c = inr cl ->
    fromCredentials_locked config c cl s = (r, s') ->
    store_step (s, l1 ++ Waiting c :: l2) (s', l1 ++ served c r :: l2)
(* anything else that happens outside of the store *)
| step_outside s w tr l : store_step (s, l) (MkRun (obj s) w tr, l).

(** Addresses and hashes belong together, and who was served got the client of
    his hash. *)
Record store_inv (st : ApiStore) (l : list phase) : Prop := {
  inv_made h p : apis st !! h = Some p -> exists c cl, clients st !! p = Some (c, cl) /\ generateHash c = h;
  inv_served c p : Served c p ∈ l -> apis st !! generateHash c = Some p
}.

Lemma register_nfs_store cl (s : run) : obj (snd (register_nfs config cl s)) = obj s.
Proof.
  unfold register_nfs. destruct (_ && _); [|done]. unfold bind, method_of.
  by destruct (RegisterNfsClientGroup _) as [[[]|e|] s1].
Qed.
(** What the locked part does to the store. *)
Lemma locked_spec c cl (s s' : run) r : fromCredentials_locked config c cl s = (r, s') ->
  (obj s' = obj s /\ forall p, r = Ok p -> apis (obj s) !! generateHash c = Some p) \/
  (apis (obj s) !! generateHash c = None /\ r = Ok (new_address (obj s)) /\
   exists cl', obj s' = put_client (generateHash c) c cl' (obj s)).
Proof.
  unfold fromCredentials_locked. rewrite (bind_Ok self _ s (obj s) s eq_refl). cbv zeta. unfold getByHash.
  destruct (apis (obj s) !! generateHash c) as [p|] eqn:Ep.
  { intros [= <- <-]. left. split; [done|]. by intros ? [= ->]. }
  unfold bind at 1, call_val, bind at 1, call. destruct (exec (ClientInit c) (env s)) as [[e|a] w]; cbn [of_sum id].
  { intros [= <- <-]. by left. }
  cbn [of_sum ret]. destruct (negb (SupportsAuthenticatedMounts a) && _); [intros [= <- <-]; by left|].
  unfold bind at 1. set (s1 := MkRun _ w _). pose proof (register_nfs_store (logged_in a c cl) s1) as Hr.
  destruct (register_nfs config _ s1) as [[cl'|e|] s2]; cbn [snd] in Hr; [|intros [= <- <-]; by left..].
  intros [= <- <-]. right. cbn. rewrite Hr. eauto.
Qed.

Lemma put_client_inv st l c cl : store_inv st l -> apis st !! generateHash c = None ->
  store_inv (put_client (generateHash c) c cl st) l.
Proof.
  intros [Hmade Hserved] Hnone. split; cbn.
  - intros h p. rewrite lookup_insert_Some. intros [[<- <-]|[Hh Hp]].
    { exists c, cl. by rewrite lookup_insert_eq. }
    destruct (Hmade _ _ Hp) as (c' & cl' & Hc & Hg). exists c', cl'. rewrite lookup_insert_ne; [done|].
    intros Hp'. apply (is_fresh (dom (clients st))). change (new_address st ∈ dom (clients st)).
    rewrite Hp'. by eapply elem_of_dom_2.
  - intros c' p Hin. specialize (Hserved _ _ Hin). rewrite lookup_insert_ne; [done|]. congruence.
Qed.
Lemma phase_inv st l1 l2 (old new : phase) : store_inv st (l1 ++ old :: l2) ->
  (forall c p, new = Served c p -> apis st !! generateHash c = Some p) -> store_inv st (l1 ++ new :: l2).
Proof.
  intros [Hmade Hserved] Hnew. split; [done|]. intros c p. rewrite elem_of_app, elem_of_cons.
  intros [Hin|[E|Hin]]; [apply Hserved; set_solver|by apply Hnew|apply Hserved; set_solver].
Qed.
Lemma store_step_inv x y : store_step x y -> store_inv (obj x.1) x.2 -> store_inv (obj y.1) y.2.
Proof.
  intros Hs Hi. destruct Hs as [s l c|s l1 l2 c cl Hn|s l1 l2 c e Hn|s s' l1 l2 c cl r Hn Hl|s w tr l]; cbn in *.
  - destruct Hi as [Hmade Hserved]. split; [done|]. intros c' p Hin. apply Hserved. set_solver.
  - eapply phase_inv; [exact Hi|]. intros c' p. unfold getByHash.
    destruct (apis (obj s) !! generateHash c) eqn:E; intros [=]; congruence.
  - by eapply phase_inv; [exact Hi|].
  - apply locked_spec in Hl as [[Ho Hr]|(Hnone & -> & cl' & Ho)]; rewrite Ho.
    + eapply phase_inv; [exact Hi|]. intros c' p. destruct r; cbn; intros [=]; subst. by apply Hr.
    + eapply phase_inv; [by apply put_client_inv|]. intros c' p [= <- <-]. cbn. apply lookup_insert_eq.
  - done.
Qed.

(** (C22) Clients are shared exactly by hash: however requests interleave, two
    that were served with a client got the same one if and only if their
    credentials have the same hash, and that client was made from credentials
    with this hash. *)
Theorem clients_shared (s s' : run) l' c1 p1 c2 p2 :
  apis (obj s) = ∅ -> rtc store_step (s, []) (s', l') -> Served c1 p1 ∈ l' -> Served c2 p2 ∈ l' ->
  (p1 = p2 <-> generateHash c1 = generateHash c2) /\
  exists c cl, clients (obj s') !! p1 = Some (c, cl) /\ generateHash c = generateHash c1.
Proof.
  intros Hempty Hrun Hs1 Hs2. assert (Hi : store_inv (obj s') l').
  { assert (Hall : forall x y, rtc store_step x y -> store_inv (obj x.1) x.2 -> store_inv (obj y.1) y.2).
    { induction 1; eauto using store_step_inv. }
    apply (Hall _ _ Hrun). split; cbn; [rewrite Hempty; by intros h p|set_solver]. }
  destruct Hi as [Hmade Hserved]. pose proof (Hserved _ _ Hs1) as Ha1. pose proof (Hserved _ _ Hs2) as Ha2.
  destruct (Hmade _ _ Ha1) as (c & cl & Hc & Hg). split; [|by eauto]. split; [|congruence].
  intros ->. destruct (Hmade _ _ Ha2) as (c' & cl' & Hc' & Hg'). congruence.
Qed.
End Sharing.

(** Two requests with the same credentials look up at the same time; one makes
    the client, the other finds it under the lock. *)
Definition store_env : Env nat := scripted (fun _ e => match e with ClientInit _ => Some (inr demo_api) | _ => None end).
Definition demo_credentials : Credentials := plain_credentials "csi" "secret" "Root" "https".
Definition demo_store_config : StoreConfig := MkStoreConfig false false "" "" false.
Definition empty_store : Run nat ApiStore := MkRun (MkApiStore ∅ ∅ None) 0%nat [].
Lemma clients_shared_witness :
  let s' := snd (@fromCredentials nat store_env demo_store_config demo_credentials empty_store) in
  (0%nat = 0%nat <-> generateHash demo_credentials = generateHash demo_credentials) /\
  exists c cl, clients (obj s') !! 0%nat = Some (c, cl) /\ generateHash c = generateHash demo_credentials.
Proof.
  intros s'. set (c := demo_credentials).
  apply (@clients_shared nat store_env demo_store_config empty_store s' [Served c 0; Served c 0] c 0 c 0).
  - reflexivity.
  - apply rtc_l with (empty_store, [Asking c]); [apply (step_request _ _ [])|].
    apply rtc_l with (empty_store, [Asking c; Asking c]); [apply (step_request _ _ [_])|].
    eapply rtc_l; [eapply (step_lookup _ _ [] [_]); reflexivity|]. cbn [app].
    eapply rtc_l; [eapply (step_lookup _ _ [_] []); reflexivity|]. cbn [app].
    eapply rtc_l; [eapply (step_locked _ _ _ [] [_]); [reflexivity|apply surjective_pairing]|]. cbn [app].
    eapply rtc_l; [eapply (step_locked _ _ _ [_] []); [reflexivity|apply surjective_pairing]|].
    match goal with |- rtc _ ?x ?y => assert (x = y) as -> by (vm_compute; reflexivity) end. apply rtc_refl.
  - left.
  - left.
Defined.
