(* ===== verification/GarbageCollector.v ===== *)
(** * The garbage collector of directory volumes (gc.go)

    Deleting a directory volume moves it into a trash directory of its
    filesystem; a goroutine per purge empties the trash later.  The first part
    is what the operations do to files; the second is how purges are
    scheduled: flags per filesystem, and goroutines as steps of a transition
    system, so that every interleaving is a sequence of steps. *)
From S2P Require Import Prelude.
From S2P Require Import GoStrings.
From S2P Require Import Monad.
From S2P Require Import MountOptions.
From S2P Require Import ApiObjects.
From S2P Require Import Objects.
From S2P Require Import Effects.
From S2P Require Import ApiOps.

Definition garbagePath : string := ".__internal__wekafs-async-delete".

Section Trash.
Context {W : Type} `{Env W}.
Abbreviation run := (Run W Volume).
Local Open Scope go_scope.

Definition fileExists (p : string) : M run bool :=
  let! e := call (OsLstat p) in match e with None => ret true | Some _ => ret false end.

(** [gc.mounter.Mount] with its unmount function deferred. *)
Definition gc_mounted {A} (fs : string) (body : string -> M run A) : M run ((error + A) * option error) :=
  let! path := call_val (MountFs fs getDefaultMountOptions) id in
  both (body path) (call (UnmountFs fs getDefaultMountOptions)).

(** [moveVolumeToTrash]: the collection is initiated by the first [defer], so
    last and however the rest ended. *)
Definition move_contents (path : string) : M run unit :=
  let! v := self in
  let volumeTrashLoc := Path.Join [path; garbagePath] in
  let! e := call (OsMkdirAll volumeTrashLoc DefaultVolumePermissions) in
  match e with
  | Some err => if bool_decide (err = EIsExist) then ret tt else throw err
  | None => ret tt
  end ;;
  let fullPath := Path.Join [path; GetFullPath v] in
  let newPath := Path.Join [volumeTrashLoc; Path.Base fullPath] in
  let! there := fileExists fullPath in
  if negb there then ret tt else call_err (OsRename fullPath newPath) id.
Definition moveVolumeToTrash (skipGarbageCollection : bool) : M run unit :=
  let! v := self in
  let fsName := FilesystemName v in
  let move :=
    let! (r, uErr) := gc_mounted fsName move_contents in
    match r, uErr with
    | inl e, _ => throw e
    | inr _, Some e => throw e
    | inr _, None => ret tt
    end in
  if skipGarbageCollection then move else finally move (call (GcInitiate fsName)).
Definition triggerGcVolume (skipGarbageCollection : bool) : M run unit :=
  moveVolumeToTrash skipGarbageCollection.

(** The body of [purgeLeftovers] between setting and clearing the running
    flag: did it succeed?  An error of the unmount is only logged. *)
Definition purge (fs : string) : M run bool :=
  let! r := attempt (gc_mounted fs (fun path =>
    let volumeTrashLoc := Path.Join [path; garbagePath] in
    let! locar := fileExists "/locar" in
    if locar then call_err (RunLocar volumeTrashLoc) id
    else call_err (OsRemoveAll volumeTrashLoc) id)) in
  match r with
  | inr (inr _, _) => ret true
  | _ => ret false
  end.

(** [pathIsEmptyDir]: what cannot be opened counts as empty, what cannot be
    read does not. *)
Definition pathIsEmptyDir (p : string) : M run bool :=
  let! k := call (OsOpen p) in
  match k with
  | Missing => ret true
  | _ => let! r := call (OsReaddirnames p 1) in
         match r with inl _ => ret false | inr l => ret (bool_decide (l = [])) end
  end.
End Trash.

(** ** Scheduling *)

(** Where a goroutine is: about to call [initiateGarbageCollection], asleep
    before calling it again, started but not yet marked as running, purging
    what was in the trash when it was marked, or through with it. *)
Inductive phase := Initiating | Backoff | Starting | Purging (seen : gset string) | Finishing (succeeded : bool).

(** The state: the two maps of flags, the goroutines, what the trash of each
    filesystem holds and, for the account, what of it no purge has been asked
    to remove or a purge has left behind without noticing. *)
Record GcState := MkGc {
  isRunning : gmap string bool;
  isDeferred : gmap string bool;
  routines : list (string * phase);
  trash : gmap string (gset string);
  overlooked : gmap string (gset string)
}.
Definition flag (m : gmap string bool) (fs : string) : bool := default false (m !! fs).
Definition in_trash (s : GcState) (fs : string) : gset string := default ∅ (trash s !! fs).
Definition is_overlooked (s : GcState) (fs : string) : gset string := default ∅ (overlooked s !! fs).
(** A new process starts with the trash [t] of the earlier ones. *)
Definition initInnerPathVolumeGc (t : gmap string (gset string)) : GcState := MkGc ∅ ∅ [] t t.

(** [go f()] *)
Definition spawn (fs : string) (p : phase) (s : GcState) : GcState :=
  MkGc (isRunning s) (isDeferred s) ((fs, p) :: routines s) (trash s) (overlooked s).
Definition set_running (fs : string) (b : bool) (s : GcState) : GcState :=
  MkGc (<[fs := b]> (isRunning s)) (isDeferred s) (routines s) (trash s) (overlooked s).
Definition set_deferred (fs : string) (b : bool) (s : GcState) : GcState :=
  MkGc (isRunning s) (<[fs := b]> (isDeferred s)) (routines s) (trash s) (overlooked s).
Definition set_routines (l : list (string * phase)) (s : GcState) : GcState :=
  MkGc (isRunning s) (isDeferred s) l (trash s) (overlooked s).
Definition set_trash (fs : string) (x : gset string) (s : GcState) : GcState :=
  MkGc (isRunning s) (isDeferred s) (routines s) (<[fs := x]> (trash s)) (overlooked s).
Definition set_overlooked (fs : string) (x : gset string) (s : GcState) : GcState :=
  MkGc (isRunning s) (isDeferred s) (routines s) (trash s) (<[fs := x]> (overlooked s)).

Definition initiateGarbageCollection (fs : string) (s : GcState) : GcState :=
  if flag (isRunning s) fs then set_deferred fs true s
  else if negb (flag (isDeferred s) fs) then spawn fs Starting s
  else s.
(** The start of [purgeLeftovers], and its deferred function. *)
Definition purge_begin (fs : string) (s : GcState) : GcState := set_running fs true s.
Definition purge_end (fs : string) (succeeded : bool) (s : GcState) : GcState :=
  let s := set_running fs false s in
  if flag (isDeferred s) fs then spawn fs Starting (set_deferred fs false s)
  else if negb succeeded then spawn fs Backoff s
  else s.

(** [skipGarbageCollection] of the configuration, and whether the container
    has /locar. *)
Section System.
Variables skipGarbageCollection locar : bool.

(** A goroutine takes its next step.  A purge that begins sees all that is in
    the trash.  [os.RemoveAll] that succeeds has removed all of that, and
    perhaps some of what came later; the pipeline of locar succeeds whatever
    its deletions did, so that anything may be left. *)
Inductive gc_step : string -> GcState -> GcState -> Prop :=
| gc_initiate s l1 l2 fs p : routines s = l1 ++ (fs, p) :: l2 -> p = Initiating \/ p = Backoff ->
    gc_step fs s (initiateGarbageCollection fs (set_routines (l1 ++ l2) s))
| gc_start s l1 l2 fs : routines s = l1 ++ (fs, Starting) :: l2 ->
    gc_step fs s (set_overlooked fs ∅
      (purge_begin fs (spawn fs (Purging (in_trash s fs)) (set_routines (l1 ++ l2) s))))
| gc_purged s l1 l2 fs seen left : locar = false -> routines s = l1 ++ (fs, Purging seen) :: l2 ->
    left ⊆ in_trash s fs -> left ## seen ->
    gc_step fs s (set_trash fs left (spawn fs (Finishing true) (set_routines (l1 ++ l2) s)))
| gc_purged_locar s l1 l2 fs seen left : locar = true -> routines s = l1 ++ (fs, Purging seen) :: l2 ->
    left ⊆ in_trash s fs ->
    gc_step fs s (set_overlooked fs left
      (set_trash fs left (spawn fs (Finishing true) (set_routines (l1 ++ l2) s))))
| gc_end s l1 l2 fs b : routines s = l1 ++ (fs, Finishing b) :: l2 ->
    gc_step fs s (purge_end fs b (set_routines (l1 ++ l2) s)).
(** What else can happen: a volume is moved to the trash, or could not be, and
    a collection is initiated unless the configuration skips it; a purge fails. *)
Inductive gc_disturbance : GcState -> GcState -> Prop :=
| gc_move s fs name : skipGarbageCollection = false ->
    gc_disturbance s (spawn fs Initiating (set_trash fs ({[name]} ∪ in_trash s fs) s))
| gc_move_failed s fs : skipGarbageCollection = false -> gc_disturbance s (spawn fs Initiating s)
| gc_move_only s fs name : skipGarbageCollection = true ->
    gc_disturbance s (set_overlooked fs ({[name]} ∪ is_overlooked s fs)
      (set_trash fs ({[name]} ∪ in_trash s fs) s))
| gc_failed s l1 l2 fs seen left : routines s = l1 ++ (fs, Purging seen) :: l2 -> left ⊆ in_trash s fs ->
    gc_disturbance s (set_trash fs left (spawn fs (Finishing false) (set_routines (l1 ++ l2) s))).

Inductive gc_reachable (t : gmap string (gset string)) : GcState -> Prop :=
| gc_init : gc_reachable t (initInnerPathVolumeGc t)
| gc_then_step fs s s' : gc_reachable t s -> gc_step fs s s' -> gc_reachable t s'
| gc_then_other s s' : gc_reachable t s -> gc_disturbance s s' -> gc_reachable t s'.

(** *** No item is forgotten *)

(** A goroutine will see to item [x]. *)
Definition covers (deferred : bool) (x : string) (p : phase) : Prop :=
  match p with
  | Initiating | Backoff | Starting | Finishing false => True
  | Purging seen => x ∈ seen \/ deferred = true
  | Finishing true => deferred = true
  end.
Definition active (p : phase) : Prop := match p with Purging _ | Finishing _ => True | _ => False end.
Definition at_work (s : GcState) (fs : string) (P : phase -> Prop) : Prop := exists p, (fs, p) ∈ routines s /\ P p.

Record gc_inv (s : GcState) (fs : string) : Prop := {
  deferred_running : flag (isDeferred s) fs = true -> flag (isRunning s) fs = true;
  running_active : flag (isRunning s) fs = true -> at_work s fs active;
  all_covered : forall x, x ∈ in_trash s fs ->
    at_work s fs (covers (flag (isDeferred s) fs) x) \/ x ∈ is_overlooked s fs
}.

Lemma flag_insert fs b m fs' : flag (<[fs := b]> m) fs' = if decide (fs = fs') then b else flag m fs'.
Proof. unfold flag. destruct (decide (fs = fs')) as [->|?]; by rewrite ?lookup_insert_eq, ?lookup_insert_ne. Qed.
Lemma in_trash_set fs x s fs' : in_trash (set_trash fs x s) fs' = if decide (fs = fs') then x else in_trash s fs'.
Proof. unfold in_trash. cbn. destruct (decide (fs = fs')) as [->|?]; by rewrite ?lookup_insert_eq, ?lookup_insert_ne. Qed.
Lemma is_overlooked_set fs x s fs' :
  is_overlooked (set_overlooked fs x s) fs' = if decide (fs = fs') then x else is_overlooked s fs'.
Proof. unfold is_overlooked. cbn. destruct (decide (fs = fs')) as [->|?]; by rewrite ?lookup_insert_eq, ?lookup_insert_ne. Qed.

(** The routine that takes the step, and the others. *)
Lemma at_work_split s l1 l2 fs p fs' P : routines s = l1 ++ (fs, p) :: l2 ->
  at_work s fs' P <-> (fs = fs' /\ P p) \/ at_work (set_routines (l1 ++ l2) s) fs' P.
Proof.
  intros Hr. unfold at_work. rewrite Hr. cbn. split.
  - intros (q & Hin & HP). rewrite elem_of_app, elem_of_cons in Hin. destruct Hin as [?|[[= -> ->]|?]]; [|by left|];
      right; exists q; rewrite elem_of_app; auto.
  - intros [[-> HP]|(q & Hin & HP)]; [exists p|exists q]; (split; [|done]); set_solver.
Qed.
Lemma at_work_spawn s fs p fs' P : at_work (spawn fs p s) fs' P <-> (fs = fs' /\ P p) \/ at_work s fs' P.
Proof.
  unfold at_work. cbn. split.
  - intros (q & [[= -> ->]|Hin]%elem_of_cons & HP); eauto.
  - intros [[-> HP]|(q & Hin & HP)]; [exists p|exists q]; set_solver.
Qed.
Lemma at_work_impl s fs (P Q : phase -> Prop) : (forall p, P p -> Q p) -> at_work s fs P -> at_work s fs Q.
Proof. intros HPQ (p & Hin & HP). exists p. auto. Qed.

(** A step on one filesystem is no step on the others. *)
Definition same_for (fs : string) (s s' : GcState) : Prop :=
  flag (isRunning s') fs = flag (isRunning s) fs /\ flag (isDeferred s') fs = flag (isDeferred s) fs /\
  in_trash s' fs = in_trash s fs /\ is_overlooked s' fs = is_overlooked s fs /\
  forall P, at_work s' fs P <-> at_work s fs P.
Lemma same_for_inv fs s s' : same_for fs s s' -> gc_inv s fs -> gc_inv s' fs.
Proof.
  intros (Hr & Hd & Ht & Ho & Hw) [H1 H2 H3]. split; rewrite ?Hr, ?Hd, ?Ht, ?Ho; [done|rewrite Hw; done|].
  intros x Hx. rewrite Hw. auto.
Qed.

#[local] Instance same_for_preorder fs : PreOrder (same_for fs).
Proof.
  split; [done|]. intros s1 s2 s3 (A1 & A2 & A3 & A4 & A5) (B1 & B2 & B3 & B4 & B5).
  repeat split; try congruence; rewrite B5, A5; done.
Qed.
Lemma same_for_spawn fs' s s0 fs p : fs <> fs' -> same_for fs' s s0 -> same_for fs' s (spawn fs p s0).
Proof. intros Hn Hs. etransitivity; [done|]. repeat split; try done; rewrite at_work_spawn; naive_solver. Qed.
Lemma same_for_take fs' s l1 l2 fs p : routines s = l1 ++ (fs, p) :: l2 -> fs <> fs' ->
  same_for fs' s (set_routines (l1 ++ l2) s).
Proof. intros Hr Hn. repeat split; try done; rewrite (at_work_split s l1 l2 fs p fs' P Hr); naive_solver. Qed.
Lemma same_for_running fs' s s0 fs b : fs <> fs' -> same_for fs' s s0 -> same_for fs' s (set_running fs b s0).
Proof.
  intros Hn Hs. etransitivity; [done|]. repeat split; try done. cbn. rewrite flag_insert. by rewrite decide_False.
Qed.
Lemma same_for_deferred fs' s s0 fs b : fs <> fs' -> same_for fs' s s0 -> same_for fs' s (set_deferred fs b s0).
Proof.
  intros Hn Hs. etransitivity; [done|]. repeat split; try done. cbn. rewrite flag_insert. by rewrite decide_False.
Qed.
Lemma same_for_trash fs' s s0 fs x : fs <> fs' -> same_for fs' s s0 -> same_for fs' s (set_trash fs x s0).
Proof.
  intros Hn Hs. etransitivity; [done|]. repeat split; try done. rewrite in_trash_set. by rewrite decide_False.
Qed.
Lemma same_for_overlooked fs' s s0 fs x : fs <> fs' -> same_for fs' s s0 -> same_for fs' s (set_overlooked fs x s0).
Proof.
  intros Hn Hs. etransitivity; [done|]. repeat split; try done. rewrite is_overlooked_set. by rewrite decide_False.
Qed.
Create HintDb gc.
#[local] Hint Resolve same_for_spawn same_for_take same_for_running same_for_deferred same_for_trash same_for_overlooked : gc.
#[local] Hint Extern 1 (same_for _ ?s ?s) => reflexivity : gc.

Lemma gc_step_frame fs s s' fs' : gc_step fs s s' -> fs <> fs' -> same_for fs' s s'.
Proof.
  destruct 1; intros Hne; unfold initiateGarbageCollection, purge_begin, purge_end; cbv zeta;
    repeat case_match; eauto 6 with gc.
Qed.
Lemma gc_disturbance_frame s s' fs' : gc_disturbance s s' ->
  same_for fs' s s' \/
  (skipGarbageCollection = false /\ exists x,
     s' = spawn fs' Initiating (set_trash fs' x s) \/ s' = spawn fs' Initiating s) \/
  (skipGarbageCollection = true /\ exists name,
     s' = set_overlooked fs' ({[name]} ∪ is_overlooked s fs') (set_trash fs' ({[name]} ∪ in_trash s fs') s)) \/
  (exists l1 l2 seen left, routines s = l1 ++ (fs', Purging seen) :: l2 /\ left ⊆ in_trash s fs' /\
     s' = set_trash fs' left (spawn fs' (Finishing false) (set_routines (l1 ++ l2) s))).
Proof.
  destruct 1 as [s fs name Hk|s fs Hk|s fs name Hk|s l1 l2 fs seen rest Hr Hl]; destruct (decide (fs = fs')) as [->|Hne];
    try (left; by eauto 6 with gc).
  - right. left. split; [done|]. eexists. by left.
  - right. left. split; [done|]. exists ∅. by right.
  - right. right. left. eauto.
  - eauto 12.
Qed.

(** *** The invariant *)

(** Steps keep it on their own filesystem. *)
Lemma initiate_inv s fs : (flag (isDeferred s) fs = true -> flag (isRunning s) fs = true) ->
  (flag (isRunning s) fs = true -> at_work s fs active) -> gc_inv (initiateGarbageCollection fs s) fs.
Proof.
  intros H1 H2. unfold initiateGarbageCollection. destruct (flag (isRunning s) fs) eqn:Er.
  - split; cbn; rewrite ?flag_insert, ?decide_True by done; [done|intros _; by apply H2|].
    intros x _. left. destruct (H2 eq_refl) as (p & Hin & Hp). exists p. split; [done|].
    destruct p as [| | |seen|[]]; try done. by right.
  - destruct (flag (isDeferred s) fs) eqn:Ed; [by specialize (H1 eq_refl)|]. cbn [negb].
    split; cbn; rewrite ?Er, ?Ed; [done..|]. intros x _. left. apply at_work_spawn. by left.
Qed.
Lemma purge_end_inv s fs b : (flag (isDeferred s) fs = false -> b = true -> forall x, x ∈ in_trash s fs ->
    at_work s fs (covers false x) \/ x ∈ is_overlooked s fs) -> gc_inv (purge_end fs b s) fs.
Proof.
  intros H3. unfold purge_end. cbv zeta. cbn [isDeferred set_running]. destruct (flag (isDeferred s) fs) eqn:Ed.
  - split; cbn; rewrite ?flag_insert, ?decide_True by done; [done..|]. intros x _. left. apply at_work_spawn. by left.
  - destruct b; cbn [negb].
    + split; cbn; rewrite ?flag_insert, ?decide_True, ?Ed by done; [done..|]. by apply H3.
    + split; cbn; rewrite ?flag_insert, ?decide_True, ?Ed by done; [done..|].
      intros x _. left. apply at_work_spawn. by left.
Qed.

Lemma gc_step_inv fs s s' : gc_step fs s s' -> gc_inv s fs -> gc_inv s' fs.
Proof.
  destruct 1 as [s l1 l2 fs p Hr Hp|s l1 l2 fs Hr|s l1 l2 fs seen rest _ Hr Hl Hs|s l1 l2 fs seen rest _ Hr Hl
    |s l1 l2 fs b Hr]; intros [H1 H2 H3].
  - apply initiate_inv; [done|]. intros Hrun. apply (at_work_split s l1 l2 fs p fs _ Hr) in H2; [|done].
    destruct H2 as [[_ Ha]|?]; [|done]. by destruct Hp as [->| ->].
  - split; cbn; rewrite ?flag_insert, ?decide_True by done; [done|..].
    + intros _. change (at_work (spawn fs (Purging (in_trash s fs)) (set_routines (l1 ++ l2) s)) fs active).
      apply at_work_spawn. by left.
    + intros x Hx. left. change (at_work (spawn fs (Purging (in_trash s fs)) (set_routines (l1 ++ l2) s)) fs
        (covers (flag (isDeferred s) fs) x)). apply at_work_spawn. left. split; [done|]. by left.
  - split; cbn; [done|..].
    + intros _. change (at_work (spawn fs (Finishing true) (set_routines (l1 ++ l2) s)) fs active).
      apply at_work_spawn. by left.
    + intros x. rewrite in_trash_set, decide_True by done. intros Hx.
      change (at_work (spawn fs (Finishing true) (set_routines (l1 ++ l2) s)) fs (covers (flag (isDeferred s) fs) x)
        \/ x ∈ is_overlooked s fs).
      rewrite at_work_spawn. destruct (H3 x ltac:(set_solver)) as [Hw|?]; [|by right].
      apply (at_work_split s l1 l2 fs _ fs _ Hr) in Hw as [[_ [Hin|Hd]]|?]; [set_solver|by left; left|by left; right].
  - split; cbn; [done|..].
    + intros _. change (at_work (spawn fs (Finishing true) (set_routines (l1 ++ l2) s)) fs active).
      apply at_work_spawn. by left.
    + intros x Hx. right. rewrite is_overlooked_set, decide_True by done.
      revert Hx. change (x ∈ in_trash (set_trash fs rest (spawn fs (Finishing true) (set_routines (l1 ++ l2) s))) fs -> x ∈ rest).
      by rewrite in_trash_set, decide_True by done.
  - apply purge_end_inv. cbn. intros Hd -> x Hx. specialize (H3 x Hx). rewrite Hd in H3.
    destruct H3 as [Hw|?]; [left|by right]. by apply (at_work_split s l1 l2 fs _ fs _ Hr) in Hw as [[_ ?]|?].
Qed.
Lemma gc_disturbance_inv s s' fs : gc_disturbance s s' -> gc_inv s fs -> gc_inv s' fs.
Proof.
  intros Hd Hi. apply (gc_disturbance_frame _ _ fs) in Hd as [Hs|[(_ & x0 & Hs)|[(_ & name & ->)|(l1 & l2 & seen & rest & Hr & Hl & ->)]]];
    [by eapply same_for_inv|destruct Hi as [H1 H2 H3]..].
  - destruct Hs as [-> | ->]; (split; cbn; [done|..]);
      try (intros Hrun; apply at_work_spawn; right; by apply H2); intros x _; left; apply at_work_spawn; by left.
  - split; cbn; [done|done|]. intros x. rewrite is_overlooked_set, decide_True by done.
    change (x ∈ in_trash (set_trash fs ({[name]} ∪ in_trash s fs) s) fs ->
      at_work s fs (covers (flag (isDeferred s) fs) x) \/ x ∈ {[name]} ∪ is_overlooked s fs).
    rewrite in_trash_set, decide_True by done. intros [?|Hx]%elem_of_union; [set_solver|].
    destruct (H3 x Hx); [by left|set_solver].
  - split; cbn; [done| |].
    + intros _. change (at_work (spawn fs (Finishing false) (set_routines (l1 ++ l2) s)) fs active).
      apply at_work_spawn. by left.
    + intros x _. left. change (at_work (spawn fs (Finishing false) (set_routines (l1 ++ l2) s)) fs
        (covers (flag (isDeferred s) fs) x)). apply at_work_spawn. by left.
Qed.

Lemma gc_reachable_inv t s fs : gc_reachable t s -> gc_inv s fs.
Proof.
  induction 1 as [|fs' s s' _ IH Hs|s s' _ IH Hs].
  - split; cbn; unfold flag; [by rewrite lookup_empty..|]. intros x Hx. by right.
  - destruct (decide (fs' = fs)) as [->|Hne]; [by eapply gc_step_inv|].
    eapply same_for_inv; [|done]. by eapply gc_step_frame.
  - by eapply gc_disturbance_inv.
Qed.

(** What is overlooked, when neither locar nor the configuration lets a
    purge skip anything: only what earlier processes left. *)
Lemma overlooked_inherited t s fs : skipGarbageCollection = false -> locar = false ->
  gc_reachable t s -> is_overlooked s fs ⊆ default ∅ (t !! fs).
Proof.
  intros Hk Hl. induction 1 as [|fs' s s' _ IH Hs|s s' _ IH Hs]; [done|..].
  - destruct Hs; try congruence; try done.
    + unfold initiateGarbageCollection. by repeat case_match.
    + rewrite is_overlooked_set. case_decide; [set_solver|done].
    + unfold purge_end. cbv zeta. by repeat case_match.
  - destruct Hs; try congruence; done.
Qed.

(** (C16) No item is forgotten: whatever the interleaving of deletions, purges,
    failures and retries in a process, a volume in the trash has a goroutine
    that will see to it: one about to start a purge, one that purges it, one
    that failed and will retry, or one that will start another purge because
    one was deferred.  The exceptions are the volumes of [overlooked], for
    which no purge has started since they were moved with
    skipGarbageCollection, left behind by a purge with locar that counted as
    successful, or left by an earlier process; with collection on and without
    locar only the last are possible. *)
Theorem gc_forgets_nothing t s fs x :
  gc_reachable t s -> x ∈ in_trash s fs ->
  at_work s fs (covers (flag (isDeferred s) fs) x) \/
  (x ∈ is_overlooked s fs /\
   (skipGarbageCollection = true \/ locar = true \/ x ∈ default ∅ (t !! fs))).
Proof.
  intros Hr Hx. destruct (all_covered _ _ (gc_reachable_inv t s fs Hr) x Hx) as [?|Ho]; [by left|right].
  split; [done|]. destruct (decide (skipGarbageCollection = true)) as [?|Hk%not_true_is_false]; [by left|].
  destruct (decide (locar = true)) as [?|Hl%not_true_is_false]; [by right; left|].
  right; right. by apply (overlooked_inherited t s fs Hk Hl Hr).
Qed.

(** *** Progress *)

Definition weight (p : phase) : nat :=
  match p with
  | Initiating | Backoff => 5
  | Starting => 3
  | Purging _ => 2
  | Finishing true => 1
  | Finishing false => 6
  end.
Definition routine_work (fs : string) (r : string * phase) : nat := if decide (r.1 = fs) then weight r.2 else 0.
(** The steps that are left on a filesystem, at most. *)
Definition work_left (s : GcState) (fs : string) : nat :=
  sum_list_with (routine_work fs) (routines s) + (if flag (isDeferred s) fs then 4 else 0).

Lemma work_left_take s l1 l2 fs p fs' : routines s = l1 ++ (fs, p) :: l2 ->
  work_left s fs' = (work_left (set_routines (l1 ++ l2) s) fs' + routine_work fs' (fs, p))%nat.
Proof.
  intros Hr. unfold work_left. rewrite Hr. cbn [routines set_routines isDeferred].
  rewrite !sum_list_with_app. cbn [sum_list_with]. lia.
Qed.
Lemma work_left_spawn s fs p fs' :
  work_left (spawn fs p s) fs' = (work_left s fs' + routine_work fs' (fs, p))%nat.
Proof. unfold work_left. cbn. lia. Qed.
Lemma work_left_deferred s fs b fs' :
  (work_left (set_deferred fs b s) fs' + (if flag (isDeferred s) fs' then 4 else 0) =
   work_left s fs' + (if decide (fs = fs') then (if b then 4 else 0) else (if flag (isDeferred s) fs' then 4 else 0)))%nat.
Proof. unfold work_left. cbn. rewrite flag_insert. destruct (decide (fs = fs')); lia. Qed.

Lemma routine_work_own fs p : routine_work fs (fs, p) = weight p.
Proof. unfold routine_work. by rewrite decide_True. Qed.
Lemma routine_work_other fs fs' p : fs <> fs' -> routine_work fs' (fs, p) = 0%nat.
Proof. intros Hne. unfold routine_work. by rewrite decide_False. Qed.

Lemma gc_step_work fs s s' : gc_step fs s s' ->
  (work_left s' fs < work_left s fs)%nat /\ forall fs', fs <> fs' -> work_left s' fs' = work_left s fs'.
Proof.
  assert (Hrun : forall s fs b fs', work_left (set_running fs b s) fs' = work_left s fs') by done.
  assert (Htr : forall s fs x fs', work_left (set_trash fs x s) fs' = work_left s fs') by done.
  assert (Hov : forall s fs x fs', work_left (set_overlooked fs x s) fs' = work_left s fs') by done.
  destruct 1 as [s l1 l2 fs p Hr Hp|s l1 l2 fs Hr|s l1 l2 fs seen rest _ Hr Hl Hs|s l1 l2 fs seen rest _ Hr Hl
    |s l1 l2 fs b Hr];
    pose proof (fun fs' => work_left_take s l1 l2 fs _ fs' Hr) as Ht;
    set (s0 := set_routines (l1 ++ l2) s) in *.
  - unfold initiateGarbageCollection. pose proof (work_left_deferred s0 fs true) as Hd.
    assert (weight p = 5%nat) as Hw by by destruct Hp as [->| ->].
    destruct (flag (isRunning s0) fs); [|destruct (negb (flag (isDeferred s0) fs))].
    + split; [specialize (Hd fs); rewrite decide_True in Hd by done; rewrite Ht, routine_work_own; lia|].
      intros fs' Hne. specialize (Hd fs'). rewrite decide_False in Hd by done.
      rewrite Ht, routine_work_other by done. lia.
    + split; [rewrite work_left_spawn, Ht, !routine_work_own, Hw; cbn [weight]; lia|].
      intros fs' Hne. by rewrite work_left_spawn, Ht, !routine_work_other by done.
    + split; [rewrite Ht, routine_work_own; lia|]. intros fs' Hne. rewrite Ht, routine_work_other by done. lia.
  - unfold purge_begin. split; [rewrite Hov, Hrun, work_left_spawn, Ht, !routine_work_own; cbn [weight]; lia|].
    intros fs' Hne. by rewrite Hov, Hrun, work_left_spawn, Ht, !routine_work_other by done.
  - split; [rewrite Htr, work_left_spawn, Ht, !routine_work_own; cbn [weight]; lia|].
    intros fs' Hne. by rewrite Htr, work_left_spawn, Ht, !routine_work_other by done.
  - split; [rewrite Hov, Htr, work_left_spawn, Ht, !routine_work_own; cbn [weight]; lia|].
    intros fs' Hne. by rewrite Hov, Htr, work_left_spawn, Ht, !routine_work_other by done.
  - unfold purge_end. cbv zeta. set (s1 := set_running fs false s0). pose proof (work_left_deferred s1 fs false) as Hd.
    assert (Hs1 : forall fs', work_left s1 fs' = work_left s0 fs') by done.
    destruct (flag (isDeferred s1) fs) eqn:Ed; [|destruct b; cbn [negb]].
    + split.
      * specialize (Hd fs). rewrite decide_True, Ed, Hs1 in Hd by done.
        rewrite work_left_spawn, Ht, !routine_work_own. destruct b; cbn [weight]; lia.
      * intros fs' Hne. specialize (Hd fs'). rewrite decide_False in Hd by done.
        rewrite work_left_spawn, Ht, !routine_work_other by done. rewrite <- Hs1. lia.
    + split; [rewrite Ht, routine_work_own, Hs1; cbn [weight]; lia|]. intros fs' Hne. rewrite Ht, routine_work_other, Hs1 by done. lia.
    + split; [rewrite work_left_spawn, Ht, !routine_work_own, Hs1; cbn [weight]; lia|].
      intros fs' Hne. by rewrite work_left_spawn, Ht, !routine_work_other, Hs1 by done.
Qed.

(** Goroutines run, each step on the filesystem it names; latest first. *)
Inductive gc_run (s : GcState) : list string -> GcState -> Prop :=
| gc_run_nil : gc_run s [] s
| gc_run_cons fs ls s1 s2 : gc_run s ls s1 -> gc_step fs s1 s2 -> gc_run s (fs :: ls) s2.
Definition steps_on (fs : string) (ls : list string) : nat := length (filter (fun x => x = fs) ls).

Lemma gc_run_work s ls s' fs : gc_run s ls s' -> (work_left s' fs + steps_on fs ls <= work_left s fs)%nat.
Proof.
  induction 1 as [|fs' ls s1 s2 _ IH Hs]; [cbn; lia|]. apply gc_step_work in Hs as [Hlt Heq].
  unfold steps_on in *. rewrite filter_cons. case_decide as Hf.
  - subst. cbn. lia.
  - rewrite Heq by done. lia.
Qed.
Lemma gc_run_reachable t s ls s' : gc_reachable t s -> gc_run s ls s' -> gc_reachable t s'.
Proof. intros Hr. induction 1; eauto using gc_then_step. Qed.
(** A goroutine can always take a step. *)
Lemma routine_steps s fs p : (fs, p) ∈ routines s -> exists s', gc_step fs s s'.
Proof.
  intros (l1 & l2 & Hr)%list_elem_of_split. destruct p as [| | |seen|b].
  - eexists. eapply gc_initiate; eauto.
  - eexists. eapply gc_initiate; eauto.
  - eexists. by eapply gc_start.
  - destruct locar eqn:El; eexists.
    + eapply (gc_purged_locar _ _ _ _ _ ∅); [done..|set_solver].
    + eapply (gc_purged _ _ _ _ _ ∅); [done..|set_solver|set_solver].
  - eexists. by eapply gc_end.
Qed.

(** (C17) The trash gets emptied: once volumes stop coming and purges stop
    failing, at most [work_left] further steps are possible on a filesystem in
    any schedule, and one is enabled as long as its trash holds a volume that
    is not [overlooked].  So every schedule that keeps serving the filesystem
    ends with nothing in the trash but what was moved with
    skipGarbageCollection, left behind by a purge with locar, or left by an
    earlier process; with collection on, without locar and with an empty trash
    at the start of the process, the trash ends empty. *)
Theorem gc_empties_trash t s fs ls s' : gc_reachable t s -> gc_run s ls s' ->
  (steps_on fs ls <= work_left s fs)%nat /\
  (in_trash s' fs ⊆ is_overlooked s' fs \/ exists s'', gc_step fs s' s'') /\
  (skipGarbageCollection = false -> locar = false -> t !! fs = None ->
   in_trash s' fs = ∅ \/ exists s'', gc_step fs s' s'').
Proof.
  intros Hr Hrun. pose proof (gc_run_reachable _ _ _ _ Hr Hrun) as Hr'.
  assert (Hsteps : in_trash s' fs ⊆ is_overlooked s' fs \/ exists s'', gc_step fs s' s'').
  { destruct (decide (in_trash s' fs ∖ is_overlooked s' fs = ∅)) as [He|[x Hx]%set_choose_L]; [left; set_solver|right].
    apply elem_of_difference in Hx as [Hx Ho].
    destruct (all_covered _ _ (gc_reachable_inv _ _ fs Hr') x Hx) as [(p & Hin & _)|?]; [|done]. by eapply routine_steps. }
  split_and!; [pose proof (gc_run_work _ _ _ fs Hrun); lia|done|]. intros Hk Hl Ht.
  destruct Hsteps as [Hsub|?]; [left|by right]. pose proof (overlooked_inherited t s' fs Hk Hl Hr') as Ho.
  rewrite Ht in Ho. set_solver.
Qed.
End System.

(** Two volumes are deleted before either collection starts. *)
Definition moved (fs name : string) (s : GcState) : GcState :=
  spawn fs Initiating (set_trash fs ({[name]} ∪ in_trash s fs) s).
Definition demo_moved : GcState := moved "fs1" "v2" (moved "fs1" "v1" (initInnerPathVolumeGc ∅)).
Lemma demo_moved_reachable locar : gc_reachable false locar ∅ demo_moved.
Proof.
  apply (gc_then_other _ _ _ (moved "fs1" "v1" (initInnerPathVolumeGc ∅))); [|by apply gc_move].
  apply (gc_then_other _ _ _ (initInnerPathVolumeGc ∅)); [apply gc_init|by apply gc_move].
Qed.
(** Both goroutines find no purge running, since a purge is marked as running
    only once its goroutine runs: two purges of one filesystem run at once. *)
Lemma two_purges_at_once locar : exists s seen seen',
  gc_reachable false locar ∅ s /\ routines s = [("fs1", Purging seen); ("fs1", Purging seen')].
Proof.
  eexists _, _, _. split.
  - eapply gc_then_step; [eapply gc_then_step; [eapply gc_then_step; [eapply gc_then_step;
      [exact (demo_moved_reachable locar)|]|]|]|].
    + apply (gc_initiate _ demo_moved [] [("fs1", Initiating)] "fs1" Initiating); [reflexivity|by left].
    + eapply (gc_initiate _ _ [("fs1", Starting)] [] "fs1" Initiating); [reflexivity|by left].
    + eapply (gc_start _ _ [] [("fs1", Starting)] "fs1"). reflexivity.
    + eapply (gc_start _ _ [("fs1", Purging _)] [] "fs1"). reflexivity.
  - reflexivity.
Qed.
(** A purge with locar that removed nothing is not repeated: the volume stays
    in the trash and no goroutine is left. *)
Lemma locar_failure_strands : exists s,
  gc_reachable false true ∅ s /\ "v1" ∈ in_trash s "fs1" /\ routines s = [].
Proof.
  eexists. split; [|split].
  - eapply gc_then_step; [eapply gc_then_step; [eapply gc_then_step; [eapply gc_then_step;
      [eapply gc_then_other; [apply gc_init|by apply (gc_move _ _ "fs1" "v1")]|]|]|]|].
    + eapply (gc_initiate _ _ [] [] "fs1" Initiating); [reflexivity|by left].
    + eapply (gc_start _ _ [] [] "fs1"). reflexivity.
    + eapply (gc_purged_locar _ _ [] [] "fs1" _ {["v1"]}); [done|reflexivity|]. vm_compute. set_solver.
    + eapply (gc_end _ _ [] [] "fs1"). reflexivity.
  - vm_compute. reflexivity.
  - vm_compute. reflexivity.
Qed.

Lemma gc_forgets_nothing_witness :
  "v2" ∈ in_trash demo_moved "fs1" /\
  (at_work demo_moved "fs1" (covers (flag (isDeferred demo_moved) "fs1") "v2") \/
   ("v2" ∈ is_overlooked demo_moved "fs1" /\ (false = true \/ false = true \/ "v2" ∈ default (∅ : gset string)
      ((∅ : gmap string (gset string)) !! "fs1")))).
Proof.
  assert (Hin : "v2" ∈ in_trash demo_moved "fs1") by (vm_compute; reflexivity).
  split; [exact Hin|]. apply (gc_forgets_nothing false false ∅); [exact (demo_moved_reachable false)|exact Hin].
Defined.
Lemma gc_empties_trash_witness :
  work_left demo_moved "fs1" = 10%nat /\ in_trash demo_moved "fs1" <> ∅ /\
  (in_trash demo_moved "fs1" = ∅ \/ exists s', gc_step false "fs1" demo_moved s').
Proof.
  split; [reflexivity|]. assert (Hne : in_trash demo_moved "fs1" <> ∅).
  { intros Heq. assert (Hin : "v2" ∈ in_trash demo_moved "fs1") by (vm_compute; reflexivity).
    rewrite Heq in Hin. by apply not_elem_of_empty in Hin. }
  split; [exact Hne|].
  exact (proj2 (proj2 (gc_empties_trash false false ∅ demo_moved "fs1" [] demo_moved
    (demo_moved_reachable false) (gc_run_nil _ _))) eq_refl eq_refl eq_refl).
Defined.

(** *** Moving to the trash *)

(** What a deletion may do to files: make the trash directory, and rename the
    directory of the volume into it. *)
Definition trash_call (v : Volume) (path : string) (e : event) : Prop :=
  let trash := Path.Join [path; garbagePath] in
  let full := Path.Join [path; GetFullPath v] in
  match e with
  | OsMkdirAll p _ => p = trash
  | OsRename old new => old = full /\ new = Path.Join [trash; Path.Base full]
  | OsLstat p => p = full
  | _ => False
  end.

#[local] Opaque Path.Join Path.Base GetFullPath.
Lemma move_contents_spec {W} `{Env W} path (s : Run W Volume) : exists new,
  trace (snd (move_contents path s)) = new ++ trace s /\ obj (snd (move_contents path s)) = obj s /\
  Forall (fun e => trash_call (obj s) path (ev e)) new.
Proof.
  unfold move_contents, fileExists, bind, self, gets, call, call_err.
  destruct (exec (OsMkdirAll _ _) (env s)) as [[e|] w]; cbn.
  - destruct (bool_decide (e = EIsExist)); cbn; [|eexists [_]; by rewrite Forall_singleton].
    destruct (exec (OsLstat _) w) as [[l|] w1]; cbn; [eexists [_; _]; by rewrite !Forall_cons|].
    unfold bind, call. cbn. destruct (exec (OsRename _ _) w1) as [[r|] w2]; cbn; eexists [_; _; _]; by rewrite !Forall_cons.
  - destruct (exec (OsLstat _) w) as [[l|] w1]; cbn; [eexists [_; _]; by rewrite !Forall_cons|].
    unfold bind, call. cbn. destruct (exec (OsRename _ _) w1) as [[r|] w2]; cbn; eexists [_; _; _]; by rewrite !Forall_cons.
Qed.

(** The calls of a deletion of volume [v]. *)
Definition deletion_call (v : Volume) (e : event) : Prop :=
  match e with
  | MountFs fs _ | UnmountFs fs _ | GcInitiate fs => fs = FilesystemName v
  | e' => exists path, trash_call v path e'
  end.
Lemma trash_call_deletion v path e : trash_call v path e -> deletion_call v e.
Proof. destruct e; cbn; eauto; done. Qed.
Lemma trash_call_balanced v path new tr : Forall (fun e => trash_call v path (ev e)) new ->
  open_mounts (new ++ tr) ≡ₚ refused_unmounts new ++ open_mounts tr.
Proof.
  induction 1 as [|[e a] new He _ IH]; [done|].
  change (mounts_step (Did e a) (open_mounts (new ++ tr)) ≡ₚ refused_unmounts (Did e a :: new) ++ open_mounts tr).
  by destruct e.
Qed.

Lemma gc_mounted_spec {W} `{Env W} (s : Run W Volume) : let fs := FilesystemName (obj s) in
  let s' := snd (gc_mounted fs move_contents s) in
  exists new, trace s' = new ++ trace s /\ obj s' = obj s /\ balanced (trace s) (trace s') /\
    Forall (fun e => deletion_call (obj s) (ev e)) new.
Proof.
  cbv zeta. unfold gc_mounted, call_val, bind, call. destruct (exec (MountFs _ _) (env s)) as [[e|path] w]; cbn.
  - eexists [_]. rewrite Forall_singleton. split_and!; try done. by eexists [_].
  - set (s1 := MkRun (obj s) w (Did (MountFs (FilesystemName (obj s)) getDefaultMountOptions) (inr path) :: trace s)).
    destruct (move_contents_spec path s1) as (new & Ht & Ho & Hf). unfold both.
    destruct (move_contents path s1) as [r s2]. cbn [snd] in Ht, Ho.
    destruct (exec (UnmountFs _ _) (env s2)) as [ue w2]. cbn [snd trace obj].
    exists (Did (UnmountFs (FilesystemName (obj s)) getDefaultMountOptions) ue :: new ++
      [Did (MountFs (FilesystemName (obj s)) getDefaultMountOptions) (inr path)]).
    split; [rewrite Ht; cbn; by rewrite <- app_assoc|]. split; [done|]. split.
    + rewrite Ht. apply (balanced_release _ _ _ path). exists new. split; [done|].
      by apply (trash_call_balanced (obj s) path).
    + constructor; [done|]. apply Forall_app. split; [|by rewrite Forall_singleton].
      eapply Forall_impl; [exact Hf|]. intros e. apply trash_call_deletion.
Qed.

(** Deleting a directory volume: the filesystem is mounted once and
    released, nothing but a rename of the volume's own directory into the trash
    changes files, and, unless it is switched off, a collection is initiated
    last, however the rest ended. *)
Theorem moveVolumeToTrash_effects {W} `{Env W} skip (s : Run W Volume) : exists new,
  trace (snd (moveVolumeToTrash skip s)) = new ++ trace s /\
  balanced (trace s) (trace (snd (moveVolumeToTrash skip s))) /\
  Forall (fun e => deletion_call (obj s) (ev e)) new /\
  (skip = false -> exists before, new = Did (GcInitiate (FilesystemName (obj s))) tt :: before).
Proof.
  unfold moveVolumeToTrash. rewrite (bind_Ok self _ s (obj s) s eq_refl). cbv zeta.
  destruct (gc_mounted_spec s) as (new & Ht & Ho & Hb & Hf). cbv zeta in Ht, Ho, Hb.
  destruct (gc_mounted (FilesystemName (obj s)) move_contents s) as [r s1] eqn:E. cbn [snd] in Ht, Ho, Hb.
  set (move := bind _ _). assert (Hm : exists r', move s = (r', s1)).
  { unfold move, bind. rewrite E. destruct r as [[[e|[]] [u|]]|e|]; eauto. }
  destruct Hm as (r' & Hm). destruct skip.
  - rewrite Hm. exists new. done.
  - assert (Hfin : trace (snd (finally move (call (GcInitiate (FilesystemName (obj s)))) s)) =
      Did (GcInitiate (FilesystemName (obj s))) tt :: trace s1).
    { unfold finally, both, bind, call. rewrite Hm. destruct (exec (GcInitiate _) _) as [[] w]. by destruct r'. }
    rewrite Hfin, Ht. exists (Did (GcInitiate (FilesystemName (obj s))) tt :: new).
    split; [done|]. split; [|split; [by constructor|eauto]]. rewrite <- Ht. etransitivity; [exact Hb|].
    apply (balanced_call (GcInitiate (FilesystemName (obj s)))); discriminate.
Qed.
