(* ===== verification/VolumeDelete.v ===== *)
(** * Deleting volumes (pkg/wekafs/volume.go): what is deleted, and when

    Results of the lookups by name, the guard against deleting a filesystem
    that still has snapshots, and that each kind of volume only deletes its own
    kind of object. *)
From S2P Require Import Prelude.
From S2P Require Import GoStrings.
From S2P Require Import Monad.
From S2P Require Import Hashing.
From S2P Require Import MountOptions.
From S2P Require Import ApiObjects.
From S2P Require Import Compatibility.
From S2P Require Import Objects.
From S2P Require Import Effects.
From S2P Require Import ApiOps.
From S2P Require Import Volume.
From S2P Require Import VolumeRuns.
From S2P Require Import Demo.

(** ** Lookups by name *)

Section Lookups.
Context {W : Type} `{Env W} {V : Type}.
Abbreviation run := (Run W V).
Implicit Types s : run.

Lemma keep_matching_filter {A} `{ApiObject A} (q : A) (P : A -> bool) l :
  (forall o, ObjectsAreEqual q o = Ok (P o)) -> keep_matching q l = Ok (filter (fun o => P o = true) l).
Proof.
  intros HP. induction l as [|o l IH]; [done|]. cbn [keep_matching]. rewrite HP, IH. cbn [result_bind].
  rewrite filter_cons. by destruct (P o).
Qed.

(** The outcome of a lookup that has to find exactly one object. *)
Definition unique {A} (r : error + list A) (P : A -> bool) : result A :=
  match r with
  | inl e => Err e
  | inr l => match filter (fun o => P o = true) l with
             | [] => Err ObjectNotFoundError
             | [x] => Ok x
             | _ => Err MultipleObjectsFoundError
             end
  end.

(** One call, recorded, with the object untouched. *)
Definition asked s e (a : answer e) s' : Prop :=
  obj s' = obj s /\ trace s' = Did e a :: trace s.

Lemma GetFileSystemByName_spec name s :
  name <> "" -> exists a s', GetFileSystemByName name s =
    (unique a (fun fs => bool_decide (fs_Name fs = name)), s') /\ asked s (GetFileSystems (fs_query name)) a s'.
Proof.
  intros Hn. unfold GetFileSystemByName, GetFileSystemByFilter, FindFileSystemsByFilter, call_val, bind, call.
  destruct (exec (GetFileSystems (fs_query name)) (env s)) as [a w] eqn:E. exists a.
  destruct a as [e|l]; cbn.
  - eexists. split; [done|]. by split.
  - rewrite (keep_matching_filter _ (fun fs => bool_decide (fs_Name fs = name)))
      by (intros; by apply fs_query_EQ).
    cbn. destruct (filter _ l) as [|x [|y l']]; (eexists; split; [done|]; by split).
Qed.

(** The snapshots of a filesystem. *)
Definition of_filesystem (name : string) : WekaSnapshot := MkSnap false "" name false "" 0 "" 0.
Lemma of_filesystem_EQ name o :
  name <> "" -> ObjectsAreEqual (of_filesystem name) o = Ok (bool_decide (sn_Filesystem o = name)).
Proof.
  intros Hn.
  change (ObjectsAreEqual (of_filesystem name) o) with
    (if bool_decide (name = "") then Ok true
     else if bool_decide (VString name = VString (sn_Filesystem o)) then Ok true else Ok false).
  repeat case_bool_decide; naive_solver.
Qed.
Lemma FindSnapshotsByFilesystem_spec fs s l s' :
  fs_Name fs <> "" -> FindSnapshotsByFilesystem fs s = (Ok l, s') ->
  exists l0, asked s (GetSnapshots (of_filesystem (fs_Name fs))) (inr l0) s' /\
    l = filter (fun o => bool_decide (sn_Filesystem o = fs_Name fs) = true) l0.
Proof.
  intros Hn. unfold FindSnapshotsByFilesystem, FindSnapshotsByFilter, call_val, bind, call.
  destruct (fs_Uid fs =? uuid_Nil); [done|].
  destruct (exec (GetSnapshots _) (env s)) as [[e|l0] w] eqn:E; cbn; [done|].
  fold (of_filesystem (fs_Name fs)) in *.
  rewrite (keep_matching_filter _ (fun o => bool_decide (sn_Filesystem o = fs_Name fs)))
    by (intros; by apply of_filesystem_EQ).
  intros [= <- <-]. exists l0. split; [|done]. by split.
Qed.
End Lookups.

(** ** Filesystems with snapshots *)

Section Guard.
Context {W : Type} `{Env W} `{Clock} `{MapOrder} (server : Server).
Abbreviation run := (Run W Volume).
Implicit Types s : run.

(** The cached filesystem object is that of the volume's filesystem. *)
Definition cache_ok (v : Volume) : Prop :=
  FilesystemName v <> "" /\ forall fs, fileSystemObject v = Some fs -> fs_Name fs = FilesystemName v.

(** The lookup of the volume's filesystem, and the listing of the snapshots
    of that filesystem. *)
Abbreviation fs_lookup v := (GetFileSystems (fs_query (FilesystemName v))).
Abbreviation snapshot_listing v := (GetSnapshots (of_filesystem (FilesystemName v))).

(** Among the calls [tr]: the volume's filesystem was found to be [fs], live. *)
Definition found_live (v : Volume) (fs : FileSystem) (tr : list entry) : Prop :=
  fs_Name fs = FilesystemName v /\ fs_IsRemoving fs = false /\
  exists l, Did (fs_lookup v) (inr l) ∈ tr /\ fs ∈ l.
(** No live filesystem of the volume's name was found. *)
Definition found_gone (v : Volume) (tr : list entry) : Prop :=
  Did (fs_lookup v) (inl ObjectNotFoundError) ∈ tr \/
  exists l, Did (fs_lookup v) (inr l) ∈ tr /\
    ((forall fs, fs ∈ l -> fs_Name fs <> FilesystemName v) \/
     exists fs, fs ∈ l /\ fs_Name fs = FilesystemName v /\ fs_IsRemoving fs = true).
(** The snapshots of the filesystem were listed, and none of them blocks. *)
Definition snapshots_clear (v : Volume) (tr : list entry) : Prop :=
  exists l, Did (snapshot_listing v) (inr l) ∈ tr /\
    forall sn, sn ∈ l -> sn_Filesystem sn = FilesystemName v -> blocks_deletion server v sn = false.
(** The object is the one cached when the run began. *)
Definition cached_live (v : Volume) (fs : FileSystem) : Prop :=
  fileSystemObject v = Some fs /\ fs_Name fs = FilesystemName v /\ fs_IsRemoving fs = false.

Lemma unique_Ok {A} (r : error + list A) P x :
  unique r P = Ok x -> exists l, r = inr l /\ x ∈ l /\ P x = true.
Proof.
  destruct r as [e|l]; cbn; [done|]. destruct (filter _ l) as [|y [|z l']] eqn:E; try done.
  intros [= <-]. exists l. split; [done|].
  assert (y ∈ filter (fun o => P o = true) l) as Hy by (rewrite E; constructor).
  apply list_elem_of_filter in Hy as [? ?]. done.
Qed.
Lemma unique_NotFound {A} (r : error + list A) P :
  unique r P = Err ObjectNotFoundError ->
  r = inl ObjectNotFoundError \/ exists l, r = inr l /\ forall x, x ∈ l -> P x = false.
Proof.
  destruct r as [e|l]; cbn; [intros [= ->]; by left|].
  destruct (filter _ l) as [|y [|z l']] eqn:E; try done. intros _. right. exists l. split; [done|].
  intros x Hx. destruct (P x) eqn:HP; [|done].
  assert (x ∈ filter (fun o => P o = true) l) as Hy by (by apply list_elem_of_filter).
  rewrite E in Hy. by apply elem_of_nil in Hy.
Qed.

(** The cached object, or a fresh lookup. *)
Lemma getFilesystemObj_spec s r s' :
  cache_ok (obj s) -> getFilesystemObj true s = (Ok r, s') ->
  (s' = s /\ exists fs, r = Some fs /\ cached_live (obj s) fs) \/
  (~ (exists fs, cached_live (obj s) fs)) /\ exists a, trace s' = Did (fs_lookup (obj s)) a :: trace s /\
     match r with
     | Some fs => obj s' = set_fileSystemObject (Some fs) (obj s) /\ fs_Name fs = FilesystemName (obj s) /\
         (if fs_IsRemoving fs then found_gone (obj s) [Did (fs_lookup (obj s)) a]
          else found_live (obj s) fs [Did (fs_lookup (obj s)) a])
     | None => obj s' = obj s /\ found_gone (obj s) [Did (fs_lookup (obj s)) a]
     end.
Proof.
  intros [Hn Hc]. unfold getFilesystemObj, bind at 1, self, gets.
  set (fetch := match apiClient (obj s) with Some _ => _ | None => _ end).
  assert (Hfetch : fetch s = (Ok r, s') -> exists a, trace s' = Did (fs_lookup (obj s)) a :: trace s /\
     match r with
     | Some fs => obj s' = set_fileSystemObject (Some fs) (obj s) /\ fs_Name fs = FilesystemName (obj s) /\
         (if fs_IsRemoving fs then found_gone (obj s) [Did (fs_lookup (obj s)) a]
          else found_live (obj s) fs [Did (fs_lookup (obj s)) a])
     | None => obj s' = obj s /\ found_gone (obj s) [Did (fs_lookup (obj s)) a]
     end).
  { unfold fetch. destruct (apiClient (obj s)); [|done]. unfold bind at 1, attempt.
    destruct (GetFileSystemByName_spec _ s Hn) as (a0 & s1 & -> & Ho & Ht).
    destruct (unique a0 _) as [fs|e|] eqn:E; [|destruct e; try done|done].
    - intros [= <- <-]. apply unique_Ok in E as (l & -> & Hin & HP). apply bool_decide_eq_true in HP.
      exists (inr l). cbn. rewrite Ht, Ho. split_and!; auto. destruct (fs_IsRemoving fs) eqn:Er.
      + right. exists l. split; [by left|]. right. eauto.
      + split_and!; auto. exists l. split; [by left|done].
    - intros [= <- <-]. exists a0. split_and!; auto. apply unique_NotFound in E as [->|(l & -> & Hl)].
      + left. by left.
      + right. exists l. split; [by left|]. left. intros fs Hfs Hname.
        specialize (Hl fs Hfs). by apply bool_decide_eq_false in Hl. }
  destruct (fileSystemObject (obj s)) as [fs|] eqn:Ef.
  - cbn [andb]. destruct (fs_IsRemoving fs) eqn:Er; cbn [negb].
    + intros Hf. right. split; [|by apply Hfetch]. intros (fs' & Hf' & _ & Hr). congruence.
    + intros [= <- <-]. left. split; [done|]. exists fs. unfold cached_live. auto.
  - intros Hf. right. split; [|by apply Hfetch]. intros (fs' & Hf' & _). congruence.
Qed.

(** What permission to delete rests on: the listing of the snapshots of the
    object that is then cached, or a lookup that found nothing live. *)
Definition permits (v v' : Volume) (tr : list entry) : Prop :=
  FilesystemName v' = FilesystemName v /\ cache_ok v' /\
  ((exists fs, cached_live v' fs /\ (cached_live v fs \/ found_live v fs tr) /\ snapshots_clear v tr) \/
   (~ (exists fs, cached_live v' fs) /\ found_gone v tr)).

Lemma getUnderlyingSnapshots_spec s l s' :
  cache_ok (obj s) -> getUnderlyingSnapshots s = (Ok l, s') ->
  existsb (blocks_deletion server (obj s)) l = false ->
  exists new, trace s' = new ++ trace s /\ permits (obj s) (obj s') new.
Proof.
  intros Hc E. unfold getUnderlyingSnapshots in E. rewrite (bind_Ok self _ s (obj s) s eq_refl) in E.
  destruct (apiClient (obj s)); [|done]. apply bind_inv in E as (r & s1 & E1 & E). intros Hex.
  assert (Hlist : forall fs, r = Some fs -> fs_IsRemoving fs = false -> fs_Name fs = FilesystemName (obj s) ->
    obj s' = obj s1 /\ exists l0, trace s' = Did (snapshot_listing (obj s)) (inr l0) :: trace s1 /\
      snapshots_clear (obj s) [Did (snapshot_listing (obj s)) (inr l0)]).
  { intros fs -> Hr Hname. rewrite Hr in E.
    apply FindSnapshotsByFilesystem_spec in E as (l0 & [Ho Ht] & ->); [|rewrite Hname; apply Hc].
    rewrite Hname in *. split; [done|]. exists l0. split; [done|]. exists l0. split; [by left|]. intros sn Hsn Hsnfs.
    rewrite <- not_true_iff_false in Hex |- *. contradict Hex. apply existsb_exists.
    exists sn. split; [|done]. apply list_elem_of_In, list_elem_of_filter. by rewrite bool_decide_eq_true. }
  apply getFilesystemObj_spec in E1 as [(-> & fs & -> & Hlive)|(Hno & ans1 & Ht & Hr)]; [| |done].
  - destruct Hlive as (Hf & Hname & Hr). destruct (Hlist fs eq_refl Hr Hname) as (Ho & l0 & Ht & Hclear).
    eexists [_]. split; [exact Ht|]. rewrite Ho. split_and!; [done|done|]. left. exists fs. by split_and!; [..|left|].
  - destruct r as [fs|].
    + destruct Hr as (Ho & Hname & Hr). destruct (fs_IsRemoving fs) eqn:Er.
      * injection E as <- <-. eexists [_]. split; [exact Ht|]. rewrite Ho. split_and!; [done| |].
        -- split; [apply Hc|]. intros fs' [= <-]. done.
        -- right. split; [|done]. intros (fs' & [= <-] & _ & Hr'). congruence.
      * destruct (Hlist fs eq_refl Er Hname) as (Ho' & l0 & Ht' & Hclear). eexists [_; _].
        split; [by rewrite Ht', Ht|]. rewrite Ho', Ho. split_and!; [done| |].
        -- split; [apply Hc|]. intros fs' [= <-]. done.
        -- left. exists fs. split; [done|]. destruct Hr as (_ & _ & l1 & Hl1 & Hin), Hclear as (l2 & Hl2 & Hb).
           split; [right; split_and!; [done..|]; exists l1; set_solver|]. exists l2. set_solver.
    + destruct Hr as (Ho & Hg). injection E as <- <-. eexists [_]. split; [exact Ht|]. rewrite Ho.
      split_and!; [done|done|]. by right.
Qed.

(** Permission to delete is only given on the evidence of the run. *)
Lemma isAllowedForDeletion_spec s s' :
  cache_ok (obj s) -> isFilesystem (obj s) = true -> isAllowedForDeletion server s = (Ok true, s') ->
  exists new, trace s' = new ++ trace s /\ permits (obj s) (obj s') new.
Proof.
  intros Hc Hfs E. unfold isAllowedForDeletion in E.
  rewrite (bind_Ok self _ s (obj s) s eq_refl), Hfs in E. cbn [negb] in E.
  apply bind_inv in E as (r & s1 & E1 & E). unfold attempt in E1.
  destruct (hasUnderlyingSnapshots server s) as [[has|e|] s2] eqn:E2; simplify_eq.
  injection E as E <-. apply negb_true_iff in E as ->.
  unfold hasUnderlyingSnapshots in E2.
  rewrite (bind_Ok self _ s (obj s) s eq_refl), Hfs in E2. cbn [negb] in E2.
  apply bind_inv in E2 as (l & s3 & E3 & E2). injection E2 as E2 <-.
  by apply (getUnderlyingSnapshots_spec s l s3).
Qed.

(** Calls that delete a filesystem. *)
Definition deletes_filesystem (e : entry) : Prop := exists u a, e = Did (DelFileSystem u) a.

(** Calls other than deletions of filesystems are allowed. *)
Lemma no_deletion_allows e :
  (forall u, e <> DelFileSystem u) -> allows (only (fun e => ~ deletes_filesystem e)) e.
Proof. intros He. apply only_allows. intros a (u & a' & Heq). by apply (f_equal ev), He in Heq. Qed.
Lemma no_deletion_query e : is_query e = true -> allows (only (fun e => ~ deletes_filesystem e)) e.
Proof. intros He. apply no_deletion_allows. by intros u ->. Qed.

Lemma isAllowed_no_delete s :
  exists n, trace (snd (isAllowedForDeletion server s)) = n ++ trace s /\
            Forall (fun e => ~ deletes_filesystem e) n.
Proof.
  apply (respects_isAllowedForDeletion server (only (fun e => ~ deletes_filesystem e))).
  intros e He. apply only_allows. intros a (u & a' & Heq). apply (f_equal ev) in Heq.
  cbn in Heq. by subst e.
Qed.

(** Snapshot- and directory-backed volumes delete no filesystem. *)
Lemma delete_other_no_fs s :
  isFilesystem (obj s) = false ->
  only (fun e => ~ deletes_filesystem e) (trace s) (trace (snd (Delete server s))).
Proof.
  intros Hfs.
  pose proof no_deletion_allows as Ho. pose proof no_deletion_query as Hq.
  assert (Hm : forall A (body : M run A), respects (only (fun e => ~ deletes_filesystem e)) body ->
    respects (only (fun e => ~ deletes_filesystem e)) (mounted server body)).
  { intros A body Hb. apply respects_mounted; auto; try apply _; intros; by apply Ho. }
  unfold Delete. rewrite (bind_Ok self _ s (obj s) s eq_refl), Hfs. cbn [orb].
  destruct (isOnSnapshot (obj s) && _); [by exists []|].
  destruct (isOnSnapshot (obj s)).
  - apply respects_deleteSnapshot; auto; try apply _; intros; by apply Ho.
  - apply respects_deleteDirectory; auto; try apply _; intros; by apply Ho.
Qed.

(** Deleting by identifier makes at most that one call. *)
Lemma DeleteFileSystem_trace u s : exists a,
  trace (snd (DeleteFileSystem u s)) = trace s \/
  trace (snd (DeleteFileSystem u s)) = Did (DelFileSystem u) a :: trace s.
Proof.
  unfold DeleteFileSystem, required, lift, bind, call.
  destruct (ObjectRequestHasRequiredFields _) as [[]| |]; [|by exists None; left..].
  cbn -[bool_decide]. destruct (exec (DelFileSystem u) (env s)) as [a w]. exists a. right.
  destruct a as [[]|]; try done. by destruct (bool_decide _).
Qed.

Abbreviation quiet := (only (fun e => ~ deletes_filesystem e)).
(** The calls [new] on top of [s] delete no filesystem, or one: the live one
    that was looked up from [s] or cached in it. *)
Definition deletes_at_most s (new : list entry) : Prop :=
  Forall (fun e => ~ deletes_filesystem e) new \/
  exists fs s1 after a mid n1, getFilesystemObj true s = (Ok (Some fs), s1) /\ fs_IsRemoving fs = false /\
    trace s1 = n1 ++ trace s /\ new = after ++ Did (DelFileSystem (fs_Uid fs)) a :: mid ++ n1 /\
    Forall (fun e => ~ deletes_filesystem e) after /\ Forall (fun e => ~ deletes_filesystem e) (mid ++ n1).
Lemma deleteFilesystem_spec s : exists new,
  trace (snd (deleteFilesystem server s)) = new ++ trace s /\ deletes_at_most s new.
Proof.
  pose proof no_deletion_allows as Ho. pose proof no_deletion_query as Hq.
  assert (Hdone : forall tr, quiet (trace s) tr -> exists new, tr = new ++ trace s /\ deletes_at_most s new).
  { intros tr (n & -> & Hn). exists n. split; [done|]. by left. }
  unfold deleteFilesystem. rewrite (bind_Ok self _ s (obj s) s eq_refl). unfold bind at 1, attempt at 1.
  pose proof (respects_getFilesystemObj (W:=W) quiet Hq true s) as Hg.
  destruct (getFilesystemObj true s) as [[[fs|]|e|] s1] eqn:Eg; cbn [snd] in Hg; try by apply Hdone.
  destruct (fs_Uid fs =? uuid_Nil); [by apply Hdone|].
  set (wait := if waitForObjectDeletion _ then _ else _).
  assert (Hw : respects quiet wait).
  { unfold wait. destruct (waitForObjectDeletion _); [apply respects_waitForFilesystemDeletion; auto; apply _|].
    refine (respects_call _ _ _). by apply Hq. }
  destruct (fs_IsRemoving fs) eqn:Er; [apply Hdone; transitivity (trace s1); [done|apply Hw]|].
  destruct (srv_Mounter server) as [tp|]; [|by apply Hdone].
  set (nfs := if bool_decide _ then _ else _).
  assert (Hn : respects quiet nfs).
  { unfold nfs. respects. }
  specialize (Hn s1). unfold bind at 1. destruct (nfs s1) as [[[]|e|] s2]; cbn [snd] in Hn;
    [|apply Hdone; by transitivity (trace s1)..].
  unfold bind at 1, update, modify. set (s3 := MkRun _ (env s2) (trace s2)). unfold bind, attempt.
  destruct (DeleteFileSystem_trace (fs_Uid fs) s3) as (a & Ht).
  destruct (DeleteFileSystem (fs_Uid fs) s3) as [rd s4]. cbn [snd] in Ht.
  assert (E : forall x : result unit * run, quiet (trace s4) (trace (snd x)) -> exists new,
    trace (snd x) = new ++ trace s /\ deletes_at_most s new).
  { intros x (n3 & -> & Hn3). destruct Hg as (n1 & E1 & Hn1), Hn as (n2 & E2 & Hn2).
    destruct Ht as [->| ->]; unfold s3; cbn [trace]; rewrite E2, E1.
    - exists (n3 ++ n2 ++ n1). rewrite !app_assoc. split; [done|]. left. by rewrite !Forall_app.
    - exists (n3 ++ Did (DelFileSystem (fs_Uid fs)) a :: n2 ++ n1). cbn. rewrite <- !app_assoc. cbn.
      rewrite <- app_assoc. split; [done|]. right. exists fs, s1, n3, a, n2, n1. by rewrite Forall_app. }
  apply E. destruct rd as [[]|e|]; [apply Hw|by destruct e|done].
Qed.

(** Where the only call of a kind is. *)
Lemma split_unique {A} (P : A -> Prop) (l1 l2 k1 k2 : list A) x y :
  l1 ++ x :: l2 = k1 ++ y :: k2 -> P x -> Forall (fun e => ~ P e) k1 -> Forall (fun e => ~ P e) k2 ->
  l1 = k1 /\ x = y /\ l2 = k2.
Proof.
  revert k1. induction l1 as [|z l1 IH]; intros [|z' k1] [= E1 E2] HP Hk1 Hk2; subst.
  - done.
  - by apply Forall_cons in Hk1 as [? _].
  - exfalso. rewrite Forall_forall in Hk2. eapply Hk2; [|exact HP]. set_solver.
  - apply Forall_cons in Hk1 as [_ Hk1]. destruct (IH k1 E2 HP Hk1 Hk2) as (-> & -> & ->). done.
Qed.

(** (C1) A filesystem is not deleted over live snapshots: whenever a run of
    [Delete] asks the cluster to delete the filesystem with identifier [u], [u]
    belongs to a live filesystem of the volume's own name, and before that, in
    the same run, the snapshots of the filesystem of that name were listed and
    every one was being removed or was the driver's own seed snapshot.  There
    is one exception: no listing is made if a lookup of the same run found no
    live filesystem of that name and a later one then found [u].  A run deletes
    at most one filesystem.  The volume has a filesystem name, and the object
    it has cached, if any, is of that name ([cache_ok]). *)
Theorem delete_guards_snapshots s new after u a before :
  cache_ok (obj s) -> trace (snd (Delete server s)) = new ++ trace s ->
  new = after ++ Did (DelFileSystem u) a :: before ->
  Forall (fun e => ~ deletes_filesystem e) (after ++ before) /\
  exists fs, fs_Uid fs = u /\
    ((cached_live (obj s) fs \/ found_live (obj s) fs before) /\ snapshots_clear (obj s) before \/
     exists late early, before = late ++ early /\ found_gone (obj s) early /\ found_live (obj s) fs late).
Proof.
  intros Hc Ht ->.
  assert (Hno : forall tr, quiet (trace s) tr -> tr <> (after ++ Did (DelFileSystem u) a :: before) ++ trace s).
  { intros tr (n & -> & Hn) E. apply app_inv_tail in E as ->. rewrite Forall_forall in Hn.
    apply (Hn (Did (DelFileSystem u) a)); [set_solver|by exists u, a]. }
  destruct (isFilesystem (obj s)) eqn:Hfs; [|by destruct (Hno _ (delete_other_no_fs s Hfs))].
  unfold Delete in Ht. rewrite (bind_Ok self _ s (obj s) s eq_refl), Hfs in Ht.
  destruct (bool_decide (apiClient (obj s) = None)); cbn [orb andb] in Ht; [by eapply Hno in Ht|].
  destruct (isAllowed_no_delete s) as (n0 & Ht0 & Hn0).
  unfold bind in Ht. destruct (isAllowedForDeletion server s) as [[[]|e'|] s0] eqn:E; cbn [snd] in Ht, Ht0;
    [|by eapply Hno in Ht; [|exists n0]..].
  destruct (isAllowedForDeletion_spec s s0 Hc Hfs E) as (n0' & Ht0' & Hname & Hc0 & Hp).
  rewrite Ht0 in Ht0'. apply app_inv_tail in Ht0' as <-.
  destruct (deleteFilesystem_spec s0) as (n & Htn & [Hn|(fs & s1 & n2 & a' & mid & n1 & Eg & Hr & Ht1 & -> & Ha & Hb)]).
  { exfalso. eapply Hno in Ht; [done|]. rewrite Htn, Ht0. exists (n ++ n0). rewrite Forall_app. by rewrite app_assoc. }
  rewrite Htn, Ht0, app_assoc in Ht. apply app_inv_tail in Ht. rewrite <- app_assoc in Ht. cbn in Ht.
  symmetry in Ht. apply (split_unique deletes_filesystem) in Ht as (-> & Heq & ->);
    [|by exists u, a|done|by rewrite Forall_app]. apply (f_equal ev) in Heq as Hev. injection Hev as ->.
  split; [by rewrite !Forall_app in *|]. exists fs. split; [done|].
  apply getFilesystemObj_spec in Eg as [(-> & fs' & [= <-] & Hlive)|(Hnot & ans & Hta & Hfound)]; [| |done].
  - destruct Hp as [(fs0 & Hl0 & Hk & l & Hl & Hbl)|[Hn _]]; [|by destruct Hn; exists fs].
    assert (fs0 = fs) as -> by (destruct Hl0, Hlive; congruence). left. split.
    + destruct Hk as [?|(? & ? & l' & ? & ?)]; [by left|right]. split_and!; [done..|]. exists l'. set_solver.
    + exists l. set_solver.
  - destruct Hp as [(fs0 & Hl0 & _)|[_ Hgone]]; [by destruct Hnot; exists fs0|]. right.
    destruct Hfound as (_ & _ & Hfound). rewrite Hr in Hfound. rewrite Hta in Ht1.
    change (Did (fs_lookup (obj s0)) ans :: trace s0) with ([Did (fs_lookup (obj s0)) ans] ++ trace s0) in Ht1.
    apply app_inv_tail in Ht1 as <-. exists (mid ++ [Did (fs_lookup (obj s0)) ans]), n0.
    split; [done|]. split; [done|]. unfold found_live in *. rewrite Hname in *.
    destruct Hfound as (? & ? & l & ? & ?). split_and!; [done..|]. exists l. set_solver.
Qed.
End Guard.

(** The filesystem has one snapshot, the seed. *)
Definition deletable_env : Env nat := scripted (fun _ e =>
  match e return option (answer e) with
  | GetFileSystems _ => Some (inr [demo_fs])
  | GetSnapshots _ =>
      Some (inr [MkSnap false "" "fs1" false (getSeedSnapshotName demo_server demo_fs_volume) 5 "" 0])
  | DelFileSystem _ => Some None
  | _ => None
  end).
Lemma delete_guards_snapshots_witness :
  let s := MkRun demo_fs_volume 0%nat [] in
  let tr := trace (snd (@Delete nat deletable_env demo_clock trie_order demo_server s)) in
  exists after before, tr = after ++ Did (DelFileSystem 77) None :: before /\
    Forall (fun e => ~ deletes_filesystem e) (after ++ before) /\
    exists fs, fs_Uid fs = 77 /\
      ((cached_live demo_fs_volume fs \/ found_live demo_fs_volume fs before) /\
         snapshots_clear demo_server demo_fs_volume before \/
       exists late early, before = late ++ early /\ found_gone demo_fs_volume early /\
         found_live demo_fs_volume fs late).
Proof.
  intros s tr. exists (take 1 tr), (drop 2 tr).
  assert (E : tr = take 1 tr ++ Did (DelFileSystem 77) None :: drop 2 tr) by (vm_compute; reflexivity).
  split; [exact E|].
  apply (@delete_guards_snapshots nat deletable_env demo_clock trie_order demo_server s tr _ 77 None).
  - split; [discriminate|]. intros fs Hfs. discriminate Hfs.
  - symmetry. apply app_nil_r.
  - exact E.
Defined.

(** The exception happens: the first lookup misses the filesystem, the second
    finds it, and it is deleted although its snapshots were never listed. *)
Definition flapping_env : Env nat := scripted (fun n e =>
  match e return option (answer e) with
  | GetFileSystems _ => Some (inr (if decide (n = 0)%nat then [] else [demo_fs]))
  | GetSnapshots _ => Some (inr [MkSnap false "" "fs1" false "precious" 5 "" 0])
  | DelFileSystem _ => Some None
  | _ => None
  end).
Lemma delete_without_listing :
  let tr := trace (snd (@Delete nat flapping_env demo_clock trie_order demo_server (MkRun demo_fs_volume 0%nat []))) in
  Did (DelFileSystem 77) None ∈ tr /\
  existsb (fun e => match e with Did (GetSnapshots _) _ => true | _ => false end) tr = false.
Proof.
  split; [|vm_compute; reflexivity].
  apply list_elem_of_lookup_2 with (i := 1%nat). vm_compute. reflexivity.
Qed.
