(* ===== verification/CapacityTracker.v ===== *)
(** * The capacity tracker of the controller (controllerserver.go)

    Directory-backed volumes share a filesystem.  The tracker keeps what
    Kubernetes has confirmed for each filesystem and what running requests
    have reserved, and lets a request pass only if both fit with it into the
    filesystem.  Every operation runs under the tracker's mutex, so operations
    are atomic steps.  The last part runs the tracker against the cluster and
    Kubernetes and proves what keeps the volumes within a filesystem. *)
From S2P Require Import Prelude.
From S2P Require Import GoStrings.
From S2P Require Import Monad.
From S2P Require Import Hashing.
From S2P Require Import MountOptions.
From S2P Require Import VolumeIds.
From S2P Require Import ApiObjects.
From S2P Require Import Compatibility.
From S2P Require Import Objects.
From S2P Require Import Effects.

Definition capacityRefreshInterval : Z := 5 * 1000000000.

Record CapacityReservation := MkReservation {
  Filesystem : string; SourceCapacity : Z; TargetCapacity : Z; Timestamp : Z
}.
Definition set_source (c : Z) (r : CapacityReservation) : CapacityReservation :=
  MkReservation (Filesystem r) c (TargetCapacity r) (Timestamp r).

(** [manager] says whether a Kubernetes manager is set. *)
Record CapacityTracker := MkTracker {
  confirmedCapacity : gmap string Z;
  pendingReservations : gmap string CapacityReservation;
  lastRefreshTime : Z;
  manager : bool
}.
(** The tracker [NewControllerServer] builds; the zero time is long ago. *)
Definition newCapacityTracker : CapacityTracker := MkTracker ∅ ∅ (- 2 ^ 62) true.

Definition with_pending (p : gmap string CapacityReservation) (ct : CapacityTracker) : CapacityTracker :=
  MkTracker (confirmedCapacity ct) p (lastRefreshTime ct) (manager ct).

(** Wrapped addition commutes, so the order in which Go ranges over the map
    is immaterial. *)
Definition add_pending (filesystem : string) (_ : string) (r : CapacityReservation) (total : Z) : Z :=
  if bool_decide (Filesystem r = filesystem)
  then wrap64 (total + wrap64 (TargetCapacity r - SourceCapacity r)) else total.
Definition getPendingCapacityLocked (ct : CapacityTracker) (filesystem : string) : Z :=
  map_fold (add_pending filesystem) 0 (pendingReservations ct).

Definition deleteReservationLocked (volumeID : string) (ct : CapacityTracker) : CapacityTracker :=
  with_pending (delete volumeID (pendingReservations ct)) ct.

(** What a PersistentVolume counts for: filesystem, volume and capacity, if it
    is a directory-backed volume of this driver. *)
Definition counted (driver : string) (pv : PersistentVolume) : option (string * string * Z) :=
  match pv_csi pv with
  | Some (d, volumeID) =>
      if negb (bool_decide (d = driver)) then None else
      let fsName := sliceFilesystemNameFromVolumeId volumeID in
      if bool_decide (fsName = "") then None else
      if bool_decide (sliceInnerPathFromVolumeId volumeID = "") || contains_char ":" volumeID then None else
      match pv_capacity pv with Some c => Some (fsName, volumeID, c) | None => None end
  | None => None
  end.

(** The effect of one counted volume: its capacity is added, and a reservation
    for it is dropped when the target is reached, or starts from its size. *)
Definition confirm (c : string * string * Z) (capacityByFS : gmap string Z) : gmap string Z :=
  let '(fs, _, capacity) := c in
  <[fs := wrap64 (default 0 (capacityByFS !! fs) + capacity)]> capacityByFS.
Definition settle (c : string * string * Z) (pending : gmap string CapacityReservation)
  : gmap string CapacityReservation :=
  let '(_, volumeID, capacity) := c in
  match pending !! volumeID with
  | Some r =>
      if TargetCapacity r <=? capacity then delete volumeID pending
      else <[volumeID := set_source capacity r]> pending
  | None => pending
  end.
Definition account (driver : string) (acc : gmap string Z * gmap string CapacityReservation)
    (pv : PersistentVolume) : gmap string Z * gmap string CapacityReservation :=
  match counted driver pv with
  | Some c => (confirm c acc.1, settle c acc.2)
  | None => acc
  end.
(** The part of [refreshFromKubernetesLocked] after the list is there. *)
Definition refreshed (driver : string) (pvs : list PersistentVolume) (now : Z) (ct : CapacityTracker)
  : CapacityTracker :=
  let '(capacityByFS, pending) := foldl (account driver) (∅, pendingReservations ct) pvs in
  MkTracker capacityByFS pending now (manager ct).

(** The part of [validateAndReserveCapacity] under the mutex, after the
    refresh; [available] is [fsObj.AvailableSsd]. *)
Definition reserve (volumeID filesystem : string) (available current target now : Z)
    (ct : CapacityTracker) : error + CapacityTracker :=
  let confirmed := default 0 (confirmedCapacity ct !! filesystem) in
  let additional := wrap64 (target - current) in
  let existing := pendingReservations ct !! volumeID in
  if (match existing with Some r => target <? TargetCapacity r | None => false end) then
    inl (EStatus FailedPrecondition "conflicting expansion for volume %s: target cannot decrease from %d to %d")
  else
  let source := match existing with Some r => SourceCapacity r | None => current end in
  let pending := getPendingCapacityLocked ct filesystem in
  let total := wrap64 (wrap64 (confirmed + pending) + additional) in
  if available <? total then
    inl (EStatus ResourceExhausted "insufficient capacity on filesystem %s: required %d bytes (confirmed %d + pending %d + additional %d) exceeds total capacity %d bytes")
  else
    inr (with_pending (<[volumeID := MkReservation filesystem source target now]> (pendingReservations ct)) ct).

(** ** Exact accounts *)

(** What the reservations of a map add up to on a filesystem, without wrapping. *)
Definition delta (fs : string) (r : option CapacityReservation) : Z :=
  match r with
  | Some r => if bool_decide (Filesystem r = fs) then TargetCapacity r - SourceCapacity r else 0
  | None => 0
  end.
Definition pending_sum (fs : string) (p : gmap string CapacityReservation) : Z :=
  sum_over (dom p) (fun id => delta fs (p !! id)).
(** What is taken of a filesystem: confirmed and reserved. *)
Definition committed (ct : CapacityTracker) (fs : string) : Z :=
  default 0 (confirmedCapacity ct !! fs) + pending_sum fs (pendingReservations ct).

(** A sum over the keys of a map may be taken over any larger set. *)
Lemma pending_sum_over fs p D :
  dom p ⊆ D -> pending_sum fs p = sum_over D (fun id => delta fs (p !! id)).
Proof.
  intros HD. symmetry. apply sum_over_subset; [done|].
  intros id _ Hid. apply not_elem_of_dom in Hid. by rewrite Hid.
Qed.
Lemma sum_over_insert D id g :
  id ∉ D -> sum_over ({[id]} ∪ D) g = g id + sum_over D g.
Proof.
  intros Hid. unfold sum_over. rewrite elements_disj_union by set_solver.
  rewrite fmap_app, sumZ_app, elements_singleton. cbn. lia.
Qed.
Lemma pending_sum_insert_new fs p id r :
  p !! id = None -> pending_sum fs (<[id := r]> p) = delta fs (Some r) + pending_sum fs p.
Proof.
  intros Hid. unfold pending_sum. rewrite dom_insert_L, sum_over_insert by by apply not_elem_of_dom.
  rewrite lookup_insert_eq. f_equal. apply sumZ_fmap_ext. intros i Hi. apply elem_of_elements in Hi.
  rewrite lookup_insert_ne; [done|]. intros ->. apply elem_of_dom in Hi as [? Hi]. congruence.
Qed.
Lemma pending_sum_delete fs p id :
  pending_sum fs (delete id p) = pending_sum fs p - delta fs (p !! id).
Proof.
  destruct (p !! id) as [r|] eqn:E; cbn [delta].
  - rewrite <- (insert_delete_id p id r E) at 2. rewrite pending_sum_insert_new by apply lookup_delete_eq.
    cbn [delta]. lia.
  - rewrite delete_id by done. lia.
Qed.
Lemma pending_sum_insert fs p id r :
  pending_sum fs (<[id := r]> p) = pending_sum fs p - delta fs (p !! id) + delta fs (Some r).
Proof.
  rewrite <- insert_delete_eq, pending_sum_insert_new by apply lookup_delete_eq.
  rewrite pending_sum_delete. lia.
Qed.

(** [getPendingCapacityLocked] is the exact sum, wrapped once. *)
Lemma getPendingCapacity_sum ct fs :
  getPendingCapacityLocked ct fs = wrap64 (pending_sum fs (pendingReservations ct)).
Proof.
  unfold getPendingCapacityLocked. induction (pendingReservations ct) as [|id r p Hid Hf IH]
    using map_first_key_ind; [done|].
  rewrite map_fold_insert_first_key by done. rewrite IH, pending_sum_insert_new by done.
  unfold add_pending. cbn [delta]. case_bool_decide; [|done].
  autorewrite with wekafs. f_equal. lia.
Qed.

(** ** Reserving *)

Lemma reserve_inv id fs available current target now ct ct' :
  reserve id fs available current target now ct = inr ct' ->
  let existing := pendingReservations ct !! id in
  let source := match existing with Some r => SourceCapacity r | None => current end in
  (forall r, existing = Some r -> TargetCapacity r <= target) /\
  wrap64 (committed ct fs + (target - current)) <= available /\
  ct' = with_pending (<[id := MkReservation fs source target now]> (pendingReservations ct)) ct.
Proof.
  unfold reserve. intros H.
  destruct (pendingReservations ct !! id) as [r|]; repeat case_hyp H; try discriminate H;
    injection H as <-; (split; [naive_solver lia|]); (split; [|done]);
    match goal with H : (_ <? _) = false |- _ => apply Z.ltb_ge in H end;
    rewrite getPendingCapacity_sum in *; autorewrite with wekafs in *;
    unfold committed; eassumption.
Qed.

Lemma committed_reserve ct id fs r fs' :
  Filesystem r = fs ->
  (forall r0, pendingReservations ct !! id = Some r0 -> Filesystem r0 = fs) ->
  committed (with_pending (<[id := r]> (pendingReservations ct)) ct) fs' =
  if decide (fs' = fs)
  then committed ct fs - delta fs (pendingReservations ct !! id) + (TargetCapacity r - SourceCapacity r)
  else committed ct fs'.
Proof.
  intros Hr H0. unfold committed. cbn [confirmedCapacity pendingReservations with_pending].
  rewrite pending_sum_insert. cbn [delta]. rewrite Hr. case_decide as E; subst.
  - rewrite bool_decide_true by done. lia.
  - rewrite bool_decide_false by done. destruct (pendingReservations ct !! id) as [r0|] eqn:E0; cbn [delta]; [|lia].
    rewrite (H0 r0 eq_refl). rewrite bool_decide_false by done. lia.
Qed.

(** A reservation that passes keeps the filesystem within its capacity:
    if the volume's earlier reservation (if any) is on the same filesystem and
    covers the current size, and the sums stay below 2^63, then afterwards
    everything confirmed and reserved fits into the available capacity, and
    nothing changes on other filesystems or for other volumes. *)
Theorem reserve_no_overcommit id fs available current target now ct ct' :
  reserve id fs available current target now ct = inr ct' ->
  (forall r, pendingReservations ct !! id = Some r -> Filesystem r = fs /\ current <= TargetCapacity r) ->
  in_int64 (committed ct fs + (target - current)) ->
  committed ct' fs <= available /\
  (forall fs', fs' <> fs -> committed ct' fs' = committed ct fs') /\
  confirmedCapacity ct' = confirmedCapacity ct /\
  (forall id', id' <> id -> pendingReservations ct' !! id' = pendingReservations ct !! id') /\
  exists r, pendingReservations ct' !! id = Some r /\ Filesystem r = fs /\ TargetCapacity r = target.
Proof.
  intros (Hex & Hle & ->)%reserve_inv Hpre Hrange. rewrite wrap64_id in Hle by done.
  set (src := match _ with Some r => _ | None => _ end).
  assert (Hfs : forall r0, pendingReservations ct !! id = Some r0 -> Filesystem r0 = fs) by naive_solver.
  split_and!; [| |done| |].
  - rewrite (committed_reserve _ _ fs) by done. rewrite decide_True by done. cbn. subst src.
    destruct (pendingReservations ct !! id) as [r|]; cbn [delta]; [|lia].
    destruct (Hpre r eq_refl) as [-> ?]. rewrite bool_decide_true by done. lia.
  - intros fs' Hne. rewrite (committed_reserve _ _ fs) by done. by rewrite decide_False.
  - intros id' Hne. cbn. by rewrite lookup_insert_ne.
  - eexists. cbn. by rewrite lookup_insert_eq.
Qed.

(** ** Refreshing *)

(** The capacity a set of volumes takes on a filesystem. *)
Definition weight (fs id : string) (c : option Z) : Z :=
  if bool_decide (sliceFilesystemNameFromVolumeId id = fs) then default 0 c else 0.
Definition provisioned (fs : string) (pvs : gmap string Z) : Z :=
  sum_over (dom pvs) (fun id => weight fs id (pvs !! id)).

Lemma provisioned_over fs pvs D :
  dom pvs ⊆ D -> provisioned fs pvs = sum_over D (fun id => weight fs id (pvs !! id)).
Proof.
  intros HD. symmetry. apply sum_over_subset; [done|].
  intros id _ Hid. apply not_elem_of_dom in Hid. rewrite Hid. unfold weight. by case_bool_decide.
Qed.
Lemma provisioned_insert fs pvs id c :
  pvs !! id = None -> provisioned fs (<[id := c]> pvs) = weight fs id (Some c) + provisioned fs pvs.
Proof.
  intros Hid. unfold provisioned. rewrite dom_insert_L, sum_over_insert by by apply not_elem_of_dom.
  rewrite lookup_insert_eq. f_equal. apply sumZ_fmap_ext. intros i Hi. apply elem_of_elements in Hi.
  rewrite lookup_insert_ne; [done|]. intros ->. apply elem_of_dom in Hi as [? Hi]. congruence.
Qed.

(** A list of PersistentVolumes shows exactly the volumes of [pvs] to the
    tracker of this driver, in some order, among others it does not count. *)
Definition shows (driver : string) (l : list PersistentVolume) (pvs : gmap string Z) : Prop :=
  omap (counted driver) l ≡ₚ
  (fun '(id, c) => (sliceFilesystemNameFromVolumeId id, id, c)) <$> map_to_list pvs.

Lemma account_counted driver l : forall acc,
  foldl (account driver) acc l =
  (foldl (fun m c => confirm c m) acc.1 (omap (counted driver) l),
   foldl (fun p c => settle c p) acc.2 (omap (counted driver) l)).
Proof.
  induction l as [|pv l IH]; intros [m p]; [done|].
  cbn [foldl omap list_omap]. rewrite IH. unfold account.
  destruct (counted driver pv); done.
Qed.

(** The capacities of a list of counted volumes on a filesystem. *)
Definition counted_sum (fs : string) (l : list (string * string * Z)) : Z :=
  sumZ ((fun '(f, _, c) => if bool_decide (f = fs) then c else 0) <$> l).
Lemma confirm_sum fs l : forall m,
  in_int64 (default 0 (m !! fs)) ->
  default 0 (foldl (fun m c => confirm c m) m l !! fs) = wrap64 (default 0 (m !! fs) + counted_sum fs l).
Proof.
  induction l as [|[[f id] c] l IH]; intros m Hm.
  { cbn. rewrite Z.add_0_r. by rewrite wrap64_id. }
  cbn [foldl]. unfold confirm at 2. unfold counted_sum. cbn [fmap list_fmap sumZ foldr].
  rewrite IH; unfold counted_sum; rewrite lookup_insert.
  - case_decide; case_bool_decide; subst; try done; cbn; autorewrite with wekafs; f_equal; unfold sumZ; lia.
  - case_decide; cbn; auto with wekafs.
Qed.

Lemma counted_sum_shows driver l pvs fs :
  shows driver l pvs -> counted_sum fs (omap (counted driver) l) = provisioned fs pvs.
Proof.
  intros Hs. unfold counted_sum, shows in *. rewrite Hs, <- list_fmap_compose. clear Hs.
  induction pvs as [|id c pvs Hid IH] using map_ind; [done|].
  rewrite provisioned_insert, map_to_list_insert by done. cbn. rewrite <- IH. unfold weight, sumZ.
  by case_bool_decide.
Qed.

(** What becomes of the reservation of a volume. *)
Definition settled (c : option Z) (r : option CapacityReservation) : option CapacityReservation :=
  match c, r with
  | Some c, Some r => if TargetCapacity r <=? c then None else Some (set_source c r)
  | _, _ => r
  end.
Lemma settle_lookup c p i :
  settle c p !! i = settled (if decide (i = c.1.2) then Some c.2 else None) (p !! i).
Proof.
  destruct c as [[f id] c]; cbn. case_decide; subst.
  - destruct (p !! id) as [r|] eqn:E; cbn; [|done].
    case_goal; [by rewrite lookup_delete_eq|by rewrite lookup_insert_eq].
  - destruct (p !! id) as [r|] eqn:E; cbn; [|by destruct (p !! i)].
    case_goal; rewrite ?lookup_delete_ne, ?lookup_insert_ne by done; by destruct (p !! i).
Qed.
Lemma settles_absent l : forall p i,
  i ∉ (fun c : string * string * Z => c.1.2) <$> l ->
  foldl (fun p c => settle c p) p l !! i = p !! i.
Proof.
  induction l as [|c l IH]; intros p i Hi; [done|]. cbn in Hi |- *.
  rewrite not_elem_of_cons in Hi. destruct Hi as [Hne Hi].
  rewrite IH, settle_lookup by done. rewrite decide_False by done. by destruct (p !! i).
Qed.
Lemma settles_present l : forall p f i c,
  NoDup ((fun c : string * string * Z => c.1.2) <$> l) -> (f, i, c) ∈ l ->
  foldl (fun p c => settle c p) p l !! i = settled (Some c) (p !! i).
Proof.
  induction l as [|x l IH]; intros p f i c Hnd Hin; [by apply elem_of_nil in Hin|].
  cbn in Hnd |- *. apply NoDup_cons in Hnd as [Hx Hnd]. apply elem_of_cons in Hin as [<-|Hin].
  - rewrite settles_absent by done. rewrite settle_lookup. by rewrite decide_True.
  - rewrite (IH _ f i c) by done. rewrite settle_lookup, decide_False; [by destruct (p !! i)|].
    intros ->. apply Hx. by apply (list_elem_of_fmap_2 (fun c : string * string * Z => c.1.2) l (f, x.1.2, c)).
Qed.

Lemma shows_NoDup driver l pvs :
  shows driver l pvs -> NoDup ((fun c : string * string * Z => c.1.2) <$> omap (counted driver) l).
Proof.
  intros ->. rewrite <- list_fmap_compose.
  rewrite (list_fmap_ext _ fst (map_to_list pvs)) by (by intros ? [? ?]).
  apply NoDup_fst_map_to_list.
Qed.
Lemma shows_elem driver l pvs f i c :
  shows driver l pvs -> (f, i, c) ∈ omap (counted driver) l -> pvs !! i = Some c.
Proof.
  intros -> ([j d] & E & Hin)%list_elem_of_fmap. simplify_eq. by apply elem_of_map_to_list in Hin.
Qed.

(** A refresh confirms what is provisioned and settles every reservation
    against the volume it is for. *)
Lemma refreshed_spec driver l pvs now ct :
  shows driver l pvs ->
  (forall fs, default 0 (confirmedCapacity (refreshed driver l now ct) !! fs) = wrap64 (provisioned fs pvs)) /\
  (forall id, pendingReservations (refreshed driver l now ct) !! id =
              settled (pvs !! id) (pendingReservations ct !! id)).
Proof.
  intros Hs. unfold refreshed. rewrite account_counted. cbn. split.
  - intros fs. rewrite confirm_sum by (rewrite lookup_empty; cbn; unfold in_int64; lia).
    by rewrite lookup_empty, (counted_sum_shows _ _ pvs).
  - intros id. destruct (pvs !! id) as [c|] eqn:E.
    + apply (settles_present _ _ (sliceFilesystemNameFromVolumeId id)); [by eapply shows_NoDup|].
      rewrite Hs. apply list_elem_of_fmap. exists (id, c). split; [done|]. by apply elem_of_map_to_list.
    + rewrite settles_absent; [by destruct (_ !! id)|].
      intros ([[f i] c] & -> & Hin)%list_elem_of_fmap. cbn in E.
      rewrite (shows_elem _ _ _ _ _ _ Hs Hin) in E. done.
Qed.

(** ** The tracker, the cluster and Kubernetes

    The tracker, the directory-backed volumes of the cluster with the capacity
    that is set on them, and the PersistentVolumes the tracker may list.  The
    steps interleave requests, their completion, deletions, Kubernetes and
    refreshes in any order; a refresh that fails is no step. *)

Record world := MkWorld { tracker : CapacityTracker; volumes : gmap string Z; pvs : gmap string Z }.

Section World.
Variable driver : string.
(** The most that the cluster ever reports as available on a filesystem, the
    most that the PersistentVolumes on it add up to, and the largest request. *)
Variables available listed : string -> Z.
Variable largest : Z.

Inductive step : world -> world -> Prop :=
(** [CreateVolume] of a volume that does not exist passes validation, with
    what the cluster reports at that time *)
| step_create id target reported now ct ct' vols ps :
    let fs := sliceFilesystemNameFromVolumeId id in
    vols !! id = None -> 0 <= target <= largest -> reported <= available fs ->
    reserve id fs reported 0 target now ct = inr ct' ->
    step (MkWorld ct vols ps) (MkWorld ct' vols ps)
(** [ControllerExpandVolume] of a volume, from the capacity set on it *)
| step_expand id current target reported now ct ct' vols ps :
    let fs := sliceFilesystemNameFromVolumeId id in
    vols !! id = Some current -> current <= target <= largest -> reported <= available fs ->
    reserve id fs reported current target now ct = inr ct' ->
    step (MkWorld ct vols ps) (MkWorld ct' vols ps)
(** a request sets the capacity: at most what is reserved for the volume, or
    no more than it has; so does a repeated [CreateVolume] of a half-made
    volume, which is not validated again *)
| step_complete id c ct vols ps :
    0 <= c ->
    c <= default 0 (vols !! id) \/ (exists r, pendingReservations ct !! id = Some r /\ c <= TargetCapacity r) ->
    step (MkWorld ct vols ps) (MkWorld ct (<[id := c]> vols) ps)
(** [DeleteVolume] moves the volume to the trash, and later releases its reservation *)
| step_trash id ct vols ps : step (MkWorld ct vols ps) (MkWorld ct (delete id vols) ps)
| step_release id ct vols ps :
    vols !! id = None -> step (MkWorld ct vols ps) (MkWorld (deleteReservationLocked id ct) vols ps)
(** Kubernetes gets a PersistentVolume, or one that grew *)
| step_pv id c ct vols ps :
    0 <= c -> default 0 (ps !! id) <= c -> (forall fs, provisioned fs (<[id := c]> ps) <= listed fs) ->
    step (MkWorld ct vols ps) (MkWorld ct vols (<[id := c]> ps))
(** Kubernetes drops the PersistentVolume of a volume that is gone *)
| step_pv_gone id ct vols ps :
    vols !! id = None -> pendingReservations ct !! id = None ->
    step (MkWorld ct vols ps) (MkWorld ct vols (delete id ps))
(** the tracker refreshes from Kubernetes *)
| step_refresh l now ct vols ps :
    shows driver l ps -> step (MkWorld ct vols ps) (MkWorld (refreshed driver l now ct) vols ps).

(** The first refresh of a new tracker succeeded, and found for each volume of
    the cluster a PersistentVolume of at least its capacity; what is there fits. *)
Record initial (w : world) : Prop := {
  i_refreshed : exists l now, shows driver l (pvs w) /\ tracker w = refreshed driver l now newCapacityTracker;
  i_volumes id : 0 <= default 0 (volumes w !! id) <= default 0 (pvs w !! id);
  i_listed fs : provisioned fs (pvs w) <= listed fs;
  i_fits fs : provisioned fs (volumes w) <= available fs
}.
Definition reachable (w : world) : Prop := exists w0, initial w0 /\ rtc step w0 w.

(** What the volume [id] may come to occupy on [fs]: what is reserved for it,
    or else what it has. *)
Definition occupied (w : world) (fs id : string) : Z :=
  weight fs id (match pendingReservations (tracker w) !! id with
                | Some r => Some (TargetCapacity r)
                | None => volumes w !! id
                end).
Definition keys (w : world) : gset string := dom (volumes w) ∪ dom (pendingReservations (tracker w)).
Definition total_occupied (w : world) (fs : string) : Z := sum_over (keys w) (occupied w fs).

(** The invariant: [seen] are the PersistentVolumes of the last refresh. *)
Record accounts (w : world) (seen : gmap string Z) : Prop := {
  c_confirmed fs : default 0 (confirmedCapacity (tracker w) !! fs) = provisioned fs seen;
  c_listed fs : provisioned fs seen <= listed fs /\ provisioned fs (pvs w) <= listed fs;
  c_reserved id r : pendingReservations (tracker w) !! id = Some r ->
    Filesystem r = sliceFilesystemNameFromVolumeId id /\ SourceCapacity r <= TargetCapacity r /\
    SourceCapacity r <= default 0 (seen !! id) /\ SourceCapacity r <= default 0 (pvs w !! id) /\
    default 0 (volumes w !! id) <= TargetCapacity r;
  c_free id : pendingReservations (tracker w) !! id = None ->
    default 0 (volumes w !! id) <= default 0 (seen !! id) /\ default 0 (volumes w !! id) <= default 0 (pvs w !! id);
  c_nonneg id : 0 <= default 0 (volumes w !! id) /\ 0 <= default 0 (seen !! id) /\ 0 <= default 0 (pvs w !! id)
}.
Record consistent (w : world) (seen : gmap string Z) : Prop := {
  c_accounts : accounts w seen;
  c_pending fs : pending_sum fs (pendingReservations (tracker w)) <= available fs;
  c_fits fs : total_occupied w fs <= available fs
}.

Lemma occupied_over w fs D : keys w ⊆ D -> total_occupied w fs = sum_over D (occupied w fs).
Proof.
  intros HD. symmetry. apply sum_over_subset; [done|]. unfold keys, occupied.
  intros id _ [Hv Hp]%not_elem_of_union. apply not_elem_of_dom in Hv, Hp. rewrite Hv, Hp.
  unfold weight. by case_bool_decide.
Qed.
Lemma provisioned_nonneg fs m : (forall id, 0 <= default 0 (m !! id)) -> 0 <= provisioned fs m.
Proof.
  intros H. unfold provisioned.
  assert (E0 : sum_over (dom m) (fun _ => 0) = 0).
  { unfold sum_over. by induction (elements (dom m)). }
  rewrite <- E0. apply sum_over_le. intros id. unfold weight. specialize (H id). case_bool_decide; lia.
Qed.
Lemma pending_nonneg w seen fs : accounts w seen -> 0 <= pending_sum fs (pendingReservations (tracker w)).
Proof.
  intros Hc. unfold pending_sum. set (D := dom _).
  assert (E0 : sum_over D (fun _ => 0) = 0) by (unfold sum_over; by induction (elements D)).
  rewrite <- E0. apply sum_over_le. intros id. unfold delta.
  destruct (pendingReservations (tracker w) !! id) as [r|] eqn:E; [|lia].
  destruct (c_reserved _ _ Hc id r E) as (_ & ? & _). case_bool_decide; lia.
Qed.

(** The tracker counts at least what may come to be occupied, and that is at
    least what is there. *)
Lemma occupied_counted w seen fs : accounts w seen -> total_occupied w fs <= committed (tracker w) fs.
Proof.
  intros Hc. set (D := keys w ∪ dom seen). rewrite (occupied_over w fs D) by set_solver. unfold committed.
  rewrite (c_confirmed _ _ Hc), (provisioned_over fs seen D), (pending_sum_over fs _ D), <- sum_over_add
    by (unfold D, keys; set_solver).
  apply sum_over_le. intros id. unfold occupied, weight, delta.
  destruct (pendingReservations (tracker w) !! id) as [r|] eqn:E.
  - destruct (c_reserved _ _ Hc id r E) as (-> & ? & ? & _). cbn. case_bool_decide; lia.
  - destruct (c_free _ _ Hc id E). case_bool_decide; lia.
Qed.
Lemma provisioned_occupied w seen fs : accounts w seen -> provisioned fs (volumes w) <= total_occupied w fs.
Proof.
  intros Hc. rewrite (provisioned_over fs _ (keys w)) by (unfold keys; set_solver).
  apply sum_over_le. intros id. unfold occupied, weight.
  destruct (pendingReservations (tracker w) !! id) as [r|] eqn:E; [|lia].
  destruct (c_reserved _ _ Hc id r E) as (_ & _ & _ & _ & ?). case_bool_decide; cbn; lia.
Qed.
(** Less may come to be occupied after a step that adds no reservation. *)
Lemma occupied_le w w' fs :
  (forall id, occupied w' fs id <= occupied w fs id) -> total_occupied w' fs <= total_occupied w fs.
Proof.
  intros H. rewrite (occupied_over w fs (keys w ∪ keys w')), (occupied_over w' fs (keys w ∪ keys w')) by set_solver.
  by apply sum_over_le.
Qed.
Lemma pending_le p p' fs : (forall id, delta fs (p' !! id) <= delta fs (p !! id)) -> pending_sum fs p' <= pending_sum fs p.
Proof.
  intros H. rewrite (pending_sum_over fs p (dom p ∪ dom p')), (pending_sum_over fs p' (dom p ∪ dom p')) by set_solver.
  by apply sum_over_le.
Qed.

Hypothesis room : 0 <= largest /\ forall fs, 0 <= available fs /\ listed fs + available fs + largest < 2 ^ 63.

(** A request that passes, from a size that the volume has. *)
Section Reserve.
Variables (ct : CapacityTracker) (vols ps seen : gmap string Z) (id : string) (target now : Z).
Let fs := sliceFilesystemNameFromVolumeId id.
Let current := default 0 (vols !! id).
Let source := match pendingReservations ct !! id with Some r => SourceCapacity r | None => current end.
Let ct' := with_pending (<[id := MkReservation fs source target now]> (pendingReservations ct)) ct.
Hypothesis Hold : forall r, pendingReservations ct !! id = Some r -> TargetCapacity r <= target.
Hypothesis Hgrow : current <= target.

Lemma accounts_reserve : accounts (MkWorld ct vols ps) seen -> accounts (MkWorld ct' vols ps) seen.
Proof.
  intros Hc. split; cbn [tracker volumes pvs ct' confirmedCapacity pendingReservations with_pending]; try apply Hc.
  - intros i r. rewrite lookup_insert. case_decide; subst; [|apply (c_reserved _ _ Hc i r)].
    intros [= <-]. cbn. subst source. destruct (pendingReservations ct !! i) as [r|] eqn:E.
    + destruct (c_reserved _ _ Hc i r E) as (? & ? & ? & ? & ?). specialize (Hold r eq_refl). cbn in *.
      split_and!; lia || done.
    + destruct (c_free _ _ Hc i E). cbn in *. split_and!; lia || done.
  - intros i. rewrite lookup_insert. case_decide; [done|]. apply (c_free _ _ Hc i).
Qed.
(** On its filesystem the reservation counts for what the request asks for on
    top of the current size, or less; elsewhere nothing changes. *)
Lemma pending_reserve fs' : accounts (MkWorld ct vols ps) seen ->
  pending_sum fs' (pendingReservations ct') <=
  pending_sum fs' (pendingReservations ct) + (if decide (fs' = fs) then target - current else 0).
Proof.
  clear Hold Hgrow.
  intros Hc. cbn. rewrite pending_sum_insert.
  change (delta fs' (Some (MkReservation fs source target now)))
    with (if bool_decide (fs = fs') then target - source else 0).
  subst source. destruct (pendingReservations ct !! id) as [r|] eqn:E; cbn [delta].
  - destruct (c_reserved _ _ Hc id r E) as (Hf & _ & _ & _ & Hv). cbn in Hv. rewrite Hf. fold fs.
    repeat case_bool_decide; case_decide; try congruence; unfold current; lia.
  - case_bool_decide; case_decide; try congruence; lia.
Qed.
Lemma occupied_elsewhere fs' : fs' <> fs ->
  total_occupied (MkWorld ct' vols ps) fs' <= total_occupied (MkWorld ct vols ps) fs'.
Proof.
  clear Hold Hgrow.
  intros Hne. apply occupied_le. intros i. unfold occupied, weight. cbn.
  rewrite lookup_insert. case_decide; subst; [|lia]. rewrite !bool_decide_false by done. lia.
Qed.
End Reserve.

Lemma consistent_reserve ct ct' vols ps seen id current target reported now :
  let fs := sliceFilesystemNameFromVolumeId id in
  consistent (MkWorld ct vols ps) seen ->
  default 0 (vols !! id) = current -> current <= target <= largest -> reported <= available fs ->
  reserve id fs reported current target now ct = inr ct' ->
  consistent (MkWorld ct' vols ps) seen.
Proof.
  intros fs [Hc Hp Hf] <- Ht Hrep (Hex & Hle & ->)%reserve_inv.
  destruct (c_nonneg _ _ Hc id) as (Hv & _ & _). pose proof (pending_nonneg _ _ fs Hc) as Hp0.
  pose proof (c_confirmed _ _ Hc fs) as Hconf. destruct (c_listed _ _ Hc fs) as [Hl _].
  assert (Hs0 : 0 <= provisioned fs seen).
  { apply provisioned_nonneg. intros i. by destruct (c_nonneg _ _ Hc i) as (_ & ? & _). }
  destruct room as [_ Hroom]. specialize (Hroom fs). pose proof (Hp fs) as Hp1. cbn in *. unfold committed in Hle. rewrite Hconf in Hle.
  rewrite wrap64_id in Hle by (unfold in_int64; lia).
  pose proof (accounts_reserve ct vols ps seen id target now Hex (proj1 Ht) Hc) as Hc'.
  pose proof (fun fs' => pending_reserve ct vols ps seen id target now fs' Hc) as Hpr.
  split; [exact Hc'|..]; intros fs'; cbn [tracker].
  - etrans; [apply Hpr|]. fold fs. case_decide as Hfs; [rewrite Hfs; lia|]. specialize (Hp fs'). lia.
  - destruct (decide (fs' = fs)) as [->|Hne].
    + etrans; [apply (occupied_counted _ _ fs Hc')|]. unfold committed. cbn. specialize (Hpr fs).
      rewrite decide_True in Hpr by done. cbn in Hpr. rewrite Hconf. fold fs in Hpr |- *. lia.
    + etrans; [by apply occupied_elsewhere|]. apply Hf.
Qed.

(** The other steps add no reservation. *)
Lemma consistent_volumes ct vols vols' ps seen :
  consistent (MkWorld ct vols ps) seen ->
  (forall id, 0 <= default 0 (vols' !! id)) ->
  (forall id, default 0 (vols' !! id) <= default 0 (vols !! id) \/
     exists r, pendingReservations ct !! id = Some r /\ default 0 (vols' !! id) <= TargetCapacity r) ->
  consistent (MkWorld ct vols' ps) seen.
Proof.
  intros [Hc Hp Hf] H0 Hle. split; [split; cbn; try apply Hc| |].
  - intros id r E. destruct (c_reserved _ _ Hc id r E) as (? & ? & ? & ? & Hv). cbn in *. split_and!; try done.
    destruct (Hle id) as [?|(r' & E' & ?)]; [lia|congruence].
  - intros id E. destruct (c_free _ _ Hc id E). cbn in *. destruct (Hle id) as [?|(r' & E' & ?)]; [lia|congruence].
  - intros id. destruct (c_nonneg _ _ Hc id) as (_ & ? & ?). split; [apply H0|done].
  - exact Hp.
  - intros fs. etrans; [|apply Hf]. apply occupied_le. intros id. unfold occupied, weight. cbn.
    destruct (pendingReservations ct !! id) as [r|] eqn:E; [lia|].
    destruct (Hle id) as [?|(r' & E' & ?)]; [|congruence]. case_bool_decide; lia.
Qed.
Lemma consistent_release ct vols ps seen id :
  vols !! id = None -> consistent (MkWorld ct vols ps) seen ->
  consistent (MkWorld (deleteReservationLocked id ct) vols ps) seen.
Proof.
  intros Hid [Hc Hp Hf]. split; [split; cbn; try apply Hc| |].
  - intros i r. rewrite lookup_delete. case_decide; [done|]. apply (c_reserved _ _ Hc).
  - intros i. rewrite lookup_delete. case_decide; [intros _; subst|apply (c_free _ _ Hc)].
    rewrite Hid. destruct (c_nonneg _ _ Hc i) as (_ & ? & ?). done.
  - intros fs. etrans; [|apply (Hp fs)]. apply pending_le. intros i. cbn. rewrite lookup_delete.
    case_decide; [|lia]. subst. cbn. destruct (pendingReservations ct !! i) as [r|] eqn:E; cbn; [|lia].
    destruct (c_reserved _ _ Hc i r E) as (_ & ? & _). case_bool_decide; lia.
  - intros fs. etrans; [|apply Hf]. apply occupied_le. intros i. unfold occupied, weight. cbn. rewrite lookup_delete.
    case_decide; [|lia]. subst. rewrite Hid. destruct (pendingReservations ct !! i) as [r|] eqn:E; [|lia].
    destruct (c_reserved _ _ Hc i r E) as (_ & _ & _ & _ & Hv). cbn in Hv. rewrite Hid in Hv. case_bool_decide; cbn in *; lia.
Qed.
Lemma consistent_pvs ct vols ps ps' seen :
  consistent (MkWorld ct vols ps) seen -> (forall fs, provisioned fs ps' <= listed fs) ->
  (forall id, 0 <= default 0 (ps' !! id)) ->
  (forall id, default 0 (ps !! id) <= default 0 (ps' !! id) \/
     (vols !! id = None /\ pendingReservations ct !! id = None)) ->
  consistent (MkWorld ct vols ps') seen.
Proof.
  intros [Hc Hp Hf] Hl H0 Hle. split; [split; cbn; try apply Hc|done|done].
  - intros fs. split; [apply (c_listed _ _ Hc)|apply Hl].
  - intros id r E. destruct (c_reserved _ _ Hc id r E) as (? & ? & ? & ? & ?). cbn in *.
    destruct (Hle id) as [?|[_ ?]]; [split_and!; lia || done|congruence].
  - intros id E. destruct (c_free _ _ Hc id E) as [? ?]. cbn in *.
    destruct (Hle id) as [?|[-> _]]; [lia|]. split; [apply (c_nonneg _ _ Hc)|apply H0].
  - intros id. destruct (c_nonneg _ _ Hc id) as (? & ? & _). split_and!; [done..|apply H0].
Qed.
(** A refresh drops a reservation whose target is reached, and otherwise
    lets it start from a size that is no smaller. *)
Lemma refresh_fate ct vols ps seen id r :
  accounts (MkWorld ct vols ps) seen -> pendingReservations ct !! id = Some r ->
  (settled (ps !! id) (Some r) = None /\ TargetCapacity r <= default 0 (ps !! id)) \/
  exists s, settled (ps !! id) (Some r) = Some (set_source s r) /\ SourceCapacity r <= s <= TargetCapacity r /\
    s <= default 0 (ps !! id).
Proof.
  intros Hc E. destruct (c_reserved _ _ Hc id r E) as (_ & ? & _ & ? & _). cbn in *.
  destruct (ps !! id) as [c|]; cbn in *.
  - destruct (Z.leb_spec (TargetCapacity r) c); [by left|right]. exists c. split; [done|lia].
  - right. exists (SourceCapacity r). split; [by destruct r|lia].
Qed.
Lemma accounts_refresh ct vols ps seen l now :
  shows driver l ps -> accounts (MkWorld ct vols ps) seen ->
  accounts (MkWorld (refreshed driver l now ct) vols ps) ps.
Proof.
  intros Hshow Hc. destruct (refreshed_spec driver l ps now ct Hshow) as [Hconf Hpend].
  split; cbn [tracker volumes pvs].
  - intros fs. rewrite Hconf. apply wrap64_id. destruct (c_listed _ _ Hc fs) as [_ Hl], room as [? Hroom].
    specialize (Hroom fs). cbn in Hl. assert (0 <= provisioned fs ps).
    { apply provisioned_nonneg. intros id. by destruct (c_nonneg _ _ Hc id) as (_ & _ & ?). }
    unfold in_int64. lia.
  - intros fs. by destruct (c_listed _ _ Hc fs).
  - intros id r. rewrite Hpend. destruct (pendingReservations ct !! id) as [r0|] eqn:E; [|by destruct (ps !! id)].
    destruct (c_reserved _ _ Hc id r0 E) as (? & ? & ? & ? & ?).
    destruct (refresh_fate _ _ _ _ _ _ Hc E) as [[-> _]|(s & -> & ? & ?)]; [done|]. intros [= <-]. cbn in *.
    split_and!; lia || done.
  - intros id. rewrite Hpend. destruct (pendingReservations ct !! id) as [r0|] eqn:E.
    + destruct (c_reserved _ _ Hc id r0 E) as (? & ? & ? & ? & ?).
      destruct (refresh_fate _ _ _ _ _ _ Hc E) as [[-> ?]|(s & -> & _)]; [|done]. intros _. cbn in *. lia.
    + intros _. by destruct (c_free _ _ Hc id E).
  - intros id. by destruct (c_nonneg _ _ Hc id) as (? & _ & ?).
Qed.
Lemma consistent_refresh ct vols ps seen l now :
  shows driver l ps -> consistent (MkWorld ct vols ps) seen ->
  consistent (MkWorld (refreshed driver l now ct) vols ps) ps.
Proof.
  intros Hshow [Hc Hp Hf]. destruct (refreshed_spec driver l ps now ct Hshow) as [_ Hpend].
  split; [by eapply accounts_refresh| |]; intros fs.
  - etrans; [|apply (Hp fs)]. apply pending_le. intros id. cbn. rewrite Hpend.
    destruct (pendingReservations ct !! id) as [r|] eqn:E; [|by destruct (ps !! id)].
    destruct (c_reserved _ _ Hc id r E) as (_ & ? & _).
    destruct (refresh_fate _ _ _ _ _ _ Hc E) as [[-> _]|(s & -> & ? & _)]; cbn; case_bool_decide; lia.
  - etrans; [|apply (Hf fs)]. apply occupied_le. intros id. unfold occupied, weight. cbn. rewrite Hpend.
    destruct (pendingReservations ct !! id) as [r|] eqn:E; [|by destruct (ps !! id)].
    destruct (c_reserved _ _ Hc id r E) as (_ & _ & _ & _ & Hv). cbn in Hv.
    destruct (refresh_fate _ _ _ _ _ _ Hc E) as [[-> _]|(s & -> & ? & _)]; cbn; case_bool_decide; lia.
Qed.

Lemma step_consistent w w' seen : step w w' -> consistent w seen -> exists seen', consistent w' seen'.
Proof.
  destruct 1 as [id target reported now ct ct' vols ps fs Hid Ht Hr Hres
    |id current target reported now ct ct' vols ps fs Hid Ht Hr Hres|id c ct vols ps H0 Hle|id ct vols ps
    |id ct vols ps Hid|id c ct vols ps H0 Hle Hl|id ct vols ps Hid Hno|l now ct vols ps Hs]; intros Hc;
    pose proof (c_nonneg _ _ (c_accounts _ _ Hc)) as Hn; cbn in Hn.
  - exists seen. by eapply (consistent_reserve _ _ _ _ _ id 0); [|rewrite Hid|..].
  - exists seen. by eapply (consistent_reserve _ _ _ _ _ id current); [|rewrite Hid|..].
  - exists seen. eapply consistent_volumes; [exact Hc|..]; intros i; rewrite lookup_insert; case_decide; subst; first [done|destruct (Hn i); cbn in *; auto with lia].
  - exists seen. eapply consistent_volumes; [exact Hc|..]; intros i; rewrite lookup_delete; case_decide; subst; first [done|destruct (Hn i); cbn in *; auto with lia].
  - exists seen. by apply consistent_release.
  - exists seen. eapply consistent_pvs; [exact Hc|done|..]; intros i; rewrite lookup_insert; case_decide; subst; first [done|destruct (Hn i); cbn in *; auto with lia].
  - exists seen. assert (H0 : forall i, 0 <= default 0 (delete id ps !! i)).
    { intros i. rewrite lookup_delete. case_decide; [done|]. apply (c_nonneg _ _ (c_accounts _ _ Hc)). }
    eapply consistent_pvs; [exact Hc| |exact H0|].
    + intros fs. etrans; [|apply (c_listed _ _ (c_accounts _ _ Hc))]. cbn.
      rewrite (provisioned_over fs ps (dom ps)), (provisioned_over fs (delete id ps) (dom ps)) by set_solver.
      apply sum_over_le. intros i. unfold weight. rewrite lookup_delete. case_decide; [|done].
      destruct (c_nonneg _ _ (c_accounts _ _ Hc) i) as (_ & _ & ?). cbn in *. case_bool_decide; lia.
    + intros i. rewrite lookup_delete. case_decide; [subst; by right|by left].
  - exists ps. by eapply consistent_refresh.
Qed.
Lemma initial_consistent w : initial w -> consistent w (pvs w).
Proof.
  destruct w as [ct vols ps]. intros [(l & now & Hshow & Hct) Hv Hl Hf]. cbn in *. subst ct.
  destruct (refreshed_spec driver l ps now newCapacityTracker Hshow) as [Hconf Hpend].
  assert (Hnone : pendingReservations (refreshed driver l now newCapacityTracker) = ∅).
  { apply map_eq. intros id. rewrite Hpend. cbn. rewrite lookup_empty. by destruct (ps !! id). }
  assert (H0 : forall fs, 0 <= provisioned fs ps).
  { intros fs. apply provisioned_nonneg. intros id. specialize (Hv id). lia. }
  split; [split; cbn [tracker volumes pvs]| |].
  - intros fs. rewrite Hconf. apply wrap64_id. destruct room as [? Hroom]. specialize (Hroom fs). specialize (Hl fs).
    specialize (H0 fs). unfold in_int64. lia.
  - auto.
  - intros id r. by rewrite Hnone, lookup_empty.
  - intros id _. specialize (Hv id). lia.
  - intros id. specialize (Hv id). lia.
  - intros fs. cbn. rewrite Hnone. apply room.
  - intros fs. etrans; [|apply (Hf fs)]. rewrite (provisioned_over fs vols (dom vols)) by done.
    unfold total_occupied, keys. cbn. rewrite Hnone, dom_empty_L, union_empty_r_L.
    apply sum_over_le. intros id. unfold occupied. cbn. by rewrite Hnone, lookup_empty.
Qed.

End World.

(** ** Concrete runs *)

Definition demo_id : string := "dir/v1/fs1/csi-volumes/v-1".
Definition demo_pvs : list PersistentVolume :=
  [MkPV None (Some 7); MkPV (Some ("csi.weka.io", demo_id)) (Some 600);
   MkPV (Some ("csi.weka.io", "weka/v2/fs1:ap")) (Some 5); MkPV (Some ("other", demo_id)) (Some 9)].
Definition demo_start : CapacityTracker := refreshed "csi.weka.io" [] 0 newCapacityTracker.
Definition demo_reserved : CapacityTracker :=
  MkTracker ∅ {[demo_id := MkReservation "fs1" 0 600 1]} 0 true.
Definition demo_refreshed : CapacityTracker := refreshed "csi.weka.io" demo_pvs 2 demo_reserved.
Definition demo_expanding : CapacityTracker :=
  MkTracker {["fs1" := 600]} {[demo_id := MkReservation "fs1" 600 900 3]} 2 true.

Lemma reserve_no_overcommit_witness :
  committed demo_expanding "fs1" <= 1000 /\
  (forall fs', fs' <> "fs1" -> committed demo_expanding fs' = committed demo_refreshed fs') /\
  confirmedCapacity demo_expanding = confirmedCapacity demo_refreshed /\
  (forall id', id' <> demo_id ->
     pendingReservations demo_expanding !! id' = pendingReservations demo_refreshed !! id') /\
  exists r, pendingReservations demo_expanding !! demo_id = Some r /\ Filesystem r = "fs1" /\ TargetCapacity r = 900.
Proof.
  apply (reserve_no_overcommit demo_id "fs1" 1000 600 900 3).
  - vm_compute. reflexivity.
  - intros r E. vm_compute in E. discriminate E.
  - split; vm_compute; [discriminate|reflexivity].
Defined.


(** Retrying a request that passed validation counts its own reservation a
    second time: a volume that takes more than half of a filesystem and whose
    creation failed once is refused from then on. *)
Lemma retry_counts_twice :
  reserve demo_id "fs1" 1000 0 600 1 demo_start = inr demo_reserved /\
  exists msg, reserve demo_id "fs1" 1000 0 600 2 demo_reserved = inl (EStatus ResourceExhausted msg).
Proof. split; [by vm_compute|]. eexists. vm_compute. reflexivity. Qed.

(** The sum can wrap: a request for 2^63 - 1 bytes passes validation on a
    filesystem of 1000 bytes that already holds a volume. *)
Lemma huge_request_passes :
  exists ct', reserve "dir/v1/fs1/csi-volumes/v-2" "fs1" 1000 0 (2 ^ 63 - 1) 4 demo_refreshed = inr ct'.
Proof. eexists. vm_compute. reflexivity. Qed.

(** Requests that are refused leave no reservation ([reserve] returns no
    tracker), and a volume without a reservation is refused exactly when it
    does not fit. *)
Lemma reserve_new_iff id fs available current target now ct :
  pendingReservations ct !! id = None -> in_int64 (committed ct fs + (target - current)) ->
  (exists ct', reserve id fs available current target now ct = inr ct') <->
  committed ct fs + (target - current) <= available.
Proof.
  intros Hnone Hr. split.
  - intros [ct' (_ & Hle & _)%reserve_inv]. by rewrite wrap64_id in Hle.
  - intros Hle. unfold reserve. rewrite Hnone, getPendingCapacity_sum. autorewrite with wekafs.
    unfold committed in *. rewrite wrap64_id by done. rewrite (proj2 (Z.ltb_ge _ _)) by done. eauto.
Qed.
