(* ===== verification/Snapshots.v ===== *)
(** * Snapshots (pkg/wekafs/snapshot.go, snapshotconstructors.go)

    The methods of [Snapshot] other than [getObject] (which volumes use, see
    Volume), its constructors, and [Volume.CreateSnapshot].  A snapshot keeps
    a pointer to its source volume, whose mount the debug mode uses. *)
From S2P Require Import Prelude.
From S2P Require Import GoStrings.
From S2P Require Import Monad.
From S2P Require Import Hashing.
From S2P Require Import MountOptions.
From S2P Require Import VolumeIds.
From S2P Require Import ApiObjects.
From S2P Require Import Compatibility.
From S2P Require Import Objects.
From S2P Require Import Effects.
From S2P Require Import ApiOps.
From S2P Require Import Volume.

Definition set_s_SourceVolume (v : option Volume) (s : Snapshot) : Snapshot :=
  MkSnapshot (s_id s) (s_FilesystemName s) (s_SnapshotNameHash s) (s_SnapshotIntegrityId s)
    (s_SnapshotName s) (s_innerPath s) v (s_srcSnapshotUid s) (s_apiClient s).

(** What the driver fills in of a [csi.Snapshot]; the zero value of the
    message is [csi_no_snapshot]. *)
Record CsiSnapshot := MkCsiSnapshot {
  SnapshotId : string; SourceVolumeId : string; csi_CreationTime : option Z; ReadyToUse : bool
}.
Definition csi_no_snapshot : CsiSnapshot := MkCsiSnapshot "" "" None false.

Definition snap_hasInnerPath (s : Snapshot) : bool := negb (bool_decide (s_innerPath s = "")).

Section Snapshots.
Context {W : Type} `{Env W} `{Clock} `{MapOrder} (server : Server).
Abbreviation run := (Run W Snapshot).
Abbreviation config := (getConfig server).
Local Open Scope go_scope.

(** A method of the source volume; a nil volume is dereferenced. *)
Definition on_source {A} (m : M (Run W Volume) A) : M run A :=
  let! s := self in
  match s_SourceVolume s with
  | None => panic
  | Some v => within (fun _ => v) (fun v' => set_s_SourceVolume (Some v')) m
  end.

Definition snap_mimicDirectoryStructureForDebugMode : M run unit :=
  let! s := self in
  on_source (with_underlying_fs server (
    let! v := self in
    call_err (OsMkdirAll (Path.Join [mountPath v; SnapshotsSubDirectory; s_SnapshotIntegrityId s])
      DefaultVolumePermissions) id)).

Definition getFileSystemObject : M run (option FileSystem) :=
  let! s := self in
  match s_apiClient s with
  | None => throw (EStatus FailedPrecondition "Could not bind snapshot %s to API endpoint")
  | Some _ =>
      let! r := attempt (GetFileSystemByName (s_FilesystemName s)) in
      match r with
      | inl ObjectNotFoundError => ret None
      | inl e => throw e
      | inr fs => ret (Some fs)
      end
  end.

(** With an error, the value returned does not matter to the callers. *)
Definition snap_Exists : M run bool :=
  let! snapObj := getObject server in
  match snapObj with
  | None => ret false
  | Some o =>
      if sn_Uid o =? uuid_Nil then ret false
      else if sn_IsRemoving o then ret false
      else
        let! s := self in
        if negb (bool_decide (sn_AccessPoint o = s_SnapshotIntegrityId s))
        then throw (EStatus AlreadyExists "Another snapshot with same name already exists")
        else
          (if isInDevMode config then snap_mimicDirectoryStructureForDebugMode else ret tt) ;;
          ret true
  end.

Definition snap_Create : M run unit :=
  let! r := attempt (getObject server) in
  match r with
  | inl _ => throw (EStatus Internal "Failed to check if snapshot already exists")
  | inr (Some o) =>
      let! s := self in
      if bool_decide (sn_AccessPoint o = s_SnapshotIntegrityId s) then ret tt
      else throw (EStatus AlreadyExists "Another snapshot exists with same name")
  | inr None =>
      let! r := attempt getFileSystemObject in
      match r with
      | inl _ => throw (EStatus NotFound "Failed to fetch origin filesystem from the API")
      | inr None => throw (EStatus NotFound "Original filesystem not found on storage")
      | inr (Some fsObj) =>
          let! s := self in
          let sr := MkSnapCreate (fs_Uid fsObj) (s_SnapshotName s) (s_SnapshotIntegrityId s)
                      (s_srcSnapshotUid s) false in
          let! r := attempt (CreateSnapshot sr) in
          match r with
          | inl _ => throw (EStatus Internal "Failed to create snapshot: %s")
          | inr _ => if isInDevMode config then snap_mimicDirectoryStructureForDebugMode else ret tt
          end
      end
  end.

(** The loop of [waitForSnapshotDeletion], [n] polls; [getObject] returns no
    object with an error.  A timeout counts as success in [Delete]. *)
Fixpoint snap_waitForSnapshotDeletion (retryInterval maxretryInterval : Z) (n : nat) : M run unit :=
  match n with
  | O => ret tt
  | S n' =>
      let! r := attempt (getObject server) in
      match r with
      | inl _ | inr None => ret tt
      | inr (Some o) =>
          if sn_Uid o =? uuid_Nil then ret tt
          else if sn_IsRemoving o then
            call (TimeSleep retryInterval) ;;
            snap_waitForSnapshotDeletion (Min (wrap64 (retryInterval * 2)) maxretryInterval) maxretryInterval n'
          else throw (EPlain "Snapshot %s not marked for deletion but it should")
      end
  end.

Definition snap_Delete : M run unit :=
  let! r := attempt (getObject server) in
  match r with
  | inl ObjectNotFoundError => ret tt
  | inl e => throw e
  | inr None => ret tt
  | inr (Some o) =>
      if sn_Uid o =? uuid_Nil then ret tt
      else
        let! r := attempt (DeleteSnapshot (sn_Uid o)) in
        match r with
        | inl (ApiBadRequestError _) => ret tt
        | inl e => throw e
        | inr _ =>
            snap_waitForSnapshotDeletion Second (60 * Second) (polls MaxSnapshotDeletionDuration)
        end
  end.

Definition getCsiSnapshot : M run CsiSnapshot :=
  let! r := attempt (getObject server) in
  match r with
  | inl _ => ret csi_no_snapshot
  | inr o =>
      let! s := self in
      match s_SourceVolume s, o with
      | Some v, Some o =>
          ret (MkCsiSnapshot (s_id s) (v_id v) (Some (sn_CreationTime o)) (negb (sn_IsRemoving o)))
      | _, _ => panic
      end
  end.

(** ** Constructors (snapshotconstructors.go) *)

(** A method of the source volume, which becomes part of the snapshot. *)
Definition NewSnapshotFromVolumeCreate (name : string) : M (Run W Volume) Snapshot :=
  let! v := self in
  let srcVolId := v_id v in
  let filesystemName := sliceFilesystemNameFromVolumeId srcVolId in
  let snapNameHash := generateSnapshotNameHash name in
  let snapIntegrityId := generateSnapshotIntegrityID name srcVolId in
  let snapName := generateWekaSnapNameForSnapshot (SnapshotPrefix config) name in
  let innerPath := sliceInnerPathFromVolumeId srcVolId in
  let snapshotId := generateSnapshotIdFromComponents SnapshotTypeUnifiedSnap filesystemName
                      snapNameHash snapIntegrityId innerPath in
  let! sourceSnapUid :=
    if isOnSnapshot v then
      let! obj := getSnapshotObj false in
      match obj with None => panic | Some o => ret (Some (sn_Uid o)) end
    else ret None in
  let! v := self in
  ret (MkSnapshot snapshotId filesystemName snapNameHash snapIntegrityId snapName innerPath
         (Some v) sourceSnapUid (apiClient v)).

(** [Volume.CreateSnapshot] (volume.go) *)
Definition volume_CreateSnapshot (name : string) : M (Run W Volume) Snapshot :=
  let! s := NewSnapshotFromVolumeCreate name in
  let! (there, s) := method_of s snap_Exists in
  if there then ret s
  else let! (_, s) := method_of s snap_Create in ret s.
End Snapshots.

Definition NewSnapshotFromId (config : DriverConfig) (snapshotId : string) (api : option ApiClient)
  : error + Snapshot :=
  match validateSnapshotId snapshotId with
  | Some e => inl e
  | None =>
      inr (MkSnapshot snapshotId (sliceFilesystemNameFromSnapshotId snapshotId)
        (sliceSnapshotNameHashFromSnapshotId snapshotId)
        (sliceSnapshotIntegrityIdFromSnapshotId snapshotId)
        (SnapshotPrefix config +:+ sliceSnapshotNameHashFromSnapshotId snapshotId)
        (sliceInnerPathFromSnapshotId snapshotId) None None api)
  end.
