(* ===== verification/Constructors.v ===== *)
(** * Volumes from identifiers and requests (pkg/wekafs/volumeconstructors.go)

    [NewVolumeFromId] rebuilds a volume from its identifier;
    [NewVolumeFromControllerCreateRequest] builds the volume a CreateVolume
    request asks for: blank, from a snapshot, or as a clone.  The API client
    that [GetClientFromSecrets] (the store of API clients, wekafs.go) finds for
    the secrets of the request is an argument, [client]. *)
From S2P Require Import Prelude.
From S2P Require Import GoStrings.
From S2P Require Import Monad.
From S2P Require Import Hashing.
From S2P Require Import MountOptions.
From S2P Require Import VolumeIds.
From S2P Require Import ApiObjects.
From S2P Require Import Compatibility.
From S2P Require Import Objects.
From S2P Require Import Effects.
From S2P Require Import ApiOps.
From S2P Require Import Volume.
From S2P Require Import Snapshots.

Definition NewVolumeFromId (config : DriverConfig) (volumeId : string) (api : option ApiClient)
  : error + Volume :=
  match validateVolumeId volumeId with
  | Some e => inl e
  | None =>
      inr (initMountOptions (set_permissions DefaultVolumePermissions
        (new_volume volumeId (sliceFilesystemNameFromVolumeId volumeId)
          (sliceSnapshotNameFromVolumeId (VolumePrefix config) volumeId)
          (sliceSnapshotAccessPointFromVolumeId volumeId)
          (sliceInnerPathFromVolumeId volumeId) api)))
  end.

(** What the driver reads of a [csi.VolumeContentSource]: the identifiers
    behind [GetVolume] and [GetSnapshot], if these are set. *)
Record VolumeContentSource := MkSource { GetVolume : option string; GetSnapshot : option string }.

(** What the driver reads of a [csi.CreateVolumeRequest]: [None] for a nil
    capability list or parameter map, [true] for a block capability. *)
Record CreateVolumeRequest := MkCreateReq {
  req_Name : string;
  req_VolumeCapabilities : option (list bool);
  req_Parameters : option (gmap string string);
  req_RequiredBytes : Z;
  req_ContentSource : option VolumeContentSource;
  req_Topology : option (list (gmap string string) * list (gmap string string))
}.
Definition GetParameters (req : CreateVolumeRequest) : gmap string string := default ∅ (req_Parameters req).

Definition set_srcVolume (x : option Volume) (v : Volume) : Volume :=
  MkVolume (v_id v) (FilesystemName v) (filesystemGroupName v) (SnapshotName v) (SnapshotAccessPoint v)
    (SnapshotUuid v) (innerPath v) (apiClient v) (permissions v) (ownerUid v) (ownerGid v) (mountPath v)
    (enforceCapacity v) (initialFilesystemSize v) (mountOptions v) (encrypted v) (manageEncryptionKeys v)
    (encryptWithoutKms v) (kmsVaultNamespace v) (kmsVaultKeyIdentifier v) (kmsVaultRoleId v)
    (kmsVaultSecretId v) x (srcSnapshot v) (fileSystemObject v) (snapshotObject v).

(** A new filesystem, a directory on a given one, or a snapshot of one. *)
Definition NewVolumeForBlankVolumeRequest (config : DriverConfig) (client : option ApiClient)
    (req : CreateVolumeRequest) (dynamicVolPath : string) : error + Volume :=
  let name := req_Name req in
  let volType := default "" (GetParameters req !! "volumeType") in
  let filesystemName := GetFSNameFromRequest (GetParameters req) in
  let build volType fs snapName snapAccessPoint inner :=
    inr (new_volume (generateVolumeIdFromComponents volType fs snapAccessPoint inner)
           fs snapName snapAccessPoint inner client) in
  if bool_decide (filesystemName = "") then
    if bool_decide (volType = VolumeTypeDirV1) then
      inl (EStatus InvalidArgument "missing filesystemName in CreateVolumeRequest")
    else
      let volType := if bool_decide (volType = VolumeTypeEmpty) then VolumeTypeUnified else volType in
      if negb (allowAutoFsCreation config) then
        inl (EStatus PermissionDenied "creating new filesystems is not allowed, check CSI driver configuration")
      else build volType (generateWekaFsNameForFsBasedVol (VolumePrefix config) name) "" "" ""
  else if bool_decide (volType = VolumeTypeDirV1) then
    build volType filesystemName "" "" (generateInnerPathForDirBasedVol dynamicVolPath name)
  else
    let allowed := alwaysAllowSnapshotVolumes config in
    match client with
    | None =>
        if allowed then
          build VolumeTypeUnified filesystemName (generateWekaSnapNameForSnapBasedVol (VolumePrefix config) name)
            (generateWekaSnapAccessPointForSnapBasedVol name) ""
        else inl (EStatus FailedPrecondition "Quota enforcement is supported only with API-bound volumes")
    | Some api =>
        if negb (SupportsQuotaOnSnapshots api) && negb allowed then
          inl (EStatus FailedPrecondition "Quota enforcement is not supported for snapshot-backed volumes by current Weka software version, please upgrade Weka cluster")
        else
          build VolumeTypeUnified filesystemName (generateWekaSnapNameForSnapBasedVol (VolumePrefix config) name)
            (generateWekaSnapAccessPointForSnapBasedVol name) ""
    end.

Section Constructors.
Context {W : Type} `{Env W} `{Clock} `{MapOrder} (server : Server) {V : Type}.
Abbreviation run := (Run W V).
Abbreviation config := (getConfig server).
Local Open Scope go_scope.

Definition NewVolumeForCreateFromSnapshotRequest (client : option ApiClient) (req : CreateVolumeRequest)
    (sourceSnapId : string) : M run Volume :=
  match client with
  | None => throw (EStatus InvalidArgument "cannot create volume without API binding")
  | Some _ =>
      if bool_decide (sourceSnapId = "") then throw (EStatus InvalidArgument "Source snapshot ID is empty")
      else
      match NewSnapshotFromId config sourceSnapId client with
      | inl _ => throw (EStatus NotFound "Source snapshot %s does not exist, cannot create volume")
      | inr sourceSnap =>
          if snap_hasInnerPath sourceSnap && negb (allowSnapshotsOfDirectoryVolumes config) then
            throw (EStatus FailedPrecondition "Creation of snapshots is prohibited on directory-backed CSI volumes. Refer to Weka CSI plugin documentation")
          else
          let! r := attempt (method_of sourceSnap (getObject server)) in
          match r with
          | inl _ => throw (EStatus Internal "Failed to check for existence of source snapshot %s")
          | inr (None, _) => throw (EStatus NotFound "Source snapshot %s does not exist, cannot create volume")
          | inr (Some o, sourceSnap) =>
              let sourceFsName := sliceFilesystemNameFromVolumeId sourceSnapId in
              if sn_IsWritable o then
                throw (EStatus FailedPrecondition "Source snapshot %s is writable, cannot create volume from writable snapshot")
              else if negb (bool_decide (sourceFsName = sn_Filesystem o)) then
                throw (EStatus Internal "Integrity check failure: source snapshot ID %s points on filesystem %s, while in Weka cluster FS name is %s")
              else
                let ap := generateWekaSnapAccessPointForSnapBasedVol (req_Name req) in
                let inner := s_innerPath sourceSnap in
                ret (set_srcSnapshot (Some sourceSnap) (set_enforceCapacity true
                  (new_volume (generateVolumeIdFromComponents VolumeTypeUnified sourceFsName ap inner)
                    (sn_Filesystem o) (generateWekaSnapNameForSnapBasedVol (VolumePrefix config) (req_Name req))
                    ap inner client)))
          end
      end
  end.

Definition NewVolumeForCloneVolumeRequest (client : option ApiClient) (req : CreateVolumeRequest)
    (sourceVolId : string) : M run Volume :=
  match client with
  | None => throw (EStatus InvalidArgument "cannot create volume without API binding")
  | Some _ =>
      let filesystemName := GetFSNameFromRequest (GetParameters req) in
      if bool_decide (sourceVolId = "") then throw (EStatus InvalidArgument "Source volume ID is empty")
      else
      match NewVolumeFromId config sourceVolId client with
      | inl _ => throw (EStatus NotFound "Failed to validate source volume ID %s")
      | inr sourceVol =>
          if hasInnerPath sourceVol && negb (allowSnapshotsOfDirectoryVolumes config) then
            throw (EStatus FailedPrecondition "Cloning is prohibited for directory-backed volumes, refer to WEKA CSI Plugin documentation for additional information")
          else
          let! r := attempt (method_of sourceVol (Exists server)) in
          match r with
          | inl _ | inr (false, _) => throw (EStatus NotFound "Source volume does not exist")
          | inr (true, sourceVol) =>
              let fs := sliceFilesystemNameFromVolumeId sourceVolId in
              if negb (bool_decide (filesystemName = "")) && negb (bool_decide (fs = filesystemName)) then
                throw (EStatus InvalidArgument "Filesystem specified in storageClass and differs from source volume filesystem, this is not supported")
              else
                let ap := generateWekaSnapAccessPointForSnapBasedVol (req_Name req) in
                let inner := innerPath sourceVol in
                ret (set_srcVolume (Some sourceVol)
                  (new_volume (generateVolumeIdFromComponents VolumeTypeUnified fs ap inner)
                    fs (generateWekaSnapNameForSnapBasedVol (VolumePrefix config) (req_Name req))
                    ap inner client))
          end
      end
  end.

(** A content source without definition takes the blank path and then reads
    the identifier of a source snapshot that is not there. *)
Definition NewVolumeFromControllerCreateRequest (client : error + option ApiClient)
    (req : CreateVolumeRequest) : M run Volume :=
  let! api := of_sum client in
  let blank := of_sum (NewVolumeForBlankVolumeRequest config api req (DynamicVolPath config)) in
  let! volume :=
    match req_ContentSource req with
    | Some (MkSource _ (Some snap)) => NewVolumeForCreateFromSnapshotRequest api req snap
    | Some (MkSource (Some vol) None) => NewVolumeForCloneVolumeRequest api req vol
    | Some (MkSource None None) =>
        let! v := blank in
        match srcSnapshot v with None => panic | Some _ => ret v end
    | None => blank
    end in
  let! r := attempt (method_of (initMountOptions volume) (ObtainRequestParams server (GetParameters req))) in
  match r with
  | inl _ => throw (EStatus Internal "Could not obtain volume parameters from request")
  | inr (_, volume) =>
      let! (_, volume) := method_of volume (enrichWithEncryptionParams server) in
      ret (pruneUnsupportedMountOptions volume)
  end.
End Constructors.
