(* ===== verification/Handles.v ===== *)
(** * Identifiers lead back to what they were made for

    Kubernetes keeps only the identifier of a volume or snapshot.  The volume
    or snapshot that the driver rebuilds from it names the same objects of the
    cluster as the one it was generated for. *)
From S2P Require Import Prelude.
From S2P Require Import GoStrings.
From S2P Require Import Monad.
From S2P Require Import Hashing.
From S2P Require Import MountOptions.
From S2P Require Import Regex.
From S2P Require Import VolumeIds.
From S2P Require Import ApiObjects.
From S2P Require Import Compatibility.
From S2P Require Import Objects.
From S2P Require Import Effects.
From S2P Require Import ApiOps.
From S2P Require Import Volume.
From S2P Require Import Snapshots.
From S2P Require Import Constructors.
From S2P Require Import Demo.

(** Two volumes that stand for the same object of the cluster. *)
Definition same_object (v v' : Volume) : Prop :=
  FilesystemName v' = FilesystemName v /\ SnapshotName v' = SnapshotName v /\
  SnapshotAccessPoint v' = SnapshotAccessPoint v /\
  isFilesystem v' = isFilesystem v /\ isOnSnapshot v' = isOnSnapshot v /\
  requiresGc v' = requiresGc v /\ GetRelativePath v' = GetRelativePath v.

#[export] Instance same_object_trans : Transitive same_object.
Proof. intros x y z. unfold same_object. intros (?&?&?&?&?&?&?) (?&?&?&?&?&?&?). split_and!; congruence. Qed.

(** Permissions and mount options play no role. *)
Lemma same_object_init v p : same_object v (initMountOptions (set_permissions p v)).
Proof. done. Qed.
(** Nor does the leading slash of the inner path, away from snapshots. *)
Lemma same_object_slash id id' fs sn ap inner api :
  (ap = "" \/ inner = "") ->
  same_object (new_volume id fs sn ap inner api)
    (new_volume id' fs sn ap (if bool_decide (inner = "") then "" else "/" +:+ inner) api).
Proof.
  intros Hor. unfold same_object, isFilesystem, requiresGc, isOnSnapshot, hasInnerPath, GetRelativePath,
    isOnSnapshot, hasInnerPath. cbn [new_volume FilesystemName SnapshotName SnapshotAccessPoint SnapshotUuid innerPath].
  destruct (decide (inner = "")) as [->|Hne]; [done|].
  rewrite (bool_decide_false (inner = "")) by done.
  rewrite (bool_decide_false ("/" +:+ inner = "")) by (rewrite app_str_cons; done).
  destruct Hor as [->|?]; [|done]. cbn [negb bool_decide app].
  split_and!; done.
Qed.

(** What [NewVolumeFromId] makes of a generated identifier. *)
Lemma NewVolumeFromId_generated config a b fs ap inner api :
  contains_char "/" a = false -> contains_char "/" b = false ->
  component fs = true -> component ap = true -> (ap = "" \/ inner = "") ->
  let id := generateVolumeIdFromComponents (a +:+ "/" +:+ b) fs ap inner in
  validateVolumeId id = None ->
  exists v', NewVolumeFromId config id api = inr v' /\
    same_object (new_volume id fs (if bool_decide (ap = "") then "" else VolumePrefix config +:+ ap) ap inner api) v'.
Proof.
  intros Ha Hb Hfs Hap Hor id Hval. unfold NewVolumeFromId. rewrite Hval.
  destruct (volumeId_slices a b fs ap inner Ha Hb Hfs Hap) as (E1 & E2 & E3). fold id in E1, E2, E3.
  eexists. split; [reflexivity|]. etrans; [|apply same_object_init].
  unfold sliceSnapshotNameFromVolumeId. rewrite E1, E2, E3. by apply same_object_slash.
Qed.

#[local] Opaque getStringSha1AsB32 getStringSha1.
Lemma nameBase_ne name : generateWekaObjectNameBase name <> "".
Proof. unfold generateWekaObjectNameBase. intros [_ [? _]%app_str_nil_inv]%app_str_nil_inv. done. Qed.

(** The directory part of an identifier may not start with a newline. *)
Definition starts_well (s : string) : bool :=
  match s with String c _ => negb (bool_decide (c = "010"%char)) | EmptyString => false end.

(** (C18) A volume created without a content source is found again: the volume
    that later requests (deletion, expansion, snapshots, publishing) rebuild
    from its identifier is of the same kind and names the same filesystem,
    snapshot, access point and path, provided that
    - the configured prefix and the filesystem name have no colon or slash;
    - the requested name has no colon, unless the volume is a directory (with a
      colon the name is not recovered, [colon_name_not_recovered]);
    - the volume type is absent or one that the driver knows, and the path made
      for a directory volume is not empty and does not start with a newline;
    - the identifier is not longer than the driver accepts. *)
Theorem created_volume_found_again config client req v :
  let ty := default "" (GetParameters req !! "volumeType") in
  NewVolumeForBlankVolumeRequest config client req (DynamicVolPath config) = inr v ->
  component (VolumePrefix config) = true -> component (GetFSNameFromRequest (GetParameters req)) = true ->
  (ty <> VolumeTypeDirV1 -> contains_char ":" (req_Name req) = false) ->
  ty ∈ [VolumeTypeEmpty; VolumeTypeUnified; VolumeTypeDirV1] ->
  (ty = VolumeTypeDirV1 -> starts_well (generateInnerPathForDirBasedVol (DynamicVolPath config) (req_Name req)) = true) ->
  len (v_id v) <= maxVolumeIdLength ->
  exists v', NewVolumeFromId config (v_id v) client = inr v' /\ v_id v' = v_id v /\ same_object v v'.
Proof.
  intros ty Hv Hpre Hfs Hname Htype Hdir Hlen. unfold NewVolumeForBlankVolumeRequest in Hv. fold ty in Hv.
  set (name := req_Name req) in *. set (fs := GetFSNameFromRequest (GetParameters req)) in *.
  assert (Hbase : ty <> VolumeTypeDirV1 -> component (generateWekaObjectNameBase name) = true)
    by (intros; by apply nameBase_component, Hname).
  assert (Hid : forall v', NewVolumeFromId config (v_id v) client = inr v' -> v_id v' = v_id v).
  { unfold NewVolumeFromId. intros v'. destruct (validateVolumeId (v_id v)); [done|]. by intros [= <-]. }
  enough (Hgoal : exists v', NewVolumeFromId config (v_id v) client = inr v' /\ same_object v v') by naive_solver.
  clear Hid. destruct (decide (fs = "")) as [Efs|Efs].
  - rewrite bool_decide_true in Hv by done. case_hyp Hv; [discriminate Hv|]. bool_to_prop.
    assert (Ety : (if bool_decide (ty = VolumeTypeEmpty) then VolumeTypeUnified else ty) = VolumeTypeUnified).
    { case_bool_decide; [done|]. set_solver. }
    rewrite Ety in Hv. destruct (negb (allowAutoFsCreation config)); [discriminate Hv|]. apply (inj inr) in Hv as <-.
    apply (NewVolumeFromId_generated config "weka" "v2" _ "" ""); try done; [apply component_app; [done|auto]|by left|].
    refine (proj1 (generated_id_valid _ "" "" _ eq_refl _) Hlen); [apply component_app; [done|auto]|].
    intros [_ ?]%app_str_nil_inv. by apply (nameBase_ne name).
  - rewrite bool_decide_false in Hv by done. destruct (decide (ty = VolumeTypeDirV1)) as [Ety|Ety].
    + rewrite bool_decide_true in Hv by done. apply (inj inr) in Hv as <-. rewrite Ety in *.
      apply (NewVolumeFromId_generated config "dir" "v1" fs ""); try done; [by left|].
      specialize (Hdir eq_refl). unfold starts_well in Hdir. destruct (generateInnerPathForDirBasedVol _ _) as [|c r] eqn:E; [done|].
      apply negb_true_iff, bool_decide_eq_false in Hdir.
      by apply (proj2 (generated_id_valid fs "" (String c r) Hfs eq_refl Efs) c r).
    + rewrite bool_decide_false in Hv by done.
      assert (Hsnap : v = new_volume (generateVolumeIdFromComponents VolumeTypeUnified fs
          (generateWekaSnapAccessPointForSnapBasedVol name) "") fs
          (generateWekaSnapNameForSnapBasedVol (VolumePrefix config) name)
          (generateWekaSnapAccessPointForSnapBasedVol name) "" client).
      { destruct client; case_hyp Hv; try discriminate Hv; by apply (inj inr) in Hv as <-. }
      subst v. pose proof (nameBase_ne name) as Hne.
      destruct (NewVolumeFromId_generated config "weka" "v2" fs (generateWekaSnapAccessPointForSnapBasedVol name)
        "" client) as (v' & Hv' & Hsame); try done; [by apply Hbase|by right| |].
      { exact (proj1 (generated_id_valid _ _ "" Hfs (Hbase Ety) Efs) Hlen). }
      exists v'. split; [exact Hv'|]. by rewrite bool_decide_false in Hsame.
Qed.

Definition demo_request : CreateVolumeRequest :=
  MkCreateReq "pvc-1" (Some [false]) (Some {["filesystemName" := "fs1"; "volumeType" := VolumeTypeDirV1]})
    1000 None None.
Lemma created_volume_found_again_witness :
  exists v, NewVolumeForBlankVolumeRequest demo_config None demo_request (DynamicVolPath demo_config) = inr v /\
  exists v', NewVolumeFromId demo_config (v_id v) None = inr v' /\ v_id v' = v_id v /\ same_object v v'.
Proof.
  eexists. split; [reflexivity|].
  apply (created_volume_found_again demo_config None demo_request _ eq_refl); try reflexivity.
  - vm_compute. right. right. left.
  - vm_compute. discriminate.
Defined.

(** ** Snapshots *)

(** Two snapshots that stand for the same object of the cluster. *)
Definition same_snapshot (s s' : Snapshot) : Prop :=
  s_FilesystemName s' = s_FilesystemName s /\ s_SnapshotName s' = s_SnapshotName s /\
  s_SnapshotNameHash s' = s_SnapshotNameHash s /\ s_SnapshotIntegrityId s' = s_SnapshotIntegrityId s /\
  s_innerPath s' = s_innerPath s.

(** What [NewSnapshotFromVolumeCreate] fills in. *)
Lemma NewSnapshotFromVolumeCreate_fields {W} `{Env W} (server : Server) name
    (s s' : Run W Volume) snap :
  NewSnapshotFromVolumeCreate server name s = (Ok snap, s') ->
  let id := v_id (obj s) in
  s_FilesystemName snap = sliceFilesystemNameFromVolumeId id /\
  s_SnapshotNameHash snap = generateSnapshotNameHash name /\
  s_SnapshotIntegrityId snap = generateSnapshotIntegrityID name id /\
  s_SnapshotName snap = generateWekaSnapNameForSnapshot (SnapshotPrefix (getConfig server)) name /\
  s_innerPath snap = sliceInnerPathFromVolumeId id /\
  s_id snap = generateSnapshotIdFromComponents SnapshotTypeUnifiedSnap (s_FilesystemName snap)
                (s_SnapshotNameHash snap) (s_SnapshotIntegrityId snap) (s_innerPath snap).
Proof.
  unfold NewSnapshotFromVolumeCreate. rewrite (bind_Ok self _ s (obj s) s eq_refl).
  intros (u & s1 & _ & H1)%bind_inv. rewrite (bind_Ok self _ s1 (obj s1) s1 eq_refl) in H1.
  unfold ret in H1. apply (f_equal fst) in H1. cbn [fst] in H1. by injection H1 as <-.
Qed.

Lemma slice_inner_shape id :
  sliceInnerPathFromVolumeId id = "" \/ exists y, sliceInnerPathFromVolumeId id = "/" +:+ y.
Proof. unfold sliceInnerPathFromVolumeId. case_bool_decide; eauto. Qed.
Lemma sha_ne n name : (0 < n)%nat -> take_str n (getStringSha1AsB32 name) <> "".
Proof.
  intros Hn E. pose proof (getStringSha1AsB32_length name) as Hl.
  destruct n; [lia|]. destruct (getStringSha1AsB32 name); [done|]. done.
Qed.

(** (C32) A created snapshot is found again: the snapshot that later requests
    (deletion, restoring into a volume) rebuild from the identifier returned
    for a new snapshot has the same filesystem, name in the cluster, integrity
    id (access point) and inner path, provided that the requested name has no
    colon, that the inner path of the source volume is not a lone slash, and
    that the identifier is not longer than the driver accepts. *)
Theorem created_snapshot_found_again {W} `{Env W} (server : Server) name api (s s' : Run W Volume) snap :
  NewSnapshotFromVolumeCreate server name s = (Ok snap, s') ->
  contains_char ":" name = false -> sliceInnerPathFromVolumeId (v_id (obj s)) <> "/" ->
  len (s_id snap) <= maxVolumeIdLength ->
  exists snap', NewSnapshotFromId (getConfig server) (s_id snap) api = inr snap' /\
    s_id snap' = s_id snap /\ same_snapshot snap snap'.
Proof.
  intros (Ef & Eh & Ei & En & Ep & Eid)%NewSnapshotFromVolumeCreate_fields Hname Hinner Hlen.
  assert (Hf : component (s_FilesystemName snap) = true) by (rewrite Ef; apply slice_filesystem_component).
  assert (Hh : component (s_SnapshotNameHash snap) = true) by (rewrite Eh; by apply nameBase_component).
  assert (Hi : component (s_SnapshotIntegrityId snap) = true) by (rewrite Ei; apply hash_component).
  assert (Hp : s_innerPath snap <> "/") by (by rewrite Ep).
  destruct (snapshotId_slices _ _ _ _ Hf Hh Hi Hp) as (E1 & E2 & E3 & E4). rewrite <- Eid in E1, E2, E3, E4.
  assert (Hval : validateSnapshotId (s_id snap) = None).
  { rewrite Eid. apply generated_snapshot_id_valid; [done..| | |by rewrite <- Eid].
    - rewrite Eh. apply nameBase_ne.
    - rewrite Ei. apply sha_ne. unfold MaxHashLengthForObjectNames. lia. }
  unfold NewSnapshotFromId, same_snapshot. rewrite Hval. eexists. split; [reflexivity|]. cbn [s_id s_FilesystemName
    s_SnapshotNameHash s_SnapshotIntegrityId s_SnapshotName s_innerPath].
  rewrite E1, E2, E3, E4. split_and!; try done.
  - by rewrite En, Eh.
  - rewrite Ep. destruct (slice_inner_shape (v_id (obj s))) as [->|[y ->]]; [done|].
    by rewrite bool_decide_false, TrimPrefix_app by (by rewrite app_str_cons).
Qed.

Definition demo_snapshot_run : result Snapshot * Run nat Volume :=
  @NewSnapshotFromVolumeCreate nat (scripted (fun _ _ => None)) demo_server "snapshot-1"
    (MkRun demo_dir_volume 0%nat []).
Lemma created_snapshot_found_again_witness :
  exists snap, demo_snapshot_run = (Ok snap, MkRun demo_dir_volume 0%nat []) /\
  exists snap', NewSnapshotFromId demo_config (s_id snap) None = inr snap' /\
    s_id snap' = s_id snap /\ same_snapshot snap snap'.
Proof.
  exists (match fst demo_snapshot_run with Ok snap => snap | _ => MkSnapshot "" "" "" "" "" "" None None None end).
  assert (E : demo_snapshot_run = (Ok (match fst demo_snapshot_run with
    | Ok snap => snap | _ => MkSnapshot "" "" "" "" "" "" None None None end), MkRun demo_dir_volume 0%nat []))
    by (vm_compute; reflexivity).
  split; [exact E|].
  apply (@created_snapshot_found_again nat (scripted (fun _ _ => None)) demo_server "snapshot-1" None
    (MkRun demo_dir_volume 0%nat []) _ _ E).
  - reflexivity.
  - vm_compute. discriminate.
  - vm_compute. discriminate.
Defined.
