(* ===== verification/Controller.v ===== *)
(** * The controller service (pkg/wekafs/controllerserver.go)

    The handlers of the CSI controller requests, on the capacity tracker of
    the controller ([None] if there is no Kubernetes manager).  The deadline
    of a request is not modelled (its effect is an error of some call); the
    semaphores are calls whose answer says whether a slot was obtained. *)
From S2P Require Import Prelude.
From S2P Require Import GoStrings.
From S2P Require Import Monad.
From S2P Require Import Hashing.
From S2P Require Import MountOptions.
From S2P Require Import VolumeIds.
From S2P Require Import ApiObjects.
From S2P Require Import Compatibility.
From S2P Require Import Objects.
From S2P Require Import Effects.
From S2P Require Import ApiOps.
From S2P Require Import Volume.
From S2P Require Import CapacityTracker.
From S2P Require Import Snapshots.
From S2P Require Import Constructors.

Definition TopologyLabelWekaGlobal : string := "topology.csi.weka.io/global".
Definition TopologyKeyZone : string := "topology.kubernetes.io/zone".
Definition TopologyKeyRegion : string := "topology.kubernetes.io/region".
(** fmt.Sprintf("topology.%s/accessible", driverName) *)
Definition TopologyLabelWekaLocal (driverName : string) : string := "topology." +:+ driverName +:+ "/accessible".

(** The capabilities the driver can advertise ([ControllerServiceCapability_RPC_...]). *)
Inductive capability :=
| CREATE_DELETE_VOLUME | EXPAND_VOLUME | SINGLE_NODE_MULTI_WRITER
| CREATE_DELETE_SNAPSHOT | CLONE_VOLUME.
#[export] Instance capability_eq_dec : EqDecision capability.
Proof. solve_decision. Defined.
(** [NewControllerServer]: [snapshots] and [clones] are advertiseSnapshotSupport
    and advertiseVolumeCloneSupport. *)
Definition exposedCapabilities (snapshots clones : bool) : list capability :=
  [CREATE_DELETE_VOLUME; EXPAND_VOLUME; SINGLE_NODE_MULTI_WRITER] ++
  (if snapshots then [CREATE_DELETE_SNAPSHOT] else []) ++ (if clones then [CLONE_VOLUME] else []).
Definition validateControllerServiceRequest (caps : list capability) (c : capability) : option error :=
  if bool_decide (c ∈ caps) then None else Some (EStatus InvalidArgument "unsupported capability %s").

(** Only the zone and the region of a requested topology are copied. *)
Definition merge_topology (base reqTopo : gmap string string) : gmap string string :=
  filter (fun kv => kv.1 = TopologyKeyZone \/ kv.1 = TopologyKeyRegion) reqTopo ∪ base.
Definition generateAccessibleTopology (driverName : string)
    (requirements : option (list (gmap string string) * list (gmap string string)))
  : list (gmap string string) :=
  let base : gmap string string :=
    {[TopologyLabelWekaGlobal := "true"; TopologyLabelWekaLocal driverName := "true"]} in
  match requirements with
  | None => [base]
  | Some (requisite, preferred) =>
      let requested := match requisite with [] => preferred | _ => requisite end in
      match requested with [] => [base] | _ => merge_topology base <$> requested end
  end.

(** What a handler answers with: [csi.Volume] and the rest. *)
Record CsiVolume := MkCsiVolume {
  VolumeId : string; CapacityBytes : Z; VolumeContext : gmap string string;
  csi_ContentSource : option ContentSource; AccessibleTopology : list (gmap string string)
}.

Section Controller.
Context {W : Type} `{Env W} `{Clock} `{MapOrder} (server : Server) (caps : list capability).
Abbreviation run := (Run W (option CapacityTracker)).
Abbreviation config := (getConfig server).
Local Open Scope go_scope.

(** [err, dec := cs.acquireSemaphore(ctx, op); defer dec()] *)
Definition with_semaphore {V A} (op : string) (body : M (Run W V) A) : M (Run W V) A :=
  let! e := call (SemAcquire op) in
  match e with
  | Some _ => throw (EStatus Unavailable "Too many concurrent requests, please retry")
  | None => finally body (call (SemRelease op))
  end.

(** ** Capacity *)

Definition refreshFromKubernetesLocked (ct : CapacityTracker) : M run unit :=
  if negb (manager ct) then throw (EPlain "kubernetes manager not initialized - cannot refresh capacity")
  else
    let! r := call ListPVs in
    match r with
    | inl _ => throw (EPlain "failed to list PVs: %w")
    | inr pvs =>
        let! now := call TimeNow in
        update (fun _ => Some (refreshed (driverName config) pvs now ct))
    end.

Definition validateAndReserveCapacity (v : Volume) (currentCapacity targetCapacity : Z) : M run Volume :=
  if negb (hasInnerPath v) || isOnSnapshot v then ret v
  else
  let! t := self in
  match t with
  | None => throw (EStatus Internal "capacity enforcement enabled but tracker not initialized - kubernetes manager may have failed to start")
  | Some _ =>
      let! r := attempt (method_of v (getFilesystemObj true)) in
      match r with
      | inl _ => throw (EStatus Internal "failed to fetch filesystem %s: %v")
      | inr (None, _) => throw (EStatus Internal "filesystem %s not found")
      | inr (Some fsObj, v) =>
          let! now := call TimeNow in
          let! t := self in
          match t with
          | None => panic
          | Some ct =>
              (if capacityRefreshInterval <? now - lastRefreshTime ct
               then let! _ := attempt (refreshFromKubernetesLocked ct) in ret tt
               else ret tt) ;;
              let! t := self in
              match t with
              | None => panic
              | Some ct =>
                  let! stamp := call TimeNow in
                  let! ct' := of_sum (reserve (v_id v) (FilesystemName v) (fs_AvailableSsd fsObj)
                                        currentCapacity targetCapacity stamp ct) in
                  update (fun _ => Some ct') ;; ret v
              end
          end
      end
  end.

Definition releaseCapacityReservation (volumeID : string) : M run unit :=
  if enforceDirVolTotalCapacity config then update (fmap (deleteReservationLocked volumeID)) else ret tt.

(** ** CreateVolume *)

Definition CheckCreateVolumeRequestSanity (req : CreateVolumeRequest) : option error :=
  match validateControllerServiceRequest caps CREATE_DELETE_VOLUME with
  | Some e => Some e
  | None =>
      if bool_decide (req_Name req = "") then Some (EStatus InvalidArgument "Name missing in request")
      else
      match req_VolumeCapabilities req with
      | None => Some (EStatus InvalidArgument "Volume Capabilities missing in request")
      | Some block =>
          if existsb id block then Some (EStatus InvalidArgument "Block accessType is unsupported")
          else
          match req_ContentSource req with
          | Some (MkSource (Some _) (Some _)) =>
              Some (EStatus InvalidArgument "Cannot use multiple content sources in CreateVolumeRequest")
          | _ => None
          end
      end
  end.

(** The volume context of the answer; writing into a nil map panics. *)
Definition volume_context (req : CreateVolumeRequest) (v : Volume) : result (gmap string string) :=
  match req_Parameters req with
  | None => Panic
  | Some params =>
      Ok (<["provisionedByCsiVersion" := csiVersion config]>
            (<["mountOptions" := AsVolumeContext (mountOptions v)]> params))
  end.
Definition createResponse (req : CreateVolumeRequest) (params : gmap string string) (v : Volume) : CsiVolume :=
  MkCsiVolume (v_id v) (req_RequiredBytes req) params (getCsiContentSource v)
    (generateAccessibleTopology (driverName config) (req_Topology req)).

Definition CreateVolume (client : error + option ApiClient) (req : CreateVolumeRequest) : M run CsiVolume :=
  with_semaphore "CreateVolume" (
    of_err (CheckCreateVolumeRequestSanity req) ;;
    let! volume := NewVolumeFromControllerCreateRequest server client req in
    let! r := attempt (lift (CanBeOperated config volume)) in
    match r with
    | inl _ => throw (EStatus InvalidArgument "err.Error()")
    | inr _ =>
        let capacity := req_RequiredBytes req in
        let! ((volExists, volMatchesCapacity, err), volume) :=
          method_of volume (volumeExistsAndMatchesCapacity server capacity) in
        let! params := lift (volume_context req volume) in
        match volExists, err with
        | false, Some _ => throw (EStatus Internal "Could not check if volume %s exists: %s")
        | true, None =>
            if volMatchesCapacity then ret (createResponse req params volume)
            else throw (EStatus AlreadyExists "Volume with same name and different capacity already exists")
        | true, Some _ =>
            let! r := attempt (method_of volume (UpdateCapacity server (Some (enforceCapacity volume)) capacity)) in
            match r with
            | inl _ => throw (EStatus Internal "err.Error()")
            | inr (_, volume) =>
                let! r := attempt (method_of volume (UpdateParams server)) in
                match r with
                | inl _ => throw (EStatus Internal "err.Error()")
                | inr (_, volume) => ret (createResponse req params volume)
                end
            end
        | false, None =>
            let! volume :=
              if enforceDirVolTotalCapacity config then validateAndReserveCapacity volume 0 capacity
              else ret volume in
            let! r := attempt (method_of volume (Create server capacity)) in
            match r with
            | inl MountPermissionDenied => throw (EStatus PermissionDenied "err.Error()")
            | inl _ => throw (EStatus Internal "err.Error()")
            | inr (_, volume) => ret (createResponse req params volume)
            end
        end
    end).

(** ** DeleteVolume *)

Definition DeleteVolume (client : error + option ApiClient) (volumeID : string) : M run unit :=
  with_semaphore "DeleteVolume" (
    if bool_decide (volumeID = "") then throw (EStatus InvalidArgument "Volume ID missing in request")
    else
    match client with
    | inl _ => throw (EStatus Internal "Failed to initialize Weka API client for the request")
    | inr api =>
        match NewVolumeFromId config volumeID api with
        | inl _ => ret tt
        | inr volume =>
            match validateControllerServiceRequest caps CREATE_DELETE_VOLUME with
            | Some _ => throw (EStatus Internal "err.Error()")
            | None =>
                let! r := attempt (method_of volume (Trash server)) in
                match r with
                | inl EIsNotExist | inr _ => releaseCapacityReservation volumeID
                | inl ErrFilesystemHasUnderlyingSnapshots => throw ErrFilesystemHasUnderlyingSnapshots
                | inl _ => throw (EStatus Internal "err.Error()")
                end
            end
        end
    end).

(** ** ControllerExpandVolume: [capRange] is the required size, if a range is
    given.  The answer is the new capacity. *)

Definition ControllerExpandVolume (client : error + option ApiClient) (volumeID : string)
    (capRange : option Z) : M run Z :=
  let capacity := default (-1) capRange in
  with_semaphore "ExpandVolume" (
    if capacity =? -1 then throw (EStatus InvalidArgument "Capacity range not provided")
    else if bool_decide (volumeID = "") then throw (EStatus InvalidArgument "Volume ID not specified")
    else
    match client with
    | inl _ => throw (EStatus Internal "Failed to initialize Weka API client for the request")
    | inr api =>
        match NewVolumeFromId config volumeID api with
        | inl _ => throw (EStatus NotFound "Volume with id %s does not exist")
        | inr volume =>
            let! r := attempt (method_of volume (getMaxCapacity server)) in
            match r with
            | inl _ => throw (EStatus Unknown "ExpandVolume: Cannot obtain free capacity for volume %s")
            | inr (maxStorageCapacity, volume) =>
                if maxStorageCapacity <? capacity then
                  throw (EStatus OutOfRange "Requested capacity %d exceeds maximum allowed %d")
                else
                let! r := attempt (method_of volume (Exists server)) in
                match r with
                | inl _ => throw (EStatus NotFound "err.Error()")
                | inr (false, _) => throw (EStatus Internal "Volume does not exist")
                | inr (true, volume) =>
                    let! r := attempt (method_of volume (GetCapacity server)) in
                    match r with
                    | inl _ => throw (EStatus Internal "Could not get volume capacity: %s")
                    | inr (currentSize, volume) =>
                        if currentSize =? capacity then ret capacity
                        else
                        let! volume :=
                          if enforceDirVolTotalCapacity config
                          then validateAndReserveCapacity volume currentSize capacity
                          else ret volume in
                        let! r := attempt (method_of volume (UpdateCapacity server None capacity)) in
                        match r with
                        | inl _ => throw (EStatus Internal "Could not update volume: %s")
                        | inr _ => ret capacity
                        end
                    end
                end
            end
        end
    end).

(** ** Snapshots *)

Definition controller_CreateSnapshot (client : error + option ApiClient) (srcVolumeId snapName : string)
  : M run CsiSnapshot :=
  with_semaphore "CreateSnapshot" (
    if bool_decide (srcVolumeId = "") then
      throw (EStatus InvalidArgument "Cannot create snapshot without specifying SourceVolumeId")
    else if bool_decide (snapName = "") then
      throw (EStatus InvalidArgument "Cannot create snapshot without snapName")
    else
    match client with
    | inl _ => throw (EStatus Internal "Failed to initialize Weka API client for the req")
    | inr api =>
        match NewVolumeFromId config srcVolumeId api with
        | inl _ => throw (EStatus InvalidArgument "Invalid sourceVolumeId")
        | inr srcVolume =>
            let! r := attempt (method_of srcVolume (Exists server)) in
            match r with
            | inl _ => throw (EStatus Internal "Failed to check for existence of source volume %s")
            | inr (false, _) => throw (EStatus FailedPrecondition "Could not find source volume %s")
            | inr (true, srcVolume) =>
                let! (s, _) := method_of srcVolume (volume_CreateSnapshot server snapName) in
                let! (csi, _) := method_of s (getCsiSnapshot server) in
                ret csi
            end
        end
    end).

Definition controller_DeleteSnapshot (client : error + option ApiClient) (snapshotID : string) : M run unit :=
  with_semaphore "DeleteSnapshot" (
    if bool_decide (snapshotID = "") then
      throw (EStatus InvalidArgument "Failed to delete snapshot, no ID specified")
    else
    match validateSnapshotId snapshotID with
    | Some _ => ret tt
    | None =>
        match client with
        | inl _ => throw (EStatus Internal "Failed to initialize Weka API client for the req")
        | inr api =>
            match NewSnapshotFromId config snapshotID api with
            | inl _ => throw (EStatus Internal "Failed to initialize snapshot from ID")
            | inr existingSnap =>
                let! r := attempt (method_of existingSnap (snap_Delete server)) in
                match r with
                | inl _ => throw (EStatus Internal "Failed to delete snapshot")
                | inr _ => ret tt
                end
            end
        end
    end).

(** ** ValidateVolumeCapabilities: for each capability, whether it is a mount
    or a block capability.  The answer confirms all of them. *)

Definition ValidateVolumeCapabilities (client : error + option ApiClient) (volumeID : string)
    (capabilities : list (bool * bool)) : M run unit :=
  if bool_decide (volumeID = "") then throw (EStatus InvalidArgument "Volume ID cannot be empty")
  else
  match capabilities, client with
  | [], _ => throw (EStatus InvalidArgument "req.GetVolumeId()")
  | _, inl _ => throw (EStatus Internal "Failed to initialize Weka API client for the request")
  | _, inr api =>
      match NewVolumeFromId config volumeID api with
      | inl _ => throw (EStatus NotFound "err.Error()")
      | inr volume =>
          let! r := attempt (method_of volume (Exists server)) in
          match r with
          | inl _ | inr (false, _) => throw (EStatus NotFound "Could not find volume %s")
          | inr (true, _) =>
              if existsb (fun '(mount, block) => negb mount && negb block) capabilities then
                throw (EStatus InvalidArgument "cannot have both Mount and block access type be undefined")
              else ret tt
          end
      end
  end.
End Controller.
