(* ===== verification/Semaphores.v ===== *)
(** * How many requests run at once (controllerserver.go, nodeserver.go)

    Each operation has a semaphore, made by the first request that needs it:
    [initializeSemaphore] looks it up without the lock of the server, and again
    under it.  Requests are goroutines; their steps interleave in any order. *)
From S2P Require Import Prelude.

(** golang.org/x/sync/semaphore: [Acquire] with weight 1 is granted only while
    less than the size is held, [Release] gives one back. *)
Class Weighted (S : Type) := {
  NewWeighted : Z -> S;
  Acquire : S -> option S;
  Release : S -> S;
  weight_held : S -> Z;
  weight_size : S -> Z
}.
Class WeightedLaws (S : Type) `{Weighted S} := {
  new_held n : weight_held (NewWeighted n) = 0;
  new_size n : weight_size (NewWeighted n) = n;
  acquire_held s s' : Acquire s = Some s' -> weight_held s' = weight_held s + 1 /\ weight_held s' <= weight_size s;
  acquire_size s s' : Acquire s = Some s' -> weight_size s' = weight_size s;
  release_held s : 0 < weight_held s -> weight_held (Release s) = weight_held s - 1;
  release_size s : weight_size (Release s) = weight_size s
}.

(** Where a request is; [AtAcquire] and [Working] have the semaphore in hand. *)
Inductive pc :=
| AtCheck | AtLock | AtRecheck | AtCreate | AtUnlock | AtLookup | AtAcquire (id : nat) | Working (id : nat) | Finished.
#[export] Instance pc_eq_dec : EqDecision pc.
Proof. solve_decision. Defined.

Section Semaphores.
Context {S : Type} `{Weighted S}.

Record Requests := MkRequests {
  semaphores : gmap string nat;             (* the map of the server, to pointers *)
  heap : gmap nat S;
  lock : option nat;                        (* the request that holds the server's mutex *)
  requests : gmap nat (string * pc)         (* operation and place of each request *)
}.
Definition no_requests : Requests := MkRequests ∅ ∅ None ∅.
Inductive event :=
| Arrive (g : nat) (op : string)
| Step (g : nat)
| CtxDone (g : nat).                        (* the context of the request ends while it waits *)

Definition goto (g : nat) (op : string) (p : pc) (st : Requests) : Requests :=
  MkRequests (semaphores st) (heap st) (lock st) (<[g := (op, p)]> (requests st)).
Definition set_lock (l : option nat) (st : Requests) : Requests :=
  MkRequests (semaphores st) (heap st) l (requests st).
Definition put_semaphore (op : string) (s : S) (st : Requests) : Requests :=
  let id := fresh (dom (heap st)) in
  MkRequests (<[op := id]> (semaphores st)) (<[id := s]> (heap st)) (lock st) (requests st).
Definition update_semaphore (id : nat) (s : S) (st : Requests) : Requests :=
  MkRequests (semaphores st) (<[id := s]> (heap st)) (lock st) (requests st).

(** [initializeSemaphore], [maxConcurrencyPerOp[op]] reads 0 for other operations. *)
Definition initializeSemaphore (limits : gmap string Z) (g : nat) (op : string) (p : pc) (st : Requests) : option Requests :=
  match p with
  | AtCheck => Some (goto g op (if semaphores st !! op then AtLookup else AtLock) st)
  | AtLock => match lock st with None => Some (goto g op AtRecheck (set_lock (Some g) st)) | Some _ => None end
  | AtRecheck => Some (goto g op (if semaphores st !! op then AtUnlock else AtCreate) st)
  | AtCreate => Some (goto g op AtUnlock (put_semaphore op (NewWeighted (default 0 (limits !! op))) st))
  | AtUnlock => Some (goto g op AtLookup (set_lock None st))
  | _ => None
  end.
(** [acquireSemaphore] after that, and the release that the handler defers. *)
Definition acquireSemaphore (g : nat) (op : string) (p : pc) (st : Requests) : option Requests :=
  match p with
  | AtLookup => match semaphores st !! op with Some id => Some (goto g op (AtAcquire id) st) | None => None end
  | AtAcquire id =>
      match heap st !! id with
      | Some s => match Acquire s with Some s' => Some (goto g op (Working id) (update_semaphore id s' st)) | None => None end
      | None => None
      end
  | Working id =>
      match heap st !! id with
      | Some s => Some (goto g op Finished (update_semaphore id (Release s) st))
      | None => None
      end
  | _ => None
  end.
Definition step (limits : gmap string Z) (st : Requests) (e : event) : option Requests :=
  match e with
  | Arrive g op => match requests st !! g with None => Some (goto g op AtCheck st) | Some _ => None end
  | Step g =>
      match requests st !! g with
      | Some (op, p) =>
          match initializeSemaphore limits g op p st with Some st' => Some st' | None => acquireSemaphore g op p st end
      | None => None
      end
  | CtxDone g =>
      match requests st !! g with Some (op, AtAcquire _) => Some (goto g op Finished st) | _ => None end
  end.
Fixpoint run (limits : gmap string Z) (st : Requests) (es : list event) : option Requests :=
  match es with [] => Some st | e :: es' => match step limits st e with Some st' => run limits st' es' | None => None end end.

(** How many requests satisfy a test; those of an operation past the semaphore. *)
Definition count (P : string * pc -> bool) (m : gmap nat (string * pc)) : Z :=
  Z.of_nat (size (filter (fun kv => P kv.2 = true) m)).
Definition works (op : string) (r : string * pc) : bool :=
  match r with (op', Working _) => bool_decide (op' = op) | _ => false end.
Definition working (op : string) (st : Requests) : Z := count (works op) (requests st).
End Semaphores.
Arguments Requests : clear implicits.

(** * Theorems *)

Section Counting.
Context (P : string * pc -> bool).
Lemma count_insert_new g x m : m !! g = None -> count P (<[g := x]> m) = count P m + Z.b2z (P x).
Proof.
  intros Hg. unfold count. destruct (P x) eqn:Hx; cbn [Z.b2z].
  - rewrite map_filter_insert_True by done. rewrite map_size_insert_None; [lia|].
    apply map_lookup_filter_None. by left.
  - rewrite map_filter_insert_not'; [lia|by cbn; rewrite Hx|]. intros y Hy. by rewrite Hg in Hy.
Qed.
Lemma count_insert g x y m : m !! g = Some y -> count P (<[g := x]> m) = count P m - Z.b2z (P y) + Z.b2z (P x).
Proof.
  intros Hg. rewrite <- (insert_delete_id m g y Hg) at 2. rewrite <- (insert_delete_eq m g x).
  rewrite !count_insert_new by apply lookup_delete_eq. lia.
Qed.
End Counting.
Lemma count_le (P Q : string * pc -> bool) m : (forall g x, m !! g = Some x -> P x = true -> Q x = true) ->
  count P m <= count Q m.
Proof.
  intros HPQ. unfold count. apply inj_le, map_subseteq_size, map_subseteq_spec. intros g x.
  rewrite !map_lookup_filter_Some. cbn. intros [? ?]. eauto.
Qed.
Lemma count_zero P m : (forall g x, m !! g = Some x -> P x = false) -> count P m = 0.
Proof.
  intros HP. unfold count. assert (filter (fun kv : nat * (string * pc) => P kv.2 = true) m = ∅) as ->; [|done].
  apply map_empty. intros g. apply map_lookup_filter_None. right. intros x Hx. cbn. by rewrite (HP g x Hx).
Qed.

Section Invariant.
Context {S : Type} `{WeightedLaws S} (limits : gmap string Z).
Definition in_lock (p : pc) : bool := match p with AtRecheck | AtCreate | AtUnlock => true | _ => false end.
Definition in_hand (p : pc) : option nat := match p with AtAcquire id | Working id => Some id | _ => None end.
Definition holds (id : nat) (r : string * pc) : bool := bool_decide (snd r = Working id).
Definition limit (op : string) : Z := default 0 (limits !! op).
Record inv (st : Requests S) : Prop := {
  inv_lock g op p : requests st !! g = Some (op, p) -> in_lock p = true -> lock st = Some g;
  inv_create g op : requests st !! g = Some (op, AtCreate) -> semaphores st !! op = None;
  inv_ready g op p : requests st !! g = Some (op, p) -> p = AtUnlock \/ p = AtLookup -> is_Some (semaphores st !! op);
  inv_hand g op p id : requests st !! g = Some (op, p) -> in_hand p = Some id -> semaphores st !! op = Some id;
  inv_sem op id : semaphores st !! op = Some id -> exists s, heap st !! id = Some s /\ weight_size s = limit op;
  inv_held id s : heap st !! id = Some s ->
    weight_held s = count (holds id) (requests st) /\ weight_held s <= Z.max 0 (weight_size s)
}.

Ltac look := repeat match goal with
  | E : <[_ := _]> _ !! _ = Some _ |- _ => apply lookup_insert_Some in E as [[? ?]|[? ?]]; simplify_eq/=
  end.
(** A request moves on without taking or giving back a semaphore; the lock may
    change with it. *)
Lemma inv_move st g op p l : inv st ->
  (requests st !! g = None \/ exists old, requests st !! g = Some (op, old) /\ forall id, old <> Working id) ->
  (in_lock p = true -> l = Some g) ->
  (forall g' op' p', g' <> g -> requests st !! g' = Some (op', p') -> in_lock p' = true -> l = Some g') ->
  (p = AtCreate -> semaphores st !! op = None) ->
  (p = AtUnlock \/ p = AtLookup -> is_Some (semaphores st !! op)) ->
  (forall id, in_hand p = Some id -> semaphores st !! op = Some id /\ p <> Working id) ->
  inv (goto g op p (set_lock l st)).
Proof.
  intros [I1 I2 I3 I4 I5 I6] Hg H1 Hl H2 H3 H4.
  split; cbn [goto set_lock semaphores heap lock requests]; [intros; look; eauto..| |done|].
  - intros; look; [by apply H4|eauto].
  - intros id s Hs. destruct (I6 id s Hs) as [Hc Hle]. split; [|done]. rewrite Hc.
    assert (Hp : holds id (op, p) = false).
    { unfold holds. apply bool_decide_eq_false. cbn. intros ->. by destruct (H4 id eq_refl). }
    destruct Hg as [Hg|(old & Hg & Hold)].
    + rewrite count_insert_new by done. rewrite Hp. cbn. lia.
    + rewrite (count_insert _ _ _ _ _ Hg), Hp. unfold holds. rewrite bool_decide_false by apply Hold. cbn. lia.
Qed.
Lemma set_lock_same (st : Requests S) : set_lock (lock st) st = st.
Proof. by destruct st. Qed.
Lemma inv_goto st g op p old : inv st -> requests st !! g = Some (op, old) -> (forall id, old <> Working id) ->
  (in_lock p = true -> in_lock old = true) -> (p = AtCreate -> semaphores st !! op = None) ->
  (p = AtUnlock \/ p = AtLookup -> is_Some (semaphores st !! op)) ->
  (forall id, in_hand p = Some id -> semaphores st !! op = Some id /\ p <> Working id) ->
  inv (goto g op p st).
Proof.
  intros I Hg Hold Hl H2 H3 H4. rewrite <- (set_lock_same st).
  apply inv_move; eauto; [|intros; by eapply inv_lock]. intros Hp. by eapply inv_lock, Hl.
Qed.

(** The semaphore of a request changes together with the request. *)
Lemma inv_semaphore st g op old p id s s' : inv st -> requests st !! g = Some (op, old) -> in_hand old = Some id ->
  heap st !! id = Some s -> in_lock p = false -> p <> AtLookup -> (forall id', in_hand p = Some id' -> id' = id) ->
  weight_size s' = weight_size s -> weight_held s' <= Z.max 0 (weight_size s) ->
  weight_held s' = weight_held s - Z.b2z (holds id (op, old)) + Z.b2z (holds id (op, p)) ->
  inv (goto g op p (update_semaphore id s' st)).
Proof.
  intros I Hg Hold Hs Hp Hp' Hid Hsize Hle Hheld. pose proof I as [I1 I2 I3 I4 I5 I6].
  split; cbn [goto update_semaphore semaphores heap lock requests].
  - intros; look; [congruence|eauto].
  - intros; look; eauto.
  - intros g' op' p' Hr Hor. look; [|eauto]. by destruct Hor as [-> | ->].
  - intros g' op' p' id' Hr Hh. look; [|eauto]. rewrite (Hid id' Hh). eauto.
  - intros op' id' Hr. destruct (I5 op' id' Hr) as (s1 & Hs1 & Hz). destruct (decide (id' = id)) as [->|Hne].
    + rewrite Hs in Hs1. injection Hs1 as <-. exists s'. rewrite lookup_insert_eq. split; [done|congruence].
    + exists s1. by rewrite lookup_insert_ne.
  - intros id' s1 Hs1. destruct (I6 id s Hs) as [Hc _]. look.
    + split; [|lia]. rewrite (count_insert _ _ _ _ _ Hg). lia.
    + destruct (I6 id' s1) as [Hc' Hle']; [done|]. split; [|done]. rewrite (count_insert _ _ _ _ _ Hg), Hc'.
      assert (Hf : forall q, in_hand q = Some id \/ in_hand q = None -> holds id' (op, q) = false).
      { intros q Hq. unfold holds. apply bool_decide_eq_false. cbn. intros ->. cbn in Hq. destruct Hq; congruence. }
      rewrite !Hf; [lia| |by left]. destruct (in_hand p) eqn:E; [left; f_equal; by apply Hid|by right].
Qed.

(** Nobody has a semaphore in hand that does not exist. *)
Lemma fresh_unheld st id g r : inv st -> heap st !! id = None -> requests st !! g = Some r -> holds id r = false.
Proof.
  intros I Hid Hr. unfold holds. apply bool_decide_eq_false. intros Hw. destruct r as [op p]. cbn in Hw. subst p.
  apply (inv_hand _ I g op _ id) in Hr; [|done]. apply (inv_sem _ I) in Hr as (s & Hs & _). congruence.
Qed.
Lemma inv_put st g op : inv st -> requests st !! g = Some (op, AtCreate) ->
  inv (goto g op AtUnlock (put_semaphore op (NewWeighted (limit op)) st)).
Proof.
  intros I Hg. pose proof I as [I1 I2 I3 I4 I5 I6]. pose proof (I1 _ _ _ Hg eq_refl) as Hlock. pose proof (I2 _ _ Hg) as Hnone.
  assert (Hid : heap st !! fresh (dom (heap st)) = None) by (apply not_elem_of_dom, is_fresh).
  unfold goto, put_semaphore. revert Hid. generalize (fresh (dom (heap st))). intros new Hid.
  split; cbn [semaphores heap lock requests].
  - intros; look; eauto.
  - intros g' op' Hr. look. pose proof (I1 _ _ _ H2 eq_refl). congruence.
  - intros g' op' p Hr Hor. look; [rewrite lookup_insert_eq; eauto|].
    destruct (decide (op' = op)) as [->|Hne]; [rewrite lookup_insert_eq; eauto|rewrite lookup_insert_ne by done; eauto].
  - intros g' op' p id' Hr Hh. look. rewrite lookup_insert_ne; [eauto|]. intros <-. rewrite (I4 _ _ _ _ H2 Hh) in Hnone. done.
  - intros op' id' Hr. look.
    + exists (NewWeighted (limit op')). rewrite lookup_insert_eq. split; [done|apply new_size].
    + destruct (I5 op' id') as (s & Hs & Hz); [done|]. exists s. rewrite lookup_insert_ne by congruence. done.
  - intros id' s Hs. look.
    + rewrite new_held. split; [|lia]. rewrite (count_insert _ _ _ _ _ Hg), (count_zero (holds _)); [done|].
      intros g' x Hx. by eapply fresh_unheld.
    + destruct (I6 id' s) as [Hc Hle]; [done|]. split; [|done]. rewrite (count_insert _ _ _ _ _ Hg), Hc.
      unfold holds. rewrite !bool_decide_false by done. cbn. lia.
Qed.

Lemma inv_initialize st st' g op p : inv st -> requests st !! g = Some (op, p) ->
  initializeSemaphore limits g op p st = Some st' -> inv st'.
Proof.
  intros I Hg E. destruct p; cbn in E; simplify_eq.
  - destruct (semaphores st !! op) eqn:Es; eapply inv_goto; eauto; try done; try (by intros [?|?]).
  - destruct (lock st) eqn:El; [done|]. injection E as <-. apply inv_move; eauto; try done; try (by intros [?|?]).
    intros g' op' p' _ Hr Hp. pose proof (inv_lock _ I _ _ _ Hr Hp). congruence.
  - destruct (semaphores st !! op) eqn:Es; eapply inv_goto; eauto; try done; try (by intros [?|?]).
  - by apply inv_put.
  - pose proof (inv_lock _ I _ _ _ Hg eq_refl) as El. apply inv_move; eauto; try done.
    + intros g' op' p' Hne Hr Hp. pose proof (inv_lock _ I _ _ _ Hr Hp). congruence.
    + intros _. eapply inv_ready; eauto.
Qed.
Lemma inv_acquire st st' g op p : inv st -> requests st !! g = Some (op, p) ->
  acquireSemaphore g op p st = Some st' -> inv st'.
Proof.
  intros I Hg E. destruct p; cbn in E; simplify_eq.
  - destruct (semaphores st !! op) as [id|] eqn:Es; [|done]. injection E as <-.
    eapply inv_goto; eauto; try done; try (by intros [?|?]). by intros id' [= <-].
  - destruct (heap st !! id) as [s|] eqn:Es; [|done]. destruct (Acquire s) as [s'|] eqn:Ea; [|done]. injection E as <-.
    destruct (acquire_held _ _ Ea) as [Hh Hle]. eapply inv_semaphore; eauto; try done.
    + by intros id' [= ->].
    + by apply acquire_size.
    + lia.
    + unfold holds. cbn. rewrite bool_decide_false, bool_decide_true by done. cbn. lia.
  - destruct (heap st !! id) as [s|] eqn:Es; [|done]. injection E as <-.
    destruct (inv_held _ I _ _ Es) as [Hc Hle].
    assert (Hpos : 0 < weight_held s).
    { rewrite Hc. pose proof (count_insert (holds id) g (op, Finished) _ _ Hg) as Hi. unfold holds at 3 4 in Hi.
      rewrite bool_decide_true, bool_decide_false in Hi by done. cbn in Hi. unfold count in *. lia. }
    pose proof (release_held _ Hpos) as Hr. eapply inv_semaphore; eauto; try done.
    + apply release_size.
    + lia.
    + unfold holds. cbn. rewrite bool_decide_true, bool_decide_false by done. cbn. lia.
Qed.
Lemma inv_step st e st' : inv st -> step limits st e = Some st' -> inv st'.
Proof.
  intros I E. destruct e as [g op|g|g]; cbn in E.
  - destruct (requests st !! g) eqn:Hg; [done|]. injection E as <-. rewrite <- (set_lock_same st).
    apply inv_move; eauto; try done; try (by intros [?|?]). intros; by eapply inv_lock.
  - destruct (requests st !! g) as [[op p]|] eqn:Hg; [|done].
    destruct (initializeSemaphore _ _ _ _ _) as [st1|] eqn:E1; [injection E as <-; by eapply inv_initialize|].
    by eapply inv_acquire.
  - destruct (requests st !! g) as [[op []]|] eqn:Hg; try done. injection E as <-.
    eapply inv_goto; eauto; try done; try (by intros [?|?]).
Qed.
Lemma inv_run es : forall st st', inv st -> run limits st es = Some st' -> inv st'.
Proof.
  induction es as [|e es IH]; intros st st' I; cbn [run]; [by intros [= <-]|].
  destruct (step limits st e) eqn:E; [|done]. by eapply IH, inv_step.
Qed.
Lemma inv_no_requests : inv no_requests.
Proof. split; cbn; intros *; rewrite lookup_empty; done. Qed.

(** (C6) No more requests of an operation run at once than configured: with any
    number of goroutines that initialise, acquire and release the semaphores in
    any interleaving, at most maxConcurrencyPerOp of an operation are past its
    semaphore, and none of an operation without a limit. *)
Theorem concurrency_bounded es st op : run limits no_requests es = Some st -> working op st <= Z.max 0 (limit op).
Proof.
  intros Hr. pose proof (inv_run es _ _ inv_no_requests Hr) as I. unfold working.
  destruct (semaphores st !! op) as [id|] eqn:Es.
  - destruct (inv_sem _ I _ _ Es) as (s & Hs & <-). destruct (inv_held _ I _ _ Hs) as [Hc Hle]. rewrite Hc in Hle.
    etransitivity; [|exact Hle]. apply count_le. intros g [op' p] Hg Hw. destruct p; try done. cbn in Hw.
    apply bool_decide_eq_true in Hw. subst op'. apply bool_decide_eq_true. cbn.
    pose proof (inv_hand _ I _ _ _ _ Hg eq_refl). congruence.
  - rewrite count_zero; [lia|]. intros g [op' p] Hg. destruct p; try done. cbn. apply bool_decide_eq_false. intros ->.
    pose proof (inv_hand _ I _ _ _ _ Hg eq_refl). congruence.
Qed.
End Invariant.

(** ** Witness: a counter and its size *)

#[export] Instance counter : Weighted (Z * Z) := {
  NewWeighted n := (0, n);
  Acquire s := if fst s <? snd s then Some (fst s + 1, snd s) else None;
  Release s := (fst s - 1, snd s);
  weight_held := fst;
  weight_size := snd
}.
#[export] Instance counter_laws : WeightedLaws (Z * Z).
Proof.
  split; try done.
  - intros [h n] s'. cbn. destruct (Z.ltb_spec h n); [|done]. intros [= <-]. cbn. lia.
  - intros [h n] s'. cbn. destruct (h <? n); [|done]. by intros [= <-].
Qed.
Definition demo_limits : gmap string Z := {["CreateVolume" := 1]}.
(** Two requests race for the first semaphore; one works, the other waits. *)
Definition demo_race : list event :=
  [Arrive 1 "CreateVolume"; Arrive 2 "CreateVolume"; Step 1; Step 2; Step 1; Step 1; Step 1; Step 1; Step 2; Step 2;
   Step 2; Step 2; Step 1; Step 1]%nat.
Lemma concurrency_bounded_witness : exists st, run demo_limits no_requests demo_race = Some st /\
  requests st !! 1%nat = Some ("CreateVolume", Working 0) /\ requests st !! 2%nat = Some ("CreateVolume", AtAcquire 0) /\
  working "CreateVolume" st <= 1.
Proof.
  destruct (run demo_limits no_requests demo_race) as [st|] eqn:E; [|vm_compute in E; discriminate E].
  exists st. split; [reflexivity|].
  assert (F : forall g, (g = 1 \/ g = 2)%nat -> match run demo_limits no_requests demo_race with
    | Some st => requests st !! g = Some ("CreateVolume", if bool_decide (g = 1%nat) then Working 0 else AtAcquire 0)
    | None => False end) by (intros g [->| ->]; vm_compute; reflexivity).
  rewrite E in F. split; [exact (F 1%nat (or_introl eq_refl))|]. split; [exact (F 2%nat (or_intror eq_refl))|].
  exact (concurrency_bounded demo_limits demo_race st "CreateVolume" E).
Defined.
(** A request reads the map of semaphores while another, under the lock, is
    about to write it. *)
Example unsynchronised_read : match run demo_limits no_requests
    [Arrive 1 "CreateVolume"; Step 1; Step 1; Step 1; Arrive 2 "DeleteVolume"]%nat with
  | Some st => requests st !! 1%nat = Some ("CreateVolume", AtCreate) /\ requests st !! 2%nat = Some ("DeleteVolume", AtCheck)
  | None => False
  end.
Proof. vm_compute. split; reflexivity. Qed.
