(* ===== verification/ControllerRuns.v ===== *)
(** * What the controller's handlers do to mounts and semaphores

    Along the structure of each handler, for any preorder on traces that
    allows the ordinary calls and the brackets [mounted] and [with_semaphore];
    then for the relation that compares open mounts and held semaphores. *)
From S2P Require Import Prelude.
From S2P Require Import GoStrings.
From S2P Require Import Monad.
From S2P Require Import Hashing.
From S2P Require Import MountOptions.
From S2P Require Import VolumeIds.
From S2P Require Import ApiObjects.
From S2P Require Import Compatibility.
From S2P Require Import Objects.
From S2P Require Import Effects.
From S2P Require Import ApiOps.
From S2P Require Import Volume.
From S2P Require Import VolumeRuns.
From S2P Require Import CapacityTracker.
From S2P Require Import Snapshots.
From S2P Require Import Constructors.
From S2P Require Import Controller.

(** Calls that take or give back nothing and resize no filesystem. *)
Definition plain_call (e : event) : bool :=
  match e with
  | MountFs _ _ | UnmountFs _ _ | SemAcquire _ | SemRelease _ | PutFileSystem _ => false
  | _ => true
  end.

Section ControllerRuns.
Context {W : Type} `{Env W} `{Clock} `{MapOrder} (server : Server) (caps : list capability).
Context (R : relation (list entry)) `{!PreOrder R}.
Hypothesis Hplain : forall e, plain_call e = true -> allows R e.
Hypothesis Hmounted : forall A (body : M (Run W Volume) A), respects R body -> respects R (mounted server body).
Hypothesis Hresize : forall c, respects (W:=W) R (resizeFilesystem server c).
Abbreviation ok V m := (respects (W:=W) (V:=V) R m).

Lemma query_plain e : is_query e = true -> allows R e.
Proof. intros He. apply Hplain. by destruct e. Qed.
Local Hint Extern 1 (allows _ _) => (apply Hplain; reflexivity) : respects.

(** The operations of volumes, with the hypotheses of [VolumeRuns] discharged. *)
Ltac from_volume lem :=
  apply lem; first [apply _|exact query_plain|exact Hmounted|exact Hresize|intros; apply Hplain; reflexivity].
Lemma ctl_getFilesystemObj b : ok Volume (getFilesystemObj b).
Proof. from_volume (respects_getFilesystemObj (W:=W)). Qed.
Lemma ctl_getSnapshotObj b : ok Volume (getSnapshotObj b).
Proof. from_volume (respects_getSnapshotObj (W:=W)). Qed.
Lemma ctl_Exists_results : ok Volume (Exists_results server).
Proof. from_volume (respects_Exists_results (W:=W)). Qed.
Lemma ctl_Exists : ok Volume (Exists server).
Proof. from_volume (respects_Exists (W:=W)). Qed.
Lemma ctl_enrich : ok Volume (enrichWithEncryptionParams server).
Proof. from_volume (respects_enrich (W:=W)). Qed.
Lemma ctl_getMaxCapacity : ok Volume (getMaxCapacity server).
Proof. from_volume (respects_getMaxCapacity (W:=W)). Qed.
Lemma ctl_GetCapacity : ok Volume (GetCapacity server).
Proof. from_volume (respects_GetCapacity (W:=W)). Qed.
Lemma ctl_UpdateCapacity e c : ok Volume (UpdateCapacity server e c).
Proof. from_volume (respects_UpdateCapacity (W:=W)). Qed.
Lemma ctl_UpdateParams : ok Volume (UpdateParams server).
Proof. from_volume (respects_UpdateParams (W:=W)). Qed.
Lemma ctl_Create c : ok Volume (Create server c).
Proof. from_volume (respects_Create (W:=W)). Qed.
Lemma ctl_ObtainRequestParams p : ok Volume (ObtainRequestParams server p).
Proof. from_volume (respects_ObtainRequestParams (W:=W)). Qed.
Lemma ctl_getObject : ok Snapshot (getObject server).
Proof. from_volume (respects_getObject (W:=W)). Qed.
Local Hint Resolve ctl_getFilesystemObj ctl_getSnapshotObj ctl_Exists_results ctl_Exists ctl_enrich
  ctl_getMaxCapacity ctl_GetCapacity ctl_UpdateCapacity ctl_UpdateParams ctl_Create
  ctl_ObtainRequestParams ctl_getObject : respects.
Ltac crespects := repeat first [ solve [eauto 3 with respects] | respects_step ].

Lemma ctl_Delete : ok Volume (Delete server).
Proof.
  unfold Delete. crespects.
  - from_volume (respects_isAllowedForDeletion (W:=W)).
  - from_volume (respects_deleteFilesystem (W:=W)).
  - from_volume (respects_deleteSnapshot (W:=W)).
  - from_volume (respects_deleteDirectory (W:=W)).
Qed.
Local Hint Resolve ctl_Delete : respects.
Lemma ctl_Trash : ok Volume (Trash server).
Proof. unfold Trash. crespects. Qed.
Lemma ctl_with_underlying_fs {A} (body : M (Run W Volume) A) :
  ok Volume body -> ok Volume (with_underlying_fs server body).
Proof. intros Hb. unfold with_underlying_fs. respects. Qed.
Local Hint Resolve ctl_Trash : respects.

(** *** Snapshots *)
Lemma ctl_api_query {V} n : ok V (GetFileSystemByName n).
Proof. from_volume (respects_GetFileSystemByName (W:=W) (V:=V)). Qed.
Lemma ctl_api_create {V} r : ok V (CreateSnapshot r).
Proof. from_volume (respects_CreateSnapshot (W:=W) (V:=V)). Qed.
Lemma ctl_api_delete {V} u : ok V (DeleteSnapshot u).
Proof. from_volume (respects_DeleteSnapshot (W:=W) (V:=V)). Qed.
Local Hint Resolve ctl_api_query ctl_api_create ctl_api_delete : respects.
Lemma ctl_snap_mimic : ok Snapshot (snap_mimicDirectoryStructureForDebugMode server).
Proof.
  unfold snap_mimicDirectoryStructureForDebugMode, on_source. crespects.
  apply ctl_with_underlying_fs. crespects.
Qed.
Local Hint Resolve ctl_snap_mimic : respects.
Lemma ctl_snap_Exists : ok Snapshot (snap_Exists server).
Proof. unfold snap_Exists. crespects. Qed.
Lemma ctl_snap_Create : ok Snapshot (snap_Create server).
Proof. unfold snap_Create, getFileSystemObject. crespects. Qed.
Lemma ctl_snap_wait i k n : ok Snapshot (snap_waitForSnapshotDeletion server i k n).
Proof. revert i. induction n; intros i; cbn [snap_waitForSnapshotDeletion]; crespects. Qed.
Local Hint Resolve ctl_snap_Exists ctl_snap_Create ctl_snap_wait : respects.
Lemma ctl_snap_Delete : ok Snapshot (snap_Delete server).
Proof. unfold snap_Delete. crespects. Qed.
Lemma ctl_getCsiSnapshot : ok Snapshot (getCsiSnapshot server).
Proof. unfold getCsiSnapshot. crespects. Qed.
Lemma ctl_volume_CreateSnapshot n : ok Volume (volume_CreateSnapshot server n).
Proof. unfold volume_CreateSnapshot, NewSnapshotFromVolumeCreate. crespects. Qed.
Local Hint Resolve ctl_snap_Delete ctl_getCsiSnapshot ctl_volume_CreateSnapshot : respects.

(** *** Requests *)
Lemma ctl_NewVolume {V} c req : ok V (NewVolumeFromControllerCreateRequest server c req).
Proof.
  unfold NewVolumeFromControllerCreateRequest, NewVolumeForCreateFromSnapshotRequest,
    NewVolumeForCloneVolumeRequest. crespects.
Qed.
Lemma ctl_volumeExists c : ok Volume (volumeExistsAndMatchesCapacity server c).
Proof. unfold volumeExistsAndMatchesCapacity. crespects. Qed.
Lemma ctl_validateAndReserve v c t : ok (option CapacityTracker) (validateAndReserveCapacity server v c t).
Proof. unfold validateAndReserveCapacity, refreshFromKubernetesLocked. crespects. Qed.
Lemma ctl_release v : ok (option CapacityTracker) (releaseCapacityReservation server v).
Proof. unfold releaseCapacityReservation. crespects. Qed.
Local Hint Resolve ctl_NewVolume ctl_volumeExists ctl_validateAndReserve ctl_release : respects.

Hypothesis Hsem : forall op A (body : M (Run W (option CapacityTracker)) A),
  respects R body -> respects R (with_semaphore op body).
Ltac handler := apply Hsem; crespects.
Lemma ctl_CreateVolume c req : ok (option CapacityTracker) (CreateVolume server caps c req).
Proof. unfold CreateVolume. handler. Qed.
Lemma ctl_DeleteVolume c i : ok (option CapacityTracker) (DeleteVolume server caps c i).
Proof. unfold DeleteVolume. handler. Qed.
Lemma ctl_ControllerExpandVolume c i r : ok (option CapacityTracker) (ControllerExpandVolume server c i r).
Proof. unfold ControllerExpandVolume. handler. Qed.
Lemma ctl_CreateSnapshot c i n : ok (option CapacityTracker) (controller_CreateSnapshot server c i n).
Proof. unfold controller_CreateSnapshot. handler. Qed.
Lemma ctl_DeleteSnapshot c i : ok (option CapacityTracker) (controller_DeleteSnapshot server c i).
Proof. unfold controller_DeleteSnapshot. handler. Qed.
Lemma ctl_ValidateVolumeCapabilities c i l :
  ok (option CapacityTracker) (ValidateVolumeCapabilities server c i l).
Proof. unfold ValidateVolumeCapabilities. crespects. Qed.
End ControllerRuns.

(** ** Semaphores *)

(** How many slots of [op] a trace holds: granted less released. *)
Definition sem_step (op : string) (e : entry) (n : Z) : Z :=
  match e with
  | Did (SemAcquire o) None => if bool_decide (o = op) then n + 1 else n
  | Did (SemRelease o) _ => if bool_decide (o = op) then n - 1 else n
  | _ => n
  end.
Definition held (op : string) (tr : list entry) : Z := foldr (sem_step op) 0 tr.
(** The same slots are held, and the same mounts but for those whose release
    was refused. *)
Definition released (tr tr' : list entry) : Prop :=
  balanced tr tr' /\ forall op, held op tr' = held op tr.
#[export] Instance released_preorder : PreOrder released.
Proof.
  split; [done|]. intros x y z [Hm1 Hs1] [Hm2 Hs2]. split; [by transitivity y|].
  intros op. by rewrite Hs2.
Qed.

Section Released.
Context {W : Type} `{Env W} `{Clock} `{MapOrder} (server : Server).

Lemma released_call e :
  match e with MountFs _ _ | UnmountFs _ _ | SemAcquire _ | SemRelease _ => False | _ => True end ->
  allows released e.
Proof.
  intros He a tr. split; [|intros op; by destruct e].
  apply balanced_call; intros fs o ->; done.
Qed.
Lemma released_plain e : plain_call e = true -> allows released e.
Proof. intros He. apply released_call. by destruct e. Qed.
Lemma released_mounted A (body : M (Run W Volume) A) :
  respects released body -> respects released (mounted server body).
Proof.
  intros Hb s. split.
  - apply balanced_mounted. intros s'. apply Hb.
  - intros op. enough (Hr : respects (fun tr tr' => held op tr' = held op tr) (mounted server body)) by apply Hr.
    assert (PreOrder (fun tr tr' : list entry => held op tr' = held op tr)).
    { split; [done|]. intros x y z Hxy Hyz. cbn in *. congruence. }
    apply (respects_mounted server _); [by intros|by intros|]. intros s'. apply Hb.
Qed.
Lemma released_resize c : respects (W:=W) released (resizeFilesystem server c).
Proof.
  apply respects_resizeFilesystem; [apply _| |intros r; by apply released_call].
  intros e He. apply released_plain. by destruct e.
Qed.
Lemma released_semaphore {V} op A (body : M (Run W V) A) :
  respects released body -> respects released (with_semaphore op body).
Proof.
  intros Hb s. unfold with_semaphore, bind, call. destruct (exec (SemAcquire op) (env s)) as [a w].
  assert (Hsem : forall x, (forall fs o, x <> MountFs fs o) -> (forall fs o, x <> UnmountFs fs o) ->
    forall a tr, balanced tr (Did x a :: tr)) by (intros x Hx1 Hx2; by apply balanced_call).
  destruct a as [e|]; [split; [by apply Hsem|done]|].
  set (s1 := MkRun (obj s) w (Did (SemAcquire op) None :: trace s)).
  pose proof (Hb s1) as [Hm Hs]. unfold finally, both, bind. destruct (body s1) as [r s2].
  cbn [snd] in Hm, Hs. unfold call. destruct (exec (SemRelease op) (env s2)) as [u w2].
  assert (E : released (trace s) (Did (SemRelease op) u :: trace s2)).
  { split.
    - transitivity (trace s1); [by apply Hsem|]. etransitivity; [exact Hm|]. by apply Hsem.
    - intros o. change (held o (Did (SemRelease op) u :: trace s2))
        with (if bool_decide (op = o) then held o (trace s2) - 1 else held o (trace s2)).
      rewrite Hs. change (held o (trace s1))
        with (if bool_decide (op = o) then held o (trace s) + 1 else held o (trace s)).
      case_bool_decide; lia. }
  by destruct r.
Qed.
End Released.

(** (C4) No request forgets what it took: however a request to the controller
    ends (answer, error or panic), the semaphore slots that are held afterwards
    are those from before it, and so are the filesystem mounts, but for those
    whose release the request attempted and the mounter refused. *)
Theorem controller_requests_release {W} `{Env W} `{Clock} `{MapOrder} (server : Server)
    (caps : list capability) (s : Run W (option CapacityTracker)) (client : error + option ApiClient)
    (req : CreateVolumeRequest) (id name : string) (size : option Z) (capabilities : list (bool * bool)) :
  released (trace s) (trace (snd (CreateVolume server caps client req s))) /\
  released (trace s) (trace (snd (DeleteVolume server caps client id s))) /\
  released (trace s) (trace (snd (ControllerExpandVolume server client id size s))) /\
  released (trace s) (trace (snd (controller_CreateSnapshot server client id name s))) /\
  released (trace s) (trace (snd (controller_DeleteSnapshot server client id s))) /\
  released (trace s) (trace (snd (ValidateVolumeCapabilities server client id capabilities s))).
Proof.
  split_and!; [apply ctl_CreateVolume|apply ctl_DeleteVolume|apply ctl_ControllerExpandVolume
    |apply ctl_CreateSnapshot|apply ctl_DeleteSnapshot|apply ctl_ValidateVolumeCapabilities];
    first [apply _|apply released_plain|apply released_mounted|apply released_resize|apply released_semaphore].
Qed.
