(* ===== verification/VolumeCapacity.v ===== *)
(** * Changing the capacity of volumes (pkg/wekafs/volume.go)

    How the SSD limits of a tiered filesystem are scaled, that filesystems are
    only ever grown, and that the capacity of a volume ends up in its quota. *)
From S2P Require Import Prelude.
From S2P Require Import GoStrings.
From S2P Require Import Strconv.
From S2P Require Import Monad.
From S2P Require Import Hashing.
From S2P Require Import MountOptions.
From S2P Require Import VolumeIds.
From S2P Require Import ApiObjects.
From S2P Require Import Compatibility.
From S2P Require Import Objects.
From S2P Require Import Effects.
From S2P Require Import ApiOps.
From S2P Require Import Volume.
From S2P Require Import VolumeRuns.
From S2P Require Import Demo.
From S2P Require Import VolumeDelete.
From S2P Require Import CapacityTracker.
From S2P Require Import Snapshots.
From S2P Require Import Constructors.
From S2P Require Import Controller.
From S2P Require Import ControllerRuns.

(** ** Scaling *)

(** [r] is [old * num / den], rounded down. *)
Definition share (old num den r : Z) : Prop := r * den <= old * num < (r + 1) * den.

(** (C33) Scaling an SSD limit with the total capacity does not panic, and does
    not overflow for a limit up to the total nor for a greater one whose scaled
    value fits 64 bits: the result is the exact ratio rounded down and is not
    below the old limit.  A limit up to the total stays up to the new total,
    and one equal to the total stays equal to it; one above the total comes out
    no lower than the new total. *)
Theorem thin_ssd_scaling oldTotal oldVal newTotal :
  0 < oldTotal -> 0 <= oldVal -> oldTotal <= newTotal < 2 ^ 63 ->
  oldVal <= oldTotal \/ oldVal * newTotal < 2 ^ 63 * oldTotal ->
  exists r, scaleThinSsdOnExpand oldTotal oldVal newTotal true = Ok r /\
    share oldVal newTotal oldTotal r /\ oldVal <= r /\
    (oldVal <= oldTotal -> r <= newTotal) /\
    (oldVal = oldTotal -> r = newTotal) /\
    (oldTotal < oldVal -> newTotal <= r).
Proof.
  intros H0 Hv Ht Hfit. unfold share, scaleThinSsdOnExpand. cbn [negb].
  rewrite (proj2 (Z.eqb_neq _ _)) by lia. unfold Ediv. rewrite (proj2 (Z.ltb_lt _ _)) by lia.
  set (q := oldVal * newTotal / oldTotal).
  assert (Hq : q * oldTotal <= oldVal * newTotal < (q + 1) * oldTotal).
  { unfold q. pose proof (Z.mul_div_le (oldVal * newTotal) oldTotal H0).
    pose proof (Z.mul_succ_div_gt (oldVal * newTotal) oldTotal H0). lia. }
  assert (Hlow : oldVal <= q) by (apply Z.div_le_lower_bound; nia).
  assert (Hup : oldVal <= oldTotal -> q <= newTotal) by (intros; apply Z.div_le_upper_bound; nia).
  assert (Hmax : q < 2 ^ 63) by (destruct Hfit; [lia|apply Z.div_lt_upper_bound; lia]).
  exists q. split; [f_equal; apply wrap64_id; unfold in_int64; lia|]. split_and!; try lia; auto.
  - intros ->. unfold q. rewrite Z.mul_comm. by apply Z.div_mul; lia.
  - intros Hgt. apply Z.div_le_lower_bound; nia.
Qed.
(** The limit above the total of the tests: 120 of 100 becomes 240 of 200. *)
Lemma thin_ssd_scaling_witness :
  exists r, scaleThinSsdOnExpand 100 120 200 true = Ok r /\ share 120 200 100 r /\ 120 <= r /\
    (120 <= 100 -> r <= 200) /\ (120 = 100 -> r = 200) /\ (100 < 120 -> 200 <= r).
Proof. apply thin_ssd_scaling; lia. Defined.
Example scaled_limit_above_total : scaleThinSsdOnExpand 100 120 200 true = Ok 240.
Proof. reflexivity. Qed.

(** ** Filesystems only grow *)

(** What a resize request may ask, for a filesystem as it was last seen. *)
Definition grows (keepRatio : bool) (r : FileSystemResizeRequest) (fs : FileSystem) : Prop :=
  fsu_Uid r = fs_Uid fs /\
  exists c, fsu_TotalCapacity r = Some c /\ fs_TotalCapacity fs <= c /\
  if fs_IsThinlyProvisioned fs then
    exists lo hi, fsu_ThinProvisionMinSsd r = Some lo /\ fsu_ThinProvisionMaxSsd r = Some hi /\
      scaleThinSsdOnExpand (fs_TotalCapacity fs) (fs_ThinProvisioningMinSsd fs) c keepRatio = Ok lo /\
      scaleThinSsdOnExpand (fs_TotalCapacity fs) (fs_ThinProvisioningMaxSsd fs) c keepRatio = Ok hi
  else fsu_ThinProvisionMinSsd r = None /\ fsu_ThinProvisionMaxSsd r = None.

(** Every resize in a trace comes right after a lookup that found the
    filesystem, and makes it no smaller. *)
Fixpoint resizes_grow (keepRatio : bool) (tr : list entry) : Prop :=
  match tr with
  | [] => True
  | Did (PutFileSystem r) _ :: rest =>
      (exists q l fs older, rest = Did (GetFileSystems q) (inr l) :: older /\ fs ∈ l /\
         grows keepRatio r fs) /\ resizes_grow keepRatio rest
  | _ :: rest => resizes_grow keepRatio rest
  end.
Definition keeps_growing (keepRatio : bool) (tr tr' : list entry) : Prop :=
  resizes_grow keepRatio tr -> resizes_grow keepRatio tr'.
#[export] Instance keeps_growing_preorder b : PreOrder (keeps_growing b).
Proof. split; [intros x Hx; exact Hx|]. intros x y z Hxy Hyz Hx. auto. Qed.
Lemma keeps_growing_call b e : (forall r, e <> PutFileSystem r) -> allows (keeps_growing b) e.
Proof. intros He a tr Htr. destruct e; try exact Htr. by destruct (He r). Qed.

Lemma keep_matching_elem {A} `{ApiObject A} (q : A) l r x :
  keep_matching q l = Ok r -> x ∈ r -> x ∈ l.
Proof.
  revert r. induction l as [|o l IH]; cbn; intros r Hr Hx; [by simplify_eq|].
  destruct (ObjectsAreEqual q o) as [b| |]; cbn in Hr; try done.
  destruct (keep_matching q l) as [r'| |]; cbn in Hr; try done. injection Hr as <-.
  destruct b; [apply elem_of_cons in Hx as [->|Hx]; [by left|]|]; right; by eapply IH.
Qed.

Section Growing.
Context {W : Type} `{Env W} `{Clock} `{MapOrder} (server : Server).

Lemma GetFileSystemByName_found {V} name (s s' : Run W V) fs :
  GetFileSystemByName name s = (Ok fs, s') ->
  exists l, trace s' = Did (GetFileSystems (fs_query name)) (inr l) :: trace s /\ fs ∈ l.
Proof.
  unfold GetFileSystemByName, GetFileSystemByFilter, FindFileSystemsByFilter, call_val, bind, call.
  destruct (exec (GetFileSystems (fs_query name)) (env s)) as [[e|l] w]; cbn; [done|].
  destruct (keep_matching (fs_query name) l) as [r| |] eqn:E; cbn; try done.
  destruct r as [|x [|y r]]; cbn; try done. intros [= <- <-]. exists l. split; [done|].
  eapply keep_matching_elem; [exact E|]. by left.
Qed.
Lemma getFilesystemObj_fresh (s s' : Run W Volume) fs :
  getFilesystemObj false s = (Ok (Some fs), s') ->
  exists q l, trace s' = Did (GetFileSystems q) (inr l) :: trace s /\ fs ∈ l.
Proof.
  unfold getFilesystemObj. rewrite (bind_Ok self _ s (obj s) s eq_refl).
  set (fetch := match apiClient (obj s) with Some _ => _ | None => _ end).
  assert (Hf : fetch s = (Ok (Some fs), s') -> exists q l, trace s' = Did (GetFileSystems q) (inr l) :: trace s /\ fs ∈ l).
  { unfold fetch. destruct (apiClient (obj s)); [|done]. intros (r & s1 & Ha & Hb)%bind_inv.
    unfold attempt in Ha. destruct (GetFileSystemByName (FilesystemName (obj s)) s) as [[o|e|] s2] eqn:E; try done;
      injection Ha as <- <-.
    - apply GetFileSystemByName_found in E as (l & E & Hin). cbn in Hb. injection Hb as <- <-. eauto.
    - destruct e; done. }
  destruct (fileSystemObject (obj s)) as [o|]; cbn [andb]; exact Hf.
Qed.

(** Building the request makes no calls. *)
Lemma lift_inv {S A} (r : result A) (s : S) : lift r s = (r, s).
Proof. done. Qed.
Lemma resizeFilesystem_grows c :
  respects (W:=W) (keeps_growing (keepThinProvisioningRatioOnExpand (getConfig server))) (resizeFilesystem server c).
Proof.
  set (keep := keepThinProvisioningRatioOnExpand (getConfig server)).
  assert (Hq : forall e, is_query e = true -> allows (keeps_growing keep) e).
  { intros e He. apply keeps_growing_call. by intros r ->. }
  intros s. unfold resizeFilesystem. pose proof (respects_getFilesystemObj (W:=W) _ Hq false s) as Hget.
  unfold bind at 1. destruct (getFilesystemObj false s) as [[[fs|]|e|] s1] eqn:E; cbn [snd] in *; try exact Hget.
  apply getFilesystemObj_fresh in E as (q & l & Htr & Hin).
  destruct (Z.ltb_spec c (fs_TotalCapacity fs)); [exact Hget|].
  etrans; [exact Hget|]. cbv zeta. fold keep.
  set (build := if fs_IsThinlyProvisioned fs then _ else _).
  assert (Hbuild : snd (build s1) = s1 /\ forall r, fst (build s1) = Ok r -> grows keep r fs).
  { unfold build, grows. destruct (fs_IsThinlyProvisioned fs).
    - unfold bind, lift, ret.
      destruct (scaleThinSsdOnExpand _ (fs_ThinProvisioningMinSsd fs) c keep) eqn:E1; try by (split; [|intros r Hr; discriminate Hr]).
      destruct (scaleThinSsdOnExpand _ (fs_ThinProvisioningMaxSsd fs) c keep) eqn:E2; try by (split; [|intros r Hr; discriminate Hr]).
      split; [done|]. intros r [= <-]. split; [done|]. exists c. split; [done|]. split; [lia|]. by do 2 eexists.
    - split; [done|]. intros r [= <-]. split; [done|]. exists c. split; [done|]. split; [lia|]. done. }
  clearbody build. destruct Hbuild as [Hs Hr]. unfold bind at 1.
  destruct (build s1) as [[r|e|] s1']; cbn [fst snd] in *; subst s1'; try done. specialize (Hr r eq_refl).
  unfold UpdateFileSystem, required, bind at 1 2 3, lift. destruct (ObjectRequestHasRequiredFields r) as [[]| |]; try done.
  unfold call_val, bind, call, ret. destruct (exec (PutFileSystem r) (env s1)) as [[e|d] w]; cbn; intros Hok;
    (split; [|exact Hok]); exists q, l, fs, (trace s); auto.
Qed.

Lemma growing_semaphore b op A (body : M (Run W (option CapacityTracker)) A) :
  respects (keeps_growing b) body -> respects (keeps_growing b) (with_semaphore op body).
Proof.
  intros Hb. unfold with_semaphore, finally. respects; by apply keeps_growing_call.
Qed.
End Growing.

(** (C19) Filesystems only grow: whenever [CreateVolume] or
    [ControllerExpandVolume] resizes a filesystem, the request follows
    immediately on a lookup that found that filesystem, asks for no less than
    its size at that moment, and carries the (scaled) SSD limits exactly if it
    was thinly provisioned then. *)
Theorem filesystems_only_grow {W} `{Env W} `{Clock} `{MapOrder} (server : Server) (caps : list capability)
    (s : Run W (option CapacityTracker)) client req id size :
  let keep := keepThinProvisioningRatioOnExpand (getConfig server) in
  resizes_grow keep (trace s) ->
  resizes_grow keep (trace (snd (CreateVolume server caps client req s))) /\
  resizes_grow keep (trace (snd (ControllerExpandVolume server client id size s))).
Proof.
  intros keep Hok.
  assert (Hplain : forall e, plain_call e = true -> allows (keeps_growing keep) e).
  { intros e He. apply keeps_growing_call. by intros r ->. }
  assert (Hm : forall A (body : M (Run W Volume) A),
    respects (keeps_growing keep) body -> respects (keeps_growing keep) (mounted server body)).
  { intros A body. apply (respects_mounted server _); intros; by apply keeps_growing_call. }
  pose proof (resizeFilesystem_grows server) as Hr. pose proof (growing_semaphore (W:=W) keep) as Hsem.
  split; revert Hok.
  - apply (ctl_CreateVolume server caps (keeps_growing keep) Hplain Hm Hr Hsem).
  - apply (ctl_ControllerExpandVolume server (keeps_growing keep) Hplain Hm Hr Hsem).
Qed.

(** An expansion of a thinly provisioned filesystem of 1000 bytes to 2000. *)
Definition thin_fs : FileSystem :=
  MkFS "1" "fs1" 77 false false 1000 false true "default" 1000 1000 true 250 500 "" "" "".
Definition growing_env : Env nat := scripted (fun _ e =>
  match e return option (answer e) with
  | GetFileSystems _ => Some (inr [thin_fs])
  | PutFileSystem _ => Some (inr id)
  | GetCluster => Some (inr 10000)
  | MountFs _ _ => Some (inr "/mnt")
  | UnmountFs _ _ => Some None
  | GetResolvePath _ _ => Some (inr "1")
  | GetQuota _ _ => Some (inr (MkQuota 77 1 0 1000 1000 "ACTIVE"))
  | PutQuota _ => Some (inr (MkQuota 77 1 0 2000 2000 "ACTIVE"))
  | _ => None
  end).
Lemma filesystems_only_grow_witness :
  let s := MkRun (Some newCapacityTracker) 0%nat [] in
  let s' := snd (@ControllerExpandVolume nat growing_env demo_clock trie_order demo_server (inr (Some demo_api))
                   "weka/v2/fs1" (Some 2000) s) in
  (exists a, Did (PutFileSystem (MkFSResize 77 (Some 2000) (Some 500) (Some 1000))) a ∈ trace s') /\
  resizes_grow true (trace s').
Proof.
  intros s s'. split.
  - exists (inr id).
    apply list_elem_of_lookup_2 with (i := 7%nat). vm_compute. reflexivity.
  - apply (@filesystems_only_grow nat growing_env demo_clock trie_order demo_server [] s (inr (Some demo_api))
      (MkCreateReq "" None None 0 None None) "weka/v2/fs1" (Some 2000)). exact I.
Defined.

(** ** The capacity ends up in the quota *)

Section Quotas.
Context {W : Type} `{Env W} `{Clock} `{MapOrder} (server : Server).
Abbreviation run := (Run W Volume).

(** Traces only get longer. *)
Lemma extends_any e : allows suffix e.
Proof. intros a tr. by apply suffix_cons_r. Qed.
Lemma extends_mounted A (body : M run A) : respects suffix body -> respects suffix (mounted server body).
Proof. apply (respects_mounted server suffix); intros; apply extends_any. Qed.
Ltac extends lem := apply lem; first [apply _|exact extends_mounted|intros; apply extends_any].

Lemma uses_quota_api v v' : apiClient v = apiClient v' -> uses_quota server v = uses_quota server v'.
Proof. unfold uses_quota. by intros ->. Qed.
Lemma getFilesystemObj_api b : preserves (W:=W) apiClient (getFilesystemObj b).
Proof. unfold getFilesystemObj, GetFileSystemByName, GetFileSystemByFilter, FindFileSystemsByFilter, the_one. preserves. Qed.
Local Hint Resolve getFilesystemObj_api : preserves.
Lemma ensureSufficient_api c : preserves (W:=W) apiClient (ensureSufficientFsSizeOnUpdateCapacity server c).
Proof.
  unfold ensureSufficientFsSizeOnUpdateCapacity, getCapacityFromFsSize, resizeFilesystem, UpdateFileSystem, required.
  preserves.
Qed.

(** A quota needs a filesystem, an inode and a limit that are not zero. *)
Lemma quota_required fs inode t c :
  ObjectRequestHasRequiredFields (NewQuotaCreateRequest fs inode t c) =
  Ok (negb (inode =? 0) && negb (fs_Uid fs =? 0) && negb (c =? 0)).
Proof.
  transitivity (Ok (bool_decide (
    (if inode =? 0 then cons "inodeId" else id) ((if fs_Uid fs =? 0 then cons "filesystemUid" else id)
      ((if c =? 0 then ["capacityLimit"] else []))) = []))).
  - destruct t; cbv; by repeat case_match.
  - f_equal. by destruct (inode =? 0), (fs_Uid fs =? 0), (c =? 0).
Qed.
(** So a request for no capacity is refused, after the volume was made. *)
Lemma zero_capacity_refused fs inode t :
  ObjectRequestHasRequiredFields (NewQuotaCreateRequest fs inode t 0) = Ok false.
Proof. rewrite quota_required. cbn. by rewrite andb_false_r. Qed.

(** A run of [CreateQuota] that succeeds has put the quota. *)
Lemma CreateQuota_inv r b (s s' : run) q :
  CreateQuota r b s = (Ok q, s') ->
  ObjectRequestHasRequiredFields r = Ok true /\
  exists q0, Did (PutQuota r) (inr q0) :: trace s `suffix_of` trace s'.
Proof.
  unfold CreateQuota. intros ([] & s1 & Hreq & Hrun)%bind_inv.
  unfold required in Hreq. unfold bind at 1, lift in Hreq.
  destruct (ObjectRequestHasRequiredFields r) as [[]| |]; cbn in Hreq; try done. injection Hreq as <-.
  split; [done|]. apply bind_inv in Hrun as (q0 & s2 & Hput & Hrun). exists q0.
  unfold call_val, bind, call in Hput. destruct (exec (PutQuota r) (env s)) as [[e|q1] w]; [done|].
  injection Hput as -> <-. destruct b; [|by injection Hrun as <- <-].
  apply bind_inv in Hrun as ([] & s3 & Hwait & Hret). injection Hret as _ <-.
  pose proof (respects_WaitForQuotaActive (W:=W) (V:=Volume) suffix (fun e _ => extends_any e)) as Hw.
  match type of Hwait with WaitForQuotaActive ?q ?n ?s = _ => specialize (Hw q n s) end.
  by rewrite Hwait in Hw.
Qed.

(** *** The volume's own filesystem and inode *)

(** What identifies the volume in the cluster. *)
Definition identity (v : Volume) : string * string := (FilesystemName v, GetRelativePath v).

(** Filesystem objects that stand for the volume's filesystem, given the calls
    [tr] of the run: the one cached at its start, one that a lookup by the
    volume's name brought, and what the reply to a resize of such an object
    made of it. *)
Inductive own_filesystem (v : Volume) (tr : list entry) : FileSystem -> Prop :=
| own_cached fs : fileSystemObject v = Some fs -> own_filesystem v tr fs
| own_found l fs : Did (GetFileSystems (fs_query (FilesystemName v))) (inr l) ∈ tr -> fs ∈ l ->
    fs_Name fs = FilesystemName v -> own_filesystem v tr fs
| own_resized fs r decode : own_filesystem v tr fs -> fsu_Uid r = fs_Uid fs ->
    Did (PutFileSystem r) (inr decode) ∈ tr -> own_filesystem v tr (decode fs).
(** The inode of the volume's path: as the cluster resolved it in such a
    filesystem, or as seen below a mount of the volume's filesystem. *)
Definition own_inode (v : Volume) (tr : list entry) (inode : Z) : Prop :=
  (exists fs answer, own_filesystem v tr fs /\
     Did (GetResolvePath (fs_Uid fs) (GetRelativePath v)) (inr answer) ∈ tr /\ ParseUint answer 10 64 = Ok inode) \/
  (exists opts mount, Did (MountFs (FilesystemName v) opts) (inr mount) ∈ tr /\
     Did (OsStat (Path.Join [mount; GetRelativePath v])) (inr inode) ∈ tr).

(** [s'] comes from [s] by the calls [new]: it is about the same volume, and
    caches an object of its filesystem, if any. *)
Definition tracked (s : run) (new : list entry) (s' : run) : Prop :=
  trace s' = new ++ trace s /\ identity (obj s') = identity (obj s) /\
  forall fs, fileSystemObject (obj s') = Some fs -> own_filesystem (obj s) new fs.
Lemma own_mono v tr k fs : own_filesystem v tr fs -> own_filesystem v (k ++ tr) fs.
Proof.
  induction 1 as [fs Hc|l fs Hl Hin Hn|fs r d _ IH Hu Hd]; [by apply own_cached| |].
  - apply (own_found _ _ l); [set_solver|done..].
  - apply (own_resized _ _ fs r); [done..|set_solver].
Qed.
Lemma own_lift s new s1 tr fs :
  tracked s new s1 -> own_filesystem (obj s1) tr fs -> own_filesystem (obj s) (tr ++ new) fs.
Proof.
  intros (_ & Hid & Hc). injection Hid as Hn _.
  induction 1 as [fs Hf|l fs Hl Hin Hname|fs r d _ IH Hu Hd]; [by apply own_mono, Hc| |].
  - apply (own_found _ _ l); [rewrite Hn in Hl; set_solver|done|by rewrite <- Hn].
  - apply (own_resized _ _ fs r); [done..|set_solver].
Qed.
Lemma own_inode_lift s new s1 tr inode :
  tracked s new s1 -> own_inode (obj s1) tr inode -> own_inode (obj s) (tr ++ new) inode.
Proof.
  intros Ht. pose proof Ht as (_ & [= Hn Hp] & _). intros [(fs & a & Ho & Hd & Hi)|(o & m & Hm & Hd)].
  - left. exists fs, a. rewrite <- Hp. split_and!; [by eapply own_lift|set_solver|done].
  - right. exists o, m. rewrite <- Hn, <- Hp. set_solver.
Qed.
Lemma own_inode_mono v tr k inode : own_inode v tr inode -> own_inode v (k ++ tr) inode.
Proof.
  intros [(fs & a & Ho & Hd & Hi)|(o & m & Hm & Hd)]; [left|right].
  - exists fs, a. split_and!; [by apply own_mono|set_solver|done].
  - exists o, m. set_solver.
Qed.
Lemma tracked_refl s : tracked s [] s.
Proof. split_and!; [done..|]. apply own_cached. Qed.
Lemma tracked_trans s n1 s1 n2 s2 : tracked s n1 s1 -> tracked s1 n2 s2 -> tracked s (n2 ++ n1) s2.
Proof.
  intros T1 (E2 & I2 & C2). pose proof T1 as (E1 & I1 & _). split_and!; [|congruence|].
  - by rewrite E2, E1, app_assoc.
  - intros fs Hf. eapply own_lift; [done|]. by apply C2.
Qed.

(** Computations all of whose runs stay with the volume. *)
Definition tracking {A} (m : M run A) : Prop :=
  forall s, FilesystemName (obj s) <> "" -> exists new, tracked s new (snd (m s)).
Lemma tracked_name s new s' : tracked s new s' -> FilesystemName (obj s) <> "" -> FilesystemName (obj s') <> "".
Proof. intros (_ & [= -> _] & _). done. Qed.
Lemma tracking_step {A} (m : M run A) s a s' :
  tracking m -> FilesystemName (obj s) <> "" -> m s = (a, s') ->
  exists new, tracked s new s' /\ FilesystemName (obj s') <> "".
Proof.
  intros Hm Hn E. destruct (Hm s Hn) as [new Ht]. rewrite E in Ht. exists new. split; [done|].
  by eapply tracked_name.
Qed.
Lemma tracking_bind {A B} (m : M run A) (k : A -> M run B) :
  tracking m -> (forall a, tracking (k a)) -> tracking (bind m k).
Proof.
  intros Hm Hk s Hn. unfold bind. destruct (m s) as [[a|e|] s1] eqn:E;
    destruct (tracking_step m s _ _ Hm Hn E) as (n1 & T1 & Hn1); [|by exists n1..].
  destruct (Hk a s1 Hn1) as [n2 T2]. exists (n2 ++ n1). by eapply tracked_trans.
Qed.
Lemma tracking_attempt {A} (m : M run A) : tracking m -> tracking (attempt m).
Proof. intros Hm s Hn. unfold attempt. destruct (Hm s Hn) as [n Ht]. exists n. by destruct (m s) as [[| |] s1]. Qed.
Lemma tracking_both {A} (m : M run A) c : tracking m -> tracking c -> tracking (both m c).
Proof.
  intros Hm Hc s Hn. unfold both. destruct (m s) as [r s1] eqn:E.
  destruct (tracking_step m s _ _ Hm Hn E) as (n1 & T1 & Hn1). destruct (Hc s1 Hn1) as [n2 T2]. exists (n2 ++ n1).
  assert (tracked s (n2 ++ n1) (snd (c s1))) by by eapply tracked_trans. by destruct (c s1) as [[e|e|] s2].
Qed.
(** Calls that leave the volume as it is. *)
Lemma tracking_calls {A} (m : M run A) : preserves (fun v => v) m -> respects suffix m -> tracking m.
Proof.
  intros Hp Hr s Hn. destruct (Hr s) as [n Hs]. exists n. split_and!; [done|by rewrite Hp|].
  intros fs. rewrite Hp. apply own_cached.
Qed.
Lemma tracking_call e : tracking (call e).
Proof. apply tracking_calls; [apply preserves_call|apply respects_call, extends_any]. Qed.
Lemma tracking_silent {A} (m : M run A) :
  (forall s, trace (snd (m s)) = trace s /\ obj (snd (m s)) = obj s) -> tracking m.
Proof. intros Hm. apply tracking_calls; [intros s; apply Hm|apply respects_silent; [apply _|apply Hm]]. Qed.
Lemma tracking_mountPath m : tracking (update (set_mountPath m)).
Proof. intros s Hn. exists []. split_and!; [done..|]. intros fs Hf. by apply own_cached. Qed.

(** The object of a lookup is then the cached one. *)
Lemma getFilesystemObj_cached b (s s' : run) fs :
  getFilesystemObj b s = (Ok (Some fs), s') -> fileSystemObject (obj s') = Some fs.
Proof.
  unfold getFilesystemObj. rewrite (bind_Ok self _ s (obj s) s eq_refl).
  set (fetch := match apiClient (obj s) with Some _ => _ | None => _ end).
  assert (Hf : fetch s = (Ok (Some fs), s') -> fileSystemObject (obj s') = Some fs).
  { unfold fetch. destruct (apiClient (obj s)); [|done]. intros (r & s1 & _ & Hr)%bind_inv.
    destruct r as [[]|fs']; try done. by injection Hr as <- <-. }
  destruct (fileSystemObject (obj s)) eqn:E; [|done]. destruct (b && _); [|done]. intros [= <- <-]. done.
Qed.
Lemma tracking_getFilesystemObj b : tracking (getFilesystemObj (W:=W) b).
Proof.
  intros s Hn. unfold getFilesystemObj. rewrite (bind_Ok self _ s (obj s) s eq_refl).
  set (fetch := match apiClient (obj s) with Some _ => _ | None => _ end).
  assert (Hf : exists new, tracked s new (snd (fetch s))).
  { unfold fetch. destruct (apiClient (obj s)); [|exists []; apply tracked_refl].
    destruct (GetFileSystemByName_spec _ s Hn) as (ans & s1 & E & Ho & Ht).
    assert (Hs : tracked s [Did (GetFileSystems (fs_query (FilesystemName (obj s)))) ans] s1).
    { split_and!; [done|by rewrite Ho|]. intros fs. rewrite Ho. apply own_cached. }
    unfold bind at 1, attempt. rewrite E. destruct (unique ans _) as [fs|e|] eqn:Eu.
    - eexists [_]. split_and!; [exact Ht|by rewrite <- Ho|]. intros fs' [= <-].
      apply unique_Ok in Eu as (l & -> & Hin & HP). apply bool_decide_eq_true in HP.
      apply (own_found _ _ l); [by left|done..].
    - eexists. destruct e; exact Hs.
    - eexists. exact Hs. }
  destruct (fileSystemObject (obj s)); [|done]. destruct (b && _); [exists []; apply tracked_refl|done].
Qed.
Lemma getFilesystemObj_own b (s s' : run) fs :
  FilesystemName (obj s) <> "" -> getFilesystemObj b s = (Ok (Some fs), s') ->
  exists new, tracked s new s' /\ own_filesystem (obj s) new fs.
Proof.
  intros Hn E. destruct (tracking_step _ s _ _ (tracking_getFilesystemObj b) Hn E) as (new & Ht & _).
  exists new. split; [done|]. apply Ht. by eapply getFilesystemObj_cached.
Qed.

Ltac tracking := repeat first
  [ solve [ apply tracking_getFilesystemObj | apply tracking_call | apply tracking_mountPath
          | by apply tracking_silent | eauto 2 ]
  | apply tracking_bind; [|intros ?] | apply tracking_attempt | apply tracking_both
  | progress cbv zeta | case_match ].
Lemma tracking_resizeFilesystem c : tracking (resizeFilesystem (W:=W) server c).
Proof.
  intros s Hn. unfold resizeFilesystem. unfold bind at 1. destruct (getFilesystemObj false s) as [r s1] eqn:E.
  destruct (tracking_step _ s _ _ (tracking_getFilesystemObj _) Hn E) as (n1 & T1 & _).
  destruct r as [[fs|]|e|]; [|by exists n1..]. apply getFilesystemObj_cached in E as Hc.
  destruct (c <? fs_TotalCapacity fs); [by exists n1|]. unfold bind at 1.
  set (m := if fs_IsThinlyProvisioned fs then _ else _).
  assert (Hm : forall r s2, m s1 = (r, s2) -> s2 = s1 /\ forall fsu, r = Ok fsu -> fsu_Uid fsu = fs_Uid fs).
  { intros r s2. unfold m. destruct (fs_IsThinlyProvisioned fs); [|intros [= <- <-]; naive_solver].
    unfold bind, lift, ret. repeat case_match; naive_solver. }
  destruct (m s1) as [[fsu|e|] s2] eqn:Em; destruct (Hm _ _ eq_refl) as [-> Hu]; [|by exists n1..].
  specialize (Hu fsu eq_refl). unfold UpdateFileSystem, required, call_val, of_sum, lift, bind, call, ret, update, modify.
  destruct (ObjectRequestHasRequiredFields fsu) as [[]| |]; try by exists n1.
  destruct (exec (PutFileSystem fsu) (env s1)) as [[e|d] w]; cbn.
  - exists ([Did (PutFileSystem fsu) (inl e)] ++ n1). eapply tracked_trans; [exact T1|].
    split_and!; [done..|]. intros fs' Hf. by apply own_cached.
  - exists ([Did (PutFileSystem fsu) (inr d)] ++ n1). eapply tracked_trans; [exact T1|].
    split_and!; [done..|]. intros fs' [= <-]. apply (own_resized _ _ fs fsu); [by apply own_cached|done|by left].
Qed.
Lemma tracking_ensureSufficient c : tracking (ensureSufficientFsSizeOnUpdateCapacity (W:=W) server c).
Proof.
  pose proof tracking_resizeFilesystem. unfold ensureSufficientFsSizeOnUpdateCapacity, getCapacityFromFsSize. tracking.
Qed.
Lemma tracking_getInodeId : tracking (getInodeId (W:=W) server).
Proof.
  unfold getInodeId, getInodeIdFromApi, ResolvePathToInode, with_underlying_fs, mounted, MountUnderlyingFS,
    unmount_underlying, call_val, of_sum. tracking.
Qed.
(** The inode is that of the volume's path. *)
Lemma getInodeId_own (s s' : run) inode :
  FilesystemName (obj s) <> "" -> getInodeId server s = (Ok inode, s') ->
  exists new, tracked s new s' /\ own_inode (obj s) new inode.
Proof.
  intros Hn Hrun. destruct (tracking_step _ s _ _ tracking_getInodeId Hn Hrun) as (new & Ht & _).
  exists new. split; [done|]. destruct Ht as (Ht & _). revert Hrun.
  unfold getInodeId. rewrite (bind_Ok self _ s (obj s) s eq_refl). destruct (apiClient (obj s)) as [a|]; [|done].
  destruct (SupportsResolvePathToInode a).
  - unfold getInodeIdFromApi. intros (o & s1 & Ho & Hrun)%bind_inv.
    rewrite (bind_Ok self _ s1 (obj s1) s1 eq_refl) in Hrun. destruct o as [fs|]; [|done].
    destruct (getFilesystemObj_own _ _ _ _ Hn Ho) as (n1 & T1 & Hown). left. exists fs.
    pose proof T1 as (E1 & [= _ Hp] & _). rewrite Hp in Hrun. unfold ResolvePathToInode in Hrun.
    destruct (bool_decide (GetRelativePath (obj s) = "")); [done|]. unfold bind at 1, call in Hrun.
    destruct (exec (GetResolvePath _ _) (env s1)) as [[e|x] w]; cbn in Hrun.
    { destruct e; try done. by case_match. }
    destruct (bool_decide (x = "")) eqn:Ex; [done|]. unfold lift in Hrun. injection Hrun as Hi <-.
    cbn in Ht. rewrite E1, app_comm_cons in Ht. apply app_inv_tail in Ht as <-. exists x.
    split_and!; [by apply (own_mono _ _ [_])|by left|done].
  - unfold with_underlying_fs, mounted, MountUnderlyingFS. destruct (srv_Mounter server); [|done].
    unfold bind at 1 2 3 4, self, gets, call_val, bind, call.
    destruct (exec (MountFs _ _) (env s)) as [[e|mount] w]; [done|]. cbn.
    unfold both, bind, unmount_underlying, bind, call. cbn.
    destruct (exec (OsStat _) w) as [[e|i] w2]; cbn; destruct (exec (UnmountFs _ _) w2) as [[e'|] w3]; cbn; try done.
    intros [= -> <-]. cbn in Ht. right. eexists _, mount.
    match type of Ht with ?a :: ?b :: ?c :: ?t = _ =>
      assert (E : [a; b; c] ++ t = new ++ t) by exact Ht; apply app_inv_tail in E; subst new end.
    split; [right; right; by left|right; by left].
Qed.

(** The quota that a run of these operations puts. *)
Definition puts_own_quota (s : run) (e : option bool) (c : Z) (s' : run) : Prop :=
  exists fs inode q new, trace s' = new ++ trace s /\
    own_filesystem (obj s) new fs /\ own_inode (obj s) new inode /\ c <> 0 /\
    Did (PutQuota (NewQuotaCreateRequest fs inode (quota_type_of e) c)) (inr q) ∈ new.
Lemma puts_own_quota_lift s new s1 e c s' : tracked s new s1 -> puts_own_quota s1 e c s' -> puts_own_quota s e c s'.
Proof.
  intros Ht (fs & inode & q & n & E & Hf & Hi & Hc & Hq). exists fs, inode, q, (n ++ new).
  split_and!; [by rewrite E, (proj1 Ht), app_assoc|by eapply own_lift|by eapply own_inode_lift|done|set_solver].
Qed.
Lemma setQuota_inv e c (s s' : run) q :
  FilesystemName (obj s) <> "" -> setQuota server e c s = (Ok q, s') -> puts_own_quota s e c s'.
Proof.
  intros Hn. unfold setQuota. intros (o & s1 & Ho & (r & s2 & Hr & Hrun)%bind_inv)%bind_inv.
  destruct r as [?|inode]; [done|]. destruct o as [fs|]; [|done].
  destruct (getFilesystemObj_own _ _ _ _ Hn Ho) as (n1 & T1 & Hfs).
  unfold attempt in Hr. destruct (getInodeId server s1) as [[i|?|] s1'] eqn:Hi; try done. injection Hr as -> ->.
  destruct (getInodeId_own _ _ _ (tracked_name _ _ _ T1 Hn) Hi) as (n2 & T2 & Hown).
  apply CreateQuota_inv in Hrun as [Hreq [q0 [k Hk]]]. rewrite quota_required in Hreq.
  injection Hreq as Hreq. bool_to_prop. destruct T2 as (E2 & _).
  exists fs, inode, q0, (k ++ Did (PutQuota (NewQuotaCreateRequest fs inode (quota_type_of e) c)) (inr q0) :: n2 ++ n1).
  split_and!; [|by rewrite app_comm_cons, app_assoc; apply own_mono| |done|set_solver].
  - rewrite Hk, E2, (proj1 T1). by rewrite <- !app_assoc, <- app_comm_cons, <- app_assoc.
  - apply own_inode_mono, (own_inode_mono _ _ [_]). by eapply own_inode_lift.
Qed.
Lemma updateCapacityQuota_inv e c (s s' : run) :
  FilesystemName (obj s) <> "" -> updateCapacityQuota server e c s = (Ok tt, s') -> puts_own_quota s e (uwrap64 c) s'.
Proof.
  intros Hn. unfold updateCapacityQuota.
  intros (i & s1 & Hi & (o & s2 & Ho & (r & s3 & Hr & Hrun)%bind_inv)%bind_inv)%bind_inv.
  assert (T3 : tracking (attempt (GetQuotaByFileSystemAndInode (W:=W) o i))).
  { apply tracking_attempt, tracking_calls.
    - unfold GetQuotaByFileSystemAndInode. preserves.
    - extends (respects_GetQuota (W:=W) (V:=Volume) suffix). }
  destruct (tracking_step _ _ _ _ tracking_getInodeId Hn Hi) as (n1 & T1 & Hn1).
  destruct (tracking_step _ _ _ _ (tracking_getFilesystemObj _) Hn1 Ho) as (n2 & T2 & Hn2).
  destruct (tracking_step _ _ _ _ T3 Hn2 Hr) as (n3 & T4 & Hn3).
  assert (Hset : exists q, setQuota server e (uwrap64 c) s3 = (Ok q, s')).
  { destruct r as [[]|?]; try done; apply bind_inv in Hrun as (q' & s4 & Hs & Hret); injection Hret as <-; eauto. }
  destruct Hset as [q Hq%setQuota_inv]; [|done]. by do 3 (eapply puts_own_quota_lift; [eassumption|]).
Qed.

(** The quota kept for [r] reads back as capacity [c] of type [t]. *)
Definition reads_back (r : QuotaCreateRequest) (c : Z) (t : QuotaType) : Prop :=
  forall status, GetCapacityLimit (quota_of_request r status) = c /\
    GetQuotaType (quota_of_request r status) = t.

(** (C20) A capacity that was set is in the volume's quota: if [UpdateCapacity]
    succeeds on a volume with a filesystem name whose capacity is kept in a
    quota ([uses_quota]: API client, no development mode, quotas supported by
    the cluster and, without authenticated mounts, the root organization), then
    in this run the cluster accepted a quota on the volume's own filesystem and
    on the inode that its path was resolved to, and the limit and type of that
    quota, as the driver reads them back, are the requested capacity (never
    zero) and the requested enforcement.  The other volumes keep their
    capacity in extended attributes. *)
Theorem UpdateCapacity_sets_quota e c (s s' : run) :
  UpdateCapacity server e c s = (Ok tt, s') -> uses_quota server (obj s) = true ->
  FilesystemName (obj s) <> "" -> 0 <= c < 2 ^ 63 - 1 ->
  c <> 0 /\ exists fs inode r q new, trace s' = new ++ trace s /\
    own_filesystem (obj s) new fs /\ own_inode (obj s) new inode /\
    Did (PutQuota r) (inr q) ∈ new /\ qc_filesystemUid r = fs_Uid fs /\ qc_inodeId r = inode /\
    reads_back r c (quota_type_of e).
Proof.
  unfold UpdateCapacity. intros ([] & s1 & Hens & Hrun)%bind_inv Huse Hn Hc.
  destruct (tracking_step _ _ _ _ (tracking_ensureSufficient c) Hn Hens) as (n1 & T1 & Hn1).
  pose proof (ensureSufficient_api c s) as Hapi. rewrite Hens in Hapi. cbn in Hapi.
  rewrite (bind_Ok self _ s1 (obj s1) s1 eq_refl), (uses_quota_api _ (obj s)), Huse in Hrun by done.
  apply updateCapacityQuota_inv in Hrun; [|done].
  apply (puts_own_quota_lift _ _ _ _ _ _ T1) in Hrun as (fs & inode & q & new & E & Hf & Hi & Hne & Hq).
  rewrite uwrap64_id in Hne, Hq by (unfold in_uint64; lia). split; [done|].
  set (r := NewQuotaCreateRequest fs inode (quota_type_of e) c) in *.
  exists fs, inode, r, q, new. split_and!; [done..| | |].
  1, 2: unfold r, NewQuotaCreateRequest; by destruct (quota_type_of e).
  intros status. unfold r, GetCapacityLimit, GetQuotaType, quota_of_request, NewQuotaCreateRequest.
  destruct e as [[]|]; cbn; unfold MaxQuotaSize; bcase; try done; lia.
Qed.
End Quotas.

Lemma UpdateCapacity_sets_quota_witness :
  let run := @UpdateCapacity nat growing_env demo_clock trie_order demo_server (Some true) 2000
               (MkRun demo_fs_volume 0%nat []) in
  fst run = Ok tt /\ 2000 <> 0 /\ exists fs inode r q new, trace (snd run) = new ++ [] /\
    own_filesystem demo_fs_volume new fs /\ own_inode demo_fs_volume new inode /\
    Did (PutQuota r) (inr q) ∈ new /\ qc_filesystemUid r = fs_Uid fs /\ qc_inodeId r = inode /\
    reads_back r 2000 (quota_type_of (Some true)).
Proof.
  intros run. assert (E : fst run = Ok tt) by (vm_compute; reflexivity).
  split; [exact E|].
  apply (@UpdateCapacity_sets_quota nat growing_env demo_clock trie_order demo_server (Some true) 2000
    (MkRun demo_fs_volume 0%nat []) (snd run)).
  - rewrite <- E. apply surjective_pairing.
  - reflexivity.
  - discriminate.
  - lia.
Defined.
