(* ===== verification/NodeServer.v ===== *)
(** * The node service (nodeserver.go)

    Publishing a volume mounts its filesystem, binds the volume's directory to
    the target path and releases the filesystem; unpublishing undoes the bind
    mount.  [status.Error] lowers the message; messages stay here as the source
    has them. *)
From S2P Require Import Prelude.
From S2P Require Import GoStrings.
From S2P Require Import Hashing.
From S2P Require Import MountOptions.
From S2P Require Import MountOverrides.
From S2P Require Import VolumeIds.
From S2P Require Import Monad.
From S2P Require Import ApiObjects.
From S2P Require Import Compatibility.
From S2P Require Import Objects.
From S2P Require Import Effects.
From S2P Require Import ApiOps.
From S2P Require Import ProcMounts.
From S2P Require Import Volume.
From S2P Require Import Snapshots.
From S2P Require Import Constructors.
From S2P Require Import CapacityTracker.
From S2P Require Import Controller.

Definition TopologyKeyNode : string := "topology.wekafs.csi/node".
Definition NodeServerAdditionalMountOptions : string := MountOptionWriteCache +:+ "," +:+ MountOptionSyncOnClose.

(** A [csi.VolumeCapability]: a block volume, and the flags of a mount volume. *)
Record VolumeCapability := MkCapability { GetBlock : bool; GetMount : option (list string) }.
Record NodePublishVolumeRequest := MkPublish {
  np_VolumeId : string;
  np_VolumeContext : option (gmap string string);
  np_VolumeCapability : option VolumeCapability;
  np_TargetPath : string;
  np_Readonly : bool
}.

(** What the node service is made with: the API reader is nil without a
    manager. *)
Record NodeConfig := MkNodeConfig {
  nodeID : string;
  maxVolumesPerNode : Z;
  zone : string;
  region : string;
  allowMountOptionOverrides : bool;
  manageNodeTopologyLabels : bool;
  apireader : option reader
}.

Record VolumeStats := MkStats {
  TotalBytes : Z; UsedBytes : Z; AvailableBytes : Z; TotalInodes : Z; UsedInodes : Z; AvailableInodes : Z
}.
(** The arithmetic is that of [int64]. *)
Definition stats_of (st : statfs) : VolumeStats :=
  let bsize := wrap64 (st_Bsize st) in
  let capacityBytes := wrap64 (wrap64 (st_Blocks st) * bsize) in
  let availableBytes := wrap64 (wrap64 (st_Bavail st) * bsize) in
  let usedBytes := wrap64 (capacityBytes - availableBytes) in
  let inodes := wrap64 (st_Files st) in
  let inodesFree := wrap64 (st_Ffree st) in
  MkStats capacityBytes usedBytes availableBytes inodes (wrap64 (inodes - inodesFree)) inodesFree.

Definition transport_name (t : DataTransport) : string :=
  match t with dataTransportNfs => "nfs" | dataTransportWekafs => "wekafs" end.

Section NodeServer.
Context {Regexp : Type} (Compile : string -> option Regexp) (MatchString : Regexp -> string -> bool).
Context {W : Type} `{Env W} `{Clock} `{MapOrder} (server : Server) (node : NodeConfig).
Abbreviation run := (Run W ()).
Abbreviation config := (getConfig server).
Local Open Scope go_scope.

Definition node_getDefaultMountOptions : MountOptions :=
  MergedWith getDefaultMountOptions (NewMountOptionsFromString NodeServerAdditionalMountOptions)
    (mutuallyExclusiveOptions config).

(** *** Publishing *)

(** The options of the volume: from the volume context, the mount flags, the
    annotations and the read-only flag, in this order. *)
Definition set_options_from_context (params : option (gmap string string)) (v : Volume) : Volume :=
  match params with
  | Some p =>
      match p !! "mountOptions" with
      | Some o => pruneUnsupportedMountOptions
          (set_mountOptions (Merge (mountOptions v) (NewMountOptionsFromString o) (mutuallyExclusiveOptions config)) v)
      | None => v
      end
  | None => v
  end.
Definition merge_flags (flags : list string) (v : Volume) : Volume :=
  set_mountOptions
    (Merge (mountOptions v) (NewMountOptionsFromString (Join "," flags)) (mutuallyExclusiveOptions config)) v.
Definition apply_overrides (params : option (gmap string string)) (v : Volume) : Volume :=
  match apireader node, params with
  | Some r, Some _ =>
      if allowMountOptionOverrides node
      then set_mountOptions (applyMountOptionsOverridesToVolume Compile MatchString params r
             (mutuallyExclusiveOptions config) (mountOptions v)) v
      else v
  | _, _ => v
  end.
Definition ro_options : MountOptions := MkOptions (customOptions (NewMountOptions ["ro"])) ["rw"].
Definition apply_readonly (readOnly : bool) (v : Volume) : Volume :=
  if readOnly
  then set_mountOptions (Merge (mountOptions v) ro_options (mutuallyExclusiveOptions config)) v
  else v.
Definition innerMountOpts (readOnly : bool) : list string := "bind" :: if readOnly then ["ro"] else [].

(** From the directory of the target to the bind mount, with the filesystem
    mounted. *)
Definition bind_target (targetPath : string) (readOnly : bool) : M (Run W Volume) unit :=
  let! v := self in
  let fullPath := GetFullPath v in
  let! e := call (OsMkdirAll (Dir targetPath) DefaultVolumePermissions) in
  match e with
  | Some _ => throw (EStatus Internal "%s")
  | None =>
      let! e := call (OsMkdir targetPath 488) in
      let bind_mount :=
        let! e := call (KMount fullPath targetPath "" (innerMountOpts readOnly) []) in
        match e with
        | Some _ => throw (EStatus Internal "failed to Mount device: %s at %s: %s")
        | None => ret tt
        end in
      match e with
      | None => bind_mount
      | Some err =>
          if bool_decide (err = EIsExist) then
            if isInDevMode config then ret tt
            else let! mounts := call ReadProcMounts in
                 if PathIsWekaMount mounts targetPath then ret tt else bind_mount
          else throw (EStatus Internal "%s")
      end
  end.

(** The parent filesystem is released on every path; an error of that is only
    logged. *)
Definition publish_volume (targetPath : string) (readOnly : bool) : M (Run W Volume) unit :=
  let! r := attempt (MountUnderlyingFS server) in
  match r with
  | inl MountPermissionDenied => throw (EStatus PermissionDenied "%s")
  | inl _ => throw (EStatus Internal "Failed to mount a parent filesystem, check Authentication: ")
  | inr (fs, opts) =>
      let! (res, _) := both (bind_target targetPath readOnly) (unmount_underlying fs opts) in of_sum res
  end.

Definition NodePublishVolume (client : error + option ApiClient) (req : NodePublishVolumeRequest) : M run unit :=
  with_semaphore "NodePublishVolume" (
    match client with
    | inl _ => throw (EStatus Internal "Failed to initialize Weka API client for the request")
    | inr api =>
        match NewVolumeFromId config (np_VolumeId req) api with
        | inl _ => throw (EStatus InvalidArgument "%s")
        | inr v =>
            let v := set_options_from_context (np_VolumeContext req) v in
            match np_VolumeCapability req with
            | None => throw (EStatus InvalidArgument "Volume capability missing in request")
            | Some cap =>
                if GetBlock cap && (if GetMount cap then true else false)
                then throw (EStatus InvalidArgument "cannot have both block and Mount access type")
                else if GetBlock cap then throw (EStatus InvalidArgument "block volume mount not supported")
                else
                  let targetPath := Path.Clean (np_TargetPath req) in
                  if bool_decide (len targetPath = 0)
                  then throw (EStatus InvalidArgument "Target path missing in request")
                  else
                    let v := merge_flags (default [] (GetMount cap)) v in
                    let v := apply_overrides (np_VolumeContext req) v in
                    let v := apply_readonly (np_Readonly req) v in
                    let! _ := method_of v (publish_volume targetPath (np_Readonly req)) in ret tt
            end
        end
    end).

(** *** Unpublishing *)

Definition force_unmount (targetPath : string) : M run unit :=
  let! e := call (KUnmount targetPath) in
  match e with
  | Some _ => throw (EStatus Internal "%s")
  | None =>
      let! e := call (OsRemove targetPath) in
      match e with Some _ => throw (EStatus Internal "%s") | None => ret tt end
  end.
Definition unpublish_volume (targetPath : string) : M run unit :=
  if bool_decide (len targetPath = 0) then throw (EStatus InvalidArgument "Target path missing in request")
  else
    let! e := call (OsLstat targetPath) in
    match e with
    | Some NotExist => ret tt
    | Some Stale => force_unmount targetPath
    | Some OtherStatError => throw (EStatus Internal "unexpected situation, please contact support")
    | None =>
        if isInDevMode config then force_unmount targetPath
        else
          let! mounts := call ReadProcMounts in
          if PathIsWekaMount mounts targetPath then force_unmount targetPath
          else
            let! e := call (OsRemove targetPath) in
            match e with Some _ => throw (EStatus Internal "%s") | None => ret tt end
    end.
Definition NodeUnpublishVolume (targetPath : string) : M run unit :=
  with_semaphore "NodeUnpublishVolume" (unpublish_volume targetPath).

(** *** Statistics and information *)

Definition NodeGetVolumeStats (volumeID volumePath stagingTargetPath : string) : M run VolumeStats :=
  if bool_decide (volumeID = "") then throw (EStatus InvalidArgument "Volume ID must be provided")
  else if bool_decide (volumePath = "") then throw (EStatus InvalidArgument "Volume path must be provided")
  else
    let! staged := (if bool_decide (stagingTargetPath = "") then ret true else PathExists stagingTargetPath) in
    if negb staged then throw (EStatus NotFound "Staging area path not found")
    else
      let! there :=
        (if isInDevMode config
         then let! e := call (OsLstat volumePath) in ret (if e then false else true)
         else let! mounts := call ReadProcMounts in ret (PathIsWekaMount mounts volumePath)) in
      if negb there then throw (EStatus NotFound "Volume path not found")
      else match validateVolumeId volumeID with
           | Some _ => throw (EStatus InvalidArgument "invalid volume ID %s: %v")
           | None =>
               let! r := call (OsStatfsAll volumePath) in
               match r with
               | inl _ => throw (EStatus Internal "Failed to get stats for volume %s: %v")
               | inr st => ret (stats_of st)
               end
           end.

(** The topology of the node; the transport is asked of the mounter. *)
Definition NodeGetInfo : result (string * Z * gmap string string) :=
  let segments : gmap string string :=
    <[TopologyLabelWekaGlobal := "true"]> (<[TopologyKeyNode := nodeID node]> ∅) in
  let labels (t : DataTransport) : gmap string string :=
    <[TopologyLabelWekaLocal (driverName config) := "true"]>
    (<["topology." +:+ driverName config +:+ "/transport" := transport_name t]>
    (<["topology." +:+ driverName config +:+ "/node" := nodeID node]> segments)) in
  let with_place (m : gmap string string) :=
    let m := if bool_decide (zone node = "") then m else <[TopologyKeyZone := zone node]> m in
    if bool_decide (region node = "") then m else <[TopologyKeyRegion := region node]> m in
  if manageNodeTopologyLabels node then
    match srv_Mounter server with
    | None => Panic
    | Some t => Ok (nodeID node, maxVolumesPerNode node, with_place (labels t))
    end
  else Ok (nodeID node, maxVolumesPerNode node, with_place segments).
End NodeServer.
