(* ===== verification/NodeRuns.v ===== *)
(** * What the node service does on every path *)
From S2P Require Import Prelude.
From S2P Require Import GoStrings.
From S2P Require Import Hashing.
From S2P Require Import MountOptions.
From S2P Require Import MountOverrides.
From S2P Require Import VolumeIds.
From S2P Require Import Monad.
From S2P Require Import ApiObjects.
From S2P Require Import Compatibility.
From S2P Require Import Objects.
From S2P Require Import Effects.
From S2P Require Import ApiOps.
From S2P Require Import ProcMounts.
From S2P Require Import Volume.
From S2P Require Import VolumeRuns.
From S2P Require Import Snapshots.
From S2P Require Import Constructors.
From S2P Require Import CapacityTracker.
From S2P Require Import Controller.
From S2P Require Import ControllerRuns.
From S2P Require Import NodeServer.
From S2P Require Import Demo.

Section Node.
Context {Regexp : Type} (Compile : string -> option Regexp) (MatchString : Regexp -> string -> bool).
Context {W : Type} `{Env W} `{Clock} `{MapOrder} (server : Server) (node : NodeConfig).
Abbreviation config := (getConfig server).

(** Publishing brackets the bind mount like every other use of the filesystem. *)
Lemma publish_volume_trace t ro (s : Run W Volume) :
  trace (snd (publish_volume server t ro s)) = trace (snd (mounted server (bind_target server t ro) s)).
Proof.
  unfold publish_volume, mounted, attempt, bind. destruct (MountUnderlyingFS server s) as [[[fs opts]|e|] s1]; [|by destruct e|done].
  destruct (both _ _ s1) as [[[[e|[]] ue]|e|] s2]; done.
Qed.
Lemma released_publish t ro : respects (W:=W) released (publish_volume server t ro).
Proof.
  intros s. rewrite publish_volume_trace. apply released_mounted. unfold bind_target.
  respects; by apply released_call.
Qed.

(** (C5) No request to the node forgets what it took: however publishing or
    unpublishing ends, the semaphore slots that are held afterwards are those
    from before, and so are the filesystem mounts, but for those whose release
    the request attempted and the mounter refused. *)
Theorem node_requests_release (s : Run W ()) client req target :
  released (trace s) (trace (snd (NodePublishVolume Compile MatchString server node client req s))) /\
  released (trace s) (trace (snd (NodeUnpublishVolume server target s))).
Proof.
  split; apply released_semaphore.
  - pose proof released_publish. respects.
  - unfold unpublish_volume, force_unmount. respects; by apply released_call.
Qed.

(** *** A published volume *)

Lemma MountUnderlyingFS_inv (s s1 : Run W Volume) fs opts :
  MountUnderlyingFS server s = (Ok (fs, opts), s1) ->
  fs = FilesystemName (obj s) /\ exists path,
    trace s1 = Did (MountFs fs opts) (inr path) :: trace s /\ obj s1 = set_mountPath path (obj s).
Proof.
  unfold MountUnderlyingFS. destruct (srv_Mounter server); [|done].
  rewrite (bind_Ok self _ s (obj s) s eq_refl). unfold call_val, bind, call.
  destruct (exec (MountFs _ _) (env s)) as [[e|path] w]; [done|]. cbn. intros [= <- <- <-]. eauto.
Qed.

(** Of the calls [new] made on top of [tr0]: the last one bound the target to
    [full], or the target was found to be there and mounted. *)
Definition found_mounted (dev : bool) (target : string) (new : list entry) : Prop :=
  Did (OsMkdir target 488) (Some EIsExist) ∈ new /\
  (dev = true \/ exists mounts, Did ReadProcMounts mounts ∈ new /\ PathIsWekaMount mounts target = true).
Definition bound (dev ro : bool) (full target : string) (tr0 new : list entry) : Prop :=
  (exists before, new = Did (KMount full target "" (innerMountOpts ro) []) None :: before /\
     open_mounts (before ++ tr0) = open_mounts tr0) \/
  found_mounted dev target new.

Lemma call_inv {V} e (s s' : Run W V) a : call e s = (Ok a, s') ->
  obj s' = obj s /\ trace s' = Did e a :: trace s.
Proof. unfold call. destruct (exec e (env s)). by intros [= <- <-]. Qed.
Ltac call_step Hr a Ht :=
  let s1 := fresh "st" in let Hc := fresh "Hc" in
  apply bind_inv in Hr as (a & s1 & Hc & Hr); apply call_inv in Hc as [_ Ht].

Lemma bind_target_inv t ro (s s' : Run W Volume) : bind_target server t ro s = (Ok tt, s') ->
  exists new, trace s' = new ++ trace s /\ bound (isInDevMode config) ro (GetFullPath (obj s)) t (trace s) new.
Proof.
  unfold bind_target. rewrite (bind_Ok self _ s (obj s) s eq_refl). cbv zeta. intros Hr.
  call_step Hr e1 Ht1. destruct e1; [done|]. call_step Hr e2 Ht2. rewrite Ht1 in Ht2.
  assert (Hbind : forall (s1 : Run W Volume) before, trace s1 = before ++ trace s ->
    open_mounts (before ++ trace s) = open_mounts (trace s) ->
    bind (call (KMount (GetFullPath (obj s)) t "" (innerMountOpts ro) [])) (fun e =>
      match e with Some _ => throw (EStatus Internal "failed to Mount device: %s at %s: %s") | None => ret tt end) s1 = (Ok tt, s') ->
    exists new, trace s' = new ++ trace s /\ bound (isInDevMode config) ro (GetFullPath (obj s)) t (trace s) new).
  { intros sb before Ht Ho Hb. call_step Hb e3 Ht3. destruct e3; [done|]. injection Hb as <-.
    eexists (_ :: before). split; [by rewrite Ht3, Ht|]. left. eauto. }
  destruct e2 as [e|]; [|by apply (Hbind _ [_; _] Ht2) in Hr].
  destruct (bool_decide (e = EIsExist)) eqn:Ee; [|done]. bool_to_prop. subst e.
  unfold bound, found_mounted. destruct (isInDevMode config) eqn:Ed.
  - injection Hr as <-. eexists [_; _]. split; [exact Ht2|]. right. split; [set_solver|by left].
  - call_step Hr m Ht3. rewrite Ht2 in Ht3. destruct (PathIsWekaMount m t) eqn:Em.
    + injection Hr as <-. eexists [_; _; _]. split; [exact Ht3|]. right. split; [set_solver|].
      right. exists m. split; [set_solver|done].
    + by apply (Hbind _ [_; _; _] Ht3) in Hr.
Qed.

Lemma publish_volume_inv t ro (s s' : Run W Volume) : publish_volume server t ro s = (Ok tt, s') ->
  exists path opts ue new,
    let mounted := Did (MountFs (FilesystemName (obj s)) opts) (inr path) :: trace s in
    trace s' = Did (UnmountFs (FilesystemName (obj s)) opts) ue :: new ++ mounted /\
    bound (isInDevMode config) ro (GetFullPath (set_mountPath path (obj s))) t mounted new.
Proof.
  unfold publish_volume. intros Hr. apply bind_inv in Hr as ([e|[fs opts]] & s1 & Ha & Hr); [by destruct e|].
  unfold attempt in Ha. destruct (MountUnderlyingFS server s) as [[[? ?]| |] ?] eqn:Em; simplify_eq.
  apply MountUnderlyingFS_inv in Em as (-> & path & Ht & Ho).
  apply bind_inv in Hr as ([r ue] & s2 & Hb & Hr). destruct r as [|[]]; [done|]. injection Hr as <-.
  unfold both in Hb. destruct (bind_target server t ro s1) as [r s3] eqn:Et.
  destruct (unmount_underlying _ opts s3) as [[?| |] ?] eqn:Eu; [|done|done].
  destruct r as [[]| |]; simplify_eq. apply bind_target_inv in Et as (new & Hn & Hbound).
  rewrite Ht in Hn. exists path, opts, ue, new. cbv zeta. split; [|by rewrite <- Ho, <- Ht].
  unfold unmount_underlying in Eu. call_step Eu e Ht3. cbn in Eu. injection Eu as -> <-. cbn. by rewrite Ht3, Hn.
Qed.

(** The options that publishing sets do not move the volume. *)
Lemma options_same_place params flags ro v :
  let v' := apply_readonly server ro (apply_overrides Compile MatchString server node params
    (merge_flags server flags (set_options_from_context server params v))) in
  FilesystemName v' = FilesystemName v /\ GetRelativePath v' = GetRelativePath v.
Proof.
  cbv zeta. unfold apply_readonly, apply_overrides, merge_flags, set_options_from_context, pruneUnsupportedMountOptions.
  by repeat case_match.
Qed.


(** *** An unpublished volume *)

(** Each time a path was removed it was the target's own, and this run had
    unmounted it before, or had seen that nothing is mounted there. *)
Fixpoint removals_guarded (target : string) (tr : list entry) : Prop :=
  match tr with
  | [] => True
  | Did (OsRemove p) _ :: before =>
      p = target /\
      (Did (KUnmount target) None ∈ before \/
       exists mounts, Did ReadProcMounts mounts ∈ before /\ PathIsWekaMount mounts target = false) /\
      removals_guarded target before
  | _ :: before => removals_guarded target before
  end.
Definition unmount_failed (x : entry) : bool :=
  match x with Did (KUnmount _) (Some _) => true | _ => false end.
Definition unpublished (target : string) (r : result unit) (new : list entry) : Prop :=
  removals_guarded target new /\
  (r = Ok tt -> Did (OsLstat target) (Some NotExist) ∈ new \/ Did (OsRemove target) None ∈ new) /\
  (existsb unmount_failed new = true -> r = Err (EStatus Internal "%s")).

(** A run, by its result and the calls that it made, latest first. *)
Definition runs_to {V A} (post : result A -> list entry -> Prop) (m : M (Run W V) A) : Prop :=
  forall s, exists new, trace (snd (m s)) = new ++ trace s /\ post (fst (m s)) new.
Lemma runs_to_call {V A} post e (f : answer e -> M (Run W V) A) :
  (forall a, runs_to (fun r new => post r (new ++ [Did e a])) (f a)) -> runs_to post (bind (call e) f).
Proof.
  intros Hf s. unfold bind, call. destruct (exec e (env s)) as [a w].
  destruct (Hf a (MkRun (obj s) w (Did e a :: trace s))) as (new & Ht & Hp). exists (new ++ [Did e a]).
  by rewrite <- app_assoc.
Qed.
Lemma runs_to_done {V A} (post : result A -> list entry -> Prop) (m : M (Run W V) A) r :
  (forall s, m s = (r, s)) -> post r [] -> runs_to post m.
Proof. intros Hm Hp s. exists []. by rewrite Hm. Qed.
Lemma runs_to_semaphore {V A} (post : result A -> list entry -> Prop) op (body : M (Run W V) A) :
  (forall e, post (Err (EStatus Unavailable "Too many concurrent requests, please retry")) [Did (SemAcquire op) (Some e)]) ->
  runs_to (fun r new => forall u, post r (Did (SemRelease op) u :: new ++ [Did (SemAcquire op) None])) body ->
  runs_to post (with_semaphore op body).
Proof.
  intros Hr Hb. apply runs_to_call. intros [e|]; [by eapply runs_to_done; [|apply Hr]|]. intros s.
  unfold finally, both, bind, call. destruct (Hb s) as (new & Ht & Hp). destruct (body s) as [r s2].
  destruct (exec (SemRelease op) (env s2)) as [u w]. exists (Did (SemRelease op) u :: new). cbn in Ht |- *.
  by destruct r; cbn; rewrite Ht.
Qed.
Ltac runs := repeat first
  [ (apply runs_to_call; first [intros [|] | intros ?]) | case_match | (eapply runs_to_done; [done|]) ].
Ltac listed := first [apply list_elem_of_here | apply list_elem_of_further; listed].
Ltac outcome := unfold unpublished; cbn; split; [|split];
  [ split_and?; try done; first [left; listed | right; eexists; split; [listed|done]]
  | intros ?; first [discriminate | left; listed | right; listed]
  | first [discriminate | done] ].

(** (C8) Unpublishing never removes anything but the target, and that only
    once it has been unmounted or seen not to be mounted; it succeeds only when
    the target was not there or has been removed; a failed unmount is reported. *)
Theorem unpublish_outcome target (s : Run W ()) :
  let run := NodeUnpublishVolume server target s in
  exists new, trace (snd run) = new ++ trace s /\ unpublished target (fst run) new.
Proof.
  cbv zeta. revert s. change (runs_to (unpublished target) (NodeUnpublishVolume server target)).
  apply runs_to_semaphore; [intros e; outcome|].
  unfold unpublish_volume, force_unmount. runs; intros u; outcome.
Qed.
End Node.

(** ** Statistics *)

(** (C34) The figures of [NodeGetVolumeStats] are exact and add up: for any
    filesystem of less than 2^63 bytes the 64-bit products do not wrap around,
    and used and available sum up to the total, for bytes and for inodes. *)
Theorem volume_stats_exact st :
  0 < st_Bsize st < 2 ^ 63 -> 0 <= st_Bavail st <= st_Blocks st -> st_Blocks st * st_Bsize st < 2 ^ 63 ->
  0 <= st_Ffree st <= st_Files st -> st_Files st < 2 ^ 63 ->
  let r := stats_of st in
  TotalBytes r = st_Blocks st * st_Bsize st /\ AvailableBytes r = st_Bavail st * st_Bsize st /\
  UsedBytes r + AvailableBytes r = TotalBytes r /\ 0 <= UsedBytes r /\
  TotalInodes r = st_Files st /\ AvailableInodes r = st_Ffree st /\
  UsedInodes r + AvailableInodes r = TotalInodes r /\ 0 <= UsedInodes r.
Proof.
  intros Hs Hb Ht Hf Hm. cbv zeta. unfold stats_of.
  assert (0 <= st_Bavail st * st_Bsize st <= st_Blocks st * st_Bsize st) by nia.
  rewrite (wrap64_id (st_Bsize st)), (wrap64_id (st_Blocks st)), (wrap64_id (st_Bavail st)) by (red; nia).
  rewrite (wrap64_id (st_Files st)), (wrap64_id (st_Ffree st)) by (red; lia).
  cbn [TotalBytes AvailableBytes UsedBytes TotalInodes AvailableInodes UsedInodes].
  rewrite (wrap64_id (st_Blocks st * st_Bsize st)), (wrap64_id (st_Bavail st * st_Bsize st)) by (red; lia).
  rewrite !wrap64_id by (red; lia). lia.
Qed.
Lemma volume_stats_exact_witness :
  let r := stats_of (MkStatfs 1000 400 4096 50 20) in
  TotalBytes r = 4096000 /\ AvailableBytes r = 1638400 /\ UsedBytes r + AvailableBytes r = TotalBytes r /\
  0 <= UsedBytes r /\ TotalInodes r = 50 /\ AvailableInodes r = 20 /\
  UsedInodes r + AvailableInodes r = TotalInodes r /\ 0 <= UsedInodes r.
Proof. apply (volume_stats_exact (MkStatfs 1000 400 4096 50 20)); cbn; lia. Defined.

(** An agreeable node: everything mounts. *)
Definition node_env : Env nat := scripted (fun _ e =>
  match e with
  | MountFs _ _ => Some (inr "/run/weka-fs-mounts/fs1-1")
  | OsMkdirAll _ _ | OsMkdir _ _ | KMount _ _ _ _ _ | UnmountFs _ _ => Some None
  | _ => None
  end).
Definition demo_node : NodeConfig := MkNodeConfig "node-1" 100 "" "" false false None.
