(* ===== verification/Plugin.v ===== *)
(** * The plugin process (cmd/wekafsplugin/main.go, driverconfig.go, wekafs.go,
    identityserver.go)

    From the command line to the services: the configuration, the driver, the
    identity service, the labels of the node, the Kubernetes manager and its
    health check, and what [Run] starts in each plugin mode. *)
From S2P Require Import Prelude.
From S2P Require Import GoStrings.
From S2P Require Import MountOptions.
From S2P Require Import MountOverrides.
From S2P Require Import Monad.
From S2P Require Import ApiObjects.
From S2P Require Import Credentials.
From S2P Require Import Objects.
From S2P Require Import Effects.
From S2P Require Import ApiOps.
From S2P Require Import ProcMounts.
From S2P Require Import Cluster.
From S2P Require Import Mounts.
From S2P Require Import Leader.
From S2P Require Import ApiStore.
From S2P Require Import Controller.
From S2P Require Import NodeServer.
From S2P Require Import Demo.

(** ** Configuration *)

(** [DriverConfig] in full, without the reference to the driver. *)
Record PluginConfig := MkPluginConfig {
  dc_DynamicVolPath : string; dc_VolumePrefix : string; dc_SnapshotPrefix : string; dc_SeedSnapshotPrefix : string;
  dc_allowAutoFsCreation : bool; dc_allowAutoFsExpansion : bool; dc_allowSnapshotsOfDirectoryVolumes : bool;
  dc_advertiseSnapshotSupport : bool; dc_advertiseVolumeCloneSupport : bool;
  dc_debugPath : string; dc_allowInsecureHttps : bool; dc_alwaysAllowSnapshotVolumes : bool;
  dc_mutuallyExclusiveOptions : list mutuallyExclusiveMountOptionSet;
  dc_maxConcurrencyPerOp : gmap string Z;
  dc_grpcRequestTimeout : Z; dc_healthProbeWekaTimeout : Z;
  dc_allowProtocolContainers : bool; dc_allowNfsFailback : bool; dc_useNfs : bool;
  dc_interfaceGroupName : string; dc_clientGroupName : string; dc_nfsProtocolVersion : string;
  dc_csiVersion : string; dc_skipGarbageCollection : bool; dc_waitForObjectDeletion : bool;
  dc_allowEncryptionWithoutKms : bool; dc_tracingUrl : string; dc_manageNodeTopologyLabels : bool;
  dc_wekafsContainerName : string; dc_enforceDirVolTotalCapacity : bool; dc_setOwnershipOnDynamicFilesystems : bool;
  dc_allowMountOptionOverrides : bool; dc_keepThinProvisioningRatioOnExpand : bool
}.
Definition NewDriverConfig (dynamicVolPath VolumePrefix SnapshotPrefix SeedSnapshotPrefix debugPath : string)
    (allowAutoFsCreation allowAutoFsExpansion allowSnapshotsOfDirectoryVolumes : bool)
    (suppressnapshotSupport suppressVolumeCloneSupport allowInsecureHttps alwaysAllowSnapshotVolumes : bool)
    (mutuallyExclusiveMountOptions : list string)
    (maxCreateVolumeReqs maxDeleteVolumeReqs maxExpandVolumeReqs maxCreateSnapshotReqs maxDeleteSnapshotReqs
     maxNodePublishVolumeReqs maxNodeUnpublishVolumeReqs : Z)
    (grpcRequestTimeoutSeconds healthProbeWekaTimeoutSeconds : Z)
    (allowProtocolContainers allowNfsFailback useNfs : bool)
    (interfaceGroupName clientGroupName nfsProtocolVersion version : string)
    (skipGarbageCollection waitForObjectDeletion allowEncryptionWithoutKms : bool) (tracingUrl : string)
    (manageNodeTopologyLabels : bool) (wekafsContainerName : string)
    (enforceDirVolTotalCapacity setOwnershipOnDynamicFilesystems allowMountOptionOverrides
     keepThinProvisioningRatioOnExpand : bool) : PluginConfig :=
  let concurrency : gmap string Z :=
    <["NodeUnpublishVolume" := maxNodeUnpublishVolumeReqs]> (
    <["NodePublishVolume" := maxNodePublishVolumeReqs]> (
    <["DeleteSnapshot" := maxDeleteSnapshotReqs]> (
    <["CreateSnapshot" := maxCreateSnapshotReqs]> (
    <["ExpandVolume" := maxExpandVolumeReqs]> (
    <["DeleteVolume" := maxDeleteVolumeReqs]> (
    <["CreateVolume" := maxCreateVolumeReqs]> ∅)))))) in
  MkPluginConfig dynamicVolPath VolumePrefix SnapshotPrefix SeedSnapshotPrefix allowAutoFsCreation allowAutoFsExpansion
    allowSnapshotsOfDirectoryVolumes (negb suppressnapshotSupport) (negb suppressVolumeCloneSupport) debugPath
    allowInsecureHttps alwaysAllowSnapshotVolumes (exclusive_sets mutuallyExclusiveMountOptions) concurrency
    (wrap64 (grpcRequestTimeoutSeconds * Second)) (wrap64 (healthProbeWekaTimeoutSeconds * Second))
    allowProtocolContainers allowNfsFailback useNfs interfaceGroupName clientGroupName nfsProtocolVersion version
    skipGarbageCollection waitForObjectDeletion allowEncryptionWithoutKms tracingUrl manageNodeTopologyLabels
    wekafsContainerName enforceDirVolTotalCapacity setOwnershipOnDynamicFilesystems allowMountOptionOverrides
    keepThinProvisioningRatioOnExpand.
Definition dc_isInDevMode (c : PluginConfig) : bool := negb (bool_decide (dc_debugPath c = "")).
(** What the volumes and the store of API clients read of it. *)
Definition volume_config (name : string) (c : PluginConfig) : DriverConfig :=
  Objects.MkConfig (dc_DynamicVolPath c) (dc_VolumePrefix c) (dc_SnapshotPrefix c) (dc_SeedSnapshotPrefix c)
    (dc_allowAutoFsCreation c) (dc_allowAutoFsExpansion c) (dc_allowSnapshotsOfDirectoryVolumes c) (dc_debugPath c)
    (dc_alwaysAllowSnapshotVolumes c) (dc_mutuallyExclusiveOptions c) (dc_waitForObjectDeletion c)
    (dc_allowEncryptionWithoutKms c) (dc_enforceDirVolTotalCapacity c) (dc_setOwnershipOnDynamicFilesystems c)
    (dc_keepThinProvisioningRatioOnExpand c) (dc_csiVersion c) name.
Definition store_config (c : PluginConfig) : StoreConfig :=
  MkStoreConfig (dc_allowNfsFailback c) (dc_useNfs c) (dc_interfaceGroupName c) (dc_clientGroupName c) (dc_isInDevMode c).

(** [NewWekaFsDriver]; the store of API clients is made by [NewApiStore]. *)
Record WekaFsDriver := MkWekaFsDriver {
  d_name : string; d_nodeID : string; d_version : string; d_endpoint : string; d_maxVolumesPerNode : Z;
  d_debugPath : string; d_csiMode : CsiPluginMode; d_selinuxSupport : bool; d_config : PluginConfig
}.
Definition vendorVersion : string := "dev".
Definition NewWekaFsDriver (driverName nodeID endpoint : string) (maxVolumesPerNode : Z) (version debugPath : string)
    (csiMode : CsiPluginMode) (selinuxSupport : bool) (config : PluginConfig) : error + WekaFsDriver :=
  if bool_decide (driverName = "") then inl (EPlain "no driver name provided")
  else if bool_decide (nodeID = "") then inl (EPlain "no node id provided")
  else if bool_decide (endpoint = "") then inl (EPlain "no driver endpoint provided")
  else
    let vendorVersion := if bool_decide (version = "") then vendorVersion else version in
    inr (MkWekaFsDriver driverName nodeID vendorVersion endpoint maxVolumesPerNode debugPath csiMode selinuxSupport config).
Definition controller_mode (m : CsiPluginMode) : bool :=
  match m with CsiModeController | CsiModeAll => true | CsiModeNode => false end.
Definition node_mode (m : CsiPluginMode) : bool :=
  match m with CsiModeNode | CsiModeAll => true | CsiModeController => false end.

(** ** The command line (main.go) *)

Record Flags := MkFlags {
  f_endpoint : string; f_driverName : string; f_debugPath : string; f_nodeID : string; f_maxVolumesPerNode : Z;
  f_dynamicSubPath : string; f_csimodetext : string; f_selinuxSupport : bool; f_newVolumePrefix : string;
  f_newSnapshotPrefix : string; f_seedSnapshotPrefix : string; f_allowAutoFsExpansion : bool;
  f_allowAutoFsCreation : bool; f_allowSnapshotsOfLegacyVolumes : bool; f_suppressSnapshotsCapability : bool;
  f_suppressVolumeCloneCapability : bool; f_verbosity : Z; f_tracingUrl : string; f_allowInsecureHttps : bool;
  f_alwaysAllowSnapshotVolumes : bool; f_maxConcurrentCreateVolumeReqs : Z;
  f_maxConcurrentExpandVolumeReqs : Z; f_maxConcurrentDeleteVolumeReqs : Z;
  f_maxConcurrentCreateSnapshotReqs : Z; f_maxConcurrentDeleteSnapshotReqs : Z;
  f_maxConcurrentNodePublishVolumeReqs : Z; f_maxConcurrentNodeUnpublishVolumeReqs : Z;
  f_grpcRequestTimeoutSeconds : Z; f_healthProbeWekaTimeoutSeconds : Z; f_allowProtocolContainers : bool;
  f_allowNfsFailback : bool; f_useNfs : bool; f_interfaceGroupName : string; f_clientGroupName : string;
  f_nfsProtocolVersion : string; f_wekafsContainerName : string; f_skipGarbageCollection : bool;
  f_waitForObjectDeletion : bool; f_allowEncryptionWithoutKms : bool; f_manageNodeTopologyLabels : bool;
  f_enforceDirVolTotalCapacity : bool; f_setOwnershipOnDynamicFilesystems : bool;
  f_allowMountOptionOverrides : bool; f_keepThinProvisioningRatioOnExpand : bool;
  f_mutuallyExclusiveMountOptionsStrings : list string
}.
(** The values of flags that are not given. *)
Definition default_flags : Flags :=
  MkFlags
    "unix://tmp/csi.sock" "csi.weka.io" "" "" 0 "csi-volumes" "all" false "csivol-" "csisnp-" "csisnp-seed-"
    false false false false false 1 "" false false 1 1 1 1 1 1 5 30 2 false false false "" "" "4.1" "" false
    false false false false false false true [].
(** [version] is set by the build. *)
Definition flags_config (version : string) (f : Flags) : PluginConfig :=
  NewDriverConfig
    (f_dynamicSubPath f) (f_newVolumePrefix f) (f_newSnapshotPrefix f) (f_seedSnapshotPrefix f) (f_debugPath f)
    (f_allowAutoFsCreation f) (f_allowAutoFsExpansion f) (f_allowSnapshotsOfLegacyVolumes f)
    (f_suppressSnapshotsCapability f) (f_suppressVolumeCloneCapability f) (f_allowInsecureHttps f)
    (f_alwaysAllowSnapshotVolumes f) (f_mutuallyExclusiveMountOptionsStrings f)
    (f_maxConcurrentCreateVolumeReqs f) (f_maxConcurrentDeleteVolumeReqs f) (f_maxConcurrentExpandVolumeReqs f)
    (f_maxConcurrentCreateSnapshotReqs f) (f_maxConcurrentDeleteSnapshotReqs f)
    (f_maxConcurrentNodePublishVolumeReqs f) (f_maxConcurrentNodeUnpublishVolumeReqs f)
    (f_grpcRequestTimeoutSeconds f) (f_healthProbeWekaTimeoutSeconds f) (f_allowProtocolContainers f)
    (f_allowNfsFailback f) (f_useNfs f) (f_interfaceGroupName f) (f_clientGroupName f) (f_nfsProtocolVersion f)
    version (f_skipGarbageCollection f) (f_waitForObjectDeletion f) (f_allowEncryptionWithoutKms f)
    (f_tracingUrl f) (f_manageNodeTopologyLabels f) (f_wekafsContainerName f) (f_enforceDirVolTotalCapacity f)
    (f_setOwnershipOnDynamicFilesystems f) (f_allowMountOptionOverrides f)
    (f_keepThinProvisioningRatioOnExpand f).
(** What [main] and [handle] make of the flags; an error ends the process. *)
Definition handle (version : string) (f : Flags) : error + WekaFsDriver :=
  match GetCsiPluginMode (f_csimodetext f) with
  | None => inl (EPlain "Unsupported plugin mode")
  | Some csiMode =>
      NewWekaFsDriver (f_driverName f) (f_nodeID f) (f_endpoint f) (f_maxVolumesPerNode f) version (f_debugPath f)
        csiMode (f_selinuxSupport f) (flags_config version f)
  end.

(** ** Log levels (main.go) *)
Inductive log_level := Disabled | PanicLevel | FatalLevel | ErrorLevel | InfoLevel | DebugLevel | TraceLevel.
Definition verbMap : list log_level := [Disabled; PanicLevel; FatalLevel; ErrorLevel; InfoLevel; DebugLevel; TraceLevel].
(** A key that is not in the map reads as the zero value, DebugLevel. *)
Definition mapVerbosity (verbosity : Z) : log_level :=
  let v := if 7 <=? verbosity then 6 else verbosity in
  if v <? 0 then DebugLevel else default DebugLevel (verbMap !! Z.to_nat v).

(** ** Labels of the node *)

Definition TopologyLabelNodeGlobal : string := "topology.csi.weka.io/node".
Definition TopologyLabelTransportGlobal : string := "topology.csi.weka.io/transport".
Definition TopologyLabelNode (name : string) : string := "topology." +:+ name +:+ "/node".
Definition TopologyLabelTransport (name : string) : string := "topology." +:+ name +:+ "/transport".
Definition labelsToSet (d : WekaFsDriver) (transport : string) : gmap string string :=
  <[TopologyLabelTransport (d_name d) := transport]> (
  <[TopologyLabelWekaLocal (d_name d) := "true"]> (
  <[TopologyLabelNode (d_name d) := d_nodeID d]> (
  <[TopologyKeyNode := d_nodeID d]> ∅))).
Definition labelsToRemove (d : WekaFsDriver) : list string :=
  [TopologyLabelTransportGlobal; TopologyLabelNodeGlobal; TopologyKeyNode] ++
  [TopologyLabelNode (d_name d); TopologyLabelTransport (d_name d); TopologyLabelWekaLocal (d_name d)].
(** The loop that sets labels: the labels, and whether an update is needed. *)
Definition set_label (st : gmap string string * bool) (kv : string * string) : gmap string string * bool :=
  let '(labels, updateNeeded) := st in
  if bool_decide (labels !! kv.1 = Some kv.2) then (labels, updateNeeded) else (<[kv.1 := kv.2]> labels, true).
Definition set_labels (l : list (string * string)) (labels : gmap string string) : gmap string string * bool :=
  foldl set_label (labels, false) l.
Definition remove_labels (l : list string) (labels : gmap string string) : gmap string string :=
  foldl (fun m k => delete k m) labels l.

Section Kubernetes.
Context {W : Type} `{Env W} {V : Type}.
Abbreviation run := (Run W V).
Local Open Scope go_scope.
(** The order in which Go ranges over the labels to set. *)
Context (range_labels : gmap string string -> list (string * string)).

(** The errors on the way are logged, and nothing else is done. *)
Definition with_node (name : string) (body : option (gmap string string) -> M run unit) : M run unit :=
  let! e := call KubeInClusterConfig in
  match e with
  | Some _ => ret tt
  | None =>
      let! e := call KubeNewForConfig in
      match e with
      | Some _ => ret tt
      | None =>
          let! r := call (KubeGetNode name) in
          match r with inl _ => ret tt | inr labels => body labels end
      end
  end.
Definition node_transport (d : WekaFsDriver) : M run string :=
  if dc_useNfs (d_config d) then ret "nfs"
  else
    let! wekaRunning := isWekaRunning in
    ret (if dc_allowNfsFailback (d_config d) && negb wekaRunning then "nfs" else "wekafs").
Definition SetNodeLabels (d : WekaFsDriver) : M run unit :=
  if dc_isInDevMode (d_config d) then ret tt
  else if negb (node_mode (d_csiMode d)) then ret tt
  else with_node (d_nodeID d) (fun labels =>
    let! transport := node_transport d in
    match labels with
    | None => panic                                   (* assignment to an entry of a nil map *)
    | Some labels =>
        let '(labels, updateNeeded) := set_labels (range_labels (labelsToSet d transport)) labels in
        if updateNeeded then let! _ := call (KubeUpdateNode (d_nodeID d) (Some labels)) in ret tt else ret tt
    end).
Definition CleanupNodeLabels (d : WekaFsDriver) : M run unit :=
  if dc_isInDevMode (d_config d) then ret tt
  else with_node (d_nodeID d) (fun labels =>
    let! _ := call (KubeUpdateNode (d_nodeID d) (remove_labels (labelsToRemove d) <$> labels)) in ret tt).
(** The zone and the region of the node, unless there is no manager. *)
Definition readNodeTopologyLabels (d : WekaFsDriver) (manager : option ManagerOptions) (ns : NodeConfig) :
    M run NodeConfig :=
  match manager with
  | None => ret ns
  | Some _ =>
      let! r := call (KubeReadNode (d_nodeID d)) in
      match r with
      | inl _ => ret ns
      | inr labels =>
          let m := default ∅ labels in
          ret (MkNodeConfig (nodeID ns) (maxVolumesPerNode ns) (default (zone ns) (m !! TopologyKeyZone))
                 (default (region ns) (m !! TopologyKeyRegion)) (allowMountOptionOverrides ns)
                 (manageNodeTopologyLabels ns) (apireader ns))
      end
  end.

(** ** The identity service *)

Definition GetPluginInfo (name version : string) : error + (string * string) :=
  if bool_decide (name = "") then inl (EStatus Unavailable "Driver name not configured")
  else if bool_decide (version = "") then inl (EStatus Unavailable "Driver is missing version")
  else inr (name, version).
Inductive PluginCapability := CONTROLLER_SERVICE | VOLUME_EXPANSION_ONLINE | VOLUME_ACCESSIBILITY_CONSTRAINTS.
Definition GetPluginCapabilities : list PluginCapability :=
  [CONTROLLER_SERVICE; VOLUME_EXPANSION_ONLINE; VOLUME_ACCESSIBILITY_CONSTRAINTS].
(** The answer is the field [Ready]. *)
Definition Probe (d : WekaFsDriver) : M run bool :=
  let c := d_config d in
  let! isReady := (if dc_isInDevMode c then ret true else isWekaRunning) in
  let isReady := if negb isReady then dc_useNfs c || dc_allowNfsFailback c else isReady in
  (if dc_manageNodeTopologyLabels c then
     if negb isReady then if node_mode (d_csiMode d) then CleanupNodeLabels d else ret tt
     else if negb (dc_isInDevMode c) then SetNodeLabels d else ret tt
   else ret tt) ;;
  ret isReady.

(** ** The manager *)

Definition ErrNotInCluster : error := EPlain "unable to load in-cluster configuration".
Definition HealthProbePort : string := "8081".
Definition getOwnNamespace : M run string :=
  let! ns := call (Getenv "POD_NAMESPACE") in
  if bool_decide (ns <> "") then ret ns
  else
    let! r := call (OsReadFile "/var/run/secrets/kubernetes.io/serviceaccount/namespace") in
    match r with inl _ => throw (EPlain "failed to detect namespace: %w") | inr ns => ret ns end.
Definition manager_config : M run unit :=
  let! e := call KubeInClusterConfig in
  match e with
  | None => ret tt
  | Some e =>
      if bool_decide (e = ErrNotInCluster) then
        let! kubeconfig := call (Getenv "KUBECONFIG") in
        if bool_decide (kubeconfig = "") then throw (EPlain "not in cluster and KUBECONFIG not set")
        else
          let! e := call (KubeBuildConfig kubeconfig) in
          match e with Some _ => throw (EPlain "failed to build config from kubeconfig: %w") | None => ret tt end
      else throw (EPlain "failed to get in-cluster config: %w")
  end.
Definition manager_options (d : WekaFsDriver) (leaderElection : bool) : M run ManagerOptions :=
  let strips := dc_enforceDirVolTotalCapacity (d_config d) in
  if leaderElection then
    let! healthPort := call (Getenv "HEALTH_PORT") in
    let healthPort := if bool_decide (healthPort = "") then HealthProbePort else healthPort in
    let! r := attempt getOwnNamespace in
    match r with
    | inl _ => throw (EPlain "failed to get namespace for leader election: %w")
    | inr namespace =>
        ret (MkManagerOptions (":" +:+ healthPort) true namespace (d_name d +:+ "-controller-leader") true strips)
    end
  else ret (MkManagerOptions "" false "" "" false strips).
(** The socket of the health check. *)
Definition health_socket (endpoint : string) : error + (string * string) :=
  match parseEndpoint endpoint with
  | inl _ => inl (EPlain "failed to parse endpoint for health check: %w")
  | inr (proto, path) => inr (proto, if bool_decide (proto = "unix") then "/" +:+ path else path)
  end.
Definition initManager (d : WekaFsDriver) (leaderElection : bool) : M run ManagerOptions :=
  manager_config ;;
  let! opts := manager_options d leaderElection in
  let! e := call (KubeNewManager opts) in
  match e with
  | Some _ => throw (EPlain "failed to create manager: %w")
  | None =>
      if leaderElection then
        let! _ := of_sum (health_socket (d_endpoint d)) in
        let! e := call KubeAddHealthzCheck in
        match e with Some _ => throw (EPlain "failed to add health check: %w") | None => ret opts end
      else ret opts
  end.
(** The health check that [initManager] adds. *)
Definition healthz (d : WekaFsDriver) (isLeader : bool) (socketProto socketPath : string) : M run unit :=
  if isLeader then
    let! e := call (NetDial socketProto socketPath) in
    match e with
    | Some _ => throw (EPlain "gRPC server not accessible: %w")
    | None =>
        if negb (dc_useNfs (d_config d)) && negb (dc_allowNfsFailback (d_config d)) && negb (dc_isInDevMode (d_config d))
        then let! running := isWekaRunning in
             if running then ret tt else throw (EPlain "weka client not running or unresponsive")
        else ret tt
    end
  else ret tt.
End Kubernetes.

(** ** The cache of PersistentVolumes *)

(** A PersistentVolume with the fields that [stripUnnecessaryPVFields] names;
    [pvo_meta] and [pvo_source] are the others, of the metadata and of the
    CSI source. *)
Record CsiSource := MkCsiSource { src_Driver : string; src_VolumeHandle : string; src_rest : gmap string string }.
Record PVObject := MkPVObject {
  pvo_TypeMeta : string; pvo_Name : string; pvo_UID : string; pvo_ResourceVersion : string;
  pvo_meta : gmap string string;
  pvo_Capacity : gmap string Z;
  pvo_CSI : option CsiSource;
  pvo_spec : gmap string string;
  pvo_Phase : string
}.
Definition stripUnnecessaryPVFields (pv : PVObject) : PVObject :=
  MkPVObject (pvo_TypeMeta pv) (pvo_Name pv) (pvo_UID pv) (pvo_ResourceVersion pv) ∅ (pvo_Capacity pv)
    ((fun c => MkCsiSource (src_Driver c) (src_VolumeHandle c) ∅) <$> pvo_CSI pv) ∅ (pvo_Phase pv).
(** What the capacity tracker reads of a listed PersistentVolume. *)
Definition read_pv (pv : PVObject) : PersistentVolume :=
  MkPV ((fun c => (src_Driver c, src_VolumeHandle c)) <$> pvo_CSI pv) (pvo_Capacity pv !! "storage").

(** ** Starting *)

Definition LeaderReadyFile : string := "/leader-state/leader_ready".
Inductive loop := WithLeaderElection | WithoutLeaderElection.
Record Started := MkStarted {
  st_mounter : DataTransport;
  st_manager : option ManagerOptions;
  st_cs : option (list capability);            (* the controller service, with its capabilities *)
  st_ns : option NodeConfig;
  st_loop : loop
}.
(** How [Run] gets on: [log.Fatal] ends the process, or it is in its loop. *)
Inductive run_outcome := Fatal | InLoop (r : Started).

Section Starting.
Context {W : Type} `{Env W} (api_reader : reader).
Abbreviation run := (Run W ApiStore).
Local Open Scope go_scope.

Definition NewNodeServer (d : WekaFsDriver) (manager : option ManagerOptions) : NodeConfig :=
  MkNodeConfig (d_nodeID d) (d_maxVolumesPerNode d) "" "" (dc_allowMountOptionOverrides (d_config d))
    (dc_manageNodeTopologyLabels (d_config d)) (if manager then Some api_reader else None).
(** A manager that cannot be made is done without. *)
Definition try_manager (d : WekaFsDriver) (leaderElection : bool) : M run (option ManagerOptions) :=
  let! r := attempt (initManager d leaderElection) in
  ret (match r with inl _ => None | inr o => Some o end).
(** [Run], from the mounter to the loop it ends in. *)
Definition start_services (d : WekaFsDriver) : M run Started :=
  let! mounter := NewMounter (store_config (d_config d)) in
  let! manager := (if controller_mode (d_csiMode d) then try_manager d true else ret None) in
  let cs := if controller_mode (d_csiMode d)
            then Some (exposedCapabilities (dc_advertiseSnapshotSupport (d_config d))
                         (dc_advertiseVolumeCloneSupport (d_config d))) else None in
  let! (manager, ns) :=
    (if node_mode (d_csiMode d) then
       (if dc_manageNodeTopologyLabels (d_config d) then CleanupNodeLabels d else ret tt) ;;
       let! manager := (if controller_mode (d_csiMode d) then ret manager else try_manager d false) in
       let! ns := readNodeTopologyLabels d manager (NewNodeServer d manager) in
       ret (manager, Some ns)
     else ret (manager, None)) in
  ret (MkStarted mounter manager cs ns
         (if controller_mode (d_csiMode d) then match manager with Some _ => WithLeaderElection | None => WithoutLeaderElection end
          else WithoutLeaderElection)).
(** Into the loop: with leader election the runnable that serves is added to
    the manager first.  How a loop goes on is [pod_step] and [lone_step] of
    Leader.v. *)
Definition enter_loop (r : Started) : M run run_outcome :=
  match st_loop r with
  | WithLeaderElection =>
      let! e := call KubeAddRunnable in
      match e with Some _ => ret Fatal | None => ret (InLoop r) end
  | WithoutLeaderElection => ret (InLoop r)
  end.
Definition driver_Run (d : WekaFsDriver) : M run run_outcome :=
  (if controller_mode (d_csiMode d) then let! _ := call (OsRemove LeaderReadyFile) in ret tt else ret tt) ;;
  let! r := start_services d in
  enter_loop r.
(** What both loops do when the process is told to stop, before the server stops. *)
Definition on_termination (d : WekaFsDriver) : M run unit :=
  if node_mode (d_csiMode d) && dc_manageNodeTopologyLabels (d_config d) then CleanupNodeLabels d else ret tt.
End Starting.

(** * Theorems *)

(** ** Labels *)

Lemma set_label_spec labels b kv : set_label (labels, b) kv = (<[kv.1 := kv.2]> labels, b || negb (bool_decide (labels !! kv.1 = Some kv.2))).
Proof.
  unfold set_label. case_bool_decide as E; cbn; [by rewrite insert_id, orb_false_r|by rewrite orb_true_r].
Qed.
Lemma set_labels_go l : forall labels b, NoDup l.*1 ->
  foldl set_label (labels, b) l =
    (list_to_map l ∪ labels, b || negb (forallb (fun kv => bool_decide (labels !! kv.1 = Some kv.2)) l)).
Proof.
  induction l as [|[k v] l IH]; intros labels b Hl; cbn [foldl forallb].
  { by rewrite list_to_map_nil, map_empty_union, orb_false_r. }
  cbn in Hl. apply NoDup_cons in Hl as [Hk Hl]. rewrite set_label_spec, IH by done. cbn [fst snd]. f_equal.
  - rewrite list_to_map_cons, <- insert_union_l, <- insert_union_r; [done|]. by apply not_elem_of_list_to_map.
  - assert (forallb (fun kv => bool_decide (<[k := v]> labels !! kv.1 = Some kv.2)) l =
            forallb (fun kv => bool_decide (labels !! kv.1 = Some kv.2)) l) as ->.
    { clear IH Hl. induction l as [|[k' v'] l IH]; [done|]. cbn in *. apply not_elem_of_cons in Hk as [Hne Hk].
      rewrite IH by done. by rewrite lookup_insert_ne by done. }
    rewrite negb_andb. by destruct b, (bool_decide _).
Qed.
(** Setting labels is the union, and needs an update unless all were there. *)
Lemma set_labels_spec ord m labels : ord ≡ₚ map_to_list m ->
  set_labels ord labels = (m ∪ labels, negb (bool_decide (m ⊆ labels))).
Proof.
  intros Hord. unfold set_labels. rewrite set_labels_go by (rewrite Hord; apply NoDup_fst_map_to_list).
  rewrite (list_to_map_proper ord (map_to_list m)) by (done || rewrite Hord; apply NoDup_fst_map_to_list).
  rewrite list_to_map_to_list. f_equal. cbn [orb]. f_equal. apply eq_true_iff_eq.
  rewrite bool_decide_eq_true, forallb_forall, map_subseteq_spec. split.
  - intros Hall k v Hkv. apply (bool_decide_unpack _). specialize (Hall (k, v)). cbn in Hall. rewrite Hall; [done|].
    apply list_elem_of_In. rewrite Hord. by apply elem_of_map_to_list.
  - intros Hsub [k v] Hin. apply bool_decide_eq_true. cbn [fst snd]. apply Hsub, elem_of_map_to_list.
    rewrite <- Hord. by apply list_elem_of_In.
Qed.
Lemma remove_labels_lookup l labels k : remove_labels l labels !! k = if decide (k ∈ l) then None else labels !! k.
Proof.
  unfold remove_labels. revert labels. induction l as [|x l IH]; intros labels; cbn [foldl].
  { by rewrite decide_False by apply not_elem_of_nil. }
  rewrite IH. destruct (decide (k ∈ l)) as [Hin|Hin].
  - by rewrite decide_True by (by right).
  - destruct (decide (k = x)) as [->|Hne].
    + rewrite decide_True by left. by rewrite lookup_delete_eq.
    + rewrite decide_False by (by rewrite elem_of_cons; intros [|]). by rewrite lookup_delete_ne.
Qed.
Lemma labelsToSet_removed d t k : is_Some (labelsToSet d t !! k) -> k ∈ labelsToRemove d.
Proof.
  unfold labelsToSet, labelsToRemove. rewrite !lookup_insert_is_Some, lookup_empty. cbn.
  intros [->|[_ [->|[_ [->|[_ [->|[_ [? ?]]]]]]]]]; [set_solver..|done].
Qed.

(** (C27) Cleaning up takes back what was set, and nothing else: after the labels of
    a node were set in any order and cleaned up, the node has none of the labels
    the driver sets and all its other labels as before. *)
Theorem labels_roundtrip d transport ord labels : ord ≡ₚ map_to_list (labelsToSet d transport) ->
  let after := remove_labels (labelsToRemove d) (fst (set_labels ord labels)) in
  after = remove_labels (labelsToRemove d) labels /\
  (forall k, is_Some (labelsToSet d transport !! k) -> after !! k = None) /\
  (forall k, k ∉ labelsToRemove d -> after !! k = labels !! k).
Proof.
  intros Hord. cbv zeta. rewrite (set_labels_spec _ _ _ Hord). cbn [fst].
  assert (Hl : forall k, k ∉ labelsToRemove d -> (labelsToSet d transport ∪ labels) !! k = labels !! k).
  { intros k Hk. apply lookup_union_r. destruct (labelsToSet d transport !! k) eqn:E; [|done].
    destruct Hk. eapply labelsToSet_removed. by rewrite E. }
  split_and!.
  - apply map_eq. intros k. rewrite !remove_labels_lookup. case_decide; [done|]. by apply Hl.
  - intros k Hk. rewrite remove_labels_lookup, decide_True; [done|]. by eapply labelsToSet_removed.
  - intros k Hk. rewrite remove_labels_lookup, decide_False by done. by apply Hl.
Qed.

(** ** Updates of the node *)

Abbreviation node_labels := (option (gmap string string)).
Definition quiet (e : entry) : Prop := match ev e with KubeUpdateNode _ _ => False | _ => True end.
(** Every update of a node in the trace is [P]-related to labels that were read
    from this node before. *)
Fixpoint updates (P : node_labels -> node_labels -> Prop) (tr : list entry) : Prop :=
  match tr with
  | [] => True
  | Did (KubeUpdateNode n l) _ :: tr' =>
      (exists before, Did (KubeGetNode n) (inr before) ∈ tr' /\ P before l) /\ updates P tr'
  | _ :: tr' => updates P tr'
  end.
Lemma updates_quiet P e tr : quiet e -> updates P (e :: tr) <-> updates P tr.
Proof. destruct e as [[] ?]; done. Qed.
Lemma updates_only P tr tr' : only quiet tr tr' -> updates P tr -> updates P tr'.
Proof.
  intros (new & -> & Hnew) Htr. induction Hnew as [|e new He _ IH]; [done|]. by apply updates_quiet.
Qed.

Section Updates.
Context {W : Type} `{Env W} {V : Type} (range_labels : gmap string string -> list (string * string)).
Context (P : node_labels -> node_labels -> Prop).
Abbreviation run := (Effects.Run W V).
Definition keeps_updates {A} (m : M run A) : Prop := forall s, updates P (trace s) -> updates P (trace (snd (m s))).
(** The same after the labels [before] of the node [n] were read. *)
Definition keeps_after {A} (n : string) (before : node_labels) (m : M run A) : Prop := forall s,
  Did (KubeGetNode n) (inr before) ∈ trace s -> updates P (trace s) -> updates P (trace (snd (m s))).

Lemma keeps_updates_quiet {A} (m : M run A) : respects (only quiet) m -> keeps_updates m.
Proof. intros Hm s. apply updates_only, Hm. Qed.
Lemma keeps_updates_bind {A B} (m : M run A) (f : A -> M run B) :
  keeps_updates m -> (forall a, keeps_updates (f a)) -> keeps_updates (bind m f).
Proof. intros Hm Hf s Hs. unfold bind. specialize (Hm s Hs). destruct (m s) as [[a|e|] s1]; [by apply Hf|done..]. Qed.
Lemma keeps_after_bind {A B} n before (m : M run A) (f : A -> M run B) :
  respects (only quiet) m -> (forall a, keeps_after n before (f a)) -> keeps_after n before (bind m f).
Proof.
  intros Hm Hf s Hin Hs. unfold bind. specialize (Hm s). destruct (m s) as [[a|e|] s1]; cbn in Hm.
  - destruct Hm as (new & E & Hnew). apply Hf; [rewrite E; set_solver|]. eapply updates_only; [|exact Hs]. by exists new.
  - by eapply updates_only.
  - by eapply updates_only.
Qed.
Lemma keeps_after_update n before after : P before after ->
  keeps_after n before (bind (call (KubeUpdateNode n after)) (fun _ => ret tt)).
Proof.
  intros HP s Hin Hs. unfold bind, call. destruct (exec (KubeUpdateNode n after) (env s)) as [a w]. cbn. eauto.
Qed.
Lemma respects_quiet_isWekaRunning : respects (V:=V) (only quiet) isWekaRunning.
Proof. unfold isWekaRunning, isWekaDriverLoaded, GetFrontendsFromDriver. respects; by apply only_allows. Qed.

Lemma with_node_updates n body : (forall before, keeps_after n before (body before)) -> keeps_updates (with_node n body).
Proof.
  intros Hbody. unfold with_node. apply keeps_updates_bind.
  { apply keeps_updates_quiet. respects; by apply only_allows. }
  intros [e|]; [by intros s|]. apply keeps_updates_bind.
  { apply keeps_updates_quiet. respects; by apply only_allows. }
  intros [e|]; [by intros s|]. intros s Hs. unfold bind, call. destruct (exec (KubeGetNode n) (env s)) as [a w].
  cbn in a. destruct a as [e|before]; [done|]. cbn. apply Hbody; cbn; [left|done].
Qed.
End Updates.
#[export] Hint Resolve respects_quiet_isWekaRunning : respects.

(** The updates of the driver. *)
Definition labels_set (d : WekaFsDriver) (before after : node_labels) : Prop :=
  exists labels transport, before = Some labels /\ after = Some (labelsToSet d transport ∪ labels) /\
    ~ labelsToSet d transport ⊆ labels.
Definition labels_cleaned (d : WekaFsDriver) (before after : node_labels) : Prop :=
  after = remove_labels (labelsToRemove d) <$> before.

Section Probe.
Context {W : Type} `{Env W} {V : Type} (range_labels : gmap string string -> list (string * string)).
Hypothesis ranges : forall m, range_labels m ≡ₚ map_to_list m.
Abbreviation run := (Effects.Run W V).

Lemma SetNodeLabels_updates d : keeps_updates (V:=V) (labels_set d) (SetNodeLabels range_labels d).
Proof.
  unfold SetNodeLabels. destruct (dc_isInDevMode _); [by intros s|]. destruct (node_mode _); [|by intros s].
  cbn [negb]. apply with_node_updates. intros before. apply keeps_after_bind.
  { unfold node_transport. respects. }
  intros transport. destruct before as [labels|]; [|by intros s].
  rewrite (set_labels_spec _ _ _ (ranges _)). case_bool_decide as Hsub; cbn [negb]; [by intros s|].
  apply keeps_after_update. by exists labels, transport.
Qed.
Lemma CleanupNodeLabels_updates d : keeps_updates (V:=V) (labels_cleaned d) (CleanupNodeLabels d).
Proof.
  unfold CleanupNodeLabels. destruct (dc_isInDevMode _); [by intros s|].
  apply with_node_updates. intros before. by apply keeps_after_update.
Qed.
Lemma isWekaRunning_total (s : run) : exists b s', isWekaRunning s = (Ok b, s') /\ only quiet (trace s) (trace s').
Proof.
  pose proof (respects_quiet_isWekaRunning (V:=V) s) as Hq.
  unfold isWekaRunning, isWekaDriverLoaded, GetFrontendsFromDriver, call_val, attempt, bind, call, of_sum in *.
  destruct (exec ReadProcModules (env s)) as [[l|] w]; cbn in *; [|eauto].
  destruct (existsb _ l); cbn in *; [|eauto].
  destruct (exec ReadWekaInterface w) as [[e|l'] w']; cbn in *; eauto.
Qed.

(** (C26) Readiness and labels agree: the answer to a probe is whether the driver
    can mount (development mode, a running WEKA client, or NFS); a probe that
    answers ready only ever adds the labels of the driver to those of the node,
    one that does not only ever removes them, and without
    manageNodeTopologyLabels the node is not touched. *)
Theorem Probe_labels d (s s' : run) b : trace s = [] -> Probe range_labels d s = (Ok b, s') ->
  (exists running s1, isWekaRunning s = (Ok running, s1) /\
    b = dc_isInDevMode (d_config d) || running || dc_useNfs (d_config d) || dc_allowNfsFailback (d_config d)) /\
  updates (if b then labels_set d else labels_cleaned d) (trace s') /\
  (dc_manageNodeTopologyLabels (d_config d) = false -> Forall quiet (trace s')).
Proof.
  intros Hs. destruct (isWekaRunning_total s) as (running & s1 & Er & Hq). unfold Probe. cbv zeta.
  set (dev := dc_isInDevMode (d_config d)). set (nfs := dc_useNfs (d_config d) || dc_allowNfsFailback (d_config d)).
  set (ready := dev || running).
  assert (exists s2, (if dev then ret true else isWekaRunning) s = (Ok ready, s2) /\ only quiet [] (trace s2))
    as (s2 & E2 & Hq2).
  { unfold ready. destruct dev; [exists s; by rewrite <- Hs|exists s1; by rewrite <- Hs]. }
  rewrite (bind_Ok _ _ _ _ _ E2). clear E2. intros Hr. apply bind_inv in Hr as (u & s3 & Hl & Hr).
  injection Hr as <- <-. assert (Hb : (if negb ready then nfs else ready) = dev || running || dc_useNfs (d_config d) || dc_allowNfsFailback (d_config d)).
  { unfold ready, nfs. by destruct dev, running, (dc_useNfs _), (dc_allowNfsFailback _). }
  split; [by exists running, s1|]. clear Hb.
  assert (Hu : forall P, updates P (trace s2)) by (intros P; by eapply updates_only).
  destruct (dc_manageNodeTopologyLabels (d_config d)).
  - split; [|done]. destruct (if negb ready then nfs else ready); cbn [negb] in Hl.
    + destruct (negb dev); [|by injection Hl as <- <-].
      pose proof (SetNodeLabels_updates d s2 (Hu _)) as Hs3. by rewrite Hl in Hs3.
    + destruct (node_mode _); [|by injection Hl as <- <-].
      pose proof (CleanupNodeLabels_updates d s2 (Hu _)) as Hs3. by rewrite Hl in Hs3.
  - injection Hl as <- <-. split; [apply Hu|]. intros _.
    destruct Hq2 as (new & -> & Hnew). by rewrite app_nil_r.
Qed.
End Probe.

(** ** Starting *)

(** Runs that end in [Q], with calls that satisfy [P]. *)
Definition delivers {W} `{Env W} {V A} (P : entry -> Prop) (Q : result A -> Prop) (m : M (Effects.Run W V) A) : Prop :=
  forall s, exists r s', m s = (r, s') /\ Q r /\ only P (trace s) (trace s').
Definition okay {A} (Q : A -> Prop) (r : result A) : Prop := match r with Ok a => Q a | _ => False end.
Definition no_panic {A} (Q : A -> Prop) (r : result A) : Prop := match r with Ok a => Q a | Err _ => True | Panic => False end.
Section Delivers.
Context {W : Type} `{Env W} {V : Type} (P : entry -> Prop).
Abbreviation run := (Effects.Run W V).
Lemma delivers_ret {A} (Q : result A -> Prop) (a : A) : Q (Ok a) -> delivers (V:=V) P Q (ret a).
Proof. intros Hq s. exists (Ok a), s. by split_and!. Qed.
Lemma delivers_throw {A} (Q : result A -> Prop) e : Q (Err e) -> delivers (V:=V) P Q (throw e).
Proof. intros Hq s. exists (Err e), s. by split_and!. Qed.
Lemma delivers_call e (Q : result (answer e) -> Prop) : (forall a, Q (Ok a)) -> (forall a, P (Did e a)) ->
  delivers (V:=V) P Q (call e).
Proof.
  intros Hq He s. unfold call. destruct (exec e (env s)) as [a w]. eexists _, _. split; [done|]. split; [done|].
  exists [Did e a]. split; [done|]. by constructor.
Qed.
Lemma delivers_bind {A B} (Q : result B -> Prop) (m : M run A) (f : A -> M run B) :
  delivers P (fun r => match r with Ok a => delivers P Q (f a) | Err e => Q (Err e) | Panic => Q Panic end) m ->
  delivers P Q (bind m f).
Proof.
  intros Hm s. destruct (Hm s) as ([a|e|] & s1 & E & Hq & Ho); unfold bind; rewrite E; [|by eauto..].
  destruct (Hq s1) as (r & s2 & E2 & Hr & Ho2). eexists _, _. split; [exact E2|]. split; [done|]. by etransitivity.
Qed.
Lemma delivers_attempt {A} (Q : result (error + A) -> Prop) (m : M run A) :
  delivers P (fun r => match r with Ok a => Q (Ok (inr a)) | Err e => Q (Ok (inl e)) | Panic => Q Panic end) m ->
  delivers P Q (attempt m).
Proof.
  intros Hm s. destruct (Hm s) as ([a|e|] & s1 & E & Hq & Ho); unfold attempt; rewrite E; eauto.
Qed.
Lemma delivers_weaken {A} (Q Q' : result A -> Prop) (m : M run A) :
  delivers P Q m -> (forall r, Q r -> Q' r) -> delivers P Q' m.
Proof. intros Hm HQ s. destruct (Hm s) as (r & s' & E & Hq & Ho). eauto 6. Qed.
End Delivers.
Ltac delivers := repeat first
  [ apply delivers_ret | apply delivers_throw | (apply delivers_call; [|done]; intros ?; cbn beta iota)
  | (apply delivers_bind; cbn beta iota) | (apply delivers_attempt; cbn beta iota)
  | progress cbv zeta | progress cbn beta iota | case_match ].

Section StartTheorems.
Context {W : Type} `{Env W} (api_reader : reader).
(** Not the removal of the leader file. *)
Definition not_removal (e : entry) : Prop := match ev e with OsRemove _ => False | _ => True end.
Definition not_add (e : entry) : Prop := match ev e with KubeAddRunnable => False | _ => True end.
(** Neither that nor the addition of the runnable. *)
Definition starting (e : entry) : Prop := not_removal e /\ not_add e.
Definition election (d : WekaFsDriver) (le : bool) (o : ManagerOptions) : Prop :=
  LeaderElection o = le /\ LeaderElectionReleaseOnCancel o = le /\
  (le = true -> LeaderElectionID o = d_name d +:+ "-controller-leader").

Lemma delivers_isWekaRunning {V} : delivers (V:=V) starting (okay (fun _ => True)) isWekaRunning.
Proof. unfold isWekaRunning, isWekaDriverLoaded, GetFrontendsFromDriver, call_val, of_sum. delivers; done. Qed.
Lemma delivers_initManager {V} d le : delivers (V:=V) starting (no_panic (election d le)) (initManager d le).
Proof.
  unfold initManager, manager_config, manager_options, getOwnNamespace, of_sum.
  destruct le; delivers; try done; repeat split; try done.
Qed.
Lemma delivers_try_manager d le : delivers starting (okay (fun m => forall o, m = Some o -> election d le o)) (try_manager d le).
Proof.
  unfold try_manager. apply delivers_bind, delivers_attempt. eapply delivers_weaken; [apply delivers_initManager|].
  intros [o|e|] Hr; cbn in *; [apply delivers_ret; by intros ? [= <-]|by apply delivers_ret|done].
Qed.
Lemma delivers_CleanupNodeLabels {V} d : delivers (V:=V) starting (okay (fun _ => True)) (CleanupNodeLabels d).
Proof. unfold CleanupNodeLabels, with_node. delivers; done. Qed.
Lemma delivers_NewMounter c : delivers starting (okay (fun _ => True)) (NewMounter c).
Proof.
  unfold NewMounter. destruct (sc_useNfs c); [by apply delivers_ret|].
  destruct (sc_allowNfsFailback c); [|by apply delivers_ret]. apply delivers_bind.
  eapply delivers_weaken; [apply delivers_isWekaRunning|]. intros [b|e|] Hr; cbn in *; [delivers; done|done..].
Qed.
Lemma delivers_readNodeTopologyLabels {V} d m ns :
  delivers (V:=V) starting (okay (fun _ => True)) (readNodeTopologyLabels d m ns).
Proof. unfold readNodeTopologyLabels. delivers; done. Qed.

(** What [Run] starts in a mode. *)
Definition started (d : WekaFsDriver) (r : Started) : Prop :=
  let c := controller_mode (d_csiMode d) in
  (st_loop r = WithLeaderElection <-> c = true /\ is_Some (st_manager r)) /\
  (forall o, st_manager r = Some o -> election d c o) /\
  (is_Some (st_cs r) <-> c = true) /\ (is_Some (st_ns r) <-> node_mode (d_csiMode d) = true).

(** Steps that return are followed by the rest. *)
Lemma delivers_then {V A B} P (Q0 : A -> Prop) (Q : result B -> Prop) (m : M (Effects.Run W V) A) (f : A -> M (Effects.Run W V) B) :
  delivers P (okay Q0) m -> (forall a, Q0 a -> delivers P Q (f a)) -> delivers P Q (bind m f).
Proof.
  intros Hm Hf. apply delivers_bind. eapply delivers_weaken; [exact Hm|]. intros [a|e|] Hr; cbn in Hr; [by apply Hf|done..].
Qed.
Lemma delivers_start_services d : delivers starting (okay (started d)) (start_services api_reader d).
Proof.
  unfold start_services, started. eapply delivers_then; [apply delivers_NewMounter|]. intros mounter _.
  destruct (d_csiMode d); cbn [controller_mode node_mode].
  - apply delivers_bind, delivers_ret. cbv zeta. apply delivers_bind. eapply delivers_then with (Q0 := fun _ => True).
    { destruct (dc_manageNodeTopologyLabels _); [apply delivers_CleanupNodeLabels|by apply delivers_ret]. }
    intros _ _. eapply delivers_then; [apply delivers_try_manager|]. intros m Hm.
    eapply delivers_then; [apply delivers_readNodeTopologyLabels|]. intros ns _.
    apply delivers_ret, delivers_ret. cbn. split; [split; [done|by intros []]|]. split; [done|].
    split; split; (done || by eauto || by intros []).
  - eapply delivers_then; [apply delivers_try_manager|]. intros m Hm. cbv zeta. apply delivers_bind, delivers_ret.
    apply delivers_ret. cbn. split; [destruct m; naive_solver|]. split; [done|].
    split; split; (done || by eauto || by intros []).
  - eapply delivers_then; [apply delivers_try_manager|]. intros m Hm. cbv zeta. apply delivers_bind.
    eapply delivers_then with (Q0 := fun _ => True).
    { destruct (dc_manageNodeTopologyLabels _); [apply delivers_CleanupNodeLabels|by apply delivers_ret]. }
    intros _ _. apply delivers_bind, delivers_ret.
    eapply delivers_then; [apply delivers_readNodeTopologyLabels|]. intros ns _.
    apply delivers_ret, delivers_ret. cbn. split; [destruct m; naive_solver|]. split; [done|].
    split; split; (done || by eauto || by intros []).
Qed.

(** The calls of [Run] between the removal of the leader file and its outcome:
    only [manager.Add], which is last, ends the process. *)
Definition run_ends (d : WekaFsDriver) (o : run_outcome) (new : list entry) : Prop :=
  match o with
  | InLoop r => started d r /\
      (st_loop r = WithLeaderElection <-> exists before, new = Did KubeAddRunnable None :: before)
  | Fatal => controller_mode (d_csiMode d) = true /\
      exists e before, new = Did KubeAddRunnable (Some e) :: before
  end.
Lemma run_services d (s : Effects.Run W ApiStore) : exists o s' new,
  bind (start_services api_reader d) (enter_loop (W:=W)) s = (Ok o, s') /\
  trace s' = new ++ trace s /\ Forall not_removal new /\ run_ends d o new.
Proof.
  destruct (delivers_start_services d s) as ([r|e|] & s1 & E & Hr & (new & Ht & Hn)); [|done..].
  assert (Hnr : Forall not_removal new) by (eapply Forall_impl; [exact Hn|]; by intros ? []).
  rewrite (bind_Ok _ _ _ _ _ E). unfold enter_loop. pose proof Hr as (Hl & _). destruct (st_loop r) eqn:El.
  - unfold bind, call. destruct (exec KubeAddRunnable (env s1)) as [[e|] w].
    + eexists Fatal, _, (_ :: new). split; [done|]. split; [cbn; by rewrite Ht|]. split; [by constructor|].
      split; [by apply Hl|]. by eexists _, _.
    + eexists (InLoop r), _, (_ :: new). split; [done|]. split; [cbn; by rewrite Ht|]. split; [by constructor|].
      split; [done|]. split; [eauto|done].
  - exists (InLoop r), s1, new. split; [done|]. split; [done|]. split; [done|].
    split; [done|]. rewrite El. split; [done|]. intros (before & ->). apply Forall_cons in Hn as [[_ []] _].
Qed.

(** (C25) What the driver starts: [Run] gets to its loop in every mode, unless
    it is a controller that got a manager and the manager refuses the runnable,
    which ends the process.  In the loop it has the services of its mode: it
    serves through leader election exactly when it is a controller that got a
    manager, a manager elects exactly in the controller modes, under the lease
    of this driver; a controller removes a stale leader file before anything
    else, a node never removes one. *)
Theorem Run_modes d (s : Effects.Run W ApiStore) : trace s = [] ->
  exists o s' new, driver_Run api_reader d s = (Ok o, s') /\ run_ends d o new /\ Forall not_removal new /\
    if controller_mode (d_csiMode d) then exists a, trace s' = new ++ [Did (OsRemove LeaderReadyFile) a]
    else trace s' = new.
Proof.
  intros Hs. unfold driver_Run. destruct (controller_mode (d_csiMode d)) eqn:Hc.
  - unfold bind at 1 2. unfold call. destruct (exec (OsRemove LeaderReadyFile) (env s)) as [a w]. cbn [ret].
    set (s1 := MkRun _ _ _). destruct (run_services d s1) as (o & s' & new & E & Ht & Hn & Hr).
    exists o, s', new. split; [exact E|]. split; [done|]. split; [done|]. exists a. rewrite Ht. unfold s1. cbn. by rewrite Hs.
  - rewrite (bind_Ok _ _ s tt s eq_refl). destruct (run_services d s) as (o & s' & new & E & Ht & Hn & Hr).
    exists o, s', new. split; [exact E|]. split; [done|]. split; [done|]. by rewrite Ht, Hs, app_nil_r.
Qed.
End StartTheorems.

(** ** Smaller facts *)

(** The cache of the manager keeps what the capacity tracker reads. *)
Lemma strip_keeps_reading pv : read_pv (stripUnnecessaryPVFields pv) = read_pv pv.
Proof. unfold read_pv. cbn. f_equal. by destruct (pvo_CSI pv). Qed.

(** A driver that could be made has a name and a version to answer with. *)
Lemma plugin_info_available version f d : handle version f = inr d ->
  GetPluginInfo (d_name d) (d_version d) = inr (f_driverName f, if bool_decide (version = "") then vendorVersion else version).
Proof.
  unfold handle, NewWekaFsDriver. destruct (GetCsiPluginMode _); [|done].
  repeat case_bool_decide; try done; intros [= <-]; unfold GetPluginInfo; cbn; by rewrite !bool_decide_false.
Qed.
(** Each limit on concurrent requests is the flag of its operation. *)
Lemma concurrency_flags version f :
  let m := dc_maxConcurrencyPerOp (flags_config version f) in
  m !! "CreateVolume" = Some (f_maxConcurrentCreateVolumeReqs f) /\
  m !! "DeleteVolume" = Some (f_maxConcurrentDeleteVolumeReqs f) /\
  m !! "ExpandVolume" = Some (f_maxConcurrentExpandVolumeReqs f) /\
  m !! "CreateSnapshot" = Some (f_maxConcurrentCreateSnapshotReqs f) /\
  m !! "DeleteSnapshot" = Some (f_maxConcurrentDeleteSnapshotReqs f) /\
  m !! "NodePublishVolume" = Some (f_maxConcurrentNodePublishVolumeReqs f) /\
  m !! "NodeUnpublishVolume" = Some (f_maxConcurrentNodeUnpublishVolumeReqs f).
Proof. split_and!; reflexivity. Qed.
(** A standby is healthy; a leader needs its socket, and without NFS the client. *)
Lemma healthz_spec {W} `{Env W} {V} d isLeader proto path (s s' : Effects.Run W V) :
  healthz d isLeader proto path s = (Ok tt, s') -> isLeader = true ->
  Did (NetDial proto path) None ∈ trace s' /\
  (dc_useNfs (d_config d) || dc_allowNfsFailback (d_config d) || dc_isInDevMode (d_config d) = false ->
   exists s1, isWekaRunning s1 = (Ok true, s')).
Proof.
  intros Hr ->. unfold healthz in Hr. unfold bind at 1, call at 1 in Hr.
  destruct (exec (NetDial proto path) (env s)) as [[e|] w]; [done|]. set (s1 := MkRun (obj s) w _) in Hr.
  destruct (dc_useNfs _), (dc_allowNfsFailback _), (dc_isInDevMode _); cbn in Hr |- *;
    try (injection Hr as <-; split; [left|done]).
  destruct (isWekaRunning_total s1) as (b & s2 & E & (new & Ht & _)). rewrite (bind_Ok _ _ _ _ _ E) in Hr.
  destruct b; [|done]. injection Hr as <-. split; [rewrite Ht; set_solver|eauto].
Qed.

(** ** Witnesses *)

Definition demo_flags : Flags := default_flags.
Definition demo_plugin (mode : CsiPluginMode) : WekaFsDriver :=
  MkWekaFsDriver "csi.weka.io" "node-1" "dev" "unix:///csi/csi.sock" 0 "" mode false
    (MkPluginConfig "csi-volumes" "csivol-" "csisnp-" "csisnp-seed-" false false false true true "" false false
       (exclusive_sets []) ∅ (30 * Second) (2 * Second) false true false "" "" "4.1" "" false false false "" true ""
       false false false true).
(** A cluster whose node has one label, without a WEKA client. *)
Definition demo_kube : Env nat := scripted (fun n e =>
  match e return option (answer e) with
  | KubeInClusterConfig | KubeNewForConfig | KubeUpdateNode _ _ | KubeNewManager _ | KubeAddHealthzCheck | KubeAddRunnable => Some None
  | KubeGetNode _ | KubeReadNode _ => Some (inr (Some {["zone" := "a"]}))
  | Getenv name => Some (if bool_decide (name = "POD_NAMESPACE") then "csi" else "")
  | _ => None
  end).
Definition demo_range (m : gmap string string) : list (string * string) := reverse (map_to_list m).
Lemma labels_roundtrip_witness :
  remove_labels (labelsToRemove (demo_plugin CsiModeNode))
    (fst (set_labels (demo_range (labelsToSet (demo_plugin CsiModeNode) "nfs")) {["zone" := "a"; TopologyKeyNode := "x"]})) !! "zone"
  = Some "a".
Proof.
  destruct (labels_roundtrip (demo_plugin CsiModeNode) "nfs" (demo_range (labelsToSet (demo_plugin CsiModeNode) "nfs"))
    {["zone" := "a"; TopologyKeyNode := "x"]} (reverse_Permutation _)) as (_ & _ & Hk).
  rewrite Hk; [vm_compute; reflexivity|]. apply (bool_decide_unpack _). vm_compute. exact I.
Defined.
Definition demo_probe := @Probe nat demo_kube () demo_range (demo_plugin CsiModeNode) (MkRun () 0%nat []).
Lemma Probe_labels_witness : exists s', demo_probe = (Ok true, s') /\ length (trace s') = 6%nat /\
  updates (labels_set (demo_plugin CsiModeNode)) (trace s').
Proof.
  assert (F : fst demo_probe = Ok true /\ length (trace (snd demo_probe)) = 6%nat) by (vm_compute; split; reflexivity).
  pose proof (@Probe_labels nat demo_kube () demo_range (fun m => reverse_Permutation _) (demo_plugin CsiModeNode)
    (MkRun () 0%nat []) (snd demo_probe) true eq_refl) as T.
  fold demo_probe in T. revert F T. generalize demo_probe. intros [r s'] [F1 F2] T. cbn in F1, F2. subst r.
  exists s'. split; [reflexivity|]. split; [exact F2|]. exact (proj1 (proj2 (T eq_refl))).
Defined.
Lemma Run_modes_witness : exists o s' new, @driver_Run nat demo_kube (Reader (fun _ _ => None) (fun _ _ => None))
  (demo_plugin CsiModeAll) (MkRun (MkApiStore ∅ ∅ None) 0%nat []) = (Ok o, s') /\ run_ends (demo_plugin CsiModeAll) o new.
Proof.
  destruct (@Run_modes nat demo_kube (Reader (fun _ _ => None) (fun _ _ => None)) (demo_plugin CsiModeAll)
    (MkRun (MkApiStore ∅ ∅ None) 0%nat []) eq_refl) as (o & s' & new & E & Hr & _). exists o, s', new. exact (conj E Hr).
Defined.
